(* ===== verification/_CoqProject ===== *)
-Q . S2P
Prelude.v
Uint128.v
Int128.v
Bytes.v
Rlp.v
Sha256.v
Merkle.v
Name.v
Time.v
Base58.v
Ecc.v
BlockHeader.v
BlockHeaderState.v
ResourceLimits.v
Authority.v
OrderedIndex.v
ForkDatabase.v
ForkPrune.v
ForkBranches.v
DbPack.v
DbSchema.v
Database.v
DbTable.v
DbUndo.v
DbSession.v
DbIndex.v
Permissions.v
NativeActions.v
Transaction.v
Receipts.v
Controller.v
ContractTables.v
TransactionContext.v
Blocks.v
