(* ===== verification/Prelude.v ===== *)
(** * A verification of the core of eos-go

    eos-go is a Go implementation of an EOSIO node.  This development models the
    deterministic core that every node must compute alike: how values are serialized
    and hashed, how a block header is validated against the state of its chain, which
    block becomes irreversible, which fork is followed, whether signatures satisfy an
    authority, what an account may use, what the native actions and the tables of
    contracts do to the state, and how a block is built, applied, committed, aborted and
    undone.  All paths below are under [src/].

    ** The parts and how they interact

    - [Prelude.v]: integers of fixed width, the exceptions of the source as values
      ([exn], [result]), state with exceptions ([M]), shared lemmas and tactics.
    - [Uint128.v], [Int128.v]: [common/eos_math], two-word integers; used by the
      shares of accounts and by the virtual machine.
    - [Bytes.v]: little-endian words and the variable-length integers of Go's
      [encoding/binary].
    - [Rlp.v]: [crypto/rlp], the encoder and decoder every digest and message goes
      through.  A Go value is a [gval], a Go type a [gtype]; struct tags are kept.
    - [Sha256.v]: [crypto/sha256.go] and the hash function itself, executable.
    - [Merkle.v]: [chain/types/incremental_merkle.go]; the incremental tree is part
      of a header state and is compared with the batch root.
    - [Name.v], [Time.v]: [common/name.go]; [common/time.go] with
      [chain/types/block_timestamp.go].
    - [Base58.v], [Ecc.v]: [crypto/btcsuite/btcutil/base58]; the containers of
      [crypto/ecc] and the texts of signatures.  The hash RIPEMD-160, third-party code, is
      a class with the length of its sum as its law.
    - [BlockHeader.v]: [chain/types/block_header.go], [producer_schedule.go].
    - [BlockHeaderState.v]: [chain/types/block_header_state.go]; [Next] is the
      transition for a received header.  The recovery of a public key, third-party
      code, is an argument.
    - [ResourceLimits.v]: [chain/resource_limits.go] over the stored objects of
      [entity/].
    - [Authority.v]: [chain/types/authority.go], [authority_checker.go]; the callback
      that finds the authority of a permission is an argument, as in the source.
    - [OrderedIndex.v]: [libraries/multiindex/ordered_index], a red-black tree seen
      as its in-order sequence.
    - [ForkDatabase.v]: [chain/fork_database.go], [chain/types/block_state.go]; block
      states live in a heap and are shared by pointer; [ForkPrune.v] and
      [ForkBranches.v] hold the theorems.
    - [DbPack.v]: [database/pack.go] and [unpack.go], the big-endian format of stored
      objects and of index keys.
    - [DbSchema.v]: [database/extract.go] and [keys.go], the struct tags that declare
      indices and the keys an object is stored under.
    - [Database.v]: [database/database.go], [undo_state.go], [session.go] and
      [deque.go].  LevelDB, third-party code, is a class with its documented laws; the
      order in which Go visits a map is another; both have an instance.  [DbTable.v]
      (a table of objects and what it means that the store represents it), [DbUndo.v]
      (what a container must hold so that it can be undone) and [DbSession.v] (the
      theorems) follow.
    - [DbIndex.v]: [database/iterator.go] and [multi_index.go], iterators and bounds of an
      index over the sorted store.
    - [Permissions.v]: [chain/authorization_manager.go] with the stored permissions, links
      and deferred transactions; it calls the checker of [Authority.v].
    - [NativeActions.v]: [chain/eosio_contract.go], the handlers of the eight native
      actions over accounts, permissions and resource usage.
    - [Transaction.v]: [chain/types/transaction.go]; [Receipts.v]: the receipts of
      [chain/types/block.go] and [transaction_metadata.go].  Zlib is a class with its laws.
    - [Controller.v]: of [chain/controller.go] the first state of a chain, the checks of a
      transaction, the block summaries, the operator's lists, the proposal of producers and
      the conditions under which checks are skipped.
    - [ContractTables.v]: the iterator cache of [chain/apply_context.go] and the operations
      of contracts on rows by primary key, with their RAM.
    - [TransactionContext.v]: [chain/transaction_context.go], what a transaction may use
      and is billed, and the timer.
    - [Blocks.v]: the rest of [chain/controller.go] with [pending.go] and
      [maybe_session.go]: blocks from [startBlock] to [CommitBlock] or [AbortBlock], input
      and deferred transactions, irreversible blocks and the switch of forks.  It composes
      the parts above.  Sessions are those of [Database.v], with what they fail to
      restore; how the objects of the program lie in the database is a class
      ([StateStore]) whose law is that they are written by [Insert], [Modify] and
      [Remove]; the execution of actions is an argument.

    ** What the theorems show

    - Arithmetic: the 128-bit types are the integers modulo 2^128; division is
      Euclidean, the square root terminates; the 64 by 64 product is characterised
      exactly, including where it differs from the product.
    - Formats: round trips of serialization, digests, names, keys, block slots and
      block numbers.
    - Merkle: the incremental tree has the batch root for any number of leaves.
    - Header states: [Next] accepts exactly the headers that satisfy a list of
      conditions and returns the state that a reference transition, written field by
      field, describes; an invariant holds along every chain of accepted headers whose
      schedules are of a bounded size; the irreversible block is backed by more than two
      thirds of the producers and does not go back.
    - Fork database: the indices are consistent in every reachable state; a known block
      is refused and a new one added to exactly the contents there were; removal is
      exactly the subtree; pruning ends and leaves nothing old; the head is a best
      block; BFT irreversibility reaches the subtree; branches meet at their lowest
      common ancestor.
    - Authorities: the check refines an inductive definition of satisfaction that
      knows no cache, depth or order; it always returns; it is exact without nested
      accounts; validation is characterised and its sum never wraps.
    - Resource limits: totals are the sums of the accounts' limits; a transaction is
      charged to its accounts exactly, or refused for the share or the block limit it
      exceeds; averages and elastic limits stay in range.
    - State database: objects round trip through the stored format and index keys sort
      as their values; the store implements a table of objects; a session of changes that
      keep a discipline can be undone, two sessions can be joined, a commit drops exactly
      the sessions it names, and the undo stack is numbered without gaps.
    - Permissions and native actions: a transaction that passes the check satisfies, for
      each action, an ancestor of the permission it needs; the chain stays well formed from
      its first state through any native actions; RAM is billed as it is used.
    - Transactions: packed transactions round trip in both compressions; the recovered keys
      are those of the signatures when the cache holds what was recovered for them; no transaction is accepted
      twice; the billed time is within every limit and is the time between the timer's
      pauses.
    - Contract tables: the operations implement maps from primary keys to rows; iterators
      stay valid; searches find the neighbour in the order of the keys; RAM is billed to
      the payer.  Stores are under free keys, and stores and searches are made while the
      iterator cache of the action is not full.
    - Blocks: a block on top of the head is applied, with its own session on top of those
      there were, or that session is undone; an aborted block is undone whatever was pushed
      into it; a switch of forks never touches the sessions below the fork, whether it
      succeeds or is taken back.  The transactions are without extensions, and a panic with
      a message is not caught.
    - Divergences found while modelling are theorems as well: [MulUint64_wrong_product],
      [int128_mul_negative_zero], [rlp_negative_int], [header_is_never_empty],
      [block_timestamp_sec_wraps], [used_key_reported_unused],
      [prune_dangling_iterator], [fetch_branch_missing_ancestor],
      [decode_keeps_old_slice], [undo_stale_index], [undo_modify_remove],
      [undo_reused_key], [undo_ids_not_restored], [modify_accepts_new_id],
      [duplicate_key_accepted], [expiration_index_by_id], [link_cycle_refunds],
      [unlinked_permission_not_deleted], [setcode_empty_panics], [second_delta_lost],
      [cache_ignores_context_free_data], [net_usage_never_refused],
      [inverted_config_valid], [expired_kept_behind], [ninth_table_end],
      [row_33_has_no_iterator], [upperbound_wraps], [table_ram_not_refunded],
      [taken_key_stored], [receipt_digest_ignores_net_usage], and those at the end of
      [Blocks.v].

    ** Recursion and fuel

    Loops are structural where the source counts.  Otherwise they carry fuel, running
    out of it is the exception [OutOfFuel] or is shown not to occur: [Sqrt] 66 rounds
    ([uint128_sqrt_total]); the batch Merkle root as many levels as leaves; the
    pending limits one round per pending object; the authority check as many levels as
    the depth limit ([authority_check_total]); removal, pruning, the BFT traversal and
    the climbs to a common ancestor as many steps as the index has blocks
    ([fork_remove_exact], [fork_prune_result], [fork_bft_irreversible],
    [fork_fetch_branch]); [UndoAll] and [Commit] as many rounds as there are open
    sessions ([undo_stack_invariant], [commit_exact]); a scan of an index one step more
    than it has rows ([index_scan]); the climb from a permission to its ancestors as many
    steps as the id it starts from, since a parent has a smaller one.

    ** Not modelled

    File and network input and output (the files of the block log, loading and saving of
    the fork database, net, http and producer plugins, timers, the opening of the
    databases and the replay of the block log), JSON and most text forms, LevelDB, zlib,
    curve arithmetic and RIPEMD-160 (third-party), the balancing of the red-black trees, the
    virtual machine and its host functions, the execution of actions ([Exec] of the
    transaction and apply contexts, inline and deferred actions), the secondary indices of
    contract tables, the signals of the controller and its read mode IRREVERSIBLE, the
    descriptions of contract ABIs. *)

From Stdlib Require Export ZArith Lia Btauto.
From stdpp Require Export base tactics numbers list gmap strings.
#[global] Open Scope Z_scope.

#[global] Arguments Z.testbit : simpl never.
#[global] Arguments Z.shiftl : simpl never.
#[global] Arguments Z.shiftr : simpl never.
#[global] Arguments Z.land : simpl never.
#[global] Arguments Z.lor : simpl never.
#[global] Arguments Z.pow : simpl never.
#[global] Arguments Z.modulo : simpl never.
#[global] Arguments Z.div : simpl never.
#[global] Arguments Z.eqb !_ !_.
#[global] Arguments Z.ltb !_ !_.
#[global] Arguments Z.leb !_ !_.

(** ** Machine-width integers

    A Go integer of width [w] is a [Z]; every arithmetic operation that can
    leave the range is followed by the wrap-around of its type, written with
    the conversion of the same name as in the source. *)

Definition uwrap (w z : Z) : Z := z mod 2 ^ w.
Definition swrap (w z : Z) : Z := (z + 2 ^ (w - 1)) mod 2 ^ w - 2 ^ (w - 1).

Abbreviation u8 := (uwrap 8).
Abbreviation u16 := (uwrap 16).
Abbreviation u32 := (uwrap 32).
Abbreviation u64 := (uwrap 64).
Abbreviation i64 := (swrap 64).

Definition in_u (w z : Z) : Prop := 0 <= z < 2 ^ w.
Definition in_s (w z : Z) : Prop := - 2 ^ (w - 1) <= z < 2 ^ (w - 1).

#[global] Instance in_u_dec w z : Decision (in_u w z).
Proof. unfold in_u. apply _. Defined.
#[global] Instance in_s_dec w z : Decision (in_s w z).
Proof. unfold in_s. apply _. Defined.

Lemma uwrap_range w z : 0 <= w -> in_u w (uwrap w z).
Proof. intros. apply Z.mod_pos_bound. apply Z.pow_pos_nonneg; lia. Qed.

Lemma uwrap_id w z : in_u w z -> uwrap w z = z.
Proof. apply Z.mod_small. Qed.

Lemma uwrap_idemp w z : uwrap w (uwrap w z) = uwrap w z.
Proof. apply Zmod_mod. Qed.

Lemma swrap_range w z : 0 < w -> in_s w (swrap w z).
Proof.
  intros. unfold swrap, in_s.
  pose proof (Z.mod_pos_bound (z + 2 ^ (w - 1)) (2 ^ w) ltac:(apply Z.pow_pos_nonneg; lia)).
  assert (2 ^ w = 2 * 2 ^ (w - 1)) by (rewrite <- Z.pow_succ_r by lia; f_equal; lia). lia.
Qed.

Lemma swrap_id w z : 0 < w -> in_s w z -> swrap w z = z.
Proof.
  intros ? []. unfold swrap.
  assert (2 ^ w = 2 * 2 ^ (w - 1)) by (rewrite <- Z.pow_succ_r by lia; f_equal; lia).
  rewrite Z.mod_small; lia.
Qed.

Lemma i64_small z : - 2 ^ 63 <= z < 2 ^ 63 -> i64 z = z.
Proof. intros. by apply swrap_id. Qed.

Lemma swrap_uwrap w z : swrap w (uwrap w z) = swrap w z.
Proof. unfold swrap, uwrap. by rewrite Zplus_mod_idemp_l. Qed.

(** A value known up to a multiple of the modulus and inside the range is the
    wrapped value: the way overflow is eliminated in the proofs. *)
Lemma mod_unique_pos m a r k : 0 <= r < m -> a = m * k + r -> a mod m = r.
Proof. intros ? ->. symmetry. apply (Z.mod_unique _ _ k); lia. Qed.

(** [norm_pow] turns the powers of two of the goal and hypotheses into numerals,
    so that [lia] can use them. *)
Ltac norm_pow :=
  repeat match goal with
  | |- context [2 ^ ?n] =>
      let n' := eval vm_compute in n in
      let v := eval vm_compute in (2 ^ n') in
      lazymatch v with Z.pos _ => change (2 ^ n) with v end
  | H : context [2 ^ ?n] |- _ =>
      let n' := eval vm_compute in n in
      let v := eval vm_compute in (2 ^ n') in
      lazymatch v with Z.pos _ => change (2 ^ n) with v in H end
  end.

Ltac word_lia := unfold uwrap, swrap, in_u, in_s in *; norm_pow; Z.div_mod_to_equations; lia.

(** Evaluates the decision procedure of a closed proposition. *)
Ltac by_decide := refine (bool_decide_eq_true_1 _ _); vm_compute; reflexivity.

Create HintDb word.
#[export] Hint Resolve uwrap_range swrap_range : word.
#[export] Hint Extern 1 (_ <= _) => lia : word.
#[export] Hint Extern 1 (_ < _) => lia : word.

(** ** Bits

    [bits] proves an equation between integers bit by bit. *)

Lemma testbit_uwrap w z i :
  0 <= w -> Z.testbit (uwrap w z) i = (i <? w) && Z.testbit z i.
Proof.
  intros. unfold uwrap. destruct (Z.ltb_spec i w); simpl.
  - apply Z.mod_pow2_bits_low; lia.
  - apply Z.mod_pow2_bits_high; lia.
Qed.

Lemma testbit_above w z i : in_u w z -> 0 <= w <= i -> Z.testbit z i = false.
Proof.
  intros. rewrite <- (uwrap_id w z), testbit_uwrap by (auto; lia).
  destruct (Z.ltb_spec i w); [lia|done].
Qed.

Lemma in_u_testbit w z :
  0 <= w -> 0 <= z -> (forall i, w <= i -> Z.testbit z i = false) -> in_u w z.
Proof.
  intros Hw Hz H. assert (z = uwrap w z) as ->; [|auto with word].
  apply Z.bits_inj'; intros i Hi. rewrite testbit_uwrap by lia.
  destruct (Z.ltb_spec i w); simpl; auto.
Qed.

Lemma in_u_land w a b : 0 <= w -> in_u w a -> 0 <= b -> in_u w (Z.land a b).
Proof.
  intros. apply in_u_testbit; [done|apply Z.land_nonneg; unfold in_u in *; lia|].
  intros. rewrite Z.land_spec, (testbit_above w a) by (auto; lia). done.
Qed.

Lemma in_u_lor w a b : 0 <= w -> in_u w a -> in_u w b -> in_u w (Z.lor a b).
Proof.
  intros. apply in_u_testbit; [done|apply Z.lor_nonneg; unfold in_u in *; lia|].
  intros. by rewrite Z.lor_spec, (testbit_above w a), (testbit_above w b) by (auto; lia).
Qed.

Lemma testbit_shiftl_1 i j : 0 <= i -> Z.testbit (Z.shiftl 1 i) j = (i =? j).
Proof.
  intros. rewrite Z.shiftl_1_l. apply Z.pow2_bits_eqb. lia.
Qed.

(** The test [x & (1 << i) != 0] of the source reads bit [i]. *)
Lemma land_shiftl_1_neq0 x i :
  0 <= i -> negb (Z.land x (Z.shiftl 1 i) =? 0) = Z.testbit x i.
Proof.
  intros Hi. destruct (Z.testbit x i) eqn:E.
  - destruct (Z.eqb_spec (Z.land x (Z.shiftl 1 i)) 0) as [H|]; [|done].
    assert (Z.testbit (Z.land x (Z.shiftl 1 i)) i = false) by (rewrite H; apply Z.bits_0).
    rewrite Z.land_spec, E, testbit_shiftl_1, Z.eqb_refl in * by lia. done.
  - destruct (Z.eqb_spec (Z.land x (Z.shiftl 1 i)) 0) as [H|H]; [done|].
    exfalso. apply H. apply Z.bits_inj'; intros j Hj.
    rewrite Z.land_spec, testbit_shiftl_1, Z.bits_0 by lia.
    destruct (Z.eqb_spec i j); subst; [by rewrite E|apply andb_false_r].
Qed.

#[export] Hint Rewrite Z.land_spec Z.lor_spec Z.lxor_spec Z.ldiff_spec Z.bits_0 : bits.
#[export] Hint Rewrite Z.shiftl_spec Z.shiftr_spec testbit_uwrap testbit_shiftl_1 using lia : bits.

Ltac bits :=
  apply Z.bits_inj';
  let i := fresh "i" in let Hi := fresh "Hi" in
  intros i Hi; autorewrite with bits; try btauto.

(** Bitwise or of values with disjoint bits is addition. *)
Lemma lor_add_disjoint a b : Z.land a b = 0 -> Z.lor a b = a + b.
Proof. intros H. rewrite <- Z.lxor_lor by done. symmetry. by apply Z.add_nocarry_lxor. Qed.

Lemma lor_shiftl_add w a b : 0 <= w -> in_u w a -> Z.lor a (Z.shiftl b w) = a + 2 ^ w * b.
Proof.
  intros ? Ha. rewrite lor_add_disjoint.
  - rewrite Z.shiftl_mul_pow2 by lia. lia.
  - bits. destruct (Z.ltb_spec i w).
    + rewrite (Z.testbit_neg_r b) by lia. apply andb_false_r.
    + by rewrite (testbit_above w a) by (auto; lia).
Qed.

(** ** Go results

    [EosAssert] and [EosThrow] raise one of the exceptions of package
    [exception]; the run-time panics of Go are the last constructors.  A
    function that can raise returns a [result]. *)

Inductive exn : Type :=
| NameTypeException | AssetTypeException | SymbolTypeException
| OverflowException | UnderflowException | ParseErrorException
| BlockValidateException | UnlinkableBlockException | WrongProducer
| ProducerScheduleException | ProducerDoubleConfirm | ProducerNotInSchedule
| WrongSigningKey | ForkDatabaseException | ForkDbBlockNotFound
| ResourceLimitException | TxCpuUsageExceeded | TxNetUsageExceeded
| BlockResourceExhausted | TransactionException | RamUsageExceeded
| RateLimitingStateInconsistent | PermissionQueryException
| InvalidPermission | ActionValidateException | IrrelevantAuthException
| UnlinkableMinPermissionAction | UnsatisfiedAuthorization | MissingAuthException
| TxNotFound | TxIrrelevantSig | TxDuplicate | TxDuplicateSig | TxNoAction | TxNoAuths
| ExpiredTxException | TxExpTooFarException | InvalidRefBlockException | UnsupportedFeature
| AccountNameExistsException | AccountQueryException
| InvalidContractVmType | InvalidContractVmVersion | SetExactCode
| BlockNetUsageExceeded | GreylistNetUsageExceeded | BlockCpuUsageExceeded
| GreylistCpuUsageExceeded | DeadlineException | LeewayDeadlineException
| KeyBlacklistException | ActorWhitelistException | ActorBlacklistException
| ContractWhitelistException | ContractBlacklistException | ActionBlacklistException
| InvalidTableIterator | TableAccessViolation | TableOperationNotPermitted
| TableNotInCache | InvalidTablePayer | WasmExecutionError
| SubjectiveBlockProductionException | DeferredTxDuplicate | CfaInsideGeneratedTx
| TxTooBig | TransactionTypeException | UnknownTransactionCompression
| DatabaseException
| UnknownBlockException | ReversibleBlocksException | ActionNotFoundException
| BlockLogException | BlockLogAppendFail | BlockLogUnsupportedVersion
| AssertException | OutOfFuel
| RlpError                        (** an [error] value of package [rlp] *)
| MissingObject                   (** a database object the source only logs as missing *)
| SignatureError                  (** the [error] value of a failed key recovery, thrown *)
| ErrNoID | ErrBadType | ErrIdNoSort | ErrTagInvalid | ErrStructPtrNeeded
| ErrPtrNeeded | ErrNotFound | ErrUnPointer | ErrTypeMismatch
                                  (** the [error] values of package [database] *)
| ErrMessage                      (** an [error] made with a message of its own *)
| GoPanic                         (** a call of [panic] with a message *)
| IndexOutOfRange | DivideByZero | NilDereference | SliceOutOfRange
| InterfaceConversion             (** a failed type assertion *).

#[global] Instance exn_eq_dec : EqDecision exn.
Proof. solve_decision. Defined.

Inductive result (A : Type) : Type :=
| Ok (a : A)
| Throw (e : exn).
Arguments Ok {A} _.
Arguments Throw {A} _.

#[global] Instance result_ret : MRet result := @Ok.
#[global] Instance result_bind : MBind result :=
  fun A B f m => match m with Ok a => f a | Throw e => Throw e end.

(** [EosAssert(c, &E{}, ...)] *)
Definition EosAssert (c : bool) (e : exn) : result unit := if c then Ok tt else Throw e.

Lemma EosAssert_bind {A} c e (k : unit -> result A) :
  (EosAssert c e ≫= k) = if c then k tt else Throw e.
Proof. by destruct c. Qed.

Lemma Ok_bind {A B} (a : A) (k : A -> result B) : (Ok a ≫= k) = k a.
Proof. reflexivity. Qed.

Lemma bind_Ok {A B} (m : result A) (k : A -> result B) b :
  (m ≫= k) = Ok b <-> exists a, m = Ok a /\ k a = Ok b.
Proof. destruct m; simpl; split; [eauto|intros (?&?&?); congruence|done|intros (?&?&?); done]. Qed.

Lemma EosAssert_Ok c e u : EosAssert c e = Ok u <-> c = true.
Proof. destruct c, u; simpl; naive_solver. Qed.

(** [l[i]] of a Go slice: a run-time panic outside the bounds. *)
Definition index {A} (l : list A) (i : Z) : result A :=
  if i <? 0 then Throw IndexOutOfRange
  else match l !! Z.to_nat i with Some a => Ok a | None => Throw IndexOutOfRange end.

Lemma insert_middle {A} (l1 : list A) x y l2 : <[length l1 := y]> (l1 ++ x :: l2) = l1 ++ y :: l2.
Proof. by rewrite insert_app_r_alt, Nat.sub_diag by lia. Qed.

Definition is_ok {A} (m : result A) : bool := match m with Ok _ => true | Throw _ => false end.

(** ** Sums over finite maps *)

Section Sums.
Context `{Countable K} {A : Type} (g : K -> A -> Z).

Definition sum_map (l : gmap K A) : Z := map_fold (fun k v acc => g k v + acc) 0 l.

Lemma sum_delete l k v : l !! k = Some v -> sum_map l = g k v + sum_map (delete k l).
Proof.
  intros Hk. unfold sum_map. rewrite (map_fold_delete_L _ _ k v l); [done| |done]. intros. lia.
Qed.

Lemma sum_update l k v v' : l !! k = Some v -> sum_map (<[k := v']> l) = sum_map l - g k v + g k v'.
Proof.
  intros Hk. rewrite (sum_delete l k v Hk), (sum_delete _ k v') by apply lookup_insert_eq.
  rewrite delete_insert_eq. lia.
Qed.

Lemma sum_insert l k v : l !! k = None -> sum_map (<[k := v]> l) = g k v + sum_map l.
Proof. intros Hk. by rewrite (sum_delete _ k v), delete_insert_id by (done || apply lookup_insert_eq). Qed.

Lemma sum_nonneg l : (forall k v, 0 <= g k v) -> 0 <= sum_map l.
Proof.
  intros Hg. unfold sum_map. apply (map_fold_weak_ind (fun r _ => 0 <= r)); [lia|].
  intros k v m r _ Hr. specialize (Hg k v). lia.
Qed.

Lemma sum_zero l : (forall k v, l !! k = Some v -> g k v = 0) -> sum_map l = 0.
Proof.
  induction l as [|k v l Hk IH] using map_ind; intros Hg; [done|]. rewrite sum_insert by done.
  rewrite (Hg k v) by apply lookup_insert_eq. rewrite IH; [done|].
  intros k' v' Hk'. apply Hg. rewrite lookup_insert_ne; [done|congruence].
Qed.

End Sums.

Lemma sum_mono `{Countable K} {A} (g g' : K -> A -> Z) (l : gmap K A) : (forall k v, g k v <= g' k v) -> sum_map g l <= sum_map g' l.
Proof.
  intros Hg. induction l as [|k v l Hk IH] using map_ind; [done|].
  rewrite (sum_delete g _ k v), (sum_delete g' _ k v), !delete_insert_id by (done || apply lookup_insert_eq).
  specialize (Hg k v). lia.
Qed.

(** Compares two closed terms by evaluation, without printing their normal forms. *)
Ltac by_eval := match goal with |- _ = ?b => vm_cast_no_check (eq_refl b) end.

(** ** Stateful Go code

    A method with a pointer receiver transforms the state it points to; an
    exception leaves the writes made before it in place. *)

Definition M (S A : Type) : Type := S -> S * result A.

#[global] Instance M_ret {S} : MRet (M S) := fun A a s => (s, Ok a).
#[global] Instance M_bind {S} : MBind (M S) :=
  fun A B f m s => match m s with (s', Ok a) => f a s' | (s', Throw e) => (s', Throw e) end.

Definition get {S} : M S S := fun s => (s, Ok s).
Definition put {S} (s : S) : M S unit := fun _ => (s, Ok tt).
Definition modify {S} (f : S -> S) : M S unit := fun s => (f s, Ok tt).
Definition lift {S A} (m : result A) : M S A := fun s => (s, m).
Definition assertM {S} (c : bool) (e : exn) : M S unit := lift (EosAssert c e).

Lemma run_bind {S A B} (m : M S A) (k : A -> M S B) s s' b :
  (m ≫= k) s = (s', Ok b) <-> exists s1 a, m s = (s1, Ok a) /\ k a s1 = (s', Ok b).
Proof.
  unfold mbind, M_bind. destruct (m s) as [s1 [a|e]]; split; [eauto|intros (? & ? & ? & ?); by simplify_eq|done|].
  intros (? & ? & ? & ?). by simplify_eq.
Qed.

Lemma run_assert {S} c e (s s' : S) u : assertM c e s = (s', Ok u) <-> c = true /\ s' = s.
Proof. unfold assertM, lift, EosAssert. destruct c, u; naive_solver. Qed.

Lemma run_get {S} (s s' a : S) : get s = (s', Ok a) <-> s' = s /\ a = s.
Proof. unfold get. naive_solver. Qed.

Lemma run_modify {S} f (s s' : S) u : modify f s = (s', Ok u) <-> s' = f s.
Proof. unfold modify. destruct u. naive_solver. Qed.

Lemma run_lift {S A} m (s s' : S) (a : A) : lift m s = (s', Ok a) <-> s' = s /\ m = Ok a.
Proof. unfold lift. naive_solver. Qed.

Lemma run_ret {S A} (a b : A) (s s' : S) : (mret a : M S A) s = (s', Ok b) <-> s' = s /\ b = a.
Proof. unfold mret, M_ret. naive_solver. Qed.

(** Inverts the successful run of a stateful computation, one step at a time. *)
Ltac run_step H :=
  lazymatch type of H with
  | mbind _ _ _ = (_, Ok _) =>
      let s1 := fresh "s" in let a := fresh "a" in let H1 := fresh "Hr" in
      apply run_bind in H as (s1 & a & H1 & H); try run_step H1
  | assertM _ _ _ = (_, Ok _) => apply run_assert in H as [H ->]
  | get _ = (_, Ok _) => apply run_get in H as [-> ->]
  | modify _ _ = (_, Ok _) => apply run_modify in H; try subst
  | lift _ _ = (_, Ok _) => apply run_lift in H as [-> H]
  | mret _ _ = (_, Ok _) => apply run_ret in H as [-> H]; try subst
  end.

(** Inverts the successful run of a computation, one bind at a time. *)
Ltac inv_ok :=
  repeat match goal with
  | H : Ok _ = Ok _ |- _ => injection H as H; try subst
  | H : Throw _ = Ok _ |- _ => discriminate H
  | H : Ok _ = Throw _ |- _ => discriminate H
  | H : mbind _ _ = Ok _ |- _ =>
      let a := fresh "a" in let H1 := fresh "Hm" in let H2 := fresh "Hk" in
      apply bind_Ok in H as (a & H1 & H2)
  | H : EosAssert _ _ = Ok _ |- _ => apply EosAssert_Ok in H
  end.
