(* ===== verification/Uint128.v ===== *)
(** * Uint128: the 128-bit unsigned integers of [common/eos_math/uint128.go]

    The pair of 64-bit halves and the operations on it, as the resource
    accounting and the contract intrinsics use them.  The theorems relate each
    operation to the mathematical integer [val]. *)

From S2P Require Import Prelude.

Record Uint128 : Type := mkUint128 { Low : Z; High : Z }.

#[global] Instance Uint128_eq_dec : EqDecision Uint128.
Proof. solve_decision. Defined.

Definition MaxUint64 : Z := 2 ^ 64 - 1.

(** ** Operations *)

Definition IsZero (u : Uint128) : bool := (Low u =? 0) && (High u =? 0).

(** A negative argument prints an error and gives zero. *)
Definition CreateUint128 (i : Z) : Uint128 :=
  if 0 <=? i then mkUint128 (u64 i) 0 else mkUint128 0 0.

Definition GetAt (u : Uint128) (i : Z) : bool :=
  if i <? 64 then negb (Z.land (Low u) (u64 (Z.shiftl 1 i)) =? 0)
  else negb (Z.land (High u) (u64 (Z.shiftl 1 (i - 64))) =? 0).

Definition set_word (x i b : Z) : Z :=
  let x := if b =? 1 then Z.lor x (u64 (Z.shiftl 1 i)) else x in
  if b =? 0 then Z.land x (u64 (MaxUint64 - u64 (Z.shiftl 1 i))) else x.

Definition Set_ (u : Uint128) (i b : Z) : Uint128 :=
  if i <? 64 then mkUint128 (set_word (Low u) i b) (High u)
  else mkUint128 (Low u) (set_word (High u) (i - 64) b).

Definition MaxUint128 : Uint128 := mkUint128 MaxUint64 MaxUint64.
Definition MinUint128 : Uint128 := mkUint128 0 0.

Definition LeftShift (u : Uint128) : Uint128 :=
  let u' := mkUint128 (u64 (Z.shiftl (Low u) 1)) (u64 (Z.shiftl (High u) 1)) in
  if GetAt u 63 then Set_ u' 64 1 else u'.

Definition LeftShifts (u : Uint128) (shift : Z) : Uint128 := Nat.iter (Z.to_nat shift) LeftShift u.

Definition RightShift (u : Uint128) : Uint128 :=
  let u' := mkUint128 (Z.shiftr (Low u) 1) (Z.shiftr (High u) 1) in
  if GetAt u 64 then Set_ u' 63 1 else u'.

Definition RightShifts (u : Uint128) (shift : Z) : Uint128 := Nat.iter (Z.to_nat shift) RightShift u.

Definition Compare (u v : Uint128) : Z :=
  if High v <? High u then 1
  else if High u <? High v then -1
  else if Low v <? Low u then 1
  else if Low u <? Low v then -1
  else 0.

Definition And_ (u v : Uint128) : Uint128 :=
  mkUint128 (Z.land (Low u) (Low v)) (Z.land (High u) (High v)).
Definition Or_ (u v : Uint128) : Uint128 :=
  mkUint128 (Z.lor (Low u) (Low v)) (Z.lor (High u) (High v)).

Definition Add (u v : Uint128) : Uint128 :=
  let high := if u64 (Low u + Low v) <? Low u
              then u64 (High u + u64 (High v + 1))
              else u64 (High u + High v) in
  mkUint128 (u64 (Low u + Low v)) high.

(** [Sub] below zero prints a message and wraps around. *)
Definition Sub (u v : Uint128) : Uint128 :=
  if Low v <=? Low u
  then mkUint128 (u64 (Low u - Low v)) (u64 (High u - High v))
  else mkUint128 (u64 (Low u + u64 (u64 (MaxUint64 - Low v) + 1)))
                 (u64 (High u - u64 (High v + 1))).

(** The 64 by 64 bit product.  In Go [>>] and [*] have the same precedence, so
    the line for [specialH] reads [((uH + uL) >> 1 * (vH + vL)) >> 1]. *)
Definition MulUint64 (u v : Z) : Uint128 :=
  let uH := Z.shiftr u 32 in
  let vH := Z.shiftr v 32 in
  let uL := Z.shiftr (u64 (Z.shiftl u 32)) 32 in
  let vL := Z.shiftr (u64 (Z.shiftl v 32)) 32 in
  let mulH := u64 (uH * vH) in
  let mulL := u64 (uL * vL) in
  let mulHL := u64 (u64 (u64 (u64 (uH + uL) * u64 (vH + vL)) - mulH) - mulL) in
  let mixH := Z.shiftr mulHL 32 in
  let mixL := u64 (Z.shiftl (Z.shiftr (u64 (Z.shiftl mulHL 32)) 32) 32) in
  let specialH := Z.shiftr (u64 (Z.shiftr (u64 (uH + uL)) 1 * u64 (vH + vL))) 1 in
  let specialH := u64 (Z.shiftl (Z.shiftr specialH 62) 32) in
  if u64 (mulL + mixL) <? mulL
  then mkUint128 (u64 (mulL + mixL)) (u64 (u64 (u64 (mulH + mixH) + 1) + specialH))
  else mkUint128 (u64 (mulL + mixL)) (u64 (u64 (mulH + mixH) + specialH)).

Definition Mul (u v : Uint128) : Uint128 :=
  let Product := MulUint64 (Low u) (Low v) in
  let tmp1 := Low (MulUint64 (High u) (Low v)) in
  let tmp2 := Low (MulUint64 (Low u) (High v)) in
  let tmp := Add (mkUint128 0 tmp1) (mkUint128 0 tmp2) in
  Add Product tmp.

(** One round of the shift-and-subtract loop of [Div], for bit [127 - i]. *)
Definition Div_step (u divisor : Uint128) (i : Z) (qr : Uint128 * Uint128) : Uint128 * Uint128 :=
  let Remainder := LeftShift qr.2 in
  let Quotient := LeftShift qr.1 in
  let Remainder := if GetAt u (127 - i)
                   then mkUint128 (u64 (Low Remainder + 1)) (High Remainder) else Remainder in
  if 0 <=? Compare Remainder divisor
  then (mkUint128 (u64 (Low Quotient + 1)) (High Quotient), Sub Remainder divisor)
  else (Quotient, Remainder).

Fixpoint Div_loop (u divisor : Uint128) (n : nat) : Uint128 * Uint128 :=
  match n with
  | O => (mkUint128 0 0, mkUint128 0 0)
  | S n' => Div_step u divisor (Z.of_nat n') (Div_loop u divisor n')
  end.

(** A zero divisor prints a message and the loop runs all the same. *)
Definition Div (u divisor : Uint128) : Uint128 * Uint128 := Div_loop u divisor 128.

(** The bisection of [Sqrt]; [fuel] bounds the rounds. *)
Fixpoint Sqrt_loop (fuel : nat) (u : Uint128) (max min m : Z) : option Z :=
  match fuel with
  | O => None
  | S fuel' =>
      let product := MulUint64 m m in
      if Compare u product =? 0 then Some m
      else
        let min' := if 0 <? Compare u product then m else min in
        let max' := if Compare u product <? 0 then m else max in
        let m' := Low (RightShift (Add (mkUint128 max' 0) (mkUint128 min' 0))) in
        if (max' =? m') || (min' =? m') then Some m'
        else Sqrt_loop fuel' u max' min' m'
  end.

Definition Sqrt (u : Uint128) : option Z :=
  if IsZero u then Some 0
  else Sqrt_loop 66 u MaxUint64 1 (u64 (Z.shiftr MaxUint64 1 + 1)).

(** ** Meaning *)

Definition wf (u : Uint128) : Prop := in_u 64 (Low u) /\ in_u 64 (High u).
Definition val (u : Uint128) : Z := Low u + 2 ^ 64 * High u.
Definition of_Z (z : Z) : Uint128 := mkUint128 (z mod 2 ^ 64) (z / 2 ^ 64 mod 2 ^ 64).

Lemma val_range u : wf u -> in_u 128 (val u).
Proof. destruct u; unfold wf, val; simpl; intros []. word_lia. Qed.

Lemma val_inj u v : wf u -> wf v -> val u = val v -> u = v.
Proof. destruct u, v; unfold wf, val; simpl; intros [] [] ?. f_equal; word_lia. Qed.

Lemma wf_of_Z z : wf (of_Z z).
Proof. split; apply uwrap_range; lia. Qed.

Lemma val_of_Z z : val (of_Z z) = z mod 2 ^ 128.
Proof. unfold val, of_Z; simpl. word_lia. Qed.

Lemma val_small l : in_u 64 l -> val (mkUint128 l 0) = l.
Proof. unfold val; simpl. lia. Qed.

Lemma wf_small l : in_u 64 l -> wf (mkUint128 l 0).
Proof. split; simpl; [done|word_lia]. Qed.

(** The halves as an or of disjoint bits, for bit reasoning. *)
Lemma val_bits u : wf u -> val u = Z.lor (Low u) (Z.shiftl (High u) 64).
Proof. intros []. by rewrite lor_shiftl_add by (auto; lia). Qed.

Lemma testbit_val u i :
  wf u -> 0 <= i ->
  Z.testbit (val u) i = if i <? 64 then Z.testbit (Low u) i else Z.testbit (High u) (i - 64).
Proof.
  intros Hu Hi. rewrite val_bits by done. autorewrite with bits. destruct Hu as [Hl Hh].
  destruct (Z.ltb_spec i 64).
  - rewrite (Z.testbit_neg_r (High u)) by lia. apply orb_false_r.
  - by rewrite (testbit_above 64 (Low u)) by (auto; lia).
Qed.

Lemma shiftl_1_u64 i : 0 <= i < 64 -> u64 (Z.shiftl 1 i) = Z.shiftl 1 i.
Proof.
  intros. apply uwrap_id. rewrite Z.shiftl_1_l.
  split; [lia|]. apply Z.pow_lt_mono_r; lia.
Qed.

Lemma GetAt_spec u i : wf u -> 0 <= i < 128 -> GetAt u i = Z.testbit (val u) i.
Proof.
  intros. unfold GetAt. rewrite testbit_val by (auto; lia).
  destruct (Z.ltb_spec i 64); rewrite shiftl_1_u64, land_shiftl_1_neq0 by lia; done.
Qed.

Lemma set_word_1 x i : 0 <= i < 64 -> in_u 64 x -> set_word x i 1 = Z.setbit x i.
Proof.
  intros. unfold set_word. simpl. rewrite shiftl_1_u64 by lia.
  by rewrite Z.setbit_spec', Z.shiftl_1_l.
Qed.

Lemma set_word_0 x i : 0 <= i < 64 -> in_u 64 x -> set_word x i 0 = Z.clearbit x i.
Proof.
  intros. unfold set_word. simpl. rewrite shiftl_1_u64 by lia.
  assert (MaxUint64 - Z.shiftl 1 i = Z.ldiff (Z.ones 64) (Z.shiftl 1 i)) as ->.
  { rewrite Z.sub_nocarry_ldiff; [done|]. bits.
    destruct (Z.eqb_spec i i0); subst; [|done].
    unfold MaxUint64. change (2 ^ 64 - 1) with (Z.ones 64). by rewrite Z.ones_spec_low by lia. }
  rewrite Z.clearbit_spec'. bits. rewrite <- Z.shiftl_1_l, testbit_shiftl_1 by lia.
  destruct (Z.ltb_spec i0 64); [rewrite Z.ones_spec_low by lia; btauto|].
  rewrite (testbit_above 64 x) by (auto; lia). done.
Qed.

Lemma setbit_range w x i : 0 <= i < w -> in_u w x -> in_u w (Z.setbit x i).
Proof.
  intros. rewrite Z.setbit_spec'. apply in_u_lor; [lia|done|].
  split; [lia|apply Z.pow_lt_mono_r; lia].
Qed.

Lemma clearbit_range w x i : 0 <= i < w -> in_u w x -> in_u w (Z.clearbit x i).
Proof.
  intros. apply in_u_testbit; [lia|rewrite Z.clearbit_spec'; apply Z.ldiff_nonneg; left; unfold in_u in *; lia|].
  intros. by rewrite Z.clearbit_eqb, (testbit_above w x) by (auto; lia).
Qed.

Lemma Set_wf u i b : wf u -> 0 <= i < 128 -> b = 0 \/ b = 1 -> wf (Set_ u i b).
Proof.
  intros [] ? []; subst; unfold Set_; destruct (Z.ltb_spec i 64); split; simpl;
    rewrite ?set_word_0, ?set_word_1 by (auto; lia);
    auto using setbit_range, clearbit_range with lia.
Qed.

Lemma Set_1_spec u i : wf u -> 0 <= i < 128 -> val (Set_ u i 1) = Z.setbit (val u) i.
Proof.
  intros Hu Hi. pose proof (Set_wf u i 1 Hu Hi (or_intror eq_refl)).
  apply Z.bits_inj'; intros j Hj.
  rewrite Z.setbit_eqb, !testbit_val by (auto; lia). destruct Hu.
  unfold Set_. destruct (Z.ltb_spec i 64); simpl; rewrite set_word_1 by (auto; lia);
    destruct (Z.ltb_spec j 64); rewrite ?Z.setbit_eqb by lia;
    repeat match goal with |- context [?a =? ?b] => destruct (Z.eqb_spec a b) end;
    try lia; try done.
Qed.

Lemma Set_0_spec u i : wf u -> 0 <= i < 128 -> val (Set_ u i 0) = Z.clearbit (val u) i.
Proof.
  intros Hu Hi. pose proof (Set_wf u i 0 Hu Hi (or_introl eq_refl)).
  apply Z.bits_inj'; intros j Hj.
  rewrite Z.clearbit_eqb, !testbit_val by (auto; lia). destruct Hu.
  unfold Set_. destruct (Z.ltb_spec i 64); simpl; rewrite set_word_0 by (auto; lia);
    destruct (Z.ltb_spec j 64); rewrite ?Z.clearbit_eqb by lia;
    repeat match goal with |- context [?a =? ?b] => destruct (Z.eqb_spec a b) end;
    simpl; rewrite ?andb_true_r, ?andb_false_r; try lia; try done.
Qed.

Lemma shift_halves_wf a b : in_u 64 a -> in_u 64 b -> wf (mkUint128 a b).
Proof. by split. Qed.

Lemma shiftr_range w x n : 0 <= n -> in_u w x -> in_u w (Z.shiftr x n).
Proof.
  intros ? []. rewrite Z.shiftr_div_pow2 by lia.
  assert (0 < 2 ^ n) by (apply Z.pow_pos_nonneg; lia).
  split; [by apply Z.div_pos|]. apply Z.div_lt_upper_bound; nia.
Qed.
#[local] Hint Resolve shift_halves_wf shiftr_range : word.

Lemma LeftShift_wf u : wf u -> wf (LeftShift u).
Proof.
  intros. unfold LeftShift. destruct (GetAt u 63); [apply Set_wf|]; auto 6 with word lia.
Qed.

Lemma RightShift_wf u : wf u -> wf (RightShift u).
Proof.
  intros []. unfold RightShift. destruct (GetAt u 64); [apply Set_wf|]; auto 6 with word lia.
Qed.

Lemma if_setbit (c : bool) z i j :
  0 <= i -> Z.testbit (if c then Z.setbit z i else z) j = (c && (i =? j)) || Z.testbit z j.
Proof. intros. destruct c; simpl; [by rewrite Z.setbit_eqb|done]. Qed.

Lemma val_if (c : bool) u v : val (if c then u else v) = if c then val u else val v.
Proof. by destruct c. Qed.

Lemma LeftShift_spec u : wf u -> val (LeftShift u) = (2 * val u) mod 2 ^ 128.
Proof.
  intros Hu. rewrite (Z.mul_comm 2). change 2 with (2 ^ 1) at 1.
  rewrite <- Z.shiftl_mul_pow2 by lia. apply Z.bits_inj'; intros j Hj.
  fold (uwrap 128 (Z.shiftl (val u) 1)). autorewrite with bits.
  unfold LeftShift. rewrite val_if, Set_1_spec by auto with word lia.
  rewrite if_setbit, GetAt_spec by auto with word lia.
  rewrite (testbit_val (mkUint128 _ _)) by auto with word lia. simpl.
  autorewrite with bits.
  destruct (Z.eqb_spec j 0) as [->|].
  { rewrite (Z.testbit_neg_r (Low u)), (Z.testbit_neg_r (val u) (0 - 1)) by lia. simpl. by rewrite andb_false_r. }
  rewrite !testbit_val by (auto; lia).
  destruct (Z.eqb_spec 64 j) as [<-|].
  { simpl. rewrite Z.shiftl_spec_low by lia. change (64 - 1) with 63. btauto. }
  rewrite andb_false_r, orb_false_l.
  destruct (Z.ltb_spec j 64), (Z.ltb_spec (j - 1) 64), (Z.ltb_spec j 128),
    (Z.ltb_spec (j - 64) 64); simpl; try lia; autorewrite with bits; try done.
  destruct (Z.ltb_spec (j - 64) 64); [|lia]. simpl. f_equal. lia.
Qed.

Lemma RightShift_spec u : wf u -> val (RightShift u) = val u / 2.
Proof.
  intros Hu. change (val u / 2) with (val u / 2 ^ 1).
  rewrite <- Z.shiftr_div_pow2 by lia. apply Z.bits_inj'; intros j Hj.
  pose proof Hu as [Hl Hh].
  autorewrite with bits. unfold RightShift.
  rewrite val_if, Set_1_spec by auto with word lia.
  rewrite if_setbit, GetAt_spec, !testbit_val by auto with word lia. simpl.
  autorewrite with bits.
  destruct (Z.eqb_spec 63 j) as [<-|].
  { simpl. rewrite (testbit_above 64 (Low u)) by (auto; lia). change (63 + 1 - 64) with (64 - 64). btauto. }
  rewrite andb_false_r, orb_false_l.
  destruct (Z.ltb_spec j 64), (Z.ltb_spec (j + 1) 64); try lia; autorewrite with bits; try done.
  f_equal. lia.
Qed.

Lemma Compare_spec u v :
  wf u -> wf v ->
  Compare u v = match val u ?= val v with Lt => -1 | Eq => 0 | Gt => 1 end.
Proof.
  destruct u as [l h], v as [l' h']. unfold wf, Compare, val; simpl. intros [] [].
  unfold in_u in *; norm_pow.
  destruct (Z.ltb_spec h' h), (Z.ltb_spec h h'), (Z.ltb_spec l' l), (Z.ltb_spec l l');
    try lia;
    match goal with |- context [?a ?= ?b] => destruct (Z.compare_spec a b) end; lia.
Qed.

Lemma Compare_ge u v : wf u -> wf v -> (0 <=? Compare u v) = (val v <=? val u).
Proof.
  intros. rewrite Compare_spec by done.
  destruct (Z.compare_spec (val u) (val v)), (Z.leb_spec (val v) (val u)); simpl; lia.
Qed.

Lemma Add_wf u v : wf (Add u v).
Proof. unfold Add. destruct (_ <? _); auto with word. Qed.

Lemma Sub_wf u v : wf (Sub u v).
Proof. unfold Sub. destruct (_ <=? _); auto with word. Qed.

Lemma Add_spec u v : wf u -> wf v -> val (Add u v) = (val u + val v) mod 2 ^ 128.
Proof.
  destruct u as [l h], v as [l' h']. unfold wf, Add, val; simpl. intros [] [].
  destruct (Z.ltb_spec (u64 (l + l')) l); word_lia.
Qed.

Lemma Sub_spec u v : wf u -> wf v -> val (Sub u v) = (val u - val v) mod 2 ^ 128.
Proof.
  destruct u as [l h], v as [l' h']. unfold wf, Sub, val, MaxUint64; simpl. intros [] [].
  destruct (Z.leb_spec l' l); simpl; word_lia.
Qed.

(** ** Multiplication

    [MulUint64] adds the four partial products of the 32-bit halves.  The sum of
    the two middle products may need 65 bits; [mul_carry] is that 65th bit and
    [mul_special] is what the code takes it to be. *)

Definition mul_carry (u v : Z) : Z :=
  ((u / 2 ^ 32) * (v mod 2 ^ 32) + (u mod 2 ^ 32) * (v / 2 ^ 32)) / 2 ^ 64.

Definition mul_special (u v : Z) : Z :=
  (((u / 2 ^ 32 + u mod 2 ^ 32) / 2 * (v / 2 ^ 32 + v mod 2 ^ 32)) mod 2 ^ 64) / 2 ^ 63.

Lemma lo32 u : in_u 64 u -> Z.shiftr (u64 (Z.shiftl u 32)) 32 = u mod 2 ^ 32.
Proof.
  intros. rewrite Z.shiftr_div_pow2, Z.shiftl_mul_pow2 by lia. word_lia.
Qed.

Lemma mul_halves_bound a b : 0 <= a < 2 ^ 32 -> 0 <= b < 2 ^ 32 -> 0 <= a * b <= (2 ^ 32 - 1) * (2 ^ 32 - 1).
Proof. intros. norm_pow. nia. Qed.

(** The additions of the code with the partial products as atoms: [P] and [L] the
    outer products, [X] the sum of the middle ones, [s] the correction. *)
Definition mul_assemble (P L X s : Z) : Uint128 :=
  let mixL := 2 ^ 32 * ((X mod 2 ^ 64) mod 2 ^ 32) in
  let mixH := (X mod 2 ^ 64) / 2 ^ 32 in
  if u64 (L + mixL) <? L
  then mkUint128 (u64 (L + mixL)) (u64 (u64 (u64 (P + mixH) + 1) + 2 ^ 32 * s))
  else mkUint128 (u64 (L + mixL)) (u64 (u64 (P + mixH) + 2 ^ 32 * s)).

Lemma mul_assemble_spec P L X s :
  0 <= P < 2 ^ 64 -> 0 <= L < 2 ^ 64 -> 0 <= X < 2 ^ 65 -> 0 <= s <= 1 ->
  val (mul_assemble P L X s) = (2 ^ 64 * P + 2 ^ 32 * X + L + 2 ^ 96 * (s - X / 2 ^ 64)) mod 2 ^ 128.
Proof.
  intros. unfold mul_assemble, val.
  destruct (Z.ltb_spec (u64 (L + 2 ^ 32 * ((X mod 2 ^ 64) mod 2 ^ 32))) L); simpl; word_lia.
Qed.

Lemma mul_assemble_wf P L X s : wf (mul_assemble P L X s).
Proof. unfold mul_assemble. destruct (_ <? _); auto with word. Qed.

Lemma mul_special_range u v : 0 <= mul_special u v <= 1.
Proof.
  unfold mul_special.
  generalize ((u / 2 ^ 32 + u mod 2 ^ 32) / 2 * (v / 2 ^ 32 + v mod 2 ^ 32)); intros x.
  word_lia.
Qed.

Lemma MulUint64_assemble u v :
  in_u 64 u -> in_u 64 v ->
  MulUint64 u v =
    mul_assemble (u / 2 ^ 32 * (v / 2 ^ 32)) (u mod 2 ^ 32 * (v mod 2 ^ 32))
      (u / 2 ^ 32 * (v mod 2 ^ 32) + u mod 2 ^ 32 * (v / 2 ^ 32)) (mul_special u v).
Proof.
  intros Hu Hv. pose proof (mul_special_range u v) as Hs.
  unfold MulUint64, mul_assemble. rewrite !lo32 by done.
  rewrite !(Z.shiftr_div_pow2 u), !(Z.shiftr_div_pow2 v) by lia.
  unfold mul_special in *.
  assert (0 <= u / 2 ^ 32 < 2 ^ 32) as Ha by word_lia.
  assert (0 <= u mod 2 ^ 32 < 2 ^ 32) as Hb by word_lia.
  assert (0 <= v / 2 ^ 32 < 2 ^ 32) as Hc by word_lia.
  assert (0 <= v mod 2 ^ 32 < 2 ^ 32) as Hd by word_lia.
  revert Ha Hb Hc Hd Hs.
  generalize (u / 2 ^ 32) (u mod 2 ^ 32) (v / 2 ^ 32) (v mod 2 ^ 32). clear.
  intros a b c d Ha Hb Hc Hd Hs.
  pose proof (mul_halves_bound a c Ha Hc). pose proof (mul_halves_bound b d Hb Hd).
  rewrite (uwrap_id 64 (a + b)), (uwrap_id 64 (c + d)), (uwrap_id 64 (a * c)),
    (uwrap_id 64 (b * d)) by word_lia.
  assert (u64 (u64 (u64 ((a + b) * (c + d)) - a * c) - b * d) = (a * d + b * c) mod 2 ^ 64) as ->.
  { replace ((a + b) * (c + d)) with (a * c + b * d + (a * d + b * c)) by ring.
    generalize dependent (a * c). generalize dependent (b * d). generalize (a * d + b * c).
    intros. word_lia. }
  set (m := (a * d + b * c) mod 2 ^ 64).
  assert (0 <= m < 2 ^ 64) by (apply Z.mod_pos_bound; word_lia).
  rewrite lo32 by done.
  assert (u64 (Z.shiftl (m mod 2 ^ 32) 32) = 2 ^ 32 * (m mod 2 ^ 32)) as ->.
  { rewrite Z.shiftl_mul_pow2 by lia. word_lia. }
  rewrite (Z.shiftr_div_pow2 m 32), (Z.shiftr_div_pow2 (a + b) 1) by lia.
  change (2 ^ 1) with 2.
  assert (u64 (Z.shiftl (Z.shiftr (Z.shiftr (u64 ((a + b) / 2 * (c + d))) 1) 62) 32)
          = 2 ^ 32 * ((((a + b) / 2 * (c + d)) mod 2 ^ 64) / 2 ^ 63)) as ->; [|done].
  revert Hs. generalize ((a + b) / 2 * (c + d)). intros x Hs.
  rewrite Z.shiftl_mul_pow2, Z.shiftr_shiftr, Z.shiftr_div_pow2 by lia.
  change (1 + 62) with 63. unfold uwrap at 2. rewrite Z.mul_comm. apply uwrap_id. word_lia.
Qed.

Lemma MulUint64_wf u v : in_u 64 u -> in_u 64 v -> wf (MulUint64 u v).
Proof. intros. rewrite MulUint64_assemble by done. apply mul_assemble_wf. Qed.

Lemma split32 u : u = 2 ^ 32 * (u / 2 ^ 32) + u mod 2 ^ 32.
Proof. apply Z.div_mod. lia. Qed.

(** What [MulUint64] computes, on every input. *)
Lemma MulUint64_exact u v :
  in_u 64 u -> in_u 64 v ->
  val (MulUint64 u v) = (u * v + 2 ^ 96 * (mul_special u v - mul_carry u v)) mod 2 ^ 128.
Proof.
  intros Hu Hv. rewrite MulUint64_assemble by done.
  assert (0 <= u / 2 ^ 32 < 2 ^ 32) as Ha by word_lia.
  assert (0 <= u mod 2 ^ 32 < 2 ^ 32) as Hb by word_lia.
  assert (0 <= v / 2 ^ 32 < 2 ^ 32) as Hc by word_lia.
  assert (0 <= v mod 2 ^ 32 < 2 ^ 32) as Hd by word_lia.
  pose proof (mul_special_range u v).
  pose proof (mul_halves_bound _ _ Ha Hc). pose proof (mul_halves_bound _ _ Hb Hd).
  pose proof (mul_halves_bound _ _ Ha Hd). pose proof (mul_halves_bound _ _ Hb Hc).
  rewrite mul_assemble_spec by word_lia. fold (mul_carry u v). f_equal. f_equal.
  rewrite (split32 u) at 5. rewrite (split32 v) at 5. ring.
Qed.

Lemma mul_carry_range u v : in_u 64 u -> in_u 64 v -> 0 <= mul_carry u v <= 1.
Proof.
  intros. unfold mul_carry.
  pose proof (mul_halves_bound (u / 2 ^ 32) (v mod 2 ^ 32) ltac:(word_lia) ltac:(word_lia)).
  pose proof (mul_halves_bound (u mod 2 ^ 32) (v / 2 ^ 32) ltac:(word_lia) ltac:(word_lia)).
  revert H1 H2. generalize (u / 2 ^ 32 * (v mod 2 ^ 32)) (u mod 2 ^ 32 * (v / 2 ^ 32)).
  intros. word_lia.
Qed.

Lemma mul_u64_range u v : in_u 64 u -> in_u 64 v -> in_u 128 (u * v).
Proof. unfold in_u. norm_pow. nia. Qed.

(** The full product is right exactly when the correction equals the carry. *)
Lemma MulUint64_correct_iff u v :
  in_u 64 u -> in_u 64 v -> (val (MulUint64 u v) = u * v <-> mul_special u v = mul_carry u v).
Proof.
  intros Hu Hv. rewrite MulUint64_exact by done.
  pose proof (mul_u64_range u v Hu Hv). pose proof (mul_carry_range u v Hu Hv).
  pose proof (mul_special_range u v).
  split; intros; [|replace (mul_special u v - mul_carry u v) with 0 by lia]; revert H2;
    generalize dependent (u * v); intros; word_lia.
Qed.

(** The condition the resource accounting relies on: the sums of the halves have
    a product of at most 64 bits. *)
Definition halves_small (u v : Z) : Prop :=
  (u / 2 ^ 32 + u mod 2 ^ 32) * (v / 2 ^ 32 + v mod 2 ^ 32) < 2 ^ 64.

Lemma MulUint64_small u v :
  in_u 64 u -> in_u 64 v -> halves_small u v -> val (MulUint64 u v) = u * v.
Proof.
  intros Hu Hv Hs. apply MulUint64_correct_iff; [done..|].
  unfold halves_small, mul_special, mul_carry in *.
  assert (0 <= u / 2 ^ 32) as Ha by word_lia. assert (0 <= u mod 2 ^ 32) as Hb by word_lia.
  assert (0 <= v / 2 ^ 32) as Hc by word_lia. assert (0 <= v mod 2 ^ 32) as Hd by word_lia.
  revert Ha Hb Hc Hd Hs.
  generalize (u / 2 ^ 32) (u mod 2 ^ 32) (v / 2 ^ 32) (v mod 2 ^ 32). clear.
  intros a b c d ???? Hs.
  assert (0 <= (a + b) / 2 * (c + d) < 2 ^ 63).
  { pose proof (Z.mul_div_le (a + b) 2). assert (0 <= (a + b) / 2) by (apply Z.div_pos; lia).
    assert (2 * ((a + b) / 2) * (c + d) <= (a + b) * (c + d)) by nia. norm_pow. nia. }
  rewrite (Z.mod_small _ (2 ^ 64)), !Z.div_small by (norm_pow; nia). done.
Qed.

(** A factor below [2^31] is always safe. *)
Lemma halves_small_window u v : in_u 64 u -> 0 <= v < 2 ^ 31 -> halves_small u v.
Proof.
  intros. unfold halves_small. rewrite (Z.div_small v), (Z.mod_small v) by word_lia.
  assert (0 <= u / 2 ^ 32 + u mod 2 ^ 32 <= 2 * (2 ^ 32 - 1)) by word_lia. norm_pow. nia.
Qed.

Lemma Low_mod u : wf u -> Low u = val u mod 2 ^ 64.
Proof. destruct u; unfold wf, val; simpl. intros []. word_lia. Qed.

(** The low half is always right: a wrong correction is a multiple of [2^96]. *)
Lemma MulUint64_low u v : in_u 64 u -> in_u 64 v -> Low (MulUint64 u v) = (u * v) mod 2 ^ 64.
Proof.
  intros. rewrite Low_mod, MulUint64_exact by auto using MulUint64_wf.
  generalize (u * v) (mul_special u v - mul_carry u v). intros. word_lia.
Qed.

Lemma Mul_exact u v :
  wf u -> wf v ->
  val (Mul u v) =
    (val u * val v + 2 ^ 96 * (mul_special (Low u) (Low v) - mul_carry (Low u) (Low v))) mod 2 ^ 128.
Proof.
  intros [] []. unfold Mul.
  rewrite !MulUint64_low by done.
  rewrite Add_spec, MulUint64_exact by auto using Add_wf, MulUint64_wf.
  rewrite Add_spec by (split; simpl; first [by apply uwrap_range|done]). unfold val; simpl.
  replace ((Low u + 2 ^ 64 * High u) * (Low v + 2 ^ 64 * High v))
    with (Low u * Low v + 2 ^ 64 * (High u * Low v + Low u * High v) + 2 ^ 128 * (High u * High v)) by ring.
  generalize (Low u * Low v) (High u * Low v) (Low u * High v) (High u * High v)
    (2 ^ 96 * (mul_special (Low u) (Low v) - mul_carry (Low u) (Low v))).
  intros. word_lia.
Qed.

Lemma Mul_wf u v : wf (Mul u v).
Proof. apply Add_wf. Qed.

Lemma Mul_spec u v :
  wf u -> wf v -> halves_small (Low u) (Low v) -> val (Mul u v) = (val u * val v) mod 2 ^ 128.
Proof.
  intros Hu Hv Hs. rewrite Mul_exact by done. destruct Hu, Hv.
  replace (mul_special (Low u) (Low v)) with (mul_carry (Low u) (Low v)).
  - f_equal. lia.
  - symmetry. apply MulUint64_correct_iff; [done..|]. by apply MulUint64_small.
Qed.

(** ** Division *)

Lemma val_succ_even u :
  wf u -> val u mod 2 = 0 ->
  wf (mkUint128 (u64 (Low u + 1)) (High u)) /\
  val (mkUint128 (u64 (Low u + 1)) (High u)) = val u + 1.
Proof.
  destruct u as [l h]; unfold wf, val; simpl. intros [] He. rewrite (uwrap_id 64 (l + 1)); word_lia.
Qed.

Lemma shift_in_bit u (b : bool) :
  wf u -> val u < 2 ^ 127 ->
  let s := LeftShift u in
  let r := if b then mkUint128 (u64 (Low s + 1)) (High s) else s in
  wf r /\ val r = 2 * val u + Z.b2z b.
Proof.
  intros Hu Hb s r. pose proof (val_range u Hu).
  assert (wf s) by by apply LeftShift_wf.
  assert (val s = 2 * val u).
  { subst s. rewrite LeftShift_spec by done. apply Z.mod_small. word_lia. }
  subst r. destruct b; simpl; [|split; [done|lia]].
  destruct (val_succ_even s) as [? ->]; [done| |split; [done|lia]].
  rewrite H1, Z.mul_comm. apply Z.mod_mul. lia.
Qed.

Lemma div_pow2_step x k : 0 <= k -> x / 2 ^ k = 2 * (x / 2 ^ (k + 1)) + Z.b2z (Z.testbit x k).
Proof.
  intros. rewrite Z.testbit_spec' by lia. rewrite Z.pow_add_r, <- Z.div_div by lia.
  change (2 ^ 1) with 2. apply Z.div_mod. lia.
Qed.

(** The loop after [n] rounds holds quotient and remainder of the top [n] bits. *)
Definition div_inv (u d : Uint128) (n : nat) (qr : Uint128 * Uint128) : Prop :=
  wf qr.1 /\ wf qr.2 /\ val u / 2 ^ (128 - Z.of_nat n) = val qr.1 * val d + val qr.2
  /\ val qr.2 < val d.

Lemma Div_step_inv u d n qr :
  wf u -> wf d -> 0 < val d -> (n < 128)%nat ->
  div_inv u d n qr -> div_inv u d (S n) (Div_step u d (Z.of_nat n) qr).
Proof.
  intros Hu Hd Hpos Hn (Hq & Hr & Heq & Hlt). destruct qr as [q r]; simpl in *.
  pose proof (val_range u Hu) as Hur. pose proof (val_range q Hq). pose proof (val_range r Hr).
  assert (val u / 2 ^ (128 - Z.of_nat n) < 2 ^ Z.of_nat n) as Hx.
  { apply Z.div_lt_upper_bound; [apply Z.pow_pos_nonneg; lia|].
    rewrite <- Z.pow_add_r by lia. replace (128 - Z.of_nat n + Z.of_nat n) with 128 by lia.
    apply Hur. }
  assert (2 ^ Z.of_nat n <= 2 ^ 127) by (apply Z.pow_le_mono_r; lia).
  assert (val q <= val q * val d) by (unfold in_u in *; nia).
  assert (0 <= val q /\ 0 <= val r) by (unfold in_u in *; lia).
  pose proof (shift_in_bit q false Hq ltac:(lia)) as [Hq' Hvq].
  pose proof (shift_in_bit r (GetAt u (127 - Z.of_nat n)) Hr ltac:(lia)) as [Hr' Hvr].
  unfold Div_step. cbn [fst snd]. cbv zeta in *.
  set (r' := if GetAt u _ then _ else _) in *.
  rewrite GetAt_spec in Hvr by (auto; lia).
  pose proof (div_pow2_step (val u) (127 - Z.of_nat n) ltac:(lia)) as Hstep.
  replace (127 - Z.of_nat n + 1) with (128 - Z.of_nat n) in Hstep by lia.
  unfold div_inv. replace (128 - Z.of_nat (S n)) with (127 - Z.of_nat n) by lia.
  rewrite Compare_ge by done. rewrite Hstep, Heq. simpl in Hvq.
  destruct (Z.leb_spec (val d) (val r')); cbn [fst snd].
  - destruct (val_succ_even (LeftShift q)) as [Hs1 Hs2]; [done| |].
    { rewrite Hvq, Z.add_0_r, Z.mul_comm. apply Z.mod_mul. lia. }
    pose proof (Sub_wf r' d). rewrite Sub_spec, Hs2 by done.
    pose proof (val_range r' Hr'). pose proof (val_range d Hd).
    rewrite Z.mod_small by (unfold in_u in *; lia).
    rewrite Hvq. split_and!; [apply Hs1|done| |];
      destruct (Z.testbit (val u) (127 - Z.of_nat n)); cbn [Z.b2z] in *; lia.
  - split_and!; [done|done|rewrite Hvq|]; cbn [Z.b2z] in *; lia.
Qed.

Lemma Div_loop_inv u d n :
  wf u -> wf d -> 0 < val d -> (n <= 128)%nat -> div_inv u d n (Div_loop u d n).
Proof.
  intros Hu Hd Hpos. induction n as [|n IH]; intros Hn.
  - assert (wf (mkUint128 0 0)) by (split; simpl; word_lia).
    pose proof (val_range u Hu).
    split_and!; [done|done| |done]. simpl. change (val (mkUint128 0 0)) with 0.
    rewrite Z.div_small by done. lia.
  - simpl. apply Div_step_inv; auto with lia.
Qed.

Lemma Div_correct u d :
  wf u -> wf d -> 0 < val d ->
  wf (Div u d).1 /\ wf (Div u d).2 /\
  val (Div u d).1 = val u / val d /\ val (Div u d).2 = val u mod val d.
Proof.
  intros Hu Hd Hpos. destruct (Div_loop_inv u d 128 Hu Hd Hpos ltac:(lia)) as (Hq & Hr & Heq & Hlt).
  change (Div_loop u d 128) with (Div u d) in *.
  change (2 ^ (128 - Z.of_nat 128)) with 1 in Heq. rewrite Z.div_1_r in Heq.
  pose proof (val_range _ Hr) as []. split_and!; [done..| |].
  - apply (Z.div_unique_pos _ _ _ (val (Div u d).2)); lia.
  - apply (Z.mod_unique_pos _ _ (val (Div u d).1)); lia.
Qed.

(** A zero divisor: every comparison succeeds, so the quotient fills with ones
    and the remainder is the dividend. *)
Lemma Div_loop_zero u n :
  wf u -> (n <= 128)%nat ->
  wf (Div_loop u MinUint128 n).1 /\ wf (Div_loop u MinUint128 n).2 /\
  val (Div_loop u MinUint128 n).1 = 2 ^ Z.of_nat n - 1 /\
  val (Div_loop u MinUint128 n).2 = val u / 2 ^ (128 - Z.of_nat n).
Proof.
  intros Hu. pose proof (val_range u Hu) as Hur.
  assert (wf MinUint128) as Hz by (split; simpl; word_lia).
  induction n as [|n IH]; intros Hn.
  { split_and!; [done..|]. simpl. symmetry. by apply Z.div_small. }
  destruct IH as (Hq & Hr & Hvq & Hvr); [lia|]. simpl. destruct (Div_loop _ _ n) as [q r]. simpl in *.
  assert (val r < 2 ^ Z.of_nat n).
  { rewrite Hvr. apply Z.div_lt_upper_bound; [apply Z.pow_pos_nonneg; lia|].
    rewrite <- Z.pow_add_r by lia. replace (128 - Z.of_nat n + Z.of_nat n) with 128 by lia. apply Hur. }
  assert (2 ^ Z.of_nat n <= 2 ^ 127) by (apply Z.pow_le_mono_r; lia).
  pose proof (shift_in_bit q false Hq ltac:(lia)) as [Hq' Hvq'].
  pose proof (shift_in_bit r (GetAt u (127 - Z.of_nat n)) Hr ltac:(lia)) as [Hr' Hvr'].
  unfold Div_step. cbn [fst snd]. cbv zeta in *.
  set (r' := if GetAt u _ then _ else _) in *.
  pose proof (val_range r' Hr') as [? ?].
  rewrite Compare_ge by done. change (val MinUint128) with 0.
  destruct (Z.leb_spec 0 (val r')); [|lia]. cbn [fst snd].
  destruct (val_succ_even (LeftShift q)) as [Hs1 Hs2]; [done| |].
  { rewrite Hvq', Z.add_0_r, Z.mul_comm. apply Z.mod_mul. lia. }
  split_and!; [apply Hs1|apply Sub_wf| |].
  - rewrite Hs2, Hvq', Hvq, Nat2Z.inj_succ, Z.pow_succ_r by lia. simpl. lia.
  - rewrite Sub_spec, Z.sub_0_r, Z.mod_small by done.
    rewrite GetAt_spec in Hvr' by (auto; lia). rewrite Hvr', Hvr.
    replace (128 - Z.of_nat (S n)) with (127 - Z.of_nat n) by lia.
    rewrite (div_pow2_step (val u) (127 - Z.of_nat n)) by lia. repeat f_equal. lia.
Qed.

(** ** Square root *)

Lemma bisect_mid max min :
  in_u 64 max -> in_u 64 min -> Low (RightShift (Add (mkUint128 max 0) (mkUint128 min 0))) = (max + min) / 2.
Proof.
  intros. pose proof (Add_wf (mkUint128 max 0) (mkUint128 min 0)).
  rewrite Low_mod by by apply RightShift_wf.
  rewrite RightShift_spec, Add_spec, !val_small by auto using wf_small. word_lia.
Qed.

(** One round that does not end the loop on an exact square moves one bound. *)
Lemma Sqrt_loop_step fuel u max min :
  in_u 64 max -> in_u 64 min ->
  let m := (max + min) / 2 in
  Compare u (MulUint64 m m) <> 0 ->
  exists max' min',
    (Compare u (MulUint64 m m) < 0 /\ max' = m /\ min' = min \/
     0 < Compare u (MulUint64 m m) /\ max' = max /\ min' = m) /\
    Sqrt_loop (S fuel) u max min m =
      if (max' =? (max' + min') / 2) || (min' =? (max' + min') / 2) then Some ((max' + min') / 2)
      else Sqrt_loop fuel u max' min' ((max' + min') / 2).
Proof.
  intros Hmax Hmin m Hc. assert (in_u 64 m) by (subst m; word_lia).
  exists (if Compare u (MulUint64 m m) <? 0 then m else max),
    (if 0 <? Compare u (MulUint64 m m) then m else min).
  cbn [Sqrt_loop]. rewrite (proj2 (Z.eqb_neq _ _) Hc).
  destruct (Z.ltb_spec (Compare u (MulUint64 m m)) 0), (Z.ltb_spec 0 (Compare u (MulUint64 m m)));
    try lia; (split; [auto|]); by rewrite bisect_mid.
Qed.

Lemma Sqrt_loop_terminates n u max min :
  in_u 64 max -> in_u 64 min -> min <= max -> max - min <= 2 ^ Z.of_nat n ->
  is_Some (Sqrt_loop (S n) u max min ((max + min) / 2)).
Proof.
  revert max min. induction n as [|n IH]; intros max min Hmax Hmin Hle Hd;
    destruct (Z.eq_dec (Compare u (MulUint64 ((max + min) / 2) ((max + min) / 2))) 0) as [E|E];
    try (cbn [Sqrt_loop]; rewrite E; done).
  - destruct (Sqrt_loop_step 0 u max min Hmax Hmin E) as (max' & min' & Hc & ->).
    change (2 ^ Z.of_nat 0) with 1 in Hd.
    destruct (Z.eqb_spec min' ((max' + min') / 2)); [rewrite orb_true_r; done|]. exfalso. word_lia.
  - destruct (Sqrt_loop_step (S n) u max min Hmax Hmin E) as (max' & min' & Hc & ->).
    destruct (_ || _); [done|].
    rewrite Nat2Z.inj_succ, Z.pow_succ_r in Hd by lia.
    apply IH; revert Hd; generalize (2 ^ Z.of_nat n); intros; word_lia.
Qed.

(** The bisection from an interval that contains the root, when the products of
    the visited midpoints are exact. *)
Lemma Sqrt_loop_root n u max min r :
  wf u -> in_u 64 max -> 0 < min -> min < max -> max <= 2 ^ 32 ->
  min * min <= val u < max * max ->
  Sqrt_loop n u max min ((max + min) / 2) = Some r -> r = Z.sqrt (val u).
Proof.
  intros Hu. revert max min. induction n as [|n IH]; intros max min Hmax H0 Hlt Hb Hi Hr; [done|].
  set (m := (max + min) / 2) in *.
  assert (min <= m < max) by (subst m; Z.div_mod_to_equations; lia).
  assert (in_u 64 m) as Hm by word_lia.
  assert (val (MulUint64 m m) = m * m) as Hv.
  { apply MulUint64_small; [done..|]. unfold halves_small.
    rewrite Z.div_small, Z.mod_small by word_lia. norm_pow. nia. }
  assert (Compare u (MulUint64 m m) = match val u ?= m * m with Lt => -1 | Eq => 0 | Gt => 1 end) as Hcmp.
  { rewrite Compare_spec, Hv by auto using MulUint64_wf. done. }
  destruct (Z.eq_dec (Compare u (MulUint64 m m)) 0) as [E|E].
  { cbn [Sqrt_loop] in Hr. rewrite E in Hr. cbn in Hr. injection Hr as <-. rewrite E in Hcmp.
    symmetry. apply Z.sqrt_unique. destruct (Z.compare_spec (val u) (m * m)); nia. }
  destruct (Sqrt_loop_step n u max min Hmax ltac:(word_lia) E) as (max' & min' & Hc & Hs).
  fold m in Hc, Hs. rewrite Hs in Hr. clear Hs.
  assert (min' * min' <= val u < max' * max' /\ min' < max' /\ 0 < min' /\ max' <= max) as (?&?&?&?).
  { destruct (Z.compare_spec (val u) (m * m)); destruct Hc as [(?&->&->)|(?&->&->)]; nia. }
  assert (min' <= (max' + min') / 2 < max') by (Z.div_mod_to_equations; lia).
  destruct (Z.eqb_spec max' ((max' + min') / 2)); [lia|].
  destruct (Z.eqb_spec min' ((max' + min') / 2)) as [Em|]; simpl in Hr.
  - simplify_eq. assert (max' = min' + 1) by (Z.div_mod_to_equations; lia). subst.
    rewrite <- Em. symmetry. apply Z.sqrt_unique. lia.
  - apply (IH max' min'); auto; unfold in_u in *; lia.
Qed.

(** While the midpoint is a power of two above the root, the upper bound halves. *)
Lemma Sqrt_loop_powers (k : nat) n u r :
  wf u -> 0 < val u < 2 ^ 64 -> (k <= 31)%nat ->
  Sqrt_loop n u (2 ^ (32 + Z.of_nat k)) 1 ((2 ^ (32 + Z.of_nat k) + 1) / 2) = Some r ->
  r = Z.sqrt (val u).
Proof.
  intros Hu Hv. revert n. induction k as [|k IH]; intros n Hk Hr.
  { apply (Sqrt_loop_root n u (2 ^ 32) 1); auto; try word_lia. }
  destruct n as [|n]; [done|].
  assert (2 ^ (32 + Z.of_nat (S k)) = 2 * 2 ^ (32 + Z.of_nat k)) as Hp
    by (rewrite <- Z.pow_succ_r by lia; f_equal; lia).
  rewrite Hp in Hr. set (x := 2 ^ (32 + Z.of_nat k)) in *.
  assert (2 ^ 32 <= x <= 2 ^ 62) as Hx by (subst x; split; apply Z.pow_le_mono_r; lia).
  assert ((2 * x + 1) / 2 = x) as Hmid by (Z.div_mod_to_equations; lia).
  assert (val (MulUint64 x x) = x * x) as Hmul.
  { apply MulUint64_small; [word_lia..|]. unfold halves_small.
    assert (x = 2 ^ Z.of_nat k * 2 ^ 32) as -> by (subst x; rewrite <- Z.pow_add_r by lia; f_equal; lia).
    rewrite Z.div_mul, Z.mod_mul by lia.
    assert (2 ^ Z.of_nat k <= 2 ^ 30) by (apply Z.pow_le_mono_r; lia).
    assert (0 < 2 ^ Z.of_nat k) by (apply Z.pow_pos_nonneg; lia). norm_pow. nia. }
  assert (in_u 64 x) by word_lia.
  assert (Compare u (MulUint64 x x) = -1) as Hc.
  { rewrite Compare_spec, Hmul by auto using MulUint64_wf.
    destruct (Z.compare_spec (val u) (x * x)); norm_pow; nia. }
  destruct (Sqrt_loop_step n u (2 * x) 1) as (max' & min' & Hb & Hs); [word_lia..| |].
  { rewrite Hmid, Hc. lia. }
  rewrite Hmid, Hc in Hb. destruct Hb as [(_&->&->)|[]]; [|lia].
  rewrite Hs in Hr. clear Hs.
  destruct (Z.eqb_spec x ((x + 1) / 2)); [exfalso; word_lia|].
  destruct (Z.eqb_spec 1 ((x + 1) / 2)); [exfalso; word_lia|].
  apply (IH n); auto with lia.
Qed.

Lemma Sqrt_first u n r :
  wf u -> 0 < val u < 2 ^ 64 -> Sqrt_loop (S n) u MaxUint64 1 ((MaxUint64 + 1) / 2) = Some r ->
  r = Z.sqrt (val u).
Proof.
  intros Hu Hv Hr. change ((MaxUint64 + 1) / 2) with (2 ^ 63) in Hr.
  assert (Compare u (MulUint64 (2 ^ 63) (2 ^ 63)) = -1) as Hc.
  { rewrite Compare_spec by (auto; apply MulUint64_wf; word_lia).
    change (val (MulUint64 (2 ^ 63) (2 ^ 63))) with (2 ^ 126).
    destruct (Z.compare_spec (val u) (2 ^ 126)); norm_pow; lia. }
  destruct (Sqrt_loop_step n u MaxUint64 1) as (max' & min' & Hb & Hs); [unfold MaxUint64; word_lia|word_lia| |].
  { change ((MaxUint64 + 1) / 2) with (2 ^ 63). rewrite Hc. lia. }
  change ((MaxUint64 + 1) / 2) with (2 ^ 63) in *. rewrite Hc in Hb.
  destruct Hb as [(_&->&->)|[]]; [|lia]. rewrite Hs in Hr.
  apply (Sqrt_loop_powers 31 n u r); auto.
Qed.

(** ** Properties *)

(** Every operation of the 128-bit type keeps both halves in range and
    computes the operation of the integers modulo 2^128: addition, subtraction,
    the one-bit shifts, bit reads and the three-way comparison. *)
Theorem uint128_ops_refine (u v : Uint128) (i : Z) :
  wf u -> wf v -> 0 <= i < 128 ->
  (wf (Add u v) /\ val (Add u v) = (val u + val v) mod 2 ^ 128) /\
  (wf (Sub u v) /\ val (Sub u v) = (val u - val v) mod 2 ^ 128) /\
  (wf (LeftShift u) /\ val (LeftShift u) = (2 * val u) mod 2 ^ 128) /\
  (wf (RightShift u) /\ val (RightShift u) = val u / 2) /\
  GetAt u i = Z.testbit (val u) i /\
  val (Set_ u i 1) = Z.setbit (val u) i /\ val (Set_ u i 0) = Z.clearbit (val u) i /\
  Compare u v = match val u ?= val v with Lt => -1 | Eq => 0 | Gt => 1 end.
Proof.
  intros. rewrite Add_spec, Sub_spec, LeftShift_spec, RightShift_spec, GetAt_spec,
    Set_1_spec, Set_0_spec, Compare_spec by done.
  auto 10 using Add_wf, Sub_wf, LeftShift_wf, RightShift_wf.
Qed.

Lemma uint128_ops_refine_witness :
  val (Add (mkUint128 MaxUint64 0) (mkUint128 1 0)) = 2 ^ 64 mod 2 ^ 128.
Proof.
  apply (uint128_ops_refine (mkUint128 MaxUint64 0) (mkUint128 1 0) 5);
    [split; split; vm_compute; congruence..|lia].
Defined.

(** What [MulUint64] returns on every pair of 64-bit factors: the product plus
    [2^96] times the difference between the correction term of the code and the
    carry of the middle partial products; so the result is the product exactly
    when the two agree, and always modulo [2^64]. *)
Theorem MulUint64_characterised (u v : Z) :
  in_u 64 u -> in_u 64 v ->
  wf (MulUint64 u v) /\
  val (MulUint64 u v) = (u * v + 2 ^ 96 * (mul_special u v - mul_carry u v)) mod 2 ^ 128 /\
  (val (MulUint64 u v) = u * v <-> mul_special u v = mul_carry u v) /\
  Low (MulUint64 u v) = (u * v) mod 2 ^ 64 /\
  (halves_small u v -> val (MulUint64 u v) = u * v).
Proof.
  intros. auto 10 using MulUint64_wf, MulUint64_exact, MulUint64_correct_iff, MulUint64_low, MulUint64_small.
Qed.

Lemma MulUint64_characterised_witness : Low (MulUint64 MaxUint64 3) = (MaxUint64 * 3) mod 2 ^ 64.
Proof.
  apply (MulUint64_characterised MaxUint64 3); split; vm_compute; congruence.
Defined.

(** [MulUint64] is not the 128-bit product: for the factors below the
    correction term is set although the middle partial products do not carry, and
    the product comes out [2^96] too large. *)
Theorem MulUint64_wrong_product :
  let u := 0xFFFFFFFF80000000 in
  let v := 0xFFFFFFFF00000000 in
  in_u 64 u /\ in_u 64 v /\ val (MulUint64 u v) = u * v + 2 ^ 96.
Proof. repeat split; vm_compute; congruence. Qed.

(** [Div] terminates with the Euclidean quotient and remainder for every
    non-zero divisor, and with all ones and the dividend for a zero divisor. *)
Theorem uint128_div_euclid (u d : Uint128) :
  wf u -> wf d ->
  wf (Div u d).1 /\ wf (Div u d).2 /\
  (IsZero d = false -> val (Div u d).1 = val u / val d /\ val (Div u d).2 = val u mod val d) /\
  (IsZero d = true -> Div u d = (MaxUint128, u)).
Proof.
  intros Hu Hd. destruct (IsZero d) eqn:E; unfold IsZero in E.
  - apply andb_true_iff in E as [El%Z.eqb_eq Eh%Z.eqb_eq].
    assert (d = MinUint128) as -> by (destruct d; by simplify_eq/=).
    destruct (Div_loop_zero u 128 Hu ltac:(lia)) as (Hq & Hr & Hvq & Hvr).
    split_and!; [done..|]. intros _. unfold Div. destruct (Div_loop _ _ _) as [q r]; simpl in *.
    f_equal; apply val_inj; auto; [split; split; vm_compute; congruence|].
    change (2 ^ (128 - Z.of_nat 128)) with 1 in Hvr. by rewrite Z.div_1_r in Hvr.
  - assert (0 < val d).
    { destruct Hd as [[] []]. unfold val. apply andb_false_iff in E as [E%Z.eqb_neq|E%Z.eqb_neq]; norm_pow; lia. }
    destruct (Div_correct u d Hu Hd) as (?&?&?&?); [done|]. split_and!; done.
Qed.

Lemma uint128_div_euclid_witness :
  val (Div (of_Z (2 ^ 100 + 7)) (of_Z (2 ^ 40))).1 = val (of_Z (2 ^ 100 + 7)) / val (of_Z (2 ^ 40)).
Proof.
  apply (uint128_div_euclid (of_Z (2 ^ 100 + 7)) (of_Z (2 ^ 40)));
    [split; split; vm_compute; congruence..|vm_compute; reflexivity].
Defined.

(** The bisection of [Sqrt] returns on every value within the 66 rounds of the
    model, and for a 64-bit value it returns the integer square root. *)
Theorem uint128_sqrt_total (u : Uint128) :
  wf u -> exists r, Sqrt u = Some r /\ (val u < 2 ^ 64 -> r = Z.sqrt (val u)).
Proof.
  intros Hu. unfold Sqrt. destruct (IsZero u) eqn:E.
  { unfold IsZero in E. apply andb_true_iff in E as [El%Z.eqb_eq Eh%Z.eqb_eq].
    exists 0. split; [done|]. intros _. unfold val. by rewrite El, Eh. }
  assert (0 < val u).
  { pose proof (val_range u Hu). destruct (Z.eq_dec (val u) 0) as [Hz|]; [|unfold in_u in *; lia].
    assert (u = mkUint128 0 0) as -> by (apply val_inj; [done|split; split; vm_compute; congruence|done]).
    done. }
  change (u64 (Z.shiftr MaxUint64 1 + 1)) with ((MaxUint64 + 1) / 2).
  destruct (Sqrt_loop_terminates 65 u MaxUint64 1) as [r Hr]; [vm_compute; intuition congruence..|].
  exists r. split; [done|]. intros. by apply (Sqrt_first u 65).
Qed.

Lemma uint128_sqrt_total_witness : exists r, Sqrt (mkUint128 1000000 0) = Some r /\ (val (mkUint128 1000000 0) < 2 ^ 64 -> r = Z.sqrt (val (mkUint128 1000000 0))).
Proof. apply uint128_sqrt_total. split; split; vm_compute; congruence. Defined.
