(* ===== verification/Int128.v ===== *)
(** * Int128: the signed 128-bit integers of [common/eos_math/int128.go]

    Two's complement in the pair of 64-bit halves; multiplication and division
    go through a sign-and-magnitude "true form" held in a [Uint128]. *)

From S2P Require Import Prelude Uint128.

Record Int128 : Type := mkInt128 { Low : Z; High : Z }.

(** ** Operations *)

Definition IsZero (u : Int128) : bool := (Low u =? 0) && (High u =? 0).

Definition GetAt (u : Int128) (i : Z) : bool :=
  if i <? 64 then negb (Z.land (Low u) (u64 (Z.shiftl 1 i)) =? 0)
  else negb (Z.land (High u) (u64 (Z.shiftl 1 (i - 64))) =? 0).

Definition Set_ (u : Int128) (i b : Z) : Int128 :=
  if i <? 64 then mkInt128 (Uint128.set_word (Low u) i b) (High u)
  else mkInt128 (Low u) (Uint128.set_word (High u) (i - 64) b).

Definition MaxInt128 : Int128 := mkInt128 0xFFFFFFFFFFFFFFFF 0x7FFFFFFFFFFFFFFF.
Definition MinInt128 : Int128 := mkInt128 0 0x8000000000000000.

Definition LeftShift (u : Int128) : Int128 :=
  let u' := mkInt128 (u64 (Z.shiftl (Low u) 1)) (u64 (Z.shiftl (High u) 1)) in
  if GetAt u 63 then Set_ u' 64 1 else u'.

Definition LeftShifts (u : Int128) (shift : Z) : Int128 := Nat.iter (Z.to_nat shift) LeftShift u.

Definition RightShift (u : Int128) : Int128 :=
  let signSymbol := GetAt u 127 in
  let u' := mkInt128 (Z.shiftr (Low u) 1) (Z.shiftr (High u) 1) in
  let u' := if GetAt u 64 then Set_ u' 63 1 else u' in
  if signSymbol then Set_ u' 127 1 else u'.

Definition RightShifts (u : Int128) (shift : Z) : Int128 := Nat.iter (Z.to_nat shift) RightShift u.

Definition Add (u v : Int128) : Int128 :=
  let high := if u64 (Low u + Low v) <? Low u
              then u64 (High u + u64 (High v + 1))
              else u64 (High u + High v) in
  mkInt128 (u64 (Low u + Low v)) high.

Definition Sub (u v : Int128) : Int128 :=
  if Low v <=? Low u
  then mkInt128 (u64 (Low u - Low v)) (u64 (High u - High v))
  else mkInt128 (u64 (Low u + u64 (u64 (MaxUint64 - Low v) + 1)))
                (u64 (High u - u64 (High v + 1))).

Definition CreateInt128 (i : Z) : Int128 :=
  if 0 <=? i then mkInt128 (u64 i) 0
  else Set_ (Sub MaxInt128 (mkInt128 (u64 (u64 (- i) - 1)) 0)) 127 1.

(** The loop [for i := 0; i < n; i++] that inverts the bits one by one. *)
Fixpoint invert_bits (n : nat) (u : Int128) : Int128 :=
  match n with
  | O => u
  | S n' =>
      let u := invert_bits n' u in
      if GetAt u (Z.of_nat n') then Set_ u (Z.of_nat n') 0 else Set_ u (Z.of_nat n') 1
  end.

Definition ToTrueForm (u : Int128) : Uint128 :=
  let u := if GetAt u 127
           then Set_ (Add (invert_bits 127 u) (mkInt128 1 0)) 127 1
           else u in
  mkUint128 (Low u) (High u).

Fixpoint invert_ubits (n : nat) (u : Uint128) : Uint128 :=
  match n with
  | O => u
  | S n' =>
      let u := invert_ubits n' u in
      if Uint128.GetAt u (Z.of_nat n') then Uint128.Set_ u (Z.of_nat n') 0
      else Uint128.Set_ u (Z.of_nat n') 1
  end.

Definition ToComplement (u : Uint128) : Int128 :=
  let u := if Uint128.GetAt u 127
           then Uint128.Set_ (Uint128.Add (invert_ubits 127 u) (mkUint128 1 0)) 127 1
           else u in
  mkInt128 (Uint128.Low u) (Uint128.High u).

Definition Mul (u v : Int128) : Int128 :=
  let signBit := negb (Bool.eqb (GetAt u 127) (GetAt v 127)) in
  let uTrueForm := Uint128.Set_ (ToTrueForm u) 127 0 in
  let vTrueForm := Uint128.Set_ (ToTrueForm v) 127 0 in
  let productTrueForm := Uint128.Mul uTrueForm vTrueForm in
  let productTrueForm := if signBit then Uint128.Set_ productTrueForm 127 1
                         else Uint128.Set_ productTrueForm 127 0 in
  ToComplement productTrueForm.

Definition Div (u v : Int128) : Int128 * Int128 :=
  let signBit := negb (Bool.eqb (GetAt u 127) (GetAt v 127)) in
  let uTrueForm := Uint128.Set_ (ToTrueForm u) 127 0 in
  let vTrueForm := Uint128.Set_ (ToTrueForm v) 127 0 in
  let '(uQuotient, uRemainder) := Uint128.Div uTrueForm vTrueForm in
  let uQuotient := if signBit && negb (Uint128.IsZero uQuotient)
                   then Uint128.Set_ uQuotient 127 1 else uQuotient in
  let uRemainder := if GetAt u 127 && negb (Uint128.IsZero uRemainder)
                    then Uint128.Set_ uRemainder 127 1 else uRemainder in
  (ToComplement uQuotient, ToComplement uRemainder).

(** ** Meaning *)

(** The same halves read as an unsigned number; the operations that the source
    repeats for both types agree under this reading. *)
Definition toU (u : Int128) : Uint128 := mkUint128 (Low u) (High u).
Definition ofU (u : Uint128) : Int128 := mkInt128 (Uint128.Low u) (Uint128.High u).
Definition iwf (u : Int128) : Prop := Uint128.wf (toU u).
Definition sval (u : Int128) : Z := swrap 128 (Uint128.val (toU u)).

Lemma ofU_toU u : ofU (toU u) = u.
Proof. by destruct u. Qed.
Lemma toU_ofU u : toU (ofU u) = u.
Proof. by destruct u. Qed.
Lemma GetAt_U u i : GetAt u i = Uint128.GetAt (toU u) i.
Proof. done. Qed.
Lemma Set_U u i b : toU (Set_ u i b) = Uint128.Set_ (toU u) i b.
Proof. unfold Set_, Uint128.Set_. by destruct (i <? 64). Qed.
Lemma LeftShift_U u : toU (LeftShift u) = Uint128.LeftShift (toU u).
Proof. unfold LeftShift, Uint128.LeftShift. rewrite GetAt_U. destruct (Uint128.GetAt _ _); [apply Set_U|done]. Qed.
Lemma Add_U u v : toU (Add u v) = Uint128.Add (toU u) (toU v).
Proof. done. Qed.
Lemma Sub_U u v : toU (Sub u v) = Uint128.Sub (toU u) (toU v).
Proof. unfold Sub, Uint128.Sub. simpl. by destruct (_ <=? _). Qed.
Lemma invert_bits_U n u : toU (invert_bits n u) = invert_ubits n (toU u).
Proof.
  induction n as [|n IH]; simpl; [done|]. rewrite GetAt_U, IH.
  destruct (Uint128.GetAt _ _); by rewrite Set_U, IH.
Qed.
#[local] Hint Rewrite GetAt_U Set_U LeftShift_U Add_U Sub_U invert_bits_U toU_ofU : toU.

Lemma sval_cases u :
  iwf u -> sval u = if Uint128.GetAt (toU u) 127 then Uint128.val (toU u) - 2 ^ 128 else Uint128.val (toU u).
Proof.
  intros Hu. pose proof (Uint128.val_range _ Hu). rewrite Uint128.GetAt_spec by (done || lia).
  unfold sval. rewrite Z.testbit_odd, Z.shiftr_div_pow2 by lia.
  assert (Uint128.val (toU u) / 2 ^ 127 = 0 \/ Uint128.val (toU u) / 2 ^ 127 = 1) as [E|E] by word_lia;
    rewrite E; simpl; word_lia.
Qed.

Lemma sval_range u : in_s 128 (sval u).
Proof. by apply swrap_range. Qed.

Lemma iwf_of_sval z : exists u, iwf u /\ sval u = swrap 128 z.
Proof.
  exists (ofU (Uint128.of_Z z)). unfold iwf, sval. rewrite toU_ofU.
  split; [apply Uint128.wf_of_Z|]. rewrite Uint128.val_of_Z. word_lia.
Qed.

Lemma sval_inj u v : iwf u -> iwf v -> sval u = sval v -> u = v.
Proof.
  intros Hu Hv E. rewrite <- (ofU_toU u), <- (ofU_toU v). f_equal.
  apply Uint128.val_inj; [done..|]. unfold sval in E.
  pose proof (Uint128.val_range _ Hu). pose proof (Uint128.val_range _ Hv). word_lia.
Qed.

(** ** The sign-and-magnitude form *)

Lemma invert_ubits_wf n u : Uint128.wf u -> (n <= 128)%nat -> Uint128.wf (invert_ubits n u).
Proof.
  intros Hu. induction n as [|n IH]; intros; simpl; [done|].
  destruct (Uint128.GetAt _ _); apply Uint128.Set_wf; auto with lia.
Qed.

Lemma testbit_ones n i : 0 <= n -> 0 <= i -> Z.testbit (Z.ones n) i = (i <? n).
Proof. intros. destruct (Z.ltb_spec i n); [apply Z.ones_spec_low|apply Z.ones_spec_high]; lia. Qed.

Lemma invert_ubits_val n u :
  Uint128.wf u -> (n <= 128)%nat ->
  Uint128.val (invert_ubits n u) = Z.lxor (Uint128.val u) (Z.ones (Z.of_nat n)).
Proof.
  intros Hu. induction n as [|n IH]; intros Hn; simpl; [symmetry; apply Z.lxor_0_r|].
  specialize (IH ltac:(lia)). pose proof (invert_ubits_wf n u Hu ltac:(lia)).
  rewrite Uint128.GetAt_spec, IH by (done || lia).
  apply Z.bits_inj'; intros i Hi.
  rewrite !Z.lxor_spec, !testbit_ones by lia.
  destruct (Z.ltb_spec (Z.of_nat n) (Z.of_nat n)); [lia|]. rewrite xorb_false_r.
  destruct (Z.testbit (Uint128.val u) (Z.of_nat n)) eqn:E;
    rewrite ?Uint128.Set_0_spec, ?Uint128.Set_1_spec, IH by (done || lia);
    rewrite ?Z.clearbit_eqb, ?Z.setbit_eqb, !Z.lxor_spec, testbit_ones by lia;
    (destruct (Z.eqb_spec (Z.of_nat n) i) as [En|En]; [rewrite En in E|]);
    repeat match goal with |- context [?a <? ?b] => destruct (Z.ltb_spec a b) end;
    rewrite ?E; simpl; try lia; btauto.
Qed.

Lemma lxor_ones_sub x n : 0 <= n -> in_u n x -> Z.lxor x (Z.ones n) = Z.ones n - x.
Proof.
  intros Hn Hx.
  rewrite Z.sub_nocarry_ldiff.
  - bits. rewrite testbit_ones by lia. destruct (Z.ltb_spec i n); [btauto|].
    by rewrite (testbit_above n x) by (auto; lia).
  - bits. rewrite testbit_ones by lia. destruct (Z.ltb_spec i n); [btauto|].
    by rewrite (testbit_above n x) by (auto; lia).
Qed.

Lemma setbit_127 x : in_u 128 x -> Z.setbit x 127 = if x <? 2 ^ 127 then x + 2 ^ 127 else x.
Proof.
  intros Hx. destruct (Z.ltb_spec x (2 ^ 127)).
  - rewrite Z.setbit_spec'. change (2 ^ 127) with (Z.shiftl 1 127) at 1.
    rewrite lor_shiftl_add by (lia || word_lia). lia.
  - apply Z.bits_inj'; intros i Hi. rewrite Z.setbit_eqb by lia.
    destruct (Z.eqb_spec 127 i) as [<-|]; [|done].
    symmetry. apply Z.testbit_true; [lia|]. word_lia.
Qed.

Lemma clearbit_127 x : in_u 128 x -> Z.clearbit x 127 = x mod 2 ^ 127.
Proof.
  intros Hx. apply Z.bits_inj'; intros i Hi. fold (uwrap 127 x).
  rewrite Z.clearbit_eqb, testbit_uwrap by lia.
  destruct (Z.eqb_spec 127 i), (Z.ltb_spec i 127); try lia; simpl; try btauto.
  by rewrite (testbit_above 128 x) by (auto; lia).
Qed.

(** Negating the low 127 bits and adding one, with the top bit forced: the step
    both conversions share, on an argument whose top bit is set. *)
Lemma complement_step u :
  Uint128.wf u -> 2 ^ 127 <= Uint128.val u ->
  let r := Uint128.Set_ (Uint128.Add (invert_ubits 127 u) (mkUint128 1 0)) 127 1 in
  Uint128.wf r /\
  Uint128.val r = if Uint128.val u =? 2 ^ 127 then 2 ^ 127 else 2 ^ 127 + 2 ^ 128 - Uint128.val u.
Proof.
  intros Hu Hb r. pose proof (Uint128.val_range u Hu) as Hr.
  pose proof (invert_ubits_wf 127 u Hu ltac:(lia)) as Hi.
  assert (Uint128.wf (mkUint128 1 0)) by (split; simpl; word_lia).
  pose proof (Uint128.Add_wf (invert_ubits 127 u) (mkUint128 1 0)) as Ha.
  split; [apply Uint128.Set_wf; auto with lia|]. subst r.
  rewrite Uint128.Set_1_spec, setbit_127 by (auto using Uint128.val_range with lia).
  rewrite Uint128.Add_spec, invert_ubits_val by (done || lia).
  change (Uint128.val (mkUint128 1 0)) with 1. change (Z.of_nat 127) with 127.
  assert (Z.lxor (Uint128.val u) (Z.ones 127) = 2 ^ 127 + (2 ^ 128 - 1 - Uint128.val u)) as ->.
  { replace (Uint128.val u) with (2 ^ 127 + Uint128.val u mod 2 ^ 127) at 1 by word_lia.
    assert (forall x, in_u 127 x -> 2 ^ 127 + x = Z.lxor x (2 ^ 127)) as Hx.
    { intros x Hx. rewrite Z.add_comm, <- Z.add_nocarry_lxor; [done|].
      bits. rewrite Z.pow2_bits_eqb by lia. destruct (Z.eqb_spec 127 i) as [<-|]; [|btauto].
      by rewrite (testbit_above 127 x) by (auto; lia). }
    rewrite Hx by (apply uwrap_range; lia).
    rewrite Z.lxor_assoc, (Z.lxor_comm (2 ^ 127)), <- Z.lxor_assoc.
    rewrite lxor_ones_sub by (lia || (apply uwrap_range; lia)).
    rewrite <- Hx by (change (Z.ones 127) with (2 ^ 127 - 1); word_lia).
    change (Z.ones 127) with (2 ^ 127 - 1). word_lia. }
  destruct (Z.eqb_spec (Uint128.val u) (2 ^ 127)) as [->|]; [done|].
  rewrite Z.mod_small by word_lia.
  destruct (Z.ltb_spec (2 ^ 127 + (2 ^ 128 - 1 - Uint128.val u) + 1) (2 ^ 127)); word_lia.
Qed.

Lemma top_bit u : Uint128.wf u -> Uint128.GetAt u 127 = (2 ^ 127 <=? Uint128.val u).
Proof.
  intros Hu. pose proof (Uint128.val_range u Hu). rewrite Uint128.GetAt_spec by (done || lia).
  rewrite Z.testbit_odd, Z.shiftr_div_pow2 by lia.
  destruct (Z.leb_spec (2 ^ 127) (Uint128.val u)).
  - assert (Uint128.val u / 2 ^ 127 = 1) as -> by word_lia. done.
  - rewrite Z.div_small by word_lia. done.
Qed.

Lemma sval_sign u : iwf u -> GetAt u 127 = (sval u <? 0).
Proof.
  intros Hu. pose proof (Uint128.val_range _ Hu). rewrite GetAt_U, sval_cases, top_bit by done.
  destruct (Z.leb_spec (2 ^ 127) (Uint128.val (toU u)));
    match goal with |- context [?a <? ?b] => destruct (Z.ltb_spec a b) end; word_lia.
Qed.

Lemma ToTrueForm_U u :
  ToTrueForm u =
    if Uint128.GetAt (toU u) 127
    then Uint128.Set_ (Uint128.Add (invert_ubits 127 (toU u)) (mkUint128 1 0)) 127 1
    else toU u.
Proof.
  unfold ToTrueForm. rewrite GetAt_U. destruct (Uint128.GetAt (toU u) 127); [|done].
  fold (toU (Set_ (Add (invert_bits 127 u) (mkInt128 1 0)) 127 1)).
  by rewrite Set_U, Add_U, invert_bits_U.
Qed.

(** The cleared true form is the magnitude, except for the least value, whose
    magnitude does not fit and comes out as zero. *)
Lemma magnitude u :
  iwf u ->
  Uint128.wf (Uint128.Set_ (ToTrueForm u) 127 0) /\
  Uint128.val (Uint128.Set_ (ToTrueForm u) 127 0) =
    if sval u =? - 2 ^ 127 then 0 else Z.abs (sval u).
Proof.
  intros Hu. pose proof (Uint128.val_range _ Hu) as Hr. rewrite ToTrueForm_U, sval_cases, top_bit by done.
  destruct (Z.leb_spec (2 ^ 127) (Uint128.val (toU u))) as [Hb|Hb].
  - destruct (complement_step (toU u) Hu Hb) as [Hw Hv].
    split; [apply Uint128.Set_wf; auto with lia|].
    rewrite Uint128.Set_0_spec, clearbit_127, Hv by (auto using Uint128.val_range with lia).
    destruct (Z.eqb_spec (Uint128.val (toU u)) (2 ^ 127)) as [E|];
      destruct (Z.eqb_spec (Uint128.val (toU u) - 2 ^ 128) (- 2 ^ 127)); try word_lia.
  - split; [apply Uint128.Set_wf; auto with lia|].
    rewrite Uint128.Set_0_spec, clearbit_127 by (done || lia).
    destruct (Z.eqb_spec (Uint128.val (toU u)) (- 2 ^ 127)); word_lia.
Qed.

Lemma ToComplement_U t :
  toU (ToComplement t) =
    if Uint128.GetAt t 127
    then Uint128.Set_ (Uint128.Add (invert_ubits 127 t) (mkUint128 1 0)) 127 1 else t.
Proof.
  unfold ToComplement.
  generalize (if Uint128.GetAt t 127
    then Uint128.Set_ (Uint128.Add (invert_ubits 127 t) (mkUint128 1 0)) 127 1 else t).
  apply toU_ofU.
Qed.

(** [ToComplement] negates a magnitude that carries the sign bit; a sign bit on a
    zero magnitude becomes the least value. *)
Lemma ToComplement_spec t :
  Uint128.wf t ->
  iwf (ToComplement t) /\
  sval (ToComplement t) =
    if Uint128.val t <? 2 ^ 127 then Uint128.val t
    else if Uint128.val t =? 2 ^ 127 then - 2 ^ 127 else 2 ^ 127 - Uint128.val t.
Proof.
  intros Ht. pose proof (Uint128.val_range _ Ht) as Hr.
  unfold iwf, sval. rewrite ToComplement_U, top_bit by done.
  destruct (Z.leb_spec (2 ^ 127) (Uint128.val t)) as [Hb|Hb];
    destruct (Z.ltb_spec (Uint128.val t) (2 ^ 127)); try lia.
  - destruct (complement_step t Ht Hb) as [Hw Hv]. split; [by apply Hw|].
    rewrite Hv. destruct (Z.eqb_spec (Uint128.val t) (2 ^ 127)); [done|]. word_lia.
  - split; [done|]. word_lia.
Qed.

(** Attaching the sign bit to a magnitude below [2^127]. *)
Lemma sign_magnitude t (s : bool) :
  Uint128.wf t -> Uint128.val t < 2 ^ 127 -> (s = true -> 0 < Uint128.val t) ->
  iwf (ToComplement (if s then Uint128.Set_ t 127 1 else t)) /\
  sval (ToComplement (if s then Uint128.Set_ t 127 1 else t)) =
    if s then - Uint128.val t else Uint128.val t.
Proof.
  intros Ht Hb Hs. pose proof (Uint128.val_range _ Ht) as Hr.
  assert (Uint128.wf (if s then Uint128.Set_ t 127 1 else t)) as Hw.
  { destruct s; [apply Uint128.Set_wf|]; auto with lia. }
  destruct (ToComplement_spec _ Hw) as [? ->]. split; [done|].
  destruct s; [rewrite Uint128.Set_1_spec, setbit_127 by (done || lia); specialize (Hs eq_refl)|];
    repeat match goal with
    | |- context [?a <? ?b] => destruct (Z.ltb_spec a b)
    | |- context [?a =? ?b] => destruct (Z.eqb_spec a b)
    end; word_lia.
Qed.

Lemma signs_differ u v :
  iwf u -> iwf v ->
  negb (Bool.eqb (GetAt u 127) (GetAt v 127)) = xorb (sval u <? 0) (sval v <? 0).
Proof. intros. rewrite !sval_sign by done. by destruct (sval u <? 0), (sval v <? 0). Qed.

Lemma RightShift_U u :
  toU (RightShift u) =
    if Uint128.GetAt (toU u) 127 then Uint128.Set_ (Uint128.RightShift (toU u)) 127 1
    else Uint128.RightShift (toU u).
Proof.
  unfold RightShift, Uint128.RightShift. rewrite !GetAt_U.
  destruct (Uint128.GetAt (toU u) 127), (Uint128.GetAt (toU u) 64); by rewrite ?Set_U.
Qed.

Lemma RightShift_sval u : iwf u -> iwf (RightShift u) /\ sval (RightShift u) = sval u / 2.
Proof.
  intros Hu. pose proof (Uint128.val_range _ Hu).
  pose proof (Uint128.RightShift_wf _ Hu) as Hw. pose proof (Uint128.RightShift_spec _ Hu) as Hv.
  rewrite (sval_cases u Hu). unfold iwf, sval. rewrite RightShift_U, top_bit by done.
  destruct (Z.leb_spec (2 ^ 127) (Uint128.val (toU u))).
  - split; [apply Uint128.Set_wf; auto with lia|].
    rewrite Uint128.Set_1_spec, setbit_127, Hv by (auto using Uint128.val_range with lia).
    destruct (Z.ltb_spec (Uint128.val (toU u) / 2) (2 ^ 127)); word_lia.
  - split; [done|]. rewrite Hv. word_lia.
Qed.

Lemma Add_sval u v : iwf u -> iwf v -> iwf (Add u v) /\ sval (Add u v) = swrap 128 (sval u + sval v).
Proof.
  intros Hu Hv. unfold iwf, sval. rewrite Add_U. split; [apply Uint128.Add_wf|].
  rewrite Uint128.Add_spec by done. word_lia.
Qed.

Lemma Sub_sval u v : iwf u -> iwf v -> iwf (Sub u v) /\ sval (Sub u v) = swrap 128 (sval u - sval v).
Proof.
  intros Hu Hv. unfold iwf, sval. rewrite Sub_U. split; [apply Uint128.Sub_wf|].
  rewrite Uint128.Sub_spec by done. word_lia.
Qed.

Lemma LeftShift_sval u : iwf u -> iwf (LeftShift u) /\ sval (LeftShift u) = swrap 128 (2 * sval u).
Proof.
  intros Hu. unfold iwf, sval. rewrite LeftShift_U. split; [by apply Uint128.LeftShift_wf|].
  rewrite Uint128.LeftShift_spec by done. word_lia.
Qed.

Lemma IsZero_val t : Uint128.wf t -> Uint128.IsZero t = (Uint128.val t =? 0).
Proof.
  destruct t as [l h]; unfold Uint128.wf, Uint128.IsZero, Uint128.val; simpl. intros [[] []].
  destruct (Z.eqb_spec l 0), (Z.eqb_spec h 0), (Z.eqb_spec (l + 2 ^ 64 * h) 0); simpl; norm_pow; lia.
Qed.

Lemma Div_sval u v :
  iwf u -> iwf v -> sval u <> - 2 ^ 127 -> sval v <> - 2 ^ 127 -> sval v <> 0 ->
  iwf (Div u v).1 /\ iwf (Div u v).2 /\
  sval (Div u v).1 = Z.quot (sval u) (sval v) /\ sval (Div u v).2 = Z.rem (sval u) (sval v).
Proof.
  intros Hu Hv Hmu Hmv Hz.
  destruct (magnitude u Hu) as [Hwu Hau]. destruct (magnitude v Hv) as [Hwv Hav].
  rewrite (proj2 (Z.eqb_neq _ _) Hmu) in Hau. rewrite (proj2 (Z.eqb_neq _ _) Hmv) in Hav.
  unfold Div. rewrite signs_differ, (sval_sign u) by done.
  destruct (Uint128.Div_correct _ _ Hwu Hwv) as (Hq & Hr & Hvq & Hvr); [lia|].
  destruct (Uint128.Div _ _) as [q r]. cbn [fst snd] in *.
  rewrite Hau, Hav in Hvq, Hvr. rewrite !IsZero_val by done.
  pose proof (sval_range u). pose proof (Uint128.val_range q Hq). pose proof (Uint128.val_range r Hr).
  assert (Uint128.val q <= Z.abs (sval u)).
  { rewrite Hvq. apply Z.div_le_upper_bound; nia. }
  assert (Uint128.val r <= Z.abs (sval u)).
  { rewrite Hvr. apply Z.mod_le; lia. }
  destruct (sign_magnitude q (xorb (sval u <? 0) (sval v <? 0) && negb (Uint128.val q =? 0))) as [? ->];
    [done|word_lia| |].
  { intros E%andb_true_iff. destruct (Z.eqb_spec (Uint128.val q) 0); [by destruct E|word_lia]. }
  destruct (sign_magnitude r ((sval u <? 0) && negb (Uint128.val r =? 0))) as [? ->];
    [done|word_lia| |].
  { intros E%andb_true_iff. destruct (Z.eqb_spec (Uint128.val r) 0); [by destruct E|word_lia]. }
  split_and!; [done..| |].
  - rewrite Z.quot_div by done. rewrite <- Hvq.
    destruct (Z.eqb_spec (Uint128.val q) 0) as [->|]; [rewrite andb_false_r; lia|].
    destruct (Z.sgn_spec (sval u)) as [[? ->]|[[E ->]|[? ->]]];
      destruct (Z.sgn_spec (sval v)) as [[? ->]|[[? ->]|[? ->]]]; try lia;
      destruct (Z.ltb_spec (sval u) 0), (Z.ltb_spec (sval v) 0); cbn; unfold in_u in *; lia.
  - rewrite Z.rem_mod by done. rewrite <- Hvr.
    destruct (Z.eqb_spec (Uint128.val r) 0) as [->|]; [rewrite andb_false_r; lia|].
    destruct (Z.sgn_spec (sval u)) as [[? ->]|[[E ->]|[? ->]]]; destruct (Z.ltb_spec (sval u) 0);
      cbn; try lia.
    rewrite <- E in Hvr. rewrite Z.mod_0_l in Hvr by lia. lia.
Qed.

(** The product, where the magnitudes multiply without overflow and no sign is
    attached to a zero product. *)
Lemma Mul_sval u v :
  iwf u -> iwf v -> sval u <> - 2 ^ 127 -> sval v <> - 2 ^ 127 ->
  Uint128.halves_small (Z.abs (sval u) mod 2 ^ 64) (Z.abs (sval v) mod 2 ^ 64) ->
  Z.abs (sval u * sval v) < 2 ^ 127 ->
  (sval u * sval v = 0 -> (sval u <? 0) = (sval v <? 0)) ->
  iwf (Mul u v) /\ sval (Mul u v) = sval u * sval v.
Proof.
  intros Hu Hv Hmu Hmv Hs Hb Hz. unfold Mul.
  destruct (magnitude u Hu) as [Hwu Hau]. destruct (magnitude v Hv) as [Hwv Hav].
  rewrite (proj2 (Z.eqb_neq _ _) Hmu) in Hau. rewrite (proj2 (Z.eqb_neq _ _) Hmv) in Hav.
  rewrite signs_differ by done.
  set (a := Uint128.Set_ (ToTrueForm u) 127 0) in *. set (b := Uint128.Set_ (ToTrueForm v) 127 0) in *.
  assert (Uint128.val (Uint128.Mul a b) = Z.abs (sval u * sval v)) as Hp.
  { rewrite Uint128.Mul_spec, Hau, Hav, <- Z.abs_mul, Z.mod_small by (done || word_lia
      || (rewrite !Uint128.Low_mod by done; by rewrite Hau, Hav)). done. }
  pose proof (Uint128.Mul_wf a b) as Hw.
  replace (Uint128.Set_ (Uint128.Mul a b) 127 0) with (Uint128.Mul a b).
  2:{ apply Uint128.val_inj; [done|apply Uint128.Set_wf; auto with lia|].
      rewrite Uint128.Set_0_spec, clearbit_127, Z.mod_small by (auto using Uint128.val_range || word_lia). done. }
  destruct (sign_magnitude (Uint128.Mul a b) (xorb (sval u <? 0) (sval v <? 0))) as [? ->];
    [done|lia| |split; [done|]].
  - intros E. rewrite Hp. destruct (Z.eq_dec (sval u * sval v) 0) as [E0|]; [|lia].
    rewrite (Hz E0), xorb_nilpotent in E. done.
  - rewrite Hp. destruct (Z.ltb_spec (sval u) 0), (Z.ltb_spec (sval v) 0); cbn; nia.
Qed.

Lemma CreateInt128_sval i : in_s 64 i -> iwf (CreateInt128 i) /\ sval (CreateInt128 i) = i.
Proof.
  intros Hi. unfold CreateInt128. destruct (Z.leb_spec 0 i).
  - split; [split; simpl; word_lia|]. unfold sval, toU, Uint128.val; simpl. word_lia.
  - set (m := mkInt128 _ 0). assert (iwf m) as Hm by (split; simpl; word_lia).
    assert (Uint128.val (toU m) = - i - 1) as Hv by (subst m; unfold toU, Uint128.val; simpl; word_lia).
    assert (iwf MaxInt128) as HM by (split; split; vm_compute; congruence).
    pose proof (Uint128.Sub_wf (toU MaxInt128) (toU m)) as Hw.
    unfold iwf, sval. rewrite Set_U, Sub_U. split; [apply Uint128.Set_wf; auto with lia|].
    rewrite Uint128.Set_1_spec, setbit_127, Uint128.Sub_spec, Hv by (auto using Uint128.val_range with lia).
    change (Uint128.val (toU MaxInt128)) with (2 ^ 127 - 1).
    destruct (Z.ltb_spec ((2 ^ 127 - 1 - (- i - 1)) mod 2 ^ 128) (2 ^ 127)); word_lia.
Qed.

(** ** Properties *)

(** The signed type is the two's complement integers modulo 2^128: creation from
    a 64-bit value, addition, subtraction, the left shift and the arithmetic right
    shift, with the halves kept in range. *)
Theorem int128_ops_refine (u v : Int128) (i : Z) :
  iwf u -> iwf v -> in_s 64 i ->
  (iwf (CreateInt128 i) /\ sval (CreateInt128 i) = i) /\
  (iwf (Add u v) /\ sval (Add u v) = swrap 128 (sval u + sval v)) /\
  (iwf (Sub u v) /\ sval (Sub u v) = swrap 128 (sval u - sval v)) /\
  (iwf (LeftShift u) /\ sval (LeftShift u) = swrap 128 (2 * sval u)) /\
  (iwf (RightShift u) /\ sval (RightShift u) = sval u / 2).
Proof.
  intros. split_and!; first [by apply CreateInt128_sval|by apply Add_sval|by apply Sub_sval
    |by apply LeftShift_sval|by apply RightShift_sval].
Qed.

Lemma int128_ops_refine_witness :
  sval (Sub (mkInt128 3 0) (mkInt128 5 0)) = swrap 128 (sval (mkInt128 3 0) - sval (mkInt128 5 0)).
Proof.
  apply (int128_ops_refine (mkInt128 3 0) (mkInt128 5 0) (-1)); repeat split; vm_compute; congruence.
Defined.

(** Signed division truncates toward zero and the remainder has the sign of the
    dividend, for every dividend and non-zero divisor other than the least value. *)
Theorem int128_div_truncates (u v : Int128) :
  iwf u -> iwf v -> sval u <> - 2 ^ 127 -> sval v <> - 2 ^ 127 -> sval v <> 0 ->
  iwf (Div u v).1 /\ iwf (Div u v).2 /\
  sval (Div u v).1 = Z.quot (sval u) (sval v) /\ sval (Div u v).2 = Z.rem (sval u) (sval v).
Proof. apply Div_sval. Qed.

Lemma int128_div_truncates_witness :
  sval (Div (CreateInt128 (-7)) (CreateInt128 2)).1 = Z.quot (sval (CreateInt128 (-7))) (sval (CreateInt128 2)).
Proof.
  apply (int128_div_truncates (CreateInt128 (-7)) (CreateInt128 2));
    first [vm_compute; congruence|repeat split; vm_compute; congruence].
Defined.

(** Signed multiplication returns the product of factors other than the least
    value when the product fits, its low magnitudes multiply exactly and it is
    not a zero product of factors of different sign. *)
Theorem int128_mul_product (u v : Int128) :
  iwf u -> iwf v -> sval u <> - 2 ^ 127 -> sval v <> - 2 ^ 127 ->
  Uint128.halves_small (Z.abs (sval u) mod 2 ^ 64) (Z.abs (sval v) mod 2 ^ 64) ->
  Z.abs (sval u * sval v) < 2 ^ 127 ->
  (sval u * sval v = 0 -> (sval u <? 0) = (sval v <? 0)) ->
  iwf (Mul u v) /\ sval (Mul u v) = sval u * sval v.
Proof. apply Mul_sval. Qed.

Lemma int128_mul_product_witness :
  sval (Mul (CreateInt128 (-7)) (CreateInt128 6)) = sval (CreateInt128 (-7)) * sval (CreateInt128 6).
Proof.
  apply (int128_mul_product (CreateInt128 (-7)) (CreateInt128 6));
    first [vm_compute; congruence|repeat split; vm_compute; congruence].
Defined.

(** A negative factor times zero is not zero: the sign bit is attached to the
    zero magnitude, and the result is the least 128-bit value. *)
Theorem int128_mul_negative_zero :
  sval (Mul (CreateInt128 (-1)) (CreateInt128 0)) = - 2 ^ 127 /\
  Mul (CreateInt128 (-1)) (CreateInt128 0) = MinInt128.
Proof. split; vm_compute; reflexivity. Qed.
