(* ===== verification/Bytes.v ===== *)
(** * Bytes: the byte-level routines of Go's [encoding/binary]

    A byte is a [Z] below 256 and a byte slice a list of them.  The little-endian
    integers and the variable-length integers of the standard library, as the
    serializers of the repository use them. *)

From S2P Require Import Prelude.

Abbreviation bytes := (list Z).
Definition is_bytes (l : bytes) : Prop := Forall (in_u 8) l.

#[global] Instance is_bytes_dec l : Decision (is_bytes l).
Proof. unfold is_bytes. apply _. Defined.

(** ** Fixed-width integers: [binary.LittleEndian] and [binary.BigEndian] *)

Fixpoint le_bytes (n : nat) (z : Z) : bytes :=
  match n with
  | O => []
  | S n' => u8 z :: le_bytes n' (Z.shiftr z 8)
  end.

Fixpoint le_val (l : bytes) : Z :=
  match l with
  | [] => 0
  | b :: l' => b + 2 ^ 8 * le_val l'
  end.

Definition be_bytes (n : nat) (z : Z) : bytes := reverse (le_bytes n z).

Lemma length_le_bytes n z : length (le_bytes n z) = n.
Proof. revert z. induction n; simpl; intros; f_equal; auto. Qed.

Lemma is_bytes_le_bytes n z : is_bytes (le_bytes n z).
Proof.
  revert z. induction n as [|n IH]; simpl; intros; constructor; [by apply uwrap_range|apply IH].
Qed.

Lemma le_val_le_bytes n z : le_val (le_bytes n z) = z mod 2 ^ (8 * Z.of_nat n).
Proof.
  revert z. induction n as [|n IH]; intros z; [symmetry; apply Z.mod_1_r|].
  cbn [le_bytes le_val]. rewrite IH, Z.shiftr_div_pow2 by lia.
  replace (8 * Z.of_nat (S n)) with (8 + 8 * Z.of_nat n) by lia.
  rewrite Z.pow_add_r, Z.rem_mul_r by lia. unfold uwrap. lia.
Qed.

Lemma le_val_le_bytes_small n z : in_u (8 * Z.of_nat n) z -> le_val (le_bytes n z) = z.
Proof. intros. rewrite le_val_le_bytes. by apply Z.mod_small. Qed.

Lemma le_val_range l : is_bytes l -> in_u (8 * Z.of_nat (length l)) (le_val l).
Proof.
  induction 1 as [|b l Hb Hl IH]; simpl; [by vm_compute|].
  unfold in_u in *. replace (8 * Z.of_nat (S (length l))) with (8 + 8 * Z.of_nat (length l)) by lia.
  rewrite Z.pow_add_r by lia. change (2 ^ 8) with 256 in *. lia.
Qed.

Lemma le_bytes_le_val l : is_bytes l -> le_bytes (length l) (le_val l) = l.
Proof.
  induction 1 as [|b l Hb Hl IH]; [done|]. cbn [length le_bytes le_val].
  assert (u8 (b + 2 ^ 8 * le_val l) = b) as ->
    by (unfold uwrap; rewrite Z.mul_comm, Z.mod_add by lia; by apply Z.mod_small).
  rewrite Z.shiftr_div_pow2, Z.mul_comm, Z.div_add, Z.div_small by (done || lia).
  by rewrite Z.add_0_l, IH.
Qed.

(** ** Variable-length integers: [binary.PutUvarint] and [binary.Uvarint] *)

(** A 64-bit value needs at most ten groups of seven bits. *)
Fixpoint put_uvarint (fuel : nat) (x : Z) : bytes :=
  match fuel with
  | O => []
  | S fuel' => if x <? 0x80 then [u8 x]
               else Z.lor (u8 x) 0x80 :: put_uvarint fuel' (Z.shiftr x 7)
  end.

Definition PutUvarint (x : Z) : bytes := put_uvarint 10 x.

(** The loop of [Uvarint] at byte [i] with [x] read so far and [s = 7 i]; the
    second result is the number of bytes read, zero for a buffer that ends inside
    a number and negative for an overflow. *)
Fixpoint uvarint_loop (buf : bytes) (i x s : Z) : Z * Z :=
  match buf with
  | [] => (0, 0)
  | b :: buf' =>
      if b <? 0x80
      then if (9 <? i) || ((i =? 9) && (1 <? b)) then (0, - (i + 1))
           else (Z.lor x (u64 (Z.shiftl b s)), i + 1)
      else uvarint_loop buf' (i + 1) (Z.lor x (u64 (Z.shiftl (Z.land b 0x7f) s))) (s + 7)
  end.

Definition Uvarint (buf : bytes) : Z * Z := uvarint_loop buf 0 0 0.

Lemma put_uvarint_length fuel x : (length (put_uvarint fuel x) <= fuel)%nat.
Proof.
  revert x. induction fuel as [|f IH]; simpl; intros; [lia|].
  destruct (x <? 128); simpl; [lia|]. specialize (IH (Z.shiftr x 7)). lia.
Qed.

Lemma is_bytes_put_uvarint fuel x : is_bytes (put_uvarint fuel x).
Proof.
  revert x. induction fuel as [|f IH]; simpl; intros; [constructor|].
  destruct (x <? 128); constructor; [by apply uwrap_range|constructor| |apply IH].
  apply in_u_lor; [lia|by apply uwrap_range|by vm_compute].
Qed.

(** Adding a group of seven bits above the bits read so far. *)
Lemma lor_group x b s :
  0 <= s -> 0 <= x < 2 ^ s -> 0 <= b -> x + 2 ^ s * b < 2 ^ 64 ->
  Z.lor x (u64 (Z.shiftl b s)) = x + 2 ^ s * b.
Proof.
  intros. rewrite uwrap_id.
  - by apply lor_shiftl_add.
  - rewrite Z.shiftl_mul_pow2 by lia. unfold in_u. nia.
Qed.

Lemma continuation_byte v : Z.land (Z.lor (u8 v) 0x80) 0x7f = v mod 2 ^ 7.
Proof.
  fold (uwrap 7 v). apply Z.bits_inj'; intros i Hi. autorewrite with bits.
  change 0x7f with (Z.ones 7). change 0x80 with (Z.shiftl 1 7).
  rewrite testbit_shiftl_1 by lia.
  destruct (Z.ltb_spec i 7).
  - rewrite Z.ones_spec_low by lia.
    destruct (Z.ltb_spec i 8), (Z.eqb_spec 7 i); simpl; try lia. btauto.
  - rewrite Z.ones_spec_high by lia. simpl. btauto.
Qed.

Lemma continuation_byte_ge v : (Z.lor (u8 v) 0x80 <? 0x80) = false.
Proof.
  apply Z.ltb_ge. change 0x80 with (2 ^ 7) at 1.
  assert (Z.testbit (Z.lor (u8 v) 0x80) 7 = true) as H
    by (rewrite Z.lor_spec; apply orb_true_r).
  assert (in_u 8 (Z.lor (u8 v) 0x80)) as [] by (apply in_u_lor; [lia|by apply uwrap_range|by vm_compute]).
  apply Z.testbit_true in H; [|lia].
  destruct (Z.le_gt_cases (2 ^ 7) (Z.lor (u8 v) 0x80)); [done|].
  rewrite Z.div_small in H by lia. done.
Qed.

Lemma put_uvarint_step f x :
  put_uvarint (S f) x = if x <? 0x80 then [u8 x] else Z.lor (u8 x) 0x80 :: put_uvarint f (Z.shiftr x 7).
Proof. done. Qed.

(** Reading back what was written, from any position of a longer buffer. *)
Lemma uvarint_loop_put fuel v i x rest :
  0 <= v < 2 ^ (7 * Z.of_nat (S fuel)) -> 0 <= i -> i + Z.of_nat fuel <= 9 ->
  0 <= x < 2 ^ (7 * i) -> x + 2 ^ (7 * i) * v < 2 ^ 64 ->
  uvarint_loop (put_uvarint (S fuel) v ++ rest) i x (7 * i) =
    (x + 2 ^ (7 * i) * v, i + Z.of_nat (length (put_uvarint (S fuel) v))).
Proof.
  revert v i x. induction fuel as [|f IH]; intros v i x Hv Hi Hf Hx Hb.
  all: rewrite put_uvarint_step; destruct (Z.ltb_spec v 0x80) as [Hs|Hs].
  2: { exfalso. change (2 ^ (7 * Z.of_nat 1)) with 128 in Hv. lia. }
  1-2: rewrite uwrap_id by word_lia; cbn [app uvarint_loop length];
    rewrite (proj2 (Z.ltb_lt v 0x80)) by lia.
  1-2: assert ((9 <? i) || (i =? 9) && (1 <? v) = false) as ->.
  1,3: destruct (Z.ltb_spec 9 i), (Z.eqb_spec i 9), (Z.ltb_spec 1 v); simpl; try lia; subst;
    change (2 ^ (7 * 9)) with (2 ^ 63) in *; norm_pow; lia.
  1-2: rewrite lor_group by lia; f_equal; lia.
  cbn [app uvarint_loop]. rewrite continuation_byte_ge, continuation_byte.
  assert (2 ^ (7 * (i + 1)) = 2 ^ (7 * i) * 2 ^ 7) as Hp by (rewrite <- Z.pow_add_r by lia; f_equal; lia).
  assert (0 < 2 ^ (7 * i)) by (apply Z.pow_pos_nonneg; lia).
  pose proof (Z.div_mod v (2 ^ 7) ltac:(lia)) as Hdm.
  pose proof (Z.mod_pos_bound v (2 ^ 7) ltac:(lia)).
  assert (0 <= v / 2 ^ 7) by (apply Z.div_pos; lia).
  rewrite lor_group by nia. rewrite Z.shiftr_div_pow2 by lia.
  replace (7 * i + 7) with (7 * (i + 1)) by lia.
  rewrite IH; [f_equal; [rewrite Hp; nia|cbn [length]; lia]| |lia..| |].
  - split; [done|]. apply Z.div_lt_upper_bound; [lia|]. rewrite <- Z.pow_add_r by lia.
    replace (7 + 7 * Z.of_nat (S f)) with (7 * Z.of_nat (S (S f))) by lia. lia.
  - rewrite Hp. nia.
  - rewrite Hp. nia.
Qed.

Lemma Uvarint_PutUvarint v rest :
  in_u 64 v -> Uvarint (PutUvarint v ++ rest) = (v, Z.of_nat (length (PutUvarint v))).
Proof.
  intros [? ?]. unfold Uvarint, PutUvarint. change 0 with (7 * 0) at 3.
  rewrite (uvarint_loop_put 9 v 0 0 rest); [f_equal|..]; change (2 ^ (7 * 0)) with 1; try lia.
Qed.

(** [k] bytes hold the values below [2^(7 k)]. *)
Lemma put_uvarint_short (k fuel : nat) v :
  (0 < k)%nat -> 0 <= v < 2 ^ (7 * Z.of_nat k) -> (length (put_uvarint fuel v) <= k)%nat.
Proof.
  revert k v. induction fuel as [|f IH]; intros k v Hk Hv; simpl; [lia|].
  destruct (Z.ltb_spec v 128); simpl; [lia|].
  destruct k as [|[|k]]; [lia|change (2 ^ (7 * Z.of_nat 1)) with 128 in Hv; lia|].
  assert (length (put_uvarint f (Z.shiftr v 7)) <= S k)%nat; [|lia].
  apply IH; [lia|]. rewrite Z.shiftr_div_pow2 by lia.
  split; [apply Z.div_pos; lia|]. apply Z.div_lt_upper_bound; [lia|].
  rewrite <- Z.pow_add_r by lia. replace (7 + 7 * Z.of_nat (S k)) with (7 * Z.of_nat (S (S k))) by lia. lia.
Qed.
