(* ===== verification/Rlp.v ===== *)
(** * Rlp: the reflective serializer of [crypto/rlp]

    [Encode] and [Decode] walk a Go value by its [reflect.Kind].  A value that
    reaches the encoder is a [gval] and a type that reaches the decoder a
    [gtype]; the struct tags that steer both are [tag].  A type with a [Pack]
    method is represented by the bytes the method returns and a type with an
    [Unpack] method by that method and by its plain kind, which is what the
    decoder sees behind a pointer.  The kind [reflect.Map], which no type of the
    chain serializes, is left out. *)

From S2P Require Import Prelude Bytes.

(** The values of [field.Tag.Get("eos")]; any other text acts as [NoTag]. *)
Inductive tag : Type := NoTag | Dash | Optional | TrxID | Tag0 | Tag1 | SVTag.

Inductive gval : Type :=
| VString (s : bytes) | VBool (b : bool)
| VInt8 (z : Z) | VInt16 (z : Z) | VInt32 (z : Z) | VInt (z : Z) | VInt64 (z : Z)
| VUint8 (z : Z) | VUint16 (z : Z) | VUint32 (z : Z) | VUint (z : Z) | VUint64 (z : Z)
| VFloat32 (bits : Z) | VFloat64 (bits : Z)
| VArray (l : list gval) | VSlice (l : list gval)
| VPtr (p : option gval)
| VStruct (fs : list (tag * gval))
| VPack (packed : bytes)
| VNil                       (** the [nil] interface *)
| VUnsupported.

Inductive gtype : Type :=
| TString | TBool
| TInt8 | TInt16 | TInt32 | TInt | TInt64
| TUint8 | TUint16 | TUint32 | TUint | TUint64
| TFloat32 | TFloat64
| TArray (n : nat) (t : gtype) | TSlice (t : gtype)
| TPtr (t : gtype)
| TStruct (fs : list (tag * gtype))
| TUnpack (kind : gtype) (unpack : bytes -> result (gval * Z))
| TUnsupported.

Definition MAX_NUM_ARRAY_ELEMENT : Z := 1024 * 1024.
Definition MAX_SIZE_OF_BYTE_ARRAYS : Z := 20 * 1024 * 1024.

Definition len {A} (l : list A) : Z := Z.of_nat (length l).

(** ** Encoder *)

(** The buffer of [WriteUVarInt] has eight bytes: a longer number panics. *)
Definition WriteUVarInt (v : Z) : result bytes :=
  let bs := PutUvarint (u64 v) in
  if len bs <=? 8 then Ok bs else Throw IndexOutOfRange.

Definition writeBool (b : bool) : bytes := [if b then 1 else 0].
Definition writeUint8 (i : Z) : bytes := [i].
Definition writeUint16 (i : Z) : bytes := le_bytes 2 i.
Definition writeUint32 (i : Z) : bytes := le_bytes 4 i.
Definition writeUint64 (i : Z) : bytes := le_bytes 8 i.
Definition writeInt16 (i : Z) : bytes := writeUint16 (u16 i).
Definition writeInt32 (i : Z) : bytes := writeUint32 (u32 i).
Definition writeInt64 (i : Z) : bytes := writeUint64 (u64 i).
Definition writeFloat32 (bits : Z) : bytes := le_bytes 4 bits.
Definition writeFloat64 (bits : Z) : bytes := le_bytes 8 bits.

Definition writeByteArray (b : bytes) : result bytes :=
  EosAssert (len b <=? MAX_SIZE_OF_BYTE_ARRAYS) AssertException ≫= fun _ =>
  WriteUVarInt (len b) ≫= fun l =>
  Ok (l ++ b).
Definition writeString (s : bytes) : result bytes := writeByteArray s.

(** [Encode] threads the package variable [trxIsID], which the [tag0] field of a
    struct sets and its [tag1] field reads.  The optional and variant fields of the
    program are pointers; one of another kind, of which [IsNil] panics (or, for a slice,
    looks at the slice), is an error here. *)
Fixpoint Encode (v : gval) (trxIsID : bool) {struct v} : result (bytes * bool) :=
  let pure (bs : bytes) := Ok (bs, trxIsID) in
  let encode_list :=
    fix encode_list (l : list gval) (st : bool) : result (bytes * bool) :=
      match l with
      | [] => Ok ([], st)
      | x :: l' =>
          Encode x st ≫= fun '(b1, st) =>
          encode_list l' st ≫= fun '(b2, st) => Ok (b1 ++ b2, st)
      end in
  let encode_fields :=
    fix encode_fields (fs : list (tag * gval)) (st : bool) : result (bytes * bool) :=
      match fs with
      | [] => Ok ([], st)
      | (tg, x) :: fs' =>
          let field (pre : bytes) (st : bool) :=
            Encode x st ≫= fun '(b1, st) =>
            encode_fields fs' st ≫= fun '(b2, st) => Ok (pre ++ b1 ++ b2, st) in
          let skip (pre : bytes) (st : bool) :=
            encode_fields fs' st ≫= fun '(b2, st) => Ok (pre ++ b2, st) in
          match tg with
          | Dash => skip [] st
          | Optional =>
              match x with
              | VPtr None => skip (writeBool false) st
              | VPtr (Some _) => field (writeBool true) st
              | _ => Throw NilDereference     (* [IsNil] of a kind that has no nil *)
              end
          | Tag0 =>
              match x with
              | VPtr None => skip (writeUint8 0) true
              | VPtr (Some _) => field (writeUint8 1) false
              | _ => Throw NilDereference
              end
          | Tag1 => if negb st then skip [] st else field [] st
          | _ => field [] st
          end
      end in
  match v with
  | VPack packed => pure packed
  | VNil => pure []
  | VString s => writeString s ≫= pure
  | VBool b => pure (writeBool b)
  | VInt8 z => pure [u8 z]
  | VInt16 z => pure (writeInt16 z)
  | VInt32 z => pure (writeInt32 z)
  | VInt z => pure (writeInt32 z)
  | VInt64 z => pure (writeInt64 z)
  | VUint8 z => pure (writeUint8 z)
  | VUint16 z => pure (writeUint16 z)
  | VUint32 z => pure (writeUint32 z)
  | VUint z => pure (writeUint32 (u32 z))
  | VUint64 z => pure (writeUint64 z)
  | VFloat32 bits => pure (writeFloat32 bits)
  | VFloat64 bits => pure (writeFloat64 bits)
  | VArray l =>
      EosAssert (len l <=? MAX_NUM_ARRAY_ELEMENT) AssertException ≫= fun _ =>
      encode_list l trxIsID
  | VSlice l =>
      EosAssert (len l <=? MAX_NUM_ARRAY_ELEMENT) AssertException ≫= fun _ =>
      WriteUVarInt (len l) ≫= fun n =>
      encode_list l trxIsID ≫= fun '(bs, st) => Ok (n ++ bs, st)
  | VPtr None => Throw NilDereference
  | VPtr (Some (VPtr _)) => Throw RlpError      (* one level is dereferenced *)
  | VPtr (Some x) => Encode x trxIsID
  | VStruct fs => encode_fields fs trxIsID
  | VUnsupported => Throw RlpError
  end.

Definition EncodeToBytes (v : gval) (trxIsID : bool) : result bytes :=
  Encode v trxIsID ≫= fun '(bs, _) => Ok bs.

Definition EncodeSize (v : gval) (trxIsID : bool) : result Z :=
  EncodeToBytes v trxIsID ≫= fun bs => Ok (len bs).

(** ** Decoder *)

Record Decoder : Type := mkDecoder { data : bytes; pos : Z; destaticVariantTag : Z }.

Definition NewDecoder (data : bytes) : Decoder := mkDecoder data 0 0.

Definition remaining (d : Decoder) : Z := len (data d) - pos d.
(** [d.data[d.pos:]] *)
Definition unread (d : Decoder) : bytes := drop (Z.to_nat (pos d)) (data d).
Definition advance (n : Z) (d : Decoder) : Decoder :=
  mkDecoder (data d) (pos d + n) (destaticVariantTag d).

Definition ReadUvarint64 : M Decoder Z :=
  d ← get;
  let '(l, read) := Uvarint (unread d) in
  if read <? 0 then lift (Throw RlpError)
  else _ ← modify (advance read); mret l.

(** The additions of [d.pos + int(l)] are those of Go's 64-bit [int]. *)
Definition ReadByteArray : M Decoder bytes :=
  l ← ReadUvarint64;
  d ← get;
  let e := i64 (pos d + i64 l) in
  if len (data d) <? e then lift (Throw RlpError)
  else if e <? pos d then lift (Throw SliceOutOfRange)
  else _ ← modify (advance (i64 l)); mret (take (Z.to_nat (i64 l)) (unread d)).

Definition ReadString : M Decoder bytes := ReadByteArray.

(** The fixed-width reads: the check of the remaining length, the little-endian
    value and the advance of the position. *)
Definition read_fixed (n : nat) : M Decoder Z :=
  d ← get;
  if remaining d <? Z.of_nat n then lift (Throw RlpError)
  else _ ← modify (advance (Z.of_nat n)); mret (le_val (take n (unread d))).

Definition ReadByte : M Decoder Z := read_fixed 1.
Definition ReadBool : M Decoder bool := b ← ReadByte; mret (negb (b =? 0)).
Definition ReadUint8 : M Decoder Z := read_fixed 1.
Definition ReadUint16 : M Decoder Z := read_fixed 2.
Definition ReadUint32 : M Decoder Z := read_fixed 4.
Definition ReadUint : M Decoder Z := read_fixed 4.
Definition ReadUint64 : M Decoder Z := read_fixed 8.
Definition ReadInt8 : M Decoder Z := n ← ReadUint8; mret (swrap 8 n).
Definition ReadInt16 : M Decoder Z := n ← ReadUint16; mret (swrap 16 n).
Definition ReadInt32 : M Decoder Z := n ← ReadUint32; mret (swrap 32 n).
Definition readInt : M Decoder Z := n ← ReadUint; mret (swrap 64 n).
Definition ReadInt64 : M Decoder Z := n ← ReadUint64; mret (swrap 64 n).
Definition ReadFloat32 : M Decoder Z := read_fixed 4.
Definition ReadFloat64 : M Decoder Z := read_fixed 8.
Definition ReadName : M Decoder Z := ReadUint64.
Definition ReadUvarint32 : M Decoder Z := n ← ReadUvarint64; mret (u32 n).

Definition read_bytes (n : nat) : M Decoder bytes :=
  d ← get;
  if remaining d <? Z.of_nat n then lift (Throw RlpError)
  else _ ← modify (advance (Z.of_nat n)); mret (take n (unread d)).
Definition ReadUint128 : M Decoder bytes := read_bytes 16.
Definition ReadChecksum160 : M Decoder bytes := read_bytes 20.
Definition ReadChecksum256 : M Decoder bytes := read_bytes 32.
Definition ReadChecksum512 : M Decoder bytes := read_bytes 64.

(** The byte of an optional or variant field: [x, _ := d.ReadByte()] ignores the
    error of an exhausted buffer and goes on with zero. *)
Definition ReadByte_ignore : M Decoder Z :=
  fun d => match ReadByte d with (d', Ok b) => (d', Ok b) | (d', Throw _) => (d', Ok 0) end.

(** The zero value of a type, in which a skipped field is left. *)
Fixpoint zero (t : gtype) : gval :=
  match t with
  | TString => VString [] | TBool => VBool false
  | TInt8 => VInt8 0 | TInt16 => VInt16 0 | TInt32 => VInt32 0 | TInt => VInt 0 | TInt64 => VInt64 0
  | TUint8 => VUint8 0 | TUint16 => VUint16 0 | TUint32 => VUint32 0 | TUint => VUint 0 | TUint64 => VUint64 0
  | TFloat32 => VFloat32 0 | TFloat64 => VFloat64 0
  | TArray n t' => VArray (replicate n (zero t'))
  | TSlice _ => VSlice []
  | TPtr _ => VPtr None
  | TStruct fs =>
      VStruct ((fix zeros (fs : list (tag * gtype)) :=
        match fs with [] => [] | (tg, t') :: fs' => (tg, zero t') :: zeros fs' end) fs)
  | TUnpack k _ => zero k
  | TUnsupported => VUnsupported
  end.

Fixpoint Decode (t : gtype) : M Decoder gval :=
  let decode_n :=
    fix decode_n (m : M Decoder gval) (n : nat) : M Decoder (list gval) :=
      match n with
      | O => mret []
      | S n' => x ← m; xs ← decode_n m n'; mret (x :: xs)
      end in
  let decodeStruct :=
    fix decodeStruct (fs : list (tag * gtype)) : M Decoder (list (tag * gval)) :=
      match fs with
      | [] => mret []
      | (tg, t') :: fs' =>
          let field := x ← Decode t'; xs ← decodeStruct fs'; mret ((tg, x) :: xs) in
          let skip := xs ← decodeStruct fs'; mret ((tg, zero t') :: xs) in
          match tg with
          | Dash | SVTag => skip
          | Optional => isPresent ← ReadByte_ignore; if isPresent =? 0 then skip else field
          | TrxID =>
              b ← ReadByte_ignore;
              _ ← modify (fun d => mkDecoder (data d) (pos d) b);
              field
          | Tag0 => d ← get; if negb (destaticVariantTag d =? 1) then skip else field
          | Tag1 => d ← get; if negb (destaticVariantTag d =? 0) then skip else field
          | NoTag => field
          end
      end in
  match t with
  | TUnpack _ unpack =>
      d ← get;
      '(v, n) ← lift (unpack (unread d));
      _ ← modify (advance n);
      mret v
  | TPtr (TPtr _) => lift (Throw RlpError)
  | TPtr (TUnpack k _) => x ← Decode k; mret (VPtr (Some x))
  | TPtr t' => x ← Decode t'; mret (VPtr (Some x))
  | TString => x ← ReadString; mret (VString x)
  | TBool => x ← ReadBool; mret (VBool x)
  | TInt => x ← readInt; mret (VInt x)
  | TInt8 => x ← ReadInt8; mret (VInt8 x)
  | TInt16 => x ← ReadInt16; mret (VInt16 x)
  | TInt32 => x ← ReadInt32; mret (VInt32 x)
  | TInt64 => x ← ReadInt64; mret (VInt64 x)
  | TUint => x ← ReadUint; mret (VUint x)
  | TUint8 => x ← ReadUint8; mret (VUint8 x)
  | TUint16 => x ← ReadUint16; mret (VUint16 x)
  | TUint32 => x ← ReadUint32; mret (VUint32 x)
  | TUint64 => x ← ReadUint64; mret (VUint64 x)
  | TFloat32 => x ← ReadFloat32; mret (VFloat32 x)
  | TFloat64 => x ← ReadFloat64; mret (VFloat64 x)
  | TArray n t' => xs ← decode_n (Decode t') n; mret (VArray xs)
  | TSlice t' =>
      l ← ReadUvarint64;
      if i64 l <? 0 then lift (Throw SliceOutOfRange)     (* [MakeSlice] *)
      else xs ← decode_n (Decode t') (Z.to_nat (i64 l)); mret (VSlice xs)
  | TStruct fs => xs ← decodeStruct fs; mret (VStruct xs)
  | TUnsupported => lift (Throw RlpError)
  end.

Definition DecodeBytes (b : bytes) (t : gtype) : result gval := (Decode t (NewDecoder b)).2.

(** ** Values the format carries

    [fits allow t v]: the value [v] has type [t] and every part of it is within the
    ranges the format can represent.  The variant pair of a [trxID] field is only
    allowed outside another variant ([allow]); the fields a variant or a [-] tag
    skips hold their zero value. *)

Definition plain_elem (t : gtype) : bool :=
  match t with TPtr _ | TUnpack _ _ => false | _ => true end.

Fixpoint fits (allow : bool) (t : gtype) (v : gval) {struct t} : Prop :=
  match t, v with
  | TString, VString s => len s <= MAX_SIZE_OF_BYTE_ARRAYS
  | TBool, VBool _ => True
  | TInt8, VInt8 z => in_s 8 z
  | TInt16, VInt16 z => in_s 16 z
  | TInt32, VInt32 z => in_s 32 z
  | TInt, VInt z => in_u 32 z
  | TInt64, VInt64 z => in_s 64 z
  | TUint8, VUint8 z => in_u 8 z
  | TUint16, VUint16 z => in_u 16 z
  | TUint32, VUint32 z => in_u 32 z
  | TUint, VUint z => in_u 32 z
  | TUint64, VUint64 z => in_u 64 z
  | TFloat32, VFloat32 z => in_u 32 z
  | TFloat64, VFloat64 z => in_u 64 z
  | TArray n t', VArray l =>
      length l = n /\ len l <= MAX_NUM_ARRAY_ELEMENT /\ Forall (fits allow t') l
  | TSlice t', VSlice l => len l <= MAX_NUM_ARRAY_ELEMENT /\ Forall (fits allow t') l
  | TPtr t', VPtr (Some x) => plain_elem t' = true /\ fits allow t' x
  | TUnpack _ unpack, VPack p => forall rest, unpack (p ++ rest) = Ok (VPack p, len p)
  | TStruct fs, VStruct vs =>
      (fix fits_fields (fs : list (tag * gtype)) (vs : list (tag * gval)) : Prop :=
         match fs, vs with
         | [], [] => True
         | (tg, t') :: fs', (tg', x) :: vs' =>
             tg = tg' /\ fits_fields fs' vs' /\
             match tg with
             | NoTag => fits allow t' x
             | Dash => x = zero t'
             | Optional =>
                 match x with
                 | VPtr None => exists t'', t' = TPtr t''
                 | VPtr (Some _) => fits allow t' x
                 | _ => False
                 end
             | TrxID =>
                 allow = true /\
                 match t', x with
                 | TStruct [(Tag0, t0); (Tag1, t1)], VStruct [(Tag0, x0); (Tag1, x1)] =>
                     match x0 with
                     | VPtr None => (exists t'', t0 = TPtr t'') /\ fits false t1 x1
                     | VPtr (Some _) => fits false t0 x0 /\ x1 = zero t1
                     | _ => False
                     end
                 | _, _ => False
                 end
             | _ => False
             end
         | _, _ => False
         end) fs vs
  | _, _ => False
  end.

(** Induction over types with the hypothesis for the fields of a struct. *)
Definition gtype_rect' (P : gtype -> Prop)
    (Hbase : forall t, match t with TArray _ _ | TSlice _ | TPtr _ | TStruct _ | TUnpack _ _ => True | _ => P t end)
    (Harray : forall n t, P t -> P (TArray n t))
    (Hslice : forall t, P t -> P (TSlice t))
    (Hptr : forall t, P t -> P (TPtr t))
    (Hstruct : forall fs, Forall (fun f => P f.2) fs -> P (TStruct fs))
    (Hunpack : forall k u, P (TUnpack k u)) : forall t, P t :=
  fix go (t : gtype) : P t :=
    match t return P t with
    | TArray n t' => Harray n t' (go t')
    | TSlice t' => Hslice t' (go t')
    | TPtr t' => Hptr t' (go t')
    | TStruct fs =>
        Hstruct fs ((fix gos (fs : list (tag * gtype)) : Forall (fun f => P f.2) fs :=
          match fs with
          | [] => List.Forall_nil _
          | f :: fs' => List.Forall_cons _ f fs' (go f.2) (gos fs')
          end) fs)
    | TUnpack k u => Hunpack k u
    | t => Hbase t
    end.

(** ** The loops of the encoder and decoder by themselves *)

Fixpoint encode_list (l : list gval) (st : bool) : result (bytes * bool) :=
  match l with
  | [] => Ok ([], st)
  | x :: l' =>
      Encode x st ≫= fun '(b1, st) =>
      encode_list l' st ≫= fun '(b2, st) => Ok (b1 ++ b2, st)
  end.

Fixpoint encode_fields (fs : list (tag * gval)) (st : bool) : result (bytes * bool) :=
  match fs with
  | [] => Ok ([], st)
  | (tg, x) :: fs' =>
      let field (pre : bytes) (st : bool) :=
        Encode x st ≫= fun '(b1, st) =>
        encode_fields fs' st ≫= fun '(b2, st) => Ok (pre ++ b1 ++ b2, st) in
      let skip (pre : bytes) (st : bool) :=
        encode_fields fs' st ≫= fun '(b2, st) => Ok (pre ++ b2, st) in
      match tg with
      | Dash => skip [] st
      | Optional =>
          match x with
          | VPtr None => skip (writeBool false) st
          | VPtr (Some _) => field (writeBool true) st
          | _ => Throw NilDereference
          end
      | Tag0 =>
          match x with
          | VPtr None => skip (writeUint8 0) true
          | VPtr (Some _) => field (writeUint8 1) false
          | _ => Throw NilDereference
          end
      | Tag1 => if negb st then skip [] st else field [] st
      | _ => field [] st
      end
  end.

Lemma Encode_VArray l st :
  Encode (VArray l) st =
    (EosAssert (len l <=? MAX_NUM_ARRAY_ELEMENT) AssertException ≫= fun _ => encode_list l st).
Proof. reflexivity. Qed.

Lemma Encode_VSlice l st :
  Encode (VSlice l) st =
    (EosAssert (len l <=? MAX_NUM_ARRAY_ELEMENT) AssertException ≫= fun _ =>
     WriteUVarInt (len l) ≫= fun n =>
     encode_list l st ≫= fun '(bs, st) => Ok (n ++ bs, st)).
Proof. reflexivity. Qed.

Lemma Encode_VStruct fs st : Encode (VStruct fs) st = encode_fields fs st.
Proof. reflexivity. Qed.

Fixpoint decode_n (m : M Decoder gval) (n : nat) : M Decoder (list gval) :=
  match n with
  | O => mret []
  | S n' => x ← m; xs ← decode_n m n'; mret (x :: xs)
  end.

Fixpoint decodeStruct (fs : list (tag * gtype)) : M Decoder (list (tag * gval)) :=
  match fs with
  | [] => mret []
  | (tg, t') :: fs' =>
      let field := x ← Decode t'; xs ← decodeStruct fs'; mret ((tg, x) :: xs) in
      let skip := xs ← decodeStruct fs'; mret ((tg, zero t') :: xs) in
      match tg with
      | Dash | SVTag => skip
      | Optional => isPresent ← ReadByte_ignore; if isPresent =? 0 then skip else field
      | TrxID =>
          b ← ReadByte_ignore;
          _ ← modify (fun d => mkDecoder (data d) (pos d) b);
          field
      | Tag0 => d ← get; if negb (destaticVariantTag d =? 1) then skip else field
      | Tag1 => d ← get; if negb (destaticVariantTag d =? 0) then skip else field
      | NoTag => field
      end
  end.

Lemma Decode_TArray n t : Decode (TArray n t) = (xs ← decode_n (Decode t) n; mret (VArray xs)).
Proof. reflexivity. Qed.
Lemma Decode_TSlice t :
  Decode (TSlice t) =
    (l ← ReadUvarint64;
     if i64 l <? 0 then lift (Throw SliceOutOfRange)
     else xs ← decode_n (Decode t) (Z.to_nat (i64 l)); mret (VSlice xs)).
Proof. reflexivity. Qed.
Lemma Decode_TStruct fs : Decode (TStruct fs) = (xs ← decodeStruct fs; mret (VStruct xs)).
Proof. reflexivity. Qed.

Section FitsFields.
Variable allow : bool.

Fixpoint fits_fields (fs : list (tag * gtype)) (vs : list (tag * gval)) : Prop :=
  match fs, vs with
  | [], [] => True
  | (tg, t') :: fs', (tg', x) :: vs' =>
      tg = tg' /\ fits_fields fs' vs' /\
      match tg with
      | NoTag => fits allow t' x
      | Dash => x = zero t'
      | Optional =>
          match x with
          | VPtr None => exists t'', t' = TPtr t''
          | VPtr (Some _) => fits allow t' x
          | _ => False
          end
      | TrxID =>
          allow = true /\
          match t', x with
          | TStruct [(Tag0, t0); (Tag1, t1)], VStruct [(Tag0, x0); (Tag1, x1)] =>
              match x0 with
              | VPtr None => (exists t'', t0 = TPtr t'') /\ fits false t1 x1
              | VPtr (Some _) => fits false t0 x0 /\ x1 = zero t1
              | _ => False
              end
          | _, _ => False
          end
      | _ => False
      end
  | _, _ => False
  end.

End FitsFields.

Lemma fits_TStruct allow fs vs : fits allow (TStruct fs) (VStruct vs) = fits_fields allow fs vs.
Proof. reflexivity. Qed.

(** ** What a reader does with its bytes at the front of the unread data *)

Definition ready (d : Decoder) (l : bytes) : Prop :=
  0 <= pos d /\ pos d + len l = len (data d) /\ len (data d) < 2 ^ 62 /\ unread d = l.

Definition decodes {A} (keep : bool) (m : M Decoder A) (bs : bytes) (a : A) : Prop :=
  forall d post, ready d (bs ++ post) ->
  exists d', m d = (d', Ok a) /\ ready d' post /\ data d' = data d /\
    (keep = true -> destaticVariantTag d' = destaticVariantTag d).

Lemma len_app {A} (l1 l2 : list A) : len (l1 ++ l2) = len l1 + len l2.
Proof. unfold len. rewrite length_app. lia. Qed.

Lemma ready_advance d bs post : ready d (bs ++ post) -> ready (advance (len bs) d) post.
Proof.
  unfold ready, unread. simpl. intros (? & Hl & ? & Hu). rewrite len_app in Hl. unfold len in *.
  split_and!; try lia. rewrite Z2Nat.inj_add, Nat2Z.id, <- drop_drop, Hu by lia.
  apply drop_app_length.
Qed.

Lemma decodes_ret {A} keep (a : A) : decodes keep (mret a) [] a.
Proof. intros d post H. by exists d. Qed.

Lemma decodes_bind {A B} keep (m : M Decoder A) (k : A -> M Decoder B) b1 b2 a b :
  decodes keep m b1 a -> decodes keep (k a) b2 b -> decodes keep (m ≫= k) (b1 ++ b2) b.
Proof.
  intros Hm Hk d post Hd. rewrite <- app_assoc in Hd.
  destruct (Hm d _ Hd) as (d1 & E1 & Hd1 & Hdata1 & Ht1).
  destruct (Hk d1 _ Hd1) as (d2 & E2 & Hd2 & Hdata2 & Ht2).
  exists d2. unfold mbind, M_bind. rewrite E1. split_and!; [done..|congruence|].
  intros Hkeep. rewrite Ht2, Ht1; done.
Qed.

Lemma decodes_map {A B} keep (m : M Decoder A) (f : A -> B) bs a :
  decodes keep m bs a -> decodes keep (x ← m; mret (f x)) bs (f a).
Proof.
  intros. rewrite <- (app_nil_r bs). eapply decodes_bind; [done|]. apply decodes_ret.
Qed.

Lemma decodes_step {A} keep (f : bytes -> A) bs :
  decodes keep (d ← get; if remaining d <? len bs then lift (Throw RlpError)
                 else _ ← modify (advance (len bs)); mret (f (take (length bs) (unread d)))) bs (f bs).
Proof.
  intros d post Hd. pose proof (ready_advance _ _ _ Hd) as Ha.
  destruct Hd as (? & Hl & ? & Hu). rewrite len_app in Hl. exists (advance (len bs) d).
  unfold mbind, M_bind, get. rewrite (proj2 (Z.ltb_ge (remaining d) (len bs))) by (unfold remaining; unfold len in *; lia).
  unfold modify, mret, M_ret. rewrite Hu, take_app_length. done.
Qed.

Lemma decodes_fixed keep n z : in_u (8 * Z.of_nat n) z -> decodes keep (read_fixed n) (le_bytes n z) z.
Proof.
  intros Hz. pose proof (decodes_step keep le_val (le_bytes n z)) as H.
  unfold len in H. rewrite length_le_bytes, le_val_le_bytes_small in H by done. exact H.
Qed.

Lemma decodes_byte keep z : in_u 8 z -> decodes keep (read_fixed 1) [z] z.
Proof.
  intros. pose proof (decodes_fixed keep 1 z ltac:(done)) as Hd. simpl in Hd.
  by rewrite uwrap_id in Hd.
Qed.

Lemma decodes_byte_ignore keep z : in_u 8 z -> decodes keep ReadByte_ignore [z] z.
Proof.
  intros Hz d post Hd. destruct (decodes_byte keep z Hz d post Hd) as (d' & E & ?).
  exists d'. unfold ReadByte_ignore, ReadByte. by rewrite E.
Qed.

Lemma decodes_uvarint keep v : in_u 64 v -> decodes keep ReadUvarint64 (PutUvarint v) v.
Proof.
  intros Hv d post Hd. pose proof (ready_advance _ _ _ Hd). exists (advance (len (PutUvarint v)) d).
  destruct Hd as (? & ? & ? & Hu). unfold ReadUvarint64, mbind, M_bind, get.
  rewrite Hu, Uvarint_PutUvarint by done. unfold len.
  rewrite (proj2 (Z.ltb_ge (Z.of_nat _) 0)) by lia. done.
Qed.

Lemma WriteUVarInt_small v : 0 <= v <= MAX_SIZE_OF_BYTE_ARRAYS -> WriteUVarInt v = Ok (PutUvarint v) /\ in_u 64 v.
Proof.
  intros Hv. assert (in_u 64 v) by (unfold in_u, MAX_SIZE_OF_BYTE_ARRAYS in *; lia). split; [|done].
  unfold WriteUVarInt. rewrite uwrap_id by done.
  pose proof (put_uvarint_short 8 10 v ltac:(lia)) as H8. unfold len, MAX_SIZE_OF_BYTE_ARRAYS in *.
  rewrite (proj2 (Z.leb_le _ _)); [done|]. unfold PutUvarint. change (2 ^ (7 * Z.of_nat 8)) with 72057594037927936 in H8. lia.
Qed.

Lemma decodes_byte_array keep bs :
  len bs <= MAX_SIZE_OF_BYTE_ARRAYS ->
  exists p, writeByteArray bs = Ok p /\ decodes keep ReadByteArray p bs.
Proof.
  intros Hb. unfold writeByteArray. rewrite (proj2 (Z.leb_le _ _)) by done. simpl.
  destruct (WriteUVarInt_small (len bs)) as [E Hr]; [unfold MAX_SIZE_OF_BYTE_ARRAYS in *; unfold len in *; lia|].
  rewrite E. simpl. eexists; split; [done|]. unfold ReadByteArray.
  apply (decodes_bind keep _ _ _ _ (len bs) bs); [by apply decodes_uvarint|].
  intros d post Hd. pose proof (ready_advance _ _ _ Hd) as Ha.
  destruct Hd as (? & Hl & ? & Hu). rewrite len_app in Hl. exists (advance (len bs) d).
  unfold mbind, M_bind, get. assert (0 <= len post) by (unfold len; lia).
  assert (Hi : i64 (len bs) = len bs) by (apply swrap_id; [lia|]; unfold in_s; unfold len in *; lia).
  rewrite !Hi, (swrap_id 64 (pos d + len bs)) by (unfold in_s; unfold len in *; lia).
  rewrite (proj2 (Z.ltb_ge (len (data d)) _)), (proj2 (Z.ltb_ge _ (pos d))) by (unfold len in *; lia).
  unfold modify, mret, M_ret, len. rewrite Nat2Z.id, Hu, take_app_length. done.
Qed.

(** ** The round trip, type by type *)

Definition encodes (allow : bool) (v : gval) (bs : bytes) : Prop :=
  forall st, exists st', Encode v st = Ok (bs, st') /\ (allow = false -> st' = st).

Definition round_trips (t : gtype) : Prop :=
  forall allow v, fits allow t v ->
  exists bs, encodes allow v bs /\ decodes (negb allow) (Decode t) bs v.

(** A variant is decoded under the control of the byte read before it, so its two
    alternatives carry the round trip rather than the pair. *)
Definition variant_round_trips (t : gtype) : Prop :=
  match t with
  | TStruct [(Tag0, t0); (Tag1, t1)] => round_trips t0 /\ round_trips t1
  | _ => True
  end.

Lemma encodes_pure allow v bs : (forall st, Encode v st = Ok (bs, st)) -> encodes allow v bs.
Proof. intros H st. exists st. by rewrite H. Qed.

Lemma encodes_list allow keep (m : M Decoder gval) l :
  Forall (fun v => exists bs, encodes allow v bs /\ decodes keep m bs v) l ->
  exists bs,
    (forall st, exists st', encode_list l st = Ok (bs, st') /\ (allow = false -> st' = st)) /\
    decodes keep (decode_n m (length l)) bs l.
Proof.
  induction 1 as [|v l (b1 & He & Hd) _ (b2 & He2 & Hd2)]; simpl.
  - exists []. split; [intros st; by exists st|apply decodes_ret].
  - exists (b1 ++ b2). split.
    + intros st. destruct (He st) as (st1 & E1 & H1). destruct (He2 st1) as (st2 & E2 & H2).
      exists st2. rewrite E1. simpl. rewrite E2. split; [done|]. intros. rewrite H2, H1; done.
    + eapply decodes_bind; [done|]. by apply decodes_map.
Qed.

Ltac rt_scalar :=
  eexists; split; [apply encodes_pure; intros; reflexivity|];
  apply decodes_map; first [by apply decodes_byte | by apply (decodes_fixed _ 2)
    | by apply (decodes_fixed _ 4) | by apply (decodes_fixed _ 8)].

Lemma decodes_signed {A} keep n w z (f : Z -> A) :
  w = 8 * Z.of_nat n -> 0 < w -> in_s w z ->
  decodes keep (x ← (y ← read_fixed n; mret (swrap w y)); mret (f x)) (le_bytes n (uwrap w z)) (f z).
Proof.
  intros -> Hw Hz. apply decodes_map.
  rewrite <- (swrap_id (8 * Z.of_nat n) z) at 2 by done. rewrite <- swrap_uwrap by done.
  apply decodes_map, decodes_fixed. apply uwrap_range. lia.
Qed.

Lemma round_trips_base t :
  match t with TArray _ _ | TSlice _ | TPtr _ | TStruct _ | TUnpack _ _ => True | _ => round_trips t end.
Proof.
  destruct t; try done; intros allow v Hf; destruct v; try done; simpl in Hf.
  - destruct (decodes_byte_array (negb allow) s Hf) as (p & E & Hd). exists p. split.
    + apply encodes_pure. intros. simpl. unfold writeString. by rewrite E.
    + by apply decodes_map.
  - eexists; split; [apply encodes_pure; intros; reflexivity|]. apply decodes_map.
    assert (Hb : in_u 8 (if b then 1 else 0)) by (destruct b; done).
    pose proof (decodes_map (negb allow) _ (fun b => negb (b =? 0)) _ _ (decodes_byte (negb allow) _ Hb)) as H.
    by destruct b.
  - eexists; split; [apply encodes_pure; intros; reflexivity|].
    pose proof (decodes_signed (negb allow) 1 8 z VInt8 eq_refl ltac:(lia) Hf) as H.
    simpl in H. by rewrite uwrap_idemp in H.
  - eexists; split; [apply encodes_pure; intros; reflexivity|].
    by apply (decodes_signed (negb allow) 2 16 z VInt16).
  - eexists; split; [apply encodes_pure; intros; reflexivity|].
    by apply (decodes_signed (negb allow) 4 32 z VInt32).
  - eexists; split; [apply encodes_pure; intros; reflexivity|]. apply decodes_map.
    unfold writeInt32, writeUint32. rewrite uwrap_id by done.
    assert (Hz : z = swrap 64 z) by (symmetry; apply swrap_id; [lia|]; word_lia).
    rewrite Hz at 2. by apply decodes_map, (decodes_fixed _ 4).
  - eexists; split; [apply encodes_pure; intros; reflexivity|].
    by apply (decodes_signed (negb allow) 8 64 z VInt64).
  - rt_scalar.
  - rt_scalar.
  - rt_scalar.
  - eexists; split; [apply encodes_pure; intros; reflexivity|].
    rewrite uwrap_id by done. by apply decodes_map, (decodes_fixed _ 4).
  - rt_scalar.
  - rt_scalar.
  - rt_scalar.
Qed.

Lemma round_trips_array n t : round_trips t -> round_trips (TArray n t).
Proof.
  intros IH allow v Hf. destruct v; try done. destruct Hf as (<- & Hlen & Hall).
  destruct (encodes_list allow (negb allow) (Decode t) l) as (bs & He & Hd).
  { eapply Forall_impl; [done|]. intros. by apply IH. }
  exists bs. split; [|rewrite Decode_TArray; by apply decodes_map].
  intros st. rewrite Encode_VArray, (proj2 (Z.leb_le _ _)) by done. apply He.
Qed.

Lemma round_trips_slice t : round_trips t -> round_trips (TSlice t).
Proof.
  intros IH allow v Hf. destruct v; try done. destruct Hf as (Hlen & Hall).
  destruct (encodes_list allow (negb allow) (Decode t) l) as (bs & He & Hd).
  { eapply Forall_impl; [done|]. intros. by apply IH. }
  destruct (WriteUVarInt_small (len l)) as [E Hr].
  { unfold MAX_NUM_ARRAY_ELEMENT, MAX_SIZE_OF_BYTE_ARRAYS in *; unfold len in *; lia. }
  exists (PutUvarint (len l) ++ bs). split.
  - intros st. rewrite Encode_VSlice, (proj2 (Z.leb_le _ _)) by done. simpl. rewrite E. simpl.
    destruct (He st) as (st' & -> & ?). by exists st'.
  - rewrite Decode_TSlice. eapply decodes_bind; [by apply decodes_uvarint|]. simpl.
    rewrite swrap_id by (try done; unfold in_s, MAX_NUM_ARRAY_ELEMENT in *; unfold len in *; lia).
    rewrite (proj2 (Z.ltb_ge _ _)) by (unfold len; lia). unfold len. rewrite Nat2Z.id.
    by apply decodes_map.
Qed.

Lemma round_trips_ptr t : round_trips t -> round_trips (TPtr t).
Proof.
  intros IH allow v Hf. destruct v as [| | | | | | | | | | | | | | | |[x|]| | | |]; try done.
  destruct Hf as [Hp Hx]. destruct (IH allow x Hx) as (bs & He & Hd). exists bs. split.
  - intros st. destruct (He st) as (st' & E & ?). exists st'. split; [|done].
    destruct x; try exact E; by destruct t.
  - destruct t; try done; by apply (decodes_map _ _ (fun x => VPtr (Some x))).
Qed.

Lemma round_trips_unpack k u : round_trips (TUnpack k u).
Proof.
  intros allow v Hf. destruct v; try done. simpl in Hf. exists packed. split.
  - by apply encodes_pure.
  - intros d post Hd. pose proof (ready_advance _ _ _ Hd). exists (advance (len packed) d).
    destruct Hd as (? & ? & ? & Hu). simpl. unfold mbind, M_bind, get, lift.
    rewrite Hu, Hf. done.
Qed.

Definition set_variant (b : Z) : M Decoder unit := modify (fun d => mkDecoder (data d) (pos d) b).

(** The two alternatives of a variant: the byte [1] announces the first, [0] the
    second, and both sides agree on which field follows. *)
Lemma variant_rt t0 t1 x0 x1 :
  round_trips t0 -> round_trips t1 ->
  match x0 with
  | VPtr None => (exists t'', t0 = TPtr t'') /\ fits false t1 x1
  | VPtr (Some _) => fits false t0 x0 /\ x1 = zero t1
  | _ => False
  end ->
  exists b bs, in_u 8 b /\
    (forall st, exists st', Encode (VStruct [(Tag0, x0); (Tag1, x1)]) st = Ok (b :: bs, st')) /\
    decodes false (_ ← set_variant b; Decode (TStruct [(Tag0, t0); (Tag1, t1)])) bs
      (VStruct [(Tag0, x0); (Tag1, x1)]).
Proof.
  intros R0 R1 Hx.
  destruct x0 as [| | | | | | | | | | | | | | | |[y|]| | | |]; try done.
  - destruct Hx as [Hf ->]. destruct (R0 false _ Hf) as (bs & He & Hd). exists 1, bs.
    split; [done|]. split.
    + intros st. destruct (He false) as (st' & E & Hst). rewrite (Hst eq_refl) in E. exists false.
      rewrite Encode_VStruct. cbn [encode_fields]. rewrite E. simpl. by rewrite app_nil_r.
    + intros d post Hr. destruct (Hd (mkDecoder (data d) (pos d) 1) post Hr) as (d' & E & Hr' & Hdata & Ht).
      exists d'. rewrite Decode_TStruct. cbn [decodeStruct].
      unfold set_variant, modify, mbind, M_bind, get. simpl. rewrite E. simpl. by rewrite (Ht eq_refl).
  - destruct Hx as [[t'' ->] Hf]. destruct (R1 false _ Hf) as (bs & He & Hd). exists 0, bs.
    split; [done|]. split.
    + intros st. destruct (He true) as (st' & E & Hst). exists st'.
      rewrite Encode_VStruct. cbn [encode_fields]. simpl. rewrite E. simpl. by rewrite app_nil_r.
    + intros d post Hr. destruct (Hd (mkDecoder (data d) (pos d) 0) post Hr) as (d' & E & Hr' & Hdata & Ht).
      exists d'. rewrite Decode_TStruct. cbn [decodeStruct].
      unfold set_variant, modify, mbind, M_bind, get. simpl. rewrite E. done.
Qed.

Definition fields_encode (allow : bool) (vs : list (tag * gval)) (bs : bytes) : Prop :=
  forall st, exists st', encode_fields vs st = Ok (bs, st') /\ (allow = false -> st' = st).

(** A field that both sides process: the bytes [pre] announce it. *)
Lemma field_rt allow (x : gval) (vs : list (tag * gval)) b1 b2 :
  encodes allow x b1 -> fields_encode allow vs b2 ->
  forall pre st, exists st',
    (Encode x st ≫= fun '(b1, st) =>
     encode_fields vs st ≫= fun '(b2, st) => Ok (pre ++ b1 ++ b2, st)) = Ok (pre ++ b1 ++ b2, st') /\
    (allow = false -> st' = st).
Proof.
  intros He Hr pre st. destruct (He st) as (st1 & E1 & H1). destruct (Hr st1) as (st2 & E2 & H2).
  exists st2. rewrite E1. simpl. rewrite E2. split; [done|]. intros. rewrite H2, H1; done.
Qed.

Lemma skip_rt allow (vs : list (tag * gval)) b2 :
  fields_encode allow vs b2 ->
  forall pre st, exists st',
    (encode_fields vs st ≫= fun '(b2, st) => Ok (pre ++ b2, st)) = Ok (pre ++ b2, st') /\
    (allow = false -> st' = st).
Proof. intros Hr pre st. destruct (Hr st) as (st2 & E2 & H2). exists st2. by rewrite E2. Qed.

Lemma fields_rt allow fs : forall vs,
  Forall (fun f => round_trips f.2 /\ variant_round_trips f.2) fs ->
  fits_fields allow fs vs ->
  exists bs, fields_encode allow vs bs /\ decodes (negb allow) (decodeStruct fs) bs vs.
Proof.
  induction fs as [|[tg t] fs IH]; intros [|[tg' x] vs] Hall Hf; try done.
  - exists []. split; [intros st; by exists st|apply decodes_ret].
  - apply Forall_cons in Hall as [[Ht Hv] Hall]. destruct Hf as (<- & Hrest & Hf). simpl in Ht, Hv.
    destruct (IH vs Hall Hrest) as (b2 & He2 & Hd2).
    assert (Hfield : fits allow t x -> exists b1, encodes allow x b1 /\
      decodes (negb allow) (x ← Decode t; xs ← decodeStruct fs; mret ((tg, x) :: xs)) (b1 ++ b2) ((tg, x) :: vs)).
    { intros Hx. destruct (Ht allow x Hx) as (b1 & He1 & Hd1). exists b1. split; [done|].
      eapply decodes_bind; [done|]. by apply decodes_map. }
    destruct tg; try done; cbn [decodeStruct].
    + destruct (Hfield Hf) as (b1 & He1 & Hd). exists (b1 ++ b2). split; [|done].
      exact (field_rt allow x vs b1 b2 He1 He2 []).
    + subst x. exists b2. split; [exact (skip_rt allow vs b2 He2 [])|by apply decodes_map].
    + destruct x as [| | | | | | | | | | | | | | | |[y|]| | | |]; try done.
      * destruct (Hfield Hf) as (b1 & He1 & Hd). exists ([1] ++ b1 ++ b2). split.
        -- exact (field_rt allow (VPtr (Some y)) vs b1 b2 He1 He2 [1]).
        -- by eapply decodes_bind; [by apply decodes_byte_ignore|].
      * destruct Hf as [t'' ->]. exists ([0] ++ b2). split.
        -- exact (skip_rt allow vs b2 He2 [0]).
        -- eapply decodes_bind; [by apply decodes_byte_ignore|]. by apply decodes_map.
    + destruct Hf as [-> Hf].
      destruct t as [| | | | | | | | | | | | | | | | |[|[[] t0] [|[[] t1] [|]]]| |]; try done.
      destruct x as [| | | | | | | | | | | | | | | | |[|[[] x0] [|[[] x1] [|]]]| | |]; try done.
      destruct Hv as [R0 R1]. destruct (variant_rt t0 t1 x0 x1 R0 R1 Hf) as (b & bs & Hb & He & Hd).
      exists ([b] ++ bs ++ b2). split.
      * intros st. destruct (He st) as (st' & E). destruct (He2 st') as (st2 & E2 & ?). exists st2.
        cbn [encode_fields]. rewrite E. simpl. by rewrite E2.
      * eapply decodes_bind; [by apply decodes_byte_ignore|].
        apply (decodes_bind _ _ (fun x => xs ← decodeStruct fs; mret ((TrxID, x) :: xs)) _ _ _ _ Hd).
        by apply decodes_map.
Qed.

Lemma round_trips_all t : round_trips t /\ variant_round_trips t.
Proof.
  revert t. apply (gtype_rect' (fun t => round_trips t /\ variant_round_trips t)).
  - intros t. pose proof (round_trips_base t). by destruct t.
  - intros n t []. split; [by apply round_trips_array|done].
  - intros t []. split; [by apply round_trips_slice|done].
  - intros t []. split; [by apply round_trips_ptr|done].
  - intros fs H. split.
    + intros allow v Hf. destruct v; try done. rewrite fits_TStruct in Hf.
      destruct (fields_rt allow fs _ H Hf) as (bs & He & Hd). exists bs.
      split; [exact He|]. rewrite Decode_TStruct. by apply decodes_map.
    + destruct fs as [|[[] t0] [|[[] t1] [|]]]; try done.
      apply Forall_cons in H as [[H0 _] H]. by apply Forall_cons in H as [[H1 _] _].
  - intros k u. split; [apply round_trips_unpack|done].
Qed.

(** ** Properties *)

(** C40. Serialization round trip: a value that fits its type (every number in
    the range of its encoding, byte arrays of at most 20 MiB, arrays and slices of at
    most 2^20 elements, one level of pointers, one transaction variant) is encoded
    without an error whatever the package variable [trxIsID] holds, and a decoder
    positioned before these bytes, wherever they are in a buffer below 2^62
    bytes, returns the value and consumes exactly them. *)
Theorem rlp_round_trip t v :
  fits true t v ->
  exists bs, (forall trxIsID, EncodeToBytes v trxIsID = Ok bs) /\
    forall d post, ready d (bs ++ post) ->
      exists d', Decode t d = (d', Ok v) /\ pos d' = pos d + len bs /\ unread d' = post.
Proof.
  intros Hf. destruct (proj1 (round_trips_all t) true v Hf) as (bs & He & Hd). exists bs. split.
  - intros st. destruct (He st) as (st' & E & _). unfold EncodeToBytes. by rewrite E.
  - intros d post Hr. destruct (Hd d post Hr) as (d' & E & Hr' & Hdata & _). exists d'.
    split; [done|]. destruct Hr as (? & Hl & _). destruct Hr' as (? & Hl' & _ & Hu).
    rewrite len_app in Hl. rewrite Hdata in Hl'. split; [lia|done].
Qed.

(** The receipt of a packed transaction, as the block format nests it: a status, an
    optional field and the transaction variant. *)
Definition example_type : gtype :=
  TStruct [(NoTag, TUint8); (Optional, TPtr (TSlice TString));
           (TrxID, TStruct [(Tag0, TPtr (TStruct [(NoTag, TInt32)])); (Tag1, TArray 2 TUint64)]);
           (Dash, TUint32)].
Definition example_value : gval :=
  VStruct [(NoTag, VUint8 3); (Optional, VPtr (Some (VSlice [VString [104; 105]])));
           (TrxID, VStruct [(Tag0, VPtr (Some (VStruct [(NoTag, VInt32 (-7))])));
                            (Tag1, VArray [VUint64 0; VUint64 0])]);
           (Dash, VUint32 0)].

Lemma rlp_round_trip_witness :
  exists bs, (forall trxIsID, EncodeToBytes example_value trxIsID = Ok bs) /\
    forall d post, ready d (bs ++ post) ->
      exists d', Decode example_type d = (d', Ok example_value) /\
        pos d' = pos d + len bs /\ unread d' = post.
Proof.
  apply (rlp_round_trip example_type example_value). simpl.
  unfold len, MAX_NUM_ARRAY_ELEMENT, MAX_SIZE_OF_BYTE_ARRAYS, in_u, in_s. norm_pow. simpl.
  repeat first [done | lia | split | constructor].
Defined.

(** A negative Go [int] does not survive the format: it is written as an
    [int32] and read back as the unsigned 32-bit number. *)
Theorem rlp_negative_int z :
  - 2 ^ 31 <= z < 0 ->
  exists bs, (forall trxIsID, EncodeToBytes (VInt z) trxIsID = Ok bs) /\
    DecodeBytes bs TInt = Ok (VInt (z + 2 ^ 32)).
Proof.
  intros Hz. exists (le_bytes 4 (u32 z)). split; [done|].
  assert (Hu : u32 z = z + 2 ^ 32) by word_lia.
  assert (Hr : in_u 32 (z + 2 ^ 32)) by word_lia.
  destruct (round_trips_base TInt true (VInt (z + 2 ^ 32)) Hr) as (bs & He & Hd).
  destruct (He true) as (st & E & _). simpl in E. injection E as <- _.
  destruct (Hd (NewDecoder (writeInt32 (z + 2 ^ 32))) []) as (d' & E & _).
  { rewrite app_nil_r. unfold writeInt32, writeUint32, ready, len. simpl pos. simpl data.
    rewrite length_le_bytes. done. }
  unfold DecodeBytes. rewrite Hu. unfold writeInt32, writeUint32 in E.
  rewrite uwrap_id in E by done. by rewrite E.
Qed.

Lemma rlp_negative_int_witness :
  exists bs, (forall trxIsID, EncodeToBytes (VInt (-1)) trxIsID = Ok bs) /\
    DecodeBytes bs TInt = Ok (VInt 4294967295).
Proof. apply (rlp_negative_int (-1)). norm_pow. lia. Defined.
