(* ===== verification/Sha256.v ===== *)
(** * Sha256: the digest type of [crypto/sha256.go]

    The digest is four 64-bit words filled in little-endian order from the 32
    bytes of the hash function.  The hash function itself is that of Go's
    [crypto/sha256], written out here so that digests evaluate. *)

From S2P Require Import Prelude Bytes Rlp.

(** ** [crypto/sha256] *)

Module Digest.

Definition rotr (x n : Z) : Z := Z.lor (Z.shiftr x n) (u32 (Z.shiftl x (32 - n))).

(** The constants, from their definition in the standard: the first 32 bits of the
    fractional parts of the cube roots of the first 64 primes, and of the square roots
    of the first 8. *)
Definition is_prime (n : Z) : bool :=
  (1 <? n) && forallb (fun d => negb (n mod d =? 0)) (seqZ 2 (n - 2)).

Definition primes (count : nat) : list Z := take count (List.filter is_prime (seqZ 0 320)).

(** The integer cube root, one bit at a time from bit 35 down. *)
Definition cube_root (n : Z) : Z :=
  foldl (fun r i => if (r + 2 ^ i) ^ 3 <=? n then r + 2 ^ i else r) 0 (reverse (seqZ 0 36)).

Definition K : list Z := Eval vm_compute in map (fun p => u32 (cube_root (p * 2 ^ 96))) (primes 64).

Definition init : list Z := Eval vm_compute in map (fun p => u32 (Z.sqrt (p * 2 ^ 64))) (primes 8).

Definition at_ (l : list Z) (i : nat) : Z := nth i l 0.

(** The message schedule, latest word first. *)
Fixpoint extend (n : nat) (w : list Z) : list Z :=
  match n with
  | O => w
  | S n' =>
      let v1 := at_ w 1 in
      let t1 := Z.lxor (Z.lxor (rotr v1 17) (rotr v1 19)) (Z.shiftr v1 10) in
      let v2 := at_ w 14 in
      let t2 := Z.lxor (Z.lxor (rotr v2 7) (rotr v2 18)) (Z.shiftr v2 3) in
      extend n' (u32 (t1 + at_ w 6 + t2 + at_ w 15) :: w)
  end.

Definition round (s : list Z) (kw : Z * Z) : list Z :=
  match s with
  | [a; b; c; d; e; f; g; h] =>
      let t1 := u32 (h + Z.lxor (Z.lxor (rotr e 6) (rotr e 11)) (rotr e 25)
                     + Z.lxor (Z.land e f) (Z.land (Z.lxor e (2 ^ 32 - 1)) g) + fst kw + snd kw) in
      let t2 := u32 (Z.lxor (Z.lxor (rotr a 2) (rotr a 13)) (rotr a 22)
                     + Z.lxor (Z.lxor (Z.land a b) (Z.land a c)) (Z.land b c)) in
      [u32 (t1 + t2); a; b; c; u32 (d + t1); e; f; g]
  | _ => s
  end.

Fixpoint words (n : nat) (l : bytes) : list Z :=
  match n with
  | O => []
  | S n' => le_val (reverse (take 4 l)) :: words n' (drop 4 l)
  end.

Definition block (s : list Z) (p : bytes) : list Z :=
  let w := reverse (extend 48 (reverse (words 16 p))) in
  zip_with (fun x y => u32 (x + y)) s (foldl round s (zip K w)).

Fixpoint blocks (n : nat) (s : list Z) (p : bytes) : list Z :=
  match n with
  | O => s
  | S n' => blocks n' (block s (take 64 p)) (drop 64 p)
  end.

Definition pad (p : bytes) : bytes :=
  let n := Z.of_nat (length p) in
  p ++ 128 :: replicate (Z.to_nat ((55 - n) mod 64)) 0 ++ be_bytes 8 (u64 (8 * n)).

Definition Sum (p : bytes) : bytes :=
  let q := pad p in
  flat_map (be_bytes 4) (blocks (length q / 64) init q).

Lemma length_round s kw : length (round s kw) = length s.
Proof. by destruct s as [|? [|? [|? [|? [|? [|? [|? [|? [|]]]]]]]]]. Qed.

Lemma length_foldl_round l s : length (foldl round s l) = length s.
Proof. revert s. induction l as [|x l IH]; intros s; simpl; [done|]. by rewrite IH, length_round. Qed.

Lemma length_block s p : length (block s p) = length s.
Proof. unfold block. rewrite length_zip_with, length_foldl_round. lia. Qed.

Lemma length_blocks n s p : length (blocks n s p) = length s.
Proof. revert s p. induction n; intros; simpl; [done|]. by rewrite IHn, length_block. Qed.

Lemma length_Sum p : length (Sum p) = 32%nat.
Proof.
  unfold Sum. rewrite length_flat_map.
  rewrite (map_ext _ (fun _ => 4%nat)) by (intros; unfold be_bytes; by rewrite length_reverse, length_le_bytes).
  pose proof (length_blocks (length (pad p) / 64) init (pad p)) as H.
  destruct (blocks _ _ _) as [|? [|? [|? [|? [|? [|? [|? [|? [|]]]]]]]]]; by simpl in *.
Qed.

Lemma is_bytes_Sum p : is_bytes (Sum p).
Proof.
  unfold Sum, is_bytes. apply Forall_flat_map. apply Forall_true. intros z.
  unfold be_bytes. apply Forall_reverse, is_bytes_le_bytes.
Qed.

(** The digest of [abc] of FIPS 180-2. *)
Example Sum_abc :
  le_val (reverse (Sum [97; 98; 99])) =
    0xba7816bf8f01cfea414140de5dae2223b00361a396177a9cb410ff61f20015ad.
Proof. vm_compute. reflexivity. Qed.

End Digest.

(** ** [hex.EncodeToString] and [hex.DecodeString]; text is a list of bytes *)

Module Hex.

Definition digit (n : Z) : Z := if n <? 10 then 48 + n else 87 + n.

Definition fromHexChar (c : Z) : option Z :=
  if (48 <=? c) && (c <=? 57) then Some (c - 48)
  else if (97 <=? c) && (c <=? 102) then Some (c - 97 + 10)
  else if (65 <=? c) && (c <=? 70) then Some (c - 65 + 10)
  else None.

Fixpoint EncodeToString (l : bytes) : bytes :=
  match l with
  | [] => []
  | b :: l' => digit (Z.shiftr b 4) :: digit (Z.land b 15) :: EncodeToString l'
  end.

Fixpoint DecodeString (s : bytes) : result bytes :=
  match s with
  | [] => Ok []
  | [_] => Throw ParseErrorException
  | a :: b :: s' =>
      match fromHexChar a, fromHexChar b with
      | Some x, Some y => DecodeString s' ≫= fun l => Ok (Z.lor (Z.shiftl x 4) y :: l)
      | _, _ => Throw ParseErrorException
      end
  end.

Definition byte_round_trips (b : Z) : bool :=
  match fromHexChar (digit (Z.shiftr b 4)), fromHexChar (digit (Z.land b 15)) with
  | Some x, Some y => Z.lor (Z.shiftl x 4) y =? b
  | _, _ => false
  end.

Lemma all_bytes_round_trip : forallb byte_round_trips (seqZ 0 256) = true.
Proof. vm_compute. reflexivity. Qed.

Lemma Decode_Encode l : is_bytes l -> DecodeString (EncodeToString l) = Ok l.
Proof.
  induction 1 as [|b l Hb Hl IH]; [done|]. simpl.
  pose proof (proj1 (forallb_forall _ _) all_bytes_round_trip b) as H.
  specialize (H ltac:(apply list_elem_of_In, elem_of_seqZ; exact Hb)).
  unfold byte_round_trips in H. repeat case_match; try done.
  rewrite IH. simpl. by apply Z.eqb_eq in H as ->.
Qed.

End Hex.

(** ** The digest type *)

Record Sha256 : Type := mkSha256 { Hash0 : Z; Hash1 : Z; Hash2 : Z; Hash3 : Z }.

#[global] Instance Sha256_eq_dec : EqDecision Sha256.
Proof. solve_decision. Defined.

Definition Hash (h : Sha256) : list Z := [Hash0 h; Hash1 h; Hash2 h; Hash3 h].
Definition wf (h : Sha256) : Prop := Forall (in_u 64) (Hash h).

#[global] Instance wf_dec h : Decision (wf h).
Proof. unfold wf. apply _. Defined.

Definition NewSha256Nil : Sha256 := mkSha256 0 0 0 0.

(** [binary.LittleEndian.Uint64(s[i*8:(i+1)*8])] *)
Definition word (s : bytes) (i : nat) : Z := le_val (take 8 (drop (i * 8) s)).

Definition NewSha256Byte (s : bytes) : result Sha256 :=
  if len s <? 32 then Throw SliceOutOfRange
  else Ok (mkSha256 (word s 0) (word s 1) (word s 2) (word s 3)).

Definition NewSha256String (s : bytes) : result Sha256 :=
  Hex.DecodeString s ≫= NewSha256Byte.

Definition Hash256String (t : bytes) : result Sha256 := NewSha256Byte (Digest.Sum t).

(** [trxIsID] is a package variable of the serializer; a type that can be hashed
    sets it before it reads it, so its initial value stands for any. *)
Definition Hash256 (t : gval) : result Sha256 :=
  EncodeToBytes t false ≫= fun cereal => NewSha256Byte (Digest.Sum cereal).

#[global] Arguments Digest.Sum : simpl never.
#[global] Arguments Hash256 : simpl never.

Definition to_Bytes (h : Sha256) : bytes :=
  le_bytes 8 (Hash0 h) ++ le_bytes 8 (Hash1 h) ++ le_bytes 8 (Hash2 h) ++ le_bytes 8 (Hash3 h).
Definition BigEndianBytes (h : Sha256) : bytes :=
  be_bytes 8 (Hash0 h) ++ be_bytes 8 (Hash1 h) ++ be_bytes 8 (Hash2 h) ++ be_bytes 8 (Hash3 h).
Definition to_String (h : Sha256) : bytes := Hex.EncodeToString (to_Bytes h).

Definition Or_ (h h1 : Sha256) : Sha256 :=
  mkSha256 (Z.lxor (Hash0 h) (Hash0 h1)) (Z.lxor (Hash1 h) (Hash1 h1))
           (Z.lxor (Hash2 h) (Hash2 h1)) (Z.lxor (Hash3 h) (Hash3 h1)).

Definition Equals (h h1 : Sha256) : bool :=
  (Hash0 h =? Hash0 h1) && (Hash1 h =? Hash1 h1) && (Hash2 h =? Hash2 h1) && (Hash3 h =? Hash3 h1).

Fixpoint compare_words (a b : list Z) : Z :=
  match a, b with
  | x :: a', y :: b' => if y <? x then 1 else if x <? y then -1 else compare_words a' b'
  | _, _ => 0
  end.
Definition Sha256Compare (a b : Sha256) : Z := compare_words (Hash a) (Hash b).

(** [len(h.Hash) == 0] of an array of four words. *)
Definition IsEmpty (h : Sha256) : bool := len (Hash h) =? 0.

(** The struct as the serializer sees it. *)
Definition gval_Sha256 (h : Sha256) : gval := VStruct [(NoTag, VArray (map VUint64 (Hash h)))].

(** ** Lemmas *)

Lemma Equals_spec h h1 : Equals h h1 = true <-> h = h1.
Proof.
  unfold Equals. rewrite !andb_true_iff, !Z.eqb_eq. destruct h, h1; simpl. naive_solver.
Qed.

Lemma Equals_refl h : Equals h h = true.
Proof. by apply Equals_spec. Qed.

Lemma wf_words h : wf h -> in_u 64 (Hash0 h) /\ in_u 64 (Hash1 h) /\ in_u 64 (Hash2 h) /\ in_u 64 (Hash3 h).
Proof. unfold wf, Hash. rewrite !Forall_cons. naive_solver. Qed.

Lemma length_to_Bytes h : length (to_Bytes h) = 32%nat.
Proof. unfold to_Bytes. by rewrite !length_app, !length_le_bytes. Qed.

Lemma word_le_bytes pre z post i :
  length pre = (i * 8)%nat -> in_u 64 z -> word (pre ++ le_bytes 8 z ++ post) i = z.
Proof.
  intros Hp Hz. unfold word. rewrite drop_app_length' by done.
  rewrite take_app_length' by (by rewrite length_le_bytes). by apply (le_val_le_bytes_small 8).
Qed.

Lemma NewSha256Byte_Bytes h post : wf h -> NewSha256Byte (to_Bytes h ++ post) = Ok h.
Proof.
  intros (H0 & H1 & H2 & H3)%wf_words. unfold NewSha256Byte.
  rewrite (proj2 (Z.ltb_ge _ _)) by (rewrite len_app; unfold len; rewrite length_to_Bytes; lia).
  unfold to_Bytes. destruct h as [a b c d]; cbn [Hash0 Hash1 Hash2 Hash3] in *. f_equal. f_equal.
  - rewrite <- !app_assoc. by apply (word_le_bytes []).
  - rewrite <- !app_assoc. apply (word_le_bytes (le_bytes 8 a)); [by rewrite length_le_bytes|done].
  - rewrite <- !app_assoc. rewrite (app_assoc (le_bytes 8 a)).
    apply word_le_bytes; [by rewrite length_app, !length_le_bytes|done].
  - rewrite <- !app_assoc. rewrite (app_assoc (le_bytes 8 a)), (app_assoc _ (le_bytes 8 c)).
    apply word_le_bytes; [by rewrite !length_app, !length_le_bytes|done].
Qed.

Lemma is_bytes_take n l : is_bytes l -> is_bytes (take n l).
Proof. apply Forall_take. Qed.
Lemma is_bytes_drop n l : is_bytes l -> is_bytes (drop n l).
Proof. apply Forall_drop. Qed.

Lemma word_range s i : is_bytes s -> in_u 64 (word s i).
Proof.
  intros Hs. unfold word. pose proof (le_val_range (take 8 (drop (i * 8) s))) as H.
  specialize (H (is_bytes_take _ _ (is_bytes_drop _ _ Hs))). rewrite length_take in H.
  unfold in_u in *. split; [lia|]. eapply Z.lt_le_trans; [apply H|]. apply Z.pow_le_mono_r; lia.
Qed.

Lemma NewSha256Byte_wf s h : is_bytes s -> NewSha256Byte s = Ok h -> wf h.
Proof.
  intros Hs. unfold NewSha256Byte. case_match; intros; inv_ok.
  unfold wf, Hash; simpl. rewrite !Forall_cons. split_and!; auto using word_range.
Qed.

(** The hash function always yields a well-formed digest. *)
Lemma NewSha256Byte_Sum p : exists h, NewSha256Byte (Digest.Sum p) = Ok h /\ wf h.
Proof.
  destruct (NewSha256Byte (Digest.Sum p)) as [h|] eqn:E.
  - exists h. split; [done|]. eapply NewSha256Byte_wf; [apply Digest.is_bytes_Sum|done].
  - unfold NewSha256Byte, len in E. by rewrite Digest.length_Sum in E.
Qed.

Lemma Sha256Compare_antisym a b : Sha256Compare b a = - Sha256Compare a b.
Proof.
  unfold Sha256Compare, Hash. destruct a, b. simpl.
  repeat match goal with |- context [?x <? ?y] => destruct (Z.ltb_spec x y); try lia end.
Qed.

Lemma Sha256Compare_lt a b :
  Sha256Compare a b = -1 <->
  Hash0 a < Hash0 b \/ Hash0 a = Hash0 b /\ (Hash1 a < Hash1 b \/ Hash1 a = Hash1 b /\
    (Hash2 a < Hash2 b \/ Hash2 a = Hash2 b /\ Hash3 a < Hash3 b)).
Proof.
  unfold Sha256Compare, Hash. destruct a, b. simpl.
  repeat match goal with |- context [?x <? ?y] => destruct (Z.ltb_spec x y); try lia end.
Qed.

Lemma Sha256Compare_eq a b : Sha256Compare a b = 0 <-> a = b.
Proof.
  unfold Sha256Compare, Hash. destruct a, b. simpl. split.
  - repeat match goal with |- context [?x <? ?y] => destruct (Z.ltb_spec x y); try lia end.
    intros. f_equal; lia.
  - intros [=]; subst. rewrite !Z.ltb_irrefl. done.
Qed.

Lemma Sha256Compare_cases a b : Sha256Compare a b = -1 \/ Sha256Compare a b = 0 \/ Sha256Compare a b = 1.
Proof. unfold Sha256Compare, Hash. destruct a, b. simpl. repeat case_match; lia. Qed.

Lemma Sha256Compare_le_trans a b c : Sha256Compare a b <= 0 -> Sha256Compare b c <= 0 -> Sha256Compare a c <= 0.
Proof.
  assert (Hle : forall x y, Sha256Compare x y <= 0 <-> Sha256Compare x y = -1 \/ x = y)
    by (intros x y; rewrite <- Sha256Compare_eq; destruct (Sha256Compare_cases x y) as [|[]]; lia).
  rewrite !Hle, !Sha256Compare_lt. intros [H1| ->] [H2| ->]; auto. left. lia.
Qed.

(** ** Properties *)

(** Digests: the 32 bytes and the 64 hexadecimal digits of a well-formed
    digest read back to it (further bytes are ignored), fewer than 32 bytes panic,
    [Hash256String] always returns a well-formed digest, and serializing a digest
    yields exactly its 32 bytes. *)
Theorem sha256_representations h post s :
  wf h ->
  NewSha256Byte (to_Bytes h ++ post) = Ok h /\
  NewSha256String (to_String h) = Ok h /\
  (len s < 32 -> NewSha256Byte s = Throw SliceOutOfRange) /\
  (exists h', Hash256String s = Ok h' /\ wf h') /\
  EncodeToBytes (gval_Sha256 h) false = Ok (to_Bytes h).
Proof.
  intros Hw. split_and!.
  - by apply NewSha256Byte_Bytes.
  - unfold NewSha256String, to_String. rewrite Hex.Decode_Encode; simpl.
    + rewrite <- (app_nil_r (to_Bytes h)). by apply NewSha256Byte_Bytes.
    + unfold to_Bytes, is_bytes. rewrite !Forall_app. split_and!; apply is_bytes_le_bytes.
  - intros Hl. unfold NewSha256Byte. by rewrite (proj2 (Z.ltb_lt _ _)).
  - apply NewSha256Byte_Sum.
  - unfold to_Bytes. destruct h as [a b c d]. simpl. unfold EncodeToBytes. simpl.
    done.
Qed.

Lemma sha256_representations_witness :
  NewSha256String (to_String (mkSha256 1 (2 ^ 63) 3 4)) = Ok (mkSha256 1 (2 ^ 63) 3 4).
Proof. apply (sha256_representations (mkSha256 1 (2 ^ 63) 3 4) [] []). by_decide. Defined.

(** [Sha256Compare] is a total order on digests whose equality is the one
    [Equals] decides: it is antisymmetric and transitive, returns -1, 0 or 1, and
    returns 0 exactly on equal digests. *)
Theorem sha256_compare_total_order a b c :
  (Equals a b = true <-> a = b) /\
  (Sha256Compare a b = 0 <-> a = b) /\
  Sha256Compare b a = - Sha256Compare a b /\
  (Sha256Compare a b = -1 \/ Sha256Compare a b = 0 \/ Sha256Compare a b = 1) /\
  (Sha256Compare a b = -1 /\ Sha256Compare b c = -1 -> Sha256Compare a c = -1).
Proof.
  split_and!; [apply Equals_spec|apply Sha256Compare_eq|apply Sha256Compare_antisym
    |apply Sha256Compare_cases|].
  rewrite !Sha256Compare_lt. lia.
Qed.
