(* ===== verification/Merkle.v ===== *)
(** * Merkle: [chain/types/incremental_merkle.go]

    [Append] keeps, beside the root, the fully realised left nodes that later
    appends will need; [Merkle] folds a whole list in place.  The main theorem is
    that the two agree: appending the elements of a list one by one ends with the
    root [Merkle] computes of the list. *)

From S2P Require Import Prelude Bytes Rlp Sha256.

Abbreviation DigestType := Sha256.
Abbreviation digests := (list DigestType).

Record IncrementalMerkle : Type := mkIncrementalMerkle { NodeCount : Z; ActiveNodes : digests }.

(** ** Depth of the tree *)

Definition nextPowerOf2 (value : Z) : Z :=
  let value := u64 (value - 1) in
  let value := Z.lor value (Z.shiftr value 1) in
  let value := Z.lor value (Z.shiftr value 2) in
  let value := Z.lor value (Z.shiftr value 4) in
  let value := Z.lor value (Z.shiftr value 8) in
  let value := Z.lor value (Z.shiftr value 16) in
  let value := Z.lor value (Z.shiftr value 32) in
  u64 (value + 1).

Definition clzPower2 (value : Z) : Z :=
  let lz := 64 in
  let lz := if 0 <? value then lz - 1 else lz in
  let lz := if 0 <? Z.land value 0x00000000FFFFFFFF then lz - 32 else lz in
  let lz := if 0 <? Z.land value 0x0000FFFF0000FFFF then lz - 16 else lz in
  let lz := if 0 <? Z.land value 0x00FF00FF00FF00FF then lz - 8 else lz in
  let lz := if 0 <? Z.land value 0x0F0F0F0F0F0F0F0F then lz - 4 else lz in
  let lz := if 0 <? Z.land value 0x3333333333333333 then lz - 2 else lz in
  let lz := if 0 <? Z.land value 0x5555555555555555 then lz - 1 else lz in
  lz.

Definition calculateMaxDepth (nodeCount : Z) : Z :=
  if nodeCount =? 0 then 0
  else clzPower2 (nextPowerOf2 nodeCount) + 1.

(** ** Canonical pairs *)

Definition makeCanonicalLeft (val : DigestType) : DigestType :=
  mkSha256 (Z.land (Hash0 val) 0xFFFFFFFFFFFFFF7F) (Hash1 val) (Hash2 val) (Hash3 val).
Definition makeCanonicalRight (val : DigestType) : DigestType :=
  mkSha256 (Z.lor (Hash0 val) 0x80) (Hash1 val) (Hash2 val) (Hash3 val).

(** [MakePair] of two digests, as the serializer sees it. *)
Definition makeCanonicalPair (l r : DigestType) : gval :=
  VStruct [(NoTag, gval_Sha256 (makeCanonicalLeft l)); (NoTag, gval_Sha256 (makeCanonicalRight r))].

Definition isCanonicalLeft (val : DigestType) : bool := Z.land (Hash0 val) 0x80 =? 0.
Definition isCanonicalRight (val : DigestType) : bool := negb (Z.land (Hash0 val) 0x80 =? 0).

(** ** The incremental tree *)

Definition last_index {A} (l : list A) : result A := index l (len l - 1).

Definition GetRoot (m : IncrementalMerkle) : result DigestType :=
  if 0 <? NodeCount m then last_index (ActiveNodes m) else Ok NewSha256Nil.

(** The body of the [for currentDepth > 0] loop and the loop, [depth] being
    [currentDepth]. *)
Record cursor : Type := mkCursor {
  partial : bool; index_ : Z; top : DigestType; activeIter : Z; updateActiveNodes : digests }.

Definition Append_step (active : digests) (c : cursor) : result cursor :=
  let index' := Z.shiftr (index_ c) 1 in
  if Z.land (index_ c) 1 =? 0 then
    let upd := if negb (partial c) then updateActiveNodes c ++ [top c] else updateActiveNodes c in
    Hash256 (makeCanonicalPair (top c) (top c)) ≫= fun top' =>
    Ok (mkCursor true index' top' (activeIter c) upd)
  else
    index active (activeIter c) ≫= fun leftValue =>
    let upd := if partial c then updateActiveNodes c ++ [leftValue] else updateActiveNodes c in
    Hash256 (makeCanonicalPair leftValue (top c)) ≫= fun top' =>
    Ok (mkCursor (partial c) index' top' (activeIter c + 1) upd).

Fixpoint Append_loop (active : digests) (depth : nat) (c : cursor) : result cursor :=
  match depth with
  | O => Ok c
  | S depth' => Append_step active c ≫= Append_loop active depth'
  end.

Definition Append (m : IncrementalMerkle) (digest : DigestType) : result (IncrementalMerkle * DigestType) :=
  let maxDepth := calculateMaxDepth (u64 (NodeCount m + 1)) in
  let currentDepth := maxDepth - 1 in
  Append_loop (ActiveNodes m) (Z.to_nat currentDepth)
    (mkCursor false (NodeCount m) digest 0 []) ≫= fun c =>
  let active := updateActiveNodes c ++ [top c] in
  last_index active ≫= fun root =>
  Ok (mkIncrementalMerkle (u64 (NodeCount m + 1)) active, root).

Definition IsEmpty (i : IncrementalMerkle) : bool := (NodeCount i =? 0) && (len (ActiveNodes i) =? 0).

(** ** The whole tree, in place *)

(** [ids[i] = Hash256(makeCanonicalPair(ids[2*i], ids[2*i+1]))] for the [n]
    indices from [i]. *)
Fixpoint Merkle_pass (n : nat) (i : Z) (ids : digests) : result digests :=
  match n with
  | O => Ok ids
  | S n' =>
      index ids (2 * i) ≫= fun l =>
      index ids (2 * i + 1) ≫= fun r =>
      Hash256 (makeCanonicalPair l r) ≫= fun h =>
      Merkle_pass n' (i + 1) (<[Z.to_nat i := h]> ids)
  end.

Definition Merkle_level (ids : digests) : result digests :=
  (if 0 <? len ids mod 2 then last_index ids ≫= fun x => Ok (ids ++ [x]) else Ok ids) ≫= fun ids =>
  Merkle_pass (length ids / 2) 0 ids ≫= fun ids =>
  Ok (take (length ids / 2) ids).

(** Every pass at least halves a list of more than one element, rounded up: its
    length bounds the number of passes. *)
Fixpoint Merkle_loop (fuel : nat) (ids : digests) : result DigestType :=
  match ids with
  | [x] => Ok x
  | _ =>
      match fuel with
      | O => Throw IndexOutOfRange
      | S fuel' => Merkle_level ids ≫= Merkle_loop fuel'
      end
  end.

Definition Merkle (ids : digests) : result DigestType :=
  if len ids =? 0 then Ok NewSha256Nil else Merkle_loop (length ids) ids.

(** ** Depth lemmas *)

(** [y] has all bits set in the [w] positions up to its highest bit [k]. *)
Definition smeared (w k y : Z) : Prop :=
  in_u (k + 1) y /\ forall i, 0 <= i -> k - w < i <= k -> Z.testbit y i = true.

Lemma smear_step w w' k y :
  w' = 2 * w -> 0 <= k -> 0 < w -> smeared w k y -> smeared w' k (Z.lor y (Z.shiftr y w)).
Proof.
  intros -> Hk Hw [Hr Hb]. split.
  - apply in_u_lor; [lia|done|]. unfold in_u in *. rewrite Z.shiftr_div_pow2 by lia.
    pose proof (Z.pow_pos_nonneg 2 w). split; [apply Z.div_pos; lia|].
    apply Z.le_lt_trans with y; [|lia]. apply Z.div_le_upper_bound; nia.
  - intros i Hi Hik. autorewrite with bits.
    destruct (Z.ltb_spec (k - w) i); [by rewrite Hb by lia|].
    rewrite (Hb (i + w)) by lia. apply orb_true_r.
Qed.

Lemma smeared_ones w k y : 0 <= k < w -> smeared w k y -> y = 2 ^ (k + 1) - 1.
Proof.
  intros Hk [Hr Hb].
  replace (2 ^ (k + 1) - 1) with (Z.ones (k + 1)) by (rewrite Z.ones_equiv; lia).
  apply Z.bits_inj'. intros i Hi. destruct (Z.ltb_spec i (k + 1)).
  - rewrite Z.ones_spec_low by lia. apply Hb; lia.
  - rewrite Z.ones_spec_high by lia. apply (testbit_above (k + 1)); [done|lia].
Qed.

Lemma nextPowerOf2_spec n : 0 < n <= 2 ^ 63 -> nextPowerOf2 n = 2 ^ Z.log2_up n.
Proof.
  intros Hn. unfold nextPowerOf2. rewrite (uwrap_id 64 (n - 1)) by (unfold in_u; norm_pow; lia).
  destruct (Z.eq_dec n 1) as [->|]; [done|].
  set (k := Z.log2 (n - 1)). assert (Hk : 0 <= k < 63).
  { split; [apply Z.log2_nonneg|]. apply Z.log2_lt_pow2; norm_pow; lia. }
  assert (Hs : smeared 1 k (n - 1)).
  { pose proof (Z.log2_spec (n - 1) ltac:(lia)). split; [unfold in_u, k, Z.succ in *; lia|].
    intros i ? ?. replace i with k by lia. apply Z.bit_log2. lia. }
  apply (smear_step 1 2), (smear_step 2 4), (smear_step 4 8), (smear_step 8 16),
    (smear_step 16 32), (smear_step 32 64) in Hs; [|done || lia..].
  rewrite (smeared_ones 64 k _ ltac:(lia) Hs).
  rewrite Z.sub_add, uwrap_id.
  - f_equal. symmetry. unfold k. rewrite Z.add_1_r. apply Z.log2_up_eqn. lia.
  - unfold in_u. split; [apply Z.pow_nonneg; lia|apply Z.pow_lt_mono_r; lia].
Qed.

Lemma clzPower2_table : forallb (fun k => clzPower2 (2 ^ k) =? k) (seqZ 0 64) = true.
Proof. vm_compute. reflexivity. Qed.

Lemma clzPower2_spec k : 0 <= k < 64 -> clzPower2 (2 ^ k) = k.
Proof.
  intros Hk. apply Z.eqb_eq. apply (proj1 (forallb_forall _ _) clzPower2_table).
  apply list_elem_of_In, elem_of_seqZ. lia.
Qed.

Lemma calculateMaxDepth_log n : 0 < n <= 2 ^ 63 -> calculateMaxDepth n = Z.log2_up n + 1.
Proof.
  intros Hn. unfold calculateMaxDepth. rewrite (proj2 (Z.eqb_neq n 0)) by lia.
  rewrite nextPowerOf2_spec, clzPower2_spec; [lia| |done].
  split; [apply Z.log2_up_nonneg|].
  assert (Z.log2_up n <= 63); [|lia]. rewrite <- (Z.log2_up_pow2 63) by lia. apply Z.log2_up_le_mono. lia.
Qed.

(** ** The tree the two computations share

    [halve] is one level of the tree, the last node of an odd level being paired
    with itself; [full_halve] keeps only the nodes whose two children exist. *)

Lemma node_exists : { node : DigestType -> DigestType -> DigestType |
  forall l r, Hash256 (makeCanonicalPair l r) = Ok (node l r) }.
Proof.
  exists (fun l r => match Hash256 (makeCanonicalPair l r) with Ok h => h | Throw _ => NewSha256Nil end).
  intros l r. assert (exists h, Hash256 (makeCanonicalPair l r) = Ok h) as [h E].
  { unfold Hash256. destruct (EncodeToBytes _ _) as [bs|] eqn:E; [|discriminate E].
    destruct (NewSha256Byte_Sum bs) as (h & Hh & _). by exists h. }
  by rewrite E.
Qed.

Definition node : DigestType -> DigestType -> DigestType := proj1_sig node_exists.

Lemma Hash256_node l r : Hash256 (makeCanonicalPair l r) = Ok (node l r).
Proof. exact (proj2_sig node_exists l r). Qed.

Fixpoint full_halve (l : digests) : digests :=
  match l with a :: b :: l' => node a b :: full_halve l' | _ => [] end.

Fixpoint halve (l : digests) : digests :=
  match l with a :: b :: l' => node a b :: halve l' | [a] => [node a a] | [] => [] end.

(** The root after [d] levels and the fully realised left nodes met on the way. *)
Fixpoint root (d : nat) (l : digests) : DigestType :=
  match d with O => default NewSha256Nil (last l) | S d' => root d' (halve l) end.

Fixpoint actives (d : nat) (l : digests) : digests :=
  match d with
  | O => []
  | S d' => (if Nat.odd (length l) then option_list (last l) else []) ++ actives d' (full_halve l)
  end.

(** Induction over a list two elements at a time. *)
Lemma pair_ind {A} (P : list A -> Prop) :
  P [] -> (forall a, P [a]) -> (forall a b l, P l -> P (a :: b :: l)) -> forall l, P l.
Proof.
  intros H0 H1 H2. assert (H : forall l, P l /\ forall a, P (a :: l)); [|intros l; apply H].
  induction l as [|a l [IH IH']]; split; auto.
Qed.

Lemma even_or_snoc {A} (l : list A) :
  Nat.Even (length l) \/ exists l0 x, l = l0 ++ [x] /\ Nat.Even (length l0).
Proof.
  destruct (Nat.Even_or_Odd (length l)) as [|[k Hk]]; [by left|right].
  destruct l as [|x l' _] using rev_ind; [simpl in Hk; lia|].
  exists l', x. split; [done|]. rewrite length_app in Hk. simpl in Hk. exists k. lia.
Qed.

Lemma halve_even l m : Nat.Even (length l) -> halve (l ++ m) = full_halve l ++ halve m.
Proof.
  induction l as [|a|a b l IH] using pair_ind; intros [k Hk]; simpl in *; [done|lia|].
  f_equal. apply IH. exists (k - 1)%nat. lia.
Qed.

Lemma full_halve_even l m : Nat.Even (length l) -> full_halve (l ++ m) = full_halve l ++ full_halve m.
Proof.
  induction l as [|a|a b l IH] using pair_ind; intros [k Hk]; simpl in *; [done|lia|].
  f_equal. apply IH. exists (k - 1)%nat. lia.
Qed.

Lemma length_full_halve l : Z.of_nat (length (full_halve l)) = Z.shiftr (Z.of_nat (length l)) 1.
Proof.
  rewrite Z.shiftr_div_pow2 by lia. change (2 ^ 1) with 2.
  induction l as [|a|a b l IH] using pair_ind; [done..|]. simpl length.
  rewrite !Nat2Z.inj_succ, IH. Z.div_mod_to_equations. lia.
Qed.

Lemma length_halve l : Z.of_nat (length (halve l)) = (Z.of_nat (length l) + 1) / 2.
Proof.
  induction l as [|a|a b l IH] using pair_ind; [done..|]. simpl length.
  rewrite !Nat2Z.inj_succ, IH. Z.div_mod_to_equations. lia.
Qed.

Lemma land_1_even (l : digests) : Nat.Even (length l) -> Z.land (Z.of_nat (length l)) 1 = 0.
Proof.
  intros [k ->]. change 1 with (Z.ones 1). rewrite Z.land_ones by lia. change (2 ^ 1) with 2.
  Z.div_mod_to_equations. lia.
Qed.

Lemma land_1_odd (l : digests) x : Nat.Even (length l) -> Z.land (Z.of_nat (length (l ++ [x]))) 1 = 1.
Proof.
  intros [k Hk]. change 1 with (Z.ones 1) at 1. rewrite Z.land_ones by lia. change (2 ^ 1) with 2.
  rewrite length_app, Hk. simpl. Z.div_mod_to_equations. lia.
Qed.

Lemma actives_even d l : Nat.Even (length l) -> actives (S d) l = actives d (full_halve l).
Proof. intros H. simpl. by rewrite <- Nat.negb_even, (proj2 (Nat.even_spec _) H). Qed.

Lemma actives_odd d l x :
  Nat.Even (length l) -> actives (S d) (l ++ [x]) = x :: actives d (full_halve l).
Proof.
  intros H. simpl. rewrite length_app, Nat.add_comm. simpl. rewrite Nat.odd_succ, (proj2 (Nat.even_spec _) H).
  rewrite last_snoc. simpl. by rewrite full_halve_even, app_nil_r by done.
Qed.

Lemma index_app {A} (l pre : list A) y post : l = pre ++ y :: post -> index l (Z.of_nat (length pre)) = Ok y.
Proof.
  intros ->. unfold index. rewrite (proj2 (Z.ltb_ge _ _)), Nat2Z.id, lookup_app_r, Nat.sub_diag by lia. done.
Qed.

Lemma last_index_snoc {A} (l : list A) x : last_index (l ++ [x]) = Ok x.
Proof.
  unfold last_index. rewrite len_app. replace (len l + len [x] - 1) with (Z.of_nat (length l)) by (unfold len; simpl; lia).
  by eapply index_app.
Qed.

Lemma Append_step_left active ids p t it upd :
  Nat.Even (length ids) ->
  Append_step active (mkCursor p (Z.of_nat (length ids)) t it upd) =
    Ok (mkCursor true (Z.of_nat (length (full_halve ids))) (node t t) it (if p then upd else upd ++ [t])).
Proof.
  intros He. unfold Append_step. cbn [index_ partial top activeIter updateActiveNodes].
  rewrite land_1_even, Hash256_node, Ok_bind, length_full_halve by done. by destruct p.
Qed.

Lemma Append_step_right active pre y post ids p t upd :
  Nat.Even (length ids) -> active = pre ++ y :: post ->
  Append_step active (mkCursor p (Z.of_nat (length (ids ++ [y]))) t (Z.of_nat (length pre)) upd) =
    Ok (mkCursor p (Z.of_nat (length (full_halve ids))) (node y t) (Z.of_nat (length (pre ++ [y])))
          (if p then upd ++ [y] else upd)).
Proof.
  intros He Ha. unfold Append_step. cbn [index_ partial top activeIter updateActiveNodes].
  rewrite land_1_odd, (index_app active pre y post Ha), Ok_bind by done.
  rewrite (Hash256_node y t), Ok_bind, <- length_full_halve, full_halve_even, app_nil_r, (length_app pre), Nat2Z.inj_add by done.
  reflexivity.
Qed.

(** [Append]: the cursor climbs from the leaves [ids ++ [top]]. *)
Lemma Append_loop_spec d : forall active ids p t upd pre rest,
  active = pre ++ actives d ids ++ rest ->
  exists c', Append_loop active d
      (mkCursor p (Z.of_nat (length ids)) t (Z.of_nat (length pre)) upd) = Ok c' /\
    top c' = root d (ids ++ [t]) /\
    updateActiveNodes c' = upd ++ actives d (if p then ids else ids ++ [t]).
Proof.
  induction d as [|d IH]; intros active ids p t upd pre rest Ha.
  { eexists. split; [reflexivity|]. cbn [top updateActiveNodes root actives].
    by rewrite last_snoc, app_nil_r. }
  cbn [Append_loop root]. destruct (even_or_snoc ids) as [He|(ids0 & y & -> & He)].
  - rewrite Append_step_left by done. rewrite Ok_bind. rewrite actives_even in Ha by done.
    destruct (IH active (full_halve ids) true (node t t) (if p then upd else upd ++ [t]) pre rest Ha)
      as (c' & E & Ht & Hu).
    exists c'. split; [exact E|]. rewrite Ht, Hu, halve_even by done. split; [reflexivity|]. destruct p.
    + by rewrite actives_even.
    + rewrite actives_odd by done. by rewrite <- app_assoc.
  - rewrite actives_odd in Ha by done. erewrite Append_step_right; [|exact He|exact Ha]. rewrite Ok_bind.
    destruct (IH active (full_halve ids0) p (node y t) (if p then upd ++ [y] else upd) (pre ++ [y]) rest)
      as (c' & E & Ht & Hu); [by rewrite Ha, <- app_assoc|].
    exists c'. split; [exact E|]. rewrite Ht, Hu, <- app_assoc. cbn [app].
    rewrite (halve_even ids0 [y; t]) by done. split; [reflexivity|]. destruct p.
    + rewrite actives_odd by done. by rewrite <- app_assoc.
    + rewrite actives_even, full_halve_even; [reflexivity|exact He|].
      destruct He as [k Hk]. exists (S k). rewrite length_app. simpl. lia.
Qed.

(** ** Levels of the tree *)

Definition levels (n : nat) : nat := Z.to_nat (Z.log2_up (Z.of_nat n)).

Lemma log2_up_half n : 2 <= n -> Z.log2_up n = Z.log2_up ((n + 1) / 2) + 1.
Proof.
  intros Hn. destruct (Z.eq_dec n 2) as [->|]; [done|].
  set (m := (n + 1) / 2). assert (Hm : 2 * m = n \/ 2 * m = n + 1) by (unfold m; Z.div_mod_to_equations; lia).
  pose proof (Z.log2_up_spec m ltac:(lia)) as Hs. pose proof (Z.log2_up_pos m ltac:(lia)).
  apply Z.log2_up_unique; [lia|]. rewrite Z.add_1_r, Z.pred_succ, Z.pow_succ_r by lia.
  assert (2 ^ Z.log2_up m = 2 * 2 ^ Z.pred (Z.log2_up m)) by (rewrite <- Z.pow_succ_r by lia; f_equal; lia).
  lia.
Qed.

Lemma levels_halve l : (2 <= length l)%nat -> levels (length l) = S (levels (length (halve l))).
Proof.
  intros Hl. unfold levels. rewrite length_halve, log2_up_half by lia.
  rewrite <- Z2Nat.inj_succ by apply Z.log2_up_nonneg. done.
Qed.

Lemma levels_succ n :
  (0 < n)%nat -> levels (S n) = levels n \/ levels (S n) = S (levels n) /\ n = (2 ^ levels n)%nat.
Proof.
  intros Hn. unfold levels. rewrite Nat2Z.inj_succ.
  pose proof (Z.log2_up_nonneg (Z.of_nat n)).
  destruct (Z.log2_up_succ_or (Z.of_nat n)) as [E|E]; rewrite E.
  - right. split; [by rewrite Z2Nat.inj_succ|].
    destruct (Z.log2_up_eq_succ_is_pow2 (Z.of_nat n) E) as [b Hb].
    assert (0 <= b) by (destruct (Z.neg_nonneg_cases b); [rewrite Z.pow_neg_r in Hb by done; lia|done]).
    rewrite Hb, Z.log2_up_pow2 by done. apply Nat2Z.inj. by rewrite Nat2Z.inj_pow, Z2Nat.id by lia.
  - by left.
Qed.

Lemma full_level_even d (l : digests) : length l = (2 ^ S d)%nat -> Nat.Even (length l).
Proof. intros ->. exists (2 ^ d)%nat. simpl. lia. Qed.

Lemma full_halve_pow2 d l : length l = (2 ^ S d)%nat -> length (full_halve l) = (2 ^ d)%nat.
Proof.
  intros H. apply Nat2Z.inj. rewrite length_full_halve, H, Z.shiftr_div_pow2 by lia.
  change (2 ^ 1) with 2. simpl. Z.div_mod_to_equations. lia.
Qed.

Lemma halve_full l : Nat.Even (length l) -> halve l = full_halve l.
Proof. intros H. rewrite <- (app_nil_r l) at 1. by rewrite halve_even, app_nil_r. Qed.

(** A complete tree keeps no left node below its root. *)
Lemma actives_pow2 d : forall l, length l = (2 ^ d)%nat -> actives d l = [] /\ actives (S d) l = [root d l].
Proof.
  induction d as [|d IH]; intros l Hl.
  - destruct l as [|x [|]]; done.
  - pose proof (full_level_even d l Hl). rewrite !actives_even by done. cbn [root].
    rewrite halve_full by done. by apply IH, full_halve_pow2.
Qed.

(** ** The state of the incremental tree over the leaves [ids] *)

Definition represents (m : IncrementalMerkle) (ids : digests) : Prop :=
  NodeCount m = Z.of_nat (length ids) /\
  ActiveNodes m =
    match ids with
    | [] => []
    | _ => actives (levels (length ids)) ids ++ [root (levels (length ids)) ids]
    end.

Lemma active_prefix m ids :
  represents m ids -> exists rest, ActiveNodes m = actives (levels (S (length ids))) ids ++ rest.
Proof.
  intros [_ ->]. destruct ids as [|x ids]; [by exists []|].
  set (l := x :: ids). destruct (levels_succ (length l)) as [->|[-> Hp]]; [simpl; lia|by eexists|].
  destruct (actives_pow2 _ l Hp) as [-> ->]. by exists [].
Qed.

Lemma Append_represents m ids x :
  represents m ids -> Z.of_nat (length ids) < 2 ^ 63 ->
  exists m', Append m x = Ok (m', root (levels (S (length ids))) (ids ++ [x])) /\ represents m' (ids ++ [x]).
Proof.
  intros Hm Hb. destruct (active_prefix m ids Hm) as [rest Ha]. destruct Hm as [Hn _].
  unfold Append. rewrite Hn, uwrap_id by (unfold in_u in *; norm_pow; lia).
  rewrite calculateMaxDepth_log, Z.add_simpl_r by lia. rewrite Z.add_1_r, <- Nat2Z.inj_succ.
  fold (levels (S (length ids))).
  destruct (Append_loop_spec (levels (S (length ids))) (ActiveNodes m) ids false x [] [] rest Ha) as (c & E & Ht & Hu).
  change (Z.of_nat (length (@nil DigestType))) with 0 in E. rewrite E, Ok_bind. cbn zeta. rewrite last_index_snoc, Ok_bind, Ht, Hu.
  eexists. split; [reflexivity|]. split; simpl; rewrite length_app, Nat.add_comm; [done|].
  by destruct ids.
Qed.

(** ** The in-place computation is [halve], level by level *)

Lemma Merkle_pass_spec n : forall hs g r,
  length r = (2 * n)%nat -> length g = length hs ->
  exists junk, Merkle_pass n (Z.of_nat (length hs)) (hs ++ g ++ r) = Ok (hs ++ full_halve r ++ junk) /\
    length (hs ++ full_halve r ++ junk) = length (hs ++ g ++ r).
Proof.
  induction n as [|n IH]; intros hs g r Hr Hg.
  { destruct r; [|done]. exists g. by rewrite app_nil_r. }
  destruct r as [|a [|b r]]; simpl in Hr; try lia. cbn [Merkle_pass].
  assert (H2 : 2 * Z.of_nat (length hs) = Z.of_nat (length (hs ++ g))) by (rewrite length_app; lia).
  rewrite H2, (index_app _ (hs ++ g) a (b :: r)), Ok_bind by by rewrite <- app_assoc.
  assert (H3 : Z.of_nat (length (hs ++ g)) + 1 = Z.of_nat (length (hs ++ g ++ [a])))
    by (rewrite !length_app; simpl; lia).
  rewrite H3, (index_app _ (hs ++ g ++ [a]) b r), Ok_bind, Hash256_node, Ok_bind by by rewrite <- !app_assoc.
  rewrite Nat2Z.id. rewrite insert_app_r_alt, Nat.sub_diag by lia.
  assert (exists z g', g ++ [a; b] = z :: g' /\ length g' = S (length g)) as (z & g' & Eg & Hg').
  { destruct g as [|z g]; [by exists a, [b]|]. exists z, (g ++ [a; b]). split; [done|].
    rewrite length_app. simpl. lia. }
  replace (g ++ a :: b :: r) with (z :: g' ++ r) by (rewrite app_comm_cons, <- Eg, <- app_assoc; done).
  cbn [list_insert]. destruct (IH (hs ++ [node a b]) g' r) as (junk & E & Hl); [lia|rewrite length_app; simpl; lia|].
  rewrite length_app, Nat2Z.inj_add, <- !app_assoc in E. exists junk. split; [exact E|].
  rewrite !length_app in *. simpl in *. rewrite !length_app in *. lia.
Qed.

Lemma Merkle_level_spec ids : ids <> [] -> Merkle_level ids = Ok (halve ids).
Proof.
  intros Hne. assert (Hev : forall l, Nat.Even (length l) ->
    (Merkle_pass (length l / 2) 0 l ≫= fun l => Ok (take (length l / 2) l)) = Ok (full_halve l)).
  { intros l [k Hk]. rewrite Hk, (Nat.mul_comm 2), Nat.div_mul by lia.
    destruct (Merkle_pass_spec k [] [] l Hk eq_refl) as (junk & E & Hl). cbn [app length] in *.
    change (Z.of_nat 0) with 0 in E. rewrite E, Ok_bind, Hl, Hk, (Nat.mul_comm 2), Nat.div_mul by lia.
    pose proof (length_full_halve l) as Hf. rewrite Hk, Z.shiftr_div_pow2 in Hf by lia. change (2 ^ 1) with 2 in Hf.
    f_equal. apply take_app_length'. Z.div_mod_to_equations. lia. }
  unfold Merkle_level, len. destruct (even_or_snoc ids) as [He|(ids0 & y & -> & He)].
  - destruct He as [k Hk] eqn:HE. rewrite Hk. replace (Z.of_nat (2 * k) mod 2) with 0 by (Z.div_mod_to_equations; lia).
    cbn [Z.ltb]. rewrite Z.ltb_irrefl, Ok_bind, Hev, halve_full by done. done.
  - destruct He as [k Hk] eqn:HE. rewrite length_app, Hk.
    replace (Z.of_nat (2 * k + length [y]) mod 2) with 1 by (simpl; Z.div_mod_to_equations; lia).
    change (0 <? 1) with true. cbv iota. rewrite last_index_snoc, !Ok_bind, Hev.
    + rewrite halve_even, <- app_assoc, full_halve_even by done. done.
    + exists (S k). rewrite !length_app, Hk. simpl. lia.
Qed.

Lemma Merkle_loop_spec fuel : forall ids, ids <> [] -> (levels (length ids) <= fuel)%nat ->
  Merkle_loop fuel ids = Ok (root (levels (length ids)) ids).
Proof.
  induction fuel as [|fuel IH]; intros [|x [|y ids]] Hne Hf; try done.
  - rewrite levels_halve in Hf by (simpl; lia). lia.
  - rewrite levels_halve in Hf |- * by (simpl; lia). cbn [Merkle_loop root].
    rewrite Merkle_level_spec, Ok_bind by done. apply IH; [done|lia].
Qed.

Lemma Merkle_root ids : ids <> [] -> Merkle ids = Ok (root (levels (length ids)) ids).
Proof.
  intros Hne. unfold Merkle. rewrite (proj2 (Z.eqb_neq _ _)) by (destruct ids; [done|unfold len; simpl; lia]).
  apply Merkle_loop_spec; [done|]. unfold levels.
  pose proof (Z.log2_up_le_lin (Z.of_nat (length ids))). lia.
Qed.

(** ** Properties *)

Definition empty_tree : IncrementalMerkle := mkIncrementalMerkle 0 [].

(** The node's own append loop over a list of digests. *)
Fixpoint Append_all (m : IncrementalMerkle) (ids : digests) : result IncrementalMerkle :=
  match ids with
  | [] => Ok m
  | x :: ids' => Append m x ≫= fun '(m', _) => Append_all m' ids'
  end.

Lemma Append_all_represents ids : forall m pre,
  represents m pre -> Z.of_nat (length pre + length ids) <= 2 ^ 63 ->
  exists m', Append_all m ids = Ok m' /\ represents m' (pre ++ ids).
Proof.
  induction ids as [|x ids IH]; intros m pre Hm Hb; cbn [Append_all].
  { exists m. by rewrite app_nil_r. }
  simpl length in Hb. destruct (Append_represents m pre x Hm ltac:(lia)) as (m1 & E & Hm1).
  rewrite E, Ok_bind. destruct (IH m1 (pre ++ [x]) Hm1) as (m' & E' & Hm').
  { rewrite length_app. simpl. lia. }
  exists m'. by rewrite <- app_assoc in Hm'.
Qed.

(** C39. Appending up to 2^63 digests one by one to the empty incremental tree never
    panics, counts them, and leaves a tree whose [GetRoot] is the root the in-place
    [Merkle] computes of the whole list. *)
Theorem incremental_merkle_root ids :
  Z.of_nat (length ids) <= 2 ^ 63 ->
  exists m, Append_all empty_tree ids = Ok m /\ NodeCount m = Z.of_nat (length ids) /\
    GetRoot m = Merkle ids.
Proof.
  intros Hb. destruct (Append_all_represents ids empty_tree []) as (m & E & Hn & Ha); [by split|done|].
  exists m. split; [done|]. split; [done|]. unfold GetRoot. rewrite Hn, Ha. destruct ids as [|x ids]; [done|].
  rewrite app_nil_l, last_index_snoc, Merkle_root by done. done.
Qed.

Definition leaf (n : Z) : DigestType := mkSha256 n 0 0 0.

Lemma incremental_merkle_root_witness :
  exists m, Append_all empty_tree [leaf 1; leaf 2; leaf 3] = Ok m /\ NodeCount m = 3 /\
    GetRoot m = Merkle [leaf 1; leaf 2; leaf 3].
Proof. apply (incremental_merkle_root [leaf 1; leaf 2; leaf 3]). norm_pow. simpl. lia. Defined.

(** The depth computation: for 1 to 2^63 nodes [nextPowerOf2] is the least
    power of two that is not smaller and [calculateMaxDepth] is one more than its
    exponent, by the bit tricks of the source. *)
Theorem max_depth_exact n :
  0 < n <= 2 ^ 63 ->
  (exists k, nextPowerOf2 n = 2 ^ k /\ 0 <= k <= 63 /\ n <= 2 ^ k /\ (1 < n -> 2 ^ (k - 1) < n) /\
     calculateMaxDepth n = k + 1).
Proof.
  intros Hn. exists (Z.log2_up n). pose proof (Z.log2_up_nonneg n).
  rewrite nextPowerOf2_spec, calculateMaxDepth_log by done.
  assert (Z.log2_up n <= 63) by (rewrite <- (Z.log2_up_pow2 63) by lia; apply Z.log2_up_le_mono; lia).
  destruct (Z.eq_dec n 1) as [->|]; [split_and!; done || lia|].
  pose proof (Z.log2_up_spec n ltac:(lia)) as Hs. rewrite <- Z.sub_1_r in Hs. split_and!; lia.
Qed.

Lemma max_depth_exact_witness :
  exists k, nextPowerOf2 5 = 2 ^ k /\ 0 <= k <= 63 /\ 5 <= 2 ^ k /\ (1 < 5 -> 2 ^ (k - 1) < 5) /\
    calculateMaxDepth 5 = k + 1.
Proof. apply (max_depth_exact 5). norm_pow. lia. Defined.

Lemma canonical_left_bit val : isCanonicalLeft (makeCanonicalLeft val) = true.
Proof.
  unfold isCanonicalLeft, makeCanonicalLeft. cbn [Hash0]. rewrite <- Z.land_assoc.
  change (Z.land 0xFFFFFFFFFFFFFF7F 0x80) with 0. by rewrite Z.land_0_r.
Qed.

Lemma canonical_right_bit val : isCanonicalRight (makeCanonicalRight val) = true.
Proof.
  unfold isCanonicalRight, makeCanonicalRight. cbn [Hash0].
  destruct (Z.eqb_spec (Z.land (Z.lor (Hash0 val) 0x80) 0x80) 0) as [H|]; [|done].
  assert (Z.testbit (Z.land (Z.lor (Hash0 val) 0x80) 0x80) 7 = false) by (rewrite H; done).
  rewrite Z.land_spec, Z.lor_spec, orb_true_r in *. done.
Qed.

(** A canonical pair tells its sides apart: the left digest has the marker bit
    clear and the right one set, so no pair of the tree is a swapped pair; and the
    serialized pair is exactly the 64 bytes of the two marked digests. *)
Theorem canonical_pair_sides l r l' r' :
  isCanonicalLeft (makeCanonicalLeft l) = true /\
  isCanonicalRight (makeCanonicalRight r) = true /\
  makeCanonicalLeft l <> makeCanonicalRight r' /\
  EncodeToBytes (makeCanonicalPair l r) false =
    Ok (to_Bytes (makeCanonicalLeft l) ++ to_Bytes (makeCanonicalRight r)) /\
  (makeCanonicalPair l r = makeCanonicalPair l' r' ->
     makeCanonicalLeft l = makeCanonicalLeft l' /\ makeCanonicalRight r = makeCanonicalRight r').
Proof.
  split_and!; [apply canonical_left_bit|apply canonical_right_bit| |done|].
  - intros E. pose proof (canonical_left_bit l) as H. rewrite E in H.
    pose proof (canonical_right_bit r') as H'. unfold isCanonicalLeft, isCanonicalRight in *. by rewrite H in H'.
  - destruct l, r, l', r'. intros [=]. unfold makeCanonicalLeft, makeCanonicalRight. simpl in *. by split; f_equal.
Qed.
