(* ===== verification/Name.v ===== *)
(** * Name: the base-32 names of [common/name.go]

    A name is a 64-bit number: twelve symbols of five bits from the most
    significant bit down and a thirteenth of four bits.  Text is a list of bytes. *)

From S2P Require Import Prelude Bytes Rlp.

Definition charToSymbol (c : Z) : Z :=
  if (97 <=? c) && (c <=? 122) then u8 (c - 97 + 6)
  else if (49 <=? c) && (c <=? 53) then u8 (c - 49 + 1)
  else 0.

(** [".12345abcdefghijklmnopqrstuvwxyz"] *)
Definition base32Alphabet : bytes := 46 :: seqZ 49 5 ++ seqZ 97 26.

(** The iterations [i], [i+1], ..., [12] of the loop of [N]. *)
Fixpoint N_loop (n : nat) (i : Z) (s : bytes) (sLen val : Z) : result Z :=
  match n with
  | O => Ok val
  | S n' =>
      (if i <? sLen then index s i ≫= fun ch => Ok (charToSymbol ch) else Ok 0) ≫= fun c =>
      let c := if i <? 12 then u64 (Z.shiftl (Z.land c 0x1f) (64 - 5 * (i + 1))) else Z.land c 0x0f in
      N_loop n' (i + 1) s sLen (Z.lor val c)
  end.

Definition N (s : bytes) : result Z :=
  let sLen := u32 (len s) in
  EosAssert (sLen <=? 13) NameTypeException ≫= fun _ => N_loop 13 0 s sLen 0.

(** The iterations of the loop of [S_]; the array [a] is filled from its end. *)
Fixpoint S_loop (n : nat) (i : Z) (tmp : Z) (a : bytes) : result bytes :=
  match n with
  | O => Ok a
  | S n' =>
      let bit := if i =? 0 then 0x0f else 0x1f in
      index base32Alphabet (Z.land tmp bit) ≫= fun c =>
      let shift := if i =? 0 then 4 else 5 in
      S_loop n' (i + 1) (Z.shiftr tmp shift) (c :: a)
  end.

(** [strings.TrimRight(s, c)] for a one-byte cutset *)
Fixpoint trim_left (c : Z) (s : bytes) : bytes :=
  match s with
  | [] => []
  | x :: s' => if x =? c then trim_left c s' else s
  end.
Definition TrimRight (c : Z) (s : bytes) : bytes := reverse (trim_left c (reverse s)).

Definition S_ (in_ : Z) : result bytes := S_loop 13 0 in_ [] ≫= fun a => Ok (TrimRight 46 a).

Definition to_String (n : Z) : result bytes := S_ n.
Definition IsEmpty (n : Z) : bool := n =? 0.
Definition Pack (n : Z) : bytes := le_bytes 8 n.

Definition CompareName (first second : Z) : Z :=
  if first =? second then 0 else if first <? second then -1 else 1.

(** The loop of [NameSuffix] over [remainingBits] = 59, 54, ..., 4. *)
Fixpoint NameSuffix_loop (k : nat) (remainingBits n tmp rem : Z) : Z * Z :=
  match k with
  | O => (tmp, rem)
  | S k' =>
      let c := Z.land (Z.shiftr n remainingBits) 0x1F in
      if c =? 0 then NameSuffix_loop k' (remainingBits - 5) n remainingBits rem
      else NameSuffix_loop k' (remainingBits - 5) n tmp tmp
  end.

Definition NameSuffix (n : Z) : Z :=
  let '(tmp, rem) := NameSuffix_loop 12 59 n 0 0 in
  let thirteenthCharacter := Z.land n 0x0F in
  let rem := if negb (thirteenthCharacter =? 0) then tmp else rem in
  if rem =? 0 then n
  else
    let mask := Z.shiftl 1 rem - 16 in
    let shift := 64 - rem in
    u64 (u64 (Z.shiftl (Z.land n mask) shift) + u64 (Z.shiftl thirteenthCharacter (shift - 1))).

(** ** Symbols

    [sym s i] is the symbol the text [s] has at position [i], the dot past its end;
    [base32 l] reads symbols as digits. *)

Definition sym (s : bytes) (i : nat) : Z := match s !! i with Some c => charToSymbol c | None => 0 end.

Definition symbols (s : bytes) : list Z := map (sym s) (seq 0 12).

Definition base32 (l : list Z) : Z := foldl (fun a x => 32 * a + x) 0 l.

Definition name_val (l : list Z) (x12 : Z) : Z := 16 * base32 l + x12.

Lemma charToSymbol_range c : in_u 5 (charToSymbol c).
Proof.
  unfold charToSymbol, in_u. norm_pow.
  repeat case_match; rewrite ?andb_true_iff, ?Z.leb_le in *; rewrite ?uwrap_id; unfold in_u; norm_pow; lia.
Qed.

Lemma sym_range s i : in_u 5 (sym s i).
Proof. unfold sym. case_match; [apply charToSymbol_range|by_decide]. Qed.

Lemma alphabet_table :
  forallb (fun x => match base32Alphabet !! Z.to_nat x with
                    | Some c => (charToSymbol c =? x) && Bool.eqb (c =? 46) (x =? 0) | None => false end) (seqZ 0 32) = true.
Proof. vm_compute. reflexivity. Qed.

Lemma alphabet_spec x : in_u 5 x ->
  exists c, index base32Alphabet x = Ok c /\ base32Alphabet !! Z.to_nat x = Some c /\
    charToSymbol c = x /\ (c = 46 <-> x = 0).
Proof.
  intros Hx. pose proof (proj1 (forallb_forall _ _) alphabet_table x) as H.
  specialize (H ltac:(apply list_elem_of_In, elem_of_seqZ; exact Hx)). cbv beta in H. unfold index.
  rewrite (proj2 (Z.ltb_ge _ _)) by (unfold in_u in *; lia).
  destruct (base32Alphabet !! Z.to_nat x) as [c|]; [|done]. apply andb_true_iff in H as [H1%Z.eqb_eq H2].
  exists c. split_and!; try done. apply eqb_prop in H2.
  rewrite <- Z.eqb_eq, H2, Z.eqb_eq. done.
Qed.

(** ** [N] is the positional value of the symbols *)

Lemma lor_step i val x :
  0 <= i < 12 -> in_u 5 x -> in_u (5 * i) val ->
  Z.lor (val * 2 ^ (64 - 5 * i)) (u64 (Z.shiftl (Z.land x 0x1f) (64 - 5 * (i + 1)))) =
    (32 * val + x) * 2 ^ (64 - 5 * (i + 1)) /\ in_u (5 * (i + 1)) (32 * val + x).
Proof.
  intros Hi Hx Hv. change 0x1f with (Z.ones 5). rewrite Z.land_ones, Z.mod_small by (lia || exact Hx).
  assert (Hp : 2 ^ (5 * (i + 1)) = 32 * 2 ^ (5 * i)) by (rewrite Z.mul_add_distr_l, Z.pow_add_r by lia; lia).
  assert (Hq : 2 ^ (64 - 5 * i) = 32 * 2 ^ (64 - 5 * (i + 1))).
  { replace (64 - 5 * i) with (5 + (64 - 5 * (i + 1))) by lia. rewrite Z.pow_add_r by lia. done. }
  set (P := 2 ^ (64 - 5 * (i + 1))) in *. assert (HP : 0 < P) by (apply Z.pow_pos_nonneg; lia).
  assert (Hbig : 2 ^ (5 * i) * 2 ^ (64 - 5 * i) = 2 ^ 64) by (rewrite <- Z.pow_add_r by lia; f_equal; lia).
  rewrite Z.shiftl_mul_pow2 by lia. fold P.
  assert (1 <= 2 ^ (5 * i)) by (pose proof (Z.pow_pos_nonneg 2 (5 * i)); lia).
  unfold in_u in *. change (2 ^ 5) with 32 in Hx.
  rewrite uwrap_id by (unfold in_u; nia). split; [|lia].
  rewrite Z.lor_comm, <- Z.shiftl_mul_pow2 by lia.
  rewrite lor_shiftl_add by (unfold in_u; (lia || nia)). rewrite Hq. lia.
Qed.

Lemma N_loop_step n i s val :
  N_loop (S n) (Z.of_nat i) s (len s) val =
    N_loop n (Z.of_nat (S i)) s (len s) (Z.lor val
      (if Z.of_nat i <? 12 then u64 (Z.shiftl (Z.land (sym s i) 0x1f) (64 - 5 * (Z.of_nat i + 1)))
       else Z.land (sym s i) 0x0f)).
Proof.
  cbn [N_loop]. rewrite Nat2Z.inj_succ, <- Z.add_1_r.
  assert ((if Z.of_nat i <? len s then index s (Z.of_nat i) ≫= fun ch => Ok (charToSymbol ch) else Ok 0)
          = Ok (sym s i)) as ->; [|by rewrite Ok_bind].
  unfold sym, index, len. rewrite (proj2 (Z.ltb_ge (Z.of_nat i) 0)), Nat2Z.id by lia.
  destruct (Z.ltb_spec (Z.of_nat i) (Z.of_nat (length s))).
  - destruct (lookup_lt_is_Some_2 s i) as [c ->]; [lia|done].
  - by rewrite lookup_ge_None_2 by lia.
Qed.

Lemma N_loop_12 k : forall i s val,
  (i + k = 12)%nat -> in_u (5 * Z.of_nat i) val ->
  N_loop (S k) (Z.of_nat i) s (len s) (val * 2 ^ (64 - 5 * Z.of_nat i)) =
    Ok (16 * foldl (fun a x => 32 * a + x) val (map (sym s) (seq i k)) + sym s 12 mod 16).
Proof.
  induction k as [|k IH]; intros i s val Hi Hv; rewrite N_loop_step.
  - assert (i = 12%nat) as -> by lia. cbn [N_loop map seq foldl].
    change (Z.of_nat 12 <? 12) with false. cbv iota.
    change (64 - 5 * Z.of_nat 12) with 4. change 0x0f with (Z.ones 4).
    rewrite Z.land_ones by lia. f_equal. rewrite Z.lor_comm, <- Z.shiftl_mul_pow2 by lia.
    rewrite lor_shiftl_add; [norm_pow; lia|lia|]. by apply Z.mod_pos_bound.
  - rewrite (proj2 (Z.ltb_lt (Z.of_nat i) 12)) by lia.
    destruct (lor_step (Z.of_nat i) val (sym s i)) as [-> Hr]; [lia|apply sym_range|done|].
    replace (Z.of_nat i + 1) with (Z.of_nat (S i)) in * by lia.
    rewrite IH by (done || lia). done.
Qed.

Lemma N_value s : (length s <= 13)%nat -> N s = Ok (name_val (symbols s) (sym s 12 mod 16)).
Proof.
  intros Hl. unfold N. rewrite uwrap_id by (unfold in_u, len; norm_pow; lia).
  rewrite (proj2 (Z.leb_le _ _)) by (unfold len; lia).
  apply (N_loop_12 12 0 s 0); [done|by_decide].
Qed.

(** ** [S_] extracts the symbols *)

Definition letters (l : list Z) : bytes := map (fun x => nth (Z.to_nat x) base32Alphabet 46) l.

Lemma base32_snoc l x : base32 (l ++ [x]) = 32 * base32 l + x.
Proof. unfold base32. by rewrite foldl_app. Qed.

Lemma base32_app l1 l2 : base32 (l1 ++ l2) = base32 l1 * 2 ^ (5 * Z.of_nat (length l2)) + base32 l2.
Proof.
  induction l2 as [|x l2 IH] using rev_ind.
  - rewrite app_nil_r. change (2 ^ _) with 1. cbn. lia.
  - rewrite app_assoc, !base32_snoc, IH, length_app. simpl length.
    replace (5 * Z.of_nat (length l2 + 1)) with (5 + 5 * Z.of_nat (length l2)) by lia.
    rewrite Z.pow_add_r by lia. lia.
Qed.

Lemma base32_range l : Forall (in_u 5) l -> 0 <= base32 l < 2 ^ (5 * Z.of_nat (length l)).
Proof.
  induction l as [|x l IH] using rev_ind; intros Hl; [by_decide|].
  apply Forall_app in Hl as [Hl Hx]. apply (proj1 (Forall_singleton _ _)) in Hx. specialize (IH Hl).
  rewrite base32_snoc, length_app. simpl length.
  replace (5 * Z.of_nat (length l + 1)) with (5 + 5 * Z.of_nat (length l)) by lia.
  rewrite Z.pow_add_r by lia. unfold in_u in Hx. change (2 ^ 5) with 32 in *. lia.
Qed.

Lemma letter_index x : in_u 5 x -> index base32Alphabet x = Ok (nth (Z.to_nat x) base32Alphabet 46).
Proof.
  intros Hx. destruct (alphabet_spec x Hx) as (c & -> & Hc & _). f_equal. symmetry. by apply nth_lookup_Some.
Qed.

Lemma S_loop_digits l : forall i a,
  0 < i -> Forall (in_u 5) l -> S_loop (length l) i (base32 l) a = Ok (letters l ++ a).
Proof.
  induction l as [|x l IH] using rev_ind; intros i a Hi Hl; [done|].
  apply Forall_app in Hl as [Hl Hx]. apply (proj1 (Forall_singleton _ _)) in Hx.
  rewrite length_app, Nat.add_comm. simpl length. cbn [Nat.add S_loop].
  rewrite (proj2 (Z.eqb_neq i 0)) by lia. change 0x1f with (Z.ones 5).
  rewrite Z.land_ones, Z.shiftr_div_pow2, base32_snoc by lia.
  pose proof Hx as Hx'. unfold in_u in Hx'. change (2 ^ 5) with 32 in *.
  replace ((32 * base32 l + x) mod 32) with x by (Z.div_mod_to_equations; lia).
  replace ((32 * base32 l + x) / 32) with (base32 l) by (Z.div_mod_to_equations; lia).
  rewrite letter_index, Ok_bind, IH by (done || lia). unfold letters. by rewrite map_app, <- app_assoc.
Qed.

Lemma S_loop_first n tmp :
  S_loop (S n) 0 tmp [] =
    (index base32Alphabet (Z.land tmp 0x0f) ≫= fun c => S_loop n 1 (Z.shiftr tmp 4) [c]).
Proof. reflexivity. Qed.

Lemma S_loop_name l x12 :
  length l = 12%nat -> Forall (in_u 5) l -> in_u 4 x12 ->
  S_loop 13 0 (name_val l x12) [] = Ok (letters (l ++ [x12])).
Proof.
  intros Hl Hd Hx. rewrite S_loop_first. change 0x0f with (Z.ones 4).
  rewrite Z.land_ones, Z.shiftr_div_pow2 by lia. unfold name_val, in_u in Hx |- *. change (2 ^ 4) with 16 in *.
  replace ((16 * base32 l + x12) mod 16) with x12 by (Z.div_mod_to_equations; lia).
  replace ((16 * base32 l + x12) / 16) with (base32 l) by (Z.div_mod_to_equations; lia).
  rewrite letter_index, Ok_bind by (unfold in_u; norm_pow; lia).
  pose proof (S_loop_digits l 1 [nth (Z.to_nat x12) base32Alphabet 46] ltac:(lia) Hd) as E.
  rewrite Hl in E. unfold letters. rewrite map_app. exact E.
Qed.

(** Every 64-bit number is the value of its symbols. *)
Fixpoint digits32 (k : nat) (n : Z) : list Z :=
  match k with O => [] | S k' => digits32 k' (n / 32) ++ [n mod 32] end.

Lemma digits32_spec k : forall n, 0 <= n < 2 ^ (5 * Z.of_nat k) ->
  base32 (digits32 k n) = n /\ length (digits32 k n) = k /\ Forall (in_u 5) (digits32 k n).
Proof.
  induction k as [|k IH]; intros n Hn.
  - change (2 ^ (5 * Z.of_nat 0)) with 1 in Hn. split_and!; [cbn; lia|done|constructor].
  - replace (5 * Z.of_nat (S k)) with (5 + 5 * Z.of_nat k) in Hn by lia.
    rewrite Z.pow_add_r in Hn by lia. change (2 ^ 5) with 32 in Hn.
    destruct (IH (n / 32)) as (H1 & H2 & H3); [Z.div_mod_to_equations; lia|]. simpl. split_and!.
    + rewrite base32_snoc, H1. Z.div_mod_to_equations. lia.
    + rewrite length_app, H2. simpl. lia.
    + apply Forall_app. split; [done|]. constructor; [|constructor]. unfold in_u. norm_pow. Z.div_mod_to_equations. lia.
Qed.

Lemma name_digits n : in_u 64 n ->
  exists l x12, n = name_val l x12 /\ length l = 12%nat /\ Forall (in_u 5) l /\ in_u 4 x12.
Proof.
  intros Hn. destruct (digits32_spec 12 (n / 16)) as (H1 & H2 & H3).
  { unfold in_u in Hn. change (2 ^ (5 * Z.of_nat 12)) with (2 ^ 60). norm_pow. Z.div_mod_to_equations. lia. }
  exists (digits32 12 (n / 16)), (n mod 16). split_and!; [|done|done|by apply Z.mod_pos_bound].
  unfold name_val. rewrite H1. Z.div_mod_to_equations. lia.
Qed.

(** ** Trimming *)

Lemma TrimRight_spec c s : exists k, s = TrimRight c s ++ replicate k c.
Proof.
  unfold TrimRight. cut (exists k, reverse (reverse s) = reverse (trim_left c (reverse s)) ++ replicate k c).
  { by rewrite reverse_involutive. }
  generalize (reverse s). clear s. intros s. induction s as [|x s [k IH]]; simpl; [by exists 0%nat|].
  destruct (Z.eqb_spec x c) as [->|].
  - exists (S k). rewrite reverse_cons, IH, <- app_assoc. f_equal.
    by rewrite replicate_S_end.
  - exists 0%nat. by rewrite app_nil_r.
Qed.

Lemma TrimRight_keep c s x k : x <> c -> TrimRight c (s ++ [x] ++ replicate k c) = s ++ [x].
Proof.
  intros Hx. unfold TrimRight. rewrite !reverse_app, reverse_replicate, <- app_assoc.
  induction k as [|k IH]; simpl.
  - rewrite (proj2 (Z.eqb_neq x c)) by done. by rewrite reverse_cons, reverse_involutive.
  - by rewrite Z.eqb_refl.
Qed.

Lemma sym_dots s k i : sym (s ++ replicate k 46) i = sym s i.
Proof.
  unfold sym. destruct (s !! i) eqn:E.
  - by rewrite (lookup_app_l_Some _ _ _ _ E).
  - apply lookup_ge_None in E. rewrite lookup_app_r by done.
    destruct (replicate k 46 !! (i - length s)%nat) eqn:E'; [|done].
    apply lookup_replicate in E' as [-> _]. done.
Qed.

Lemma sym_letters l i x : Forall (in_u 5) l -> l !! i = Some x -> sym (letters l) i = x.
Proof.
  intros Hl Hx. unfold sym, letters. rewrite list_lookup_fmap, Hx. cbn [fmap option_fmap option_map].
  pose proof (Forall_lookup_1 _ _ _ _ Hl Hx) as Hr. destruct (alphabet_spec x Hr) as (c & _ & Hc & Hs & _).
  by rewrite (nth_lookup_Some _ _ _ _ Hc).
Qed.

Lemma symbols_ext s l : (forall i, (i < 12)%nat -> l !! i = Some (sym s i)) -> length l = 12%nat -> symbols s = l.
Proof.
  intros H Hl. apply list_eq_same_length with 12%nat; [done|by unfold symbols; rewrite length_map, length_seq|].
  intros i x y Hi Hx Hy. unfold symbols in Hx. rewrite list_lookup_fmap, lookup_seq_lt in Hx by lia. simpl in Hx.
  rewrite H in Hy by lia. congruence.
Qed.

Lemma N_S n : in_u 64 n -> exists s, S_ n = Ok s /\ N s = Ok n.
Proof.
  intros Hn. destruct (name_digits n Hn) as (l & x12 & -> & Hl & Hd & Hx).
  unfold S_. rewrite S_loop_name, Ok_bind by done. eexists. split; [done|].
  assert (Hd' : Forall (in_u 5) (l ++ [x12])).
  { apply Forall_app. split; [done|]. constructor; [|constructor]. unfold in_u in *. norm_pow. lia. }
  destruct (TrimRight_spec 46 (letters (l ++ [x12]))) as [k Hk].
  set (s := TrimRight 46 _) in *.
  assert (Hs : forall i x, (l ++ [x12]) !! i = Some x -> sym s i = x).
  { intros i x Hix. rewrite <- (sym_dots s k), <- Hk. by apply sym_letters. }
  rewrite N_value.
  - f_equal. f_equal.
    + apply symbols_ext; [|done]. intros i Hi. destruct (lookup_lt_is_Some_2 l i) as [y Hy]; [lia|].
      rewrite Hy. f_equal. symmetry. apply Hs. by apply lookup_app_l_Some.
    + rewrite (Hs 12%nat x12) by (by rewrite lookup_app_r, Hl by lia). apply Z.mod_small. exact Hx.
  - apply (f_equal length) in Hk. unfold letters in Hk. rewrite length_map, !length_app, Hl in Hk. simpl in Hk. lia.
Qed.

(** ** [N] then [S_] *)

(** A text the alphabet can spell: at most thirteen characters of the alphabet, the
    thirteenth among the first sixteen, not ending in a dot. *)
Definition spelled (s : bytes) : bool :=
  (len s <=? 13) && forallb (fun c => bool_decide (c ∈ base32Alphabet)) s &&
  (sym s 12 <? 16) && negb (bool_decide (last s = Some 46)).

Lemma alphabet_char c : c ∈ base32Alphabet -> nth (Z.to_nat (charToSymbol c)) base32Alphabet 46 = c.
Proof.
  assert (H : forallb (fun c => nth (Z.to_nat (charToSymbol c)) base32Alphabet 46 =? c) base32Alphabet = true)
    by (vm_compute; reflexivity).
  intros Hc. apply Z.eqb_eq. apply (proj1 (forallb_forall _ _) H). by apply list_elem_of_In.
Qed.

Lemma letters_symbols s :
  (length s <= 13)%nat -> Forall (fun c => c ∈ base32Alphabet) s -> sym s 12 < 16 ->
  letters (symbols s ++ [sym s 12 mod 16]) = s ++ replicate (13 - length s) 46.
Proof.
  intros Hl Hs H12. rewrite Z.mod_small by (pose proof (sym_range s 12) as [? _]; lia).
  change (symbols s ++ [sym s 12]) with (map (sym s) (seq 0 13)).
  apply list_eq_same_length with 13%nat.
  - rewrite length_app, length_replicate. lia.
  - unfold letters. by rewrite !length_map, length_seq.
  - intros i x y Hi Hx Hy. unfold letters in Hx. rewrite !list_lookup_fmap, lookup_seq_lt in Hx by lia.
    injection Hx as <-. cbn [Nat.add]. unfold sym. destruct (s !! i) as [c|] eqn:E.
    + rewrite (lookup_app_l_Some _ _ _ _ E) in Hy. injection Hy as <-.
      apply alphabet_char. by eapply Forall_lookup_1 in Hs.
    + apply lookup_ge_None in E. rewrite lookup_app_r in Hy by done.
      apply lookup_replicate in Hy as [-> _]. done.
Qed.

Lemma spelled_spec s : spelled s = true ->
  (length s <= 13)%nat /\ Forall (fun c => c ∈ base32Alphabet) s /\ sym s 12 < 16 /\ last s <> Some 46.
Proof.
  unfold spelled. rewrite !andb_true_iff, Z.leb_le, Z.ltb_lt, negb_true_iff, bool_decide_eq_false.
  unfold len. intros [[[H1 H2] H3] H4]. split_and!; [lia| |done|done].
  apply Forall_forall. intros c Hc%list_elem_of_In. apply (proj1 (forallb_forall _ _) H2) in Hc.
  by apply bool_decide_eq_true in Hc.
Qed.

Lemma S_N s : spelled s = true -> exists n, N s = Ok n /\ in_u 64 n /\ S_ n = Ok s.
Proof.
  intros (Hl & Hs & H12 & Hlast)%spelled_spec. rewrite N_value by done. eexists. split; [done|].
  assert (Hd : Forall (in_u 5) (symbols s)) by (apply Forall_map, Forall_true; intros; apply sym_range).
  assert (Hx : in_u 4 (sym s 12 mod 16)) by by apply Z.mod_pos_bound.
  split.
  - pose proof (base32_range _ Hd) as H. assert (Hn : length (symbols s) = 12%nat) by (unfold symbols; by rewrite length_map, length_seq).
    rewrite Hn in H.
    change (2 ^ (5 * Z.of_nat 12)) with (2 ^ 60) in H. unfold name_val, in_u in *. norm_pow. lia.
  - unfold S_. rewrite S_loop_name, Ok_bind, letters_symbols by done. f_equal.
    destruct s as [|c s' _] using rev_ind; [by vm_compute|].
    rewrite last_snoc in Hlast. rewrite <- app_assoc. apply TrimRight_keep. congruence.
Qed.

(** ** [NameSuffix] *)

(** The loop on the symbols, the first of which is at bit [rb]. *)
Fixpoint scan (l : list Z) (rb tmp rem : Z) : Z * Z :=
  match l with
  | [] => (tmp, rem)
  | x :: l' => if x =? 0 then scan l' (rb - 5) rb rem else scan l' (rb - 5) tmp tmp
  end.


Lemma symbol_at l1 x l2 x12 :
  Forall (in_u 5) (l1 ++ x :: l2) -> in_u 4 x12 ->
  Z.land (Z.shiftr (name_val (l1 ++ x :: l2) x12) (4 + 5 * Z.of_nat (length l2))) 0x1F = x.
Proof.
  intros Hd Hx. apply Forall_app in Hd as [H1 H2]. apply Forall_cons in H2 as [Hx5 H2].
  change 0x1F with (Z.ones 5). rewrite Z.land_ones, Z.shiftr_div_pow2 by lia.
  pose proof (base32_range _ H2) as Hb. unfold in_u in *.
  set (P := 2 ^ (5 * Z.of_nat (length l2))) in *.
  assert (HP : 2 ^ (4 + 5 * Z.of_nat (length l2)) = 16 * P) by (rewrite Z.pow_add_r by lia; done).
  assert (Hv : name_val (l1 ++ x :: l2) x12 = (16 * P) * (32 * base32 l1 + x) + (16 * base32 l2 + x12)).
  { unfold name_val. change (x :: l2) with ([x] ++ l2). rewrite app_assoc, base32_app, base32_snoc. fold P. ring. }
  rewrite HP, Hv. change (2 ^ 5) with 32 in *. change (2 ^ 4) with 16 in Hx.
  rewrite (Z.mul_comm (16 * P)), Z.div_add_l, (Z.div_small (16 * base32 l2 + x12)) by lia.
  Z.div_mod_to_equations. lia.
Qed.

Lemma NameSuffix_loop_scan l2 : forall l1 x12 tmp rem,
  Forall (in_u 5) (l1 ++ l2) -> in_u 4 x12 ->
  NameSuffix_loop (length l2) (4 + 5 * (Z.of_nat (length l2) - 1)) (name_val (l1 ++ l2) x12) tmp rem =
    scan l2 (4 + 5 * (Z.of_nat (length l2) - 1)) tmp rem.
Proof.
  induction l2 as [|x l2 IH]; intros l1 x12 tmp rem Hd Hx; [done|].
  simpl length. cbn [NameSuffix_loop scan].
  replace (4 + 5 * (Z.of_nat (S (length l2)) - 1)) with (4 + 5 * Z.of_nat (length l2)) by lia.
  rewrite symbol_at by done.
  replace (4 + 5 * Z.of_nat (length l2) - 5) with (4 + 5 * (Z.of_nat (length l2) - 1)) by lia.
  change (x :: l2) with ([x] ++ l2) in *. rewrite app_assoc in *. by destruct (x =? 0); apply IH.
Qed.

Lemma scan_app l1 : forall l2 rb tmp rem,
  scan (l1 ++ l2) rb tmp rem =
    let '(tmp', rem') := scan l1 rb tmp rem in scan l2 (rb - 5 * Z.of_nat (length l1)) tmp' rem'.
Proof.
  induction l1 as [|x l1 IH]; intros l2 rb tmp rem.
  - cbn [scan app length]. by rewrite Z.sub_0_r.
  - cbn [app scan length]. rewrite Nat2Z.inj_succ.
    replace (rb - 5 * Z.succ (Z.of_nat (length l1))) with (rb - 5 - 5 * Z.of_nat (length l1)) by lia.
    destruct (x =? 0); apply IH.
Qed.

Lemma scan_letters l rb tmp rem :
  Forall (fun x => x <> 0) l -> scan l rb tmp rem = (tmp, if (length l =? 0)%nat then rem else tmp).
Proof.
  intros Hl. revert rb rem. induction Hl as [|x l Hx Hl IH]; intros rb rem; [done|].
  cbn [scan]. rewrite (proj2 (Z.eqb_neq x 0)) by done. rewrite IH. simpl. by destruct l.
Qed.

Lemma scan_dots m : forall rb tmp rem, (scan (replicate m 0) rb tmp rem).2 = rem.
Proof. induction m as [|m IH]; intros rb tmp rem; [done|]. cbn [replicate scan Z.eqb]. apply IH. Qed.

(** Cutting the symbols after position [length l1] and aligning them left. *)
Lemma suffix_arith l1 l2 x12 :
  (length l1 + length l2 = 11)%nat -> Forall (in_u 5) (l1 ++ 0 :: l2) -> in_u 4 x12 ->
  let n := name_val (l1 ++ 0 :: l2) x12 in
  let rem := 4 + 5 * Z.of_nat (length l2) in
  u64 (u64 (Z.shiftl (Z.land n (Z.shiftl 1 rem - 16)) (64 - rem)) +
       u64 (Z.shiftl (Z.land n 0x0F) (64 - rem - 1))) =
  name_val (l2 ++ [x12] ++ replicate (length l1) 0) 0.
Proof.
  intros Hlen Hd Hx n rem. apply Forall_app in Hd as [H1 H2]. apply Forall_cons in H2 as [_ H2].
  pose proof (base32_range _ H2) as Hb. set (P := 2 ^ (5 * Z.of_nat (length l2))) in *.
  assert (HP : 2 ^ rem = 16 * P) by (unfold rem; rewrite Z.pow_add_r by lia; done).
  assert (Hv : n = 2 ^ rem * (32 * base32 l1) + (16 * base32 l2 + x12)).
  { unfold n, name_val. change (0 :: l2) with ([0] ++ l2). rewrite app_assoc, base32_app, base32_snoc. fold P.
    rewrite HP. ring. }
  unfold in_u in Hx. change (2 ^ 4) with 16 in Hx.
  assert (H13 : Z.land n 0x0F = x12).
  { change 0x0F with (Z.ones 4). rewrite Z.land_ones, Hv, HP by lia. change (2 ^ 4) with 16.
    replace (16 * P * (32 * base32 l1) + (16 * base32 l2 + x12)) with (x12 + (P * (32 * base32 l1) + base32 l2) * 16) by ring.
    rewrite Z.mod_add, Z.mod_small by lia. done. }
  assert (Hm : Z.land n (Z.shiftl 1 rem - 16) = 16 * base32 l2).
  { assert (Z.shiftl 1 rem - 16 = Z.ldiff (Z.ones rem) (Z.ones 4)) as ->.
    { rewrite <- Z.sub_nocarry_ldiff.
      - rewrite Z.shiftl_1_l, !Z.ones_equiv. change (2 ^ 4) with 16. lia.
      - bits. rewrite !Z.testbit_ones_nonneg by (unfold rem; lia).
        destruct (Z.ltb_spec i 4), (Z.ltb_spec i rem); try done. unfold rem in *; lia. }
    rewrite Z.ldiff_land, Z.land_assoc, <- Z.ldiff_land, Z.land_ones by (unfold rem; lia).
    rewrite Hv, Z.mul_comm, Z.add_comm, Z.mod_add, Z.mod_small by lia.
    rewrite Z.ldiff_ones_r, Z.shiftr_div_pow2, Z.shiftl_mul_pow2 by lia. change (2 ^ 4) with 16.
    Z.div_mod_to_equations. lia. }
  rewrite Hm, H13. set (j := Z.of_nat (length l1)).
  assert (Hr : 64 - rem = 5 + 5 * j) by (unfold rem, j; lia). rewrite Hr.
  rewrite !Z.shiftl_mul_pow2 by lia.
  replace (5 + 5 * j - 1) with (4 + 5 * j) by lia. rewrite !Z.pow_add_r by lia. change (2 ^ 5) with 32. change (2 ^ 4) with 16.
  set (Q := 2 ^ (5 * j)). assert (HQ : 0 < Q) by (apply Z.pow_pos_nonneg; lia).
  assert (HPQ : P * Q = 2 ^ 55) by (unfold P, Q, j; rewrite <- Z.pow_add_r by lia; f_equal; lia).
  assert (Hz : base32 (replicate (length l1) 0) = 0).
  { clear. induction (length l1) as [|k IH]; [done|]. rewrite replicate_S_end, base32_snoc, IH. done. }
  assert (Hfin : name_val (l2 ++ [x12] ++ replicate (length l1) 0) 0 = 16 * base32 l2 * (32 * Q) + x12 * (16 * Q)).
  { unfold name_val. rewrite app_assoc, base32_app, base32_snoc, Hz, length_replicate. fold j. fold Q. ring. }
  rewrite Hfin. assert (Hb2 : 0 <= base32 l2 * Q <= (P - 1) * Q) by nia.
  assert (0 <= 16 * base32 l2 * (32 * Q) + x12 * (16 * Q) < 2 ^ 64).
  { split; [nia|]. replace (2 ^ 64) with (512 * (P * Q)) by (rewrite HPQ; done). nia. }
  rewrite (uwrap_id 64 (16 * base32 l2 * (32 * Q))), (uwrap_id 64 (x12 * (16 * Q))), uwrap_id by (unfold in_u; nia).
  done.
Qed.

Lemma symbols_pad s k :
  map (sym s) (seq 0 k) = map charToSymbol (take k s) ++ replicate (k - length s) 0.
Proof.
  apply list_eq_same_length with k.
  - rewrite length_app, length_map, length_take, length_replicate. lia.
  - by rewrite length_map, length_seq.
  - intros i x y Hi Hx Hy. rewrite list_lookup_fmap, lookup_seq_lt in Hx by done. injection Hx as <-.
    unfold sym. cbn [Nat.add]. destruct (s !! i) as [c|] eqn:E.
    + rewrite lookup_app_l in Hy by (rewrite length_map, length_take; apply lookup_lt_Some in E; lia).
      rewrite list_lookup_fmap, lookup_take_lt, E in Hy by done. by injection Hy.
    + apply lookup_ge_None in E. rewrite lookup_app_r in Hy by (rewrite length_map, length_take; lia).
      by apply lookup_replicate in Hy as [-> _].
Qed.

Lemma letters_nonzero s :
  Forall (fun c => c ∈ base32Alphabet) s -> 46 ∉ s -> Forall (fun x => x <> 0) (map charToSymbol s).
Proof.
  intros Hs Hd. apply Forall_map, Forall_forall. intros c Hc H0. apply Hd.
  pose proof (alphabet_char c (proj1 (Forall_forall _ _) Hs c Hc)) as E. rewrite H0 in E.
  by rewrite <- E in Hc.
Qed.

Lemma sym12_dots s : sym s 12 mod 16 <> 0 -> (12 < length s)%nat.
Proof.
  intros H. destruct (Nat.lt_ge_cases 12 (length s)); [done|].
  unfold sym in H. by rewrite lookup_ge_None_2 in H by lia.
Qed.

Lemma NameSuffix_unfold l x12 :
  length l = 12%nat -> Forall (in_u 5) l -> in_u 4 x12 ->
  NameSuffix (name_val l x12) =
    let '(tmp, rem) := scan l 59 0 0 in
    let rem := if negb (x12 =? 0) then tmp else rem in
    if rem =? 0 then name_val l x12
    else u64 (u64 (Z.shiftl (Z.land (name_val l x12) (Z.shiftl 1 rem - 16)) (64 - rem)) +
              u64 (Z.shiftl (Z.land (name_val l x12) 0x0F) (64 - rem - 1))).
Proof.
  intros Hl Hd Hx. unfold NameSuffix. pose proof (NameSuffix_loop_scan l [] x12 0 0 Hd Hx) as E.
  rewrite Hl in E. change (4 + 5 * (Z.of_nat 12 - 1)) with 59 in E. cbn [app] in E. rewrite E.
  assert (Z.land (name_val l x12) 0x0F = x12) as ->; [|done].
  change 0x0F with (Z.ones 4). rewrite Z.land_ones by lia. unfold name_val, in_u in *. norm_pow.
  Z.div_mod_to_equations. lia.
Qed.

Lemma symbols_facts s : length (symbols s) = 12%nat /\ Forall (in_u 5) (symbols s).
Proof.
  split; [unfold symbols; by rewrite length_map, length_seq|].
  apply Forall_map, Forall_true. intros. apply sym_range.
Qed.

Lemma NameSuffix_no_dot s n : spelled s = true -> 46 ∉ s -> N s = Ok n -> NameSuffix n = n.
Proof.
  intros (Hl & Hs & H12 & _)%spelled_spec Hd. rewrite N_value by done. intros [= <-].
  destruct (symbols_facts s) as [Hn Hf].
  rewrite NameSuffix_unfold by (done || by apply Z.mod_pos_bound).
  assert (Hnz : Forall (fun x => x <> 0) (map charToSymbol (take 12 s))).
  { apply letters_nonzero; [by apply Forall_take|]. intros Hin. by apply elem_of_take in Hin as (? & ?%list_elem_of_lookup_2 & _). }
  unfold symbols at 1. rewrite symbols_pad, scan_app, scan_letters by done.
  assert (E : (if (length (map charToSymbol (take 12 s)) =? 0)%nat then 0 else 0) = 0) by by case_match.
  rewrite E. set (rb := 59 - _).
  destruct (Z.eqb_spec (sym s 12 mod 16) 0) as [|Hne]; cbn [negb].
  - pose proof (scan_dots (12 - length s) rb 0 0) as Hr. destruct (scan _ rb 0 0). simpl in Hr. subst. done.
  - apply sym12_dots in Hne. by replace (12 - length s)%nat with 0%nat by lia.
Qed.

Lemma scan_dotted l1 l2 m x12 :
  Forall (fun x => x <> 0) l2 -> (l2 <> [] \/ x12 <> 0) -> (x12 <> 0 -> m = 0%nat) ->
  (length l1 + 1 + length l2 + m = 12)%nat ->
  (let '(tmp, rem) := scan (l1 ++ 0 :: l2 ++ replicate m 0) 59 0 0 in
   if negb (x12 =? 0) then tmp else rem) = 4 + 5 * Z.of_nat (length l2 + m).
Proof.
  intros Hnz Hne Hm Hlen. rewrite scan_app. destruct (scan l1 59 0 0) as [t r]. cbn [scan Z.eqb].
  change (0 =? 0) with true. cbv iota. rewrite scan_app, scan_letters by done.
  assert (Hr : 59 - 5 * Z.of_nat (length l1) = 4 + 5 * Z.of_nat (length l2 + m)) by lia. rewrite Hr.
  destruct (Z.eqb_spec x12 0) as [->|Hx]; cbn [negb].
  - destruct l2 as [|y l2]; [naive_solver|]. cbn [length Nat.eqb].
    match goal with |- context [scan (replicate m 0) ?rb ?t ?r] =>
      pose proof (scan_dots m rb t r); destruct (scan (replicate m 0) rb t r) end. done.
  - rewrite (Hm Hx). done.
Qed.

Lemma suffix_of_symbols l1 l2 m x12 :
  Forall (fun x => x <> 0) l2 -> (l2 <> [] \/ x12 <> 0) -> (x12 <> 0 -> m = 0%nat) ->
  (length l1 + 1 + length l2 + m = 12)%nat -> Forall (in_u 5) (l1 ++ 0 :: l2 ++ replicate m 0) -> in_u 4 x12 ->
  NameSuffix (name_val (l1 ++ 0 :: l2 ++ replicate m 0) x12) =
    name_val ((l2 ++ replicate m 0) ++ [x12] ++ replicate (length l1) 0) 0.
Proof.
  intros Hnz Hne Hm Hlen Hf Hx. pose proof (scan_dotted l1 l2 m x12 Hnz Hne Hm Hlen) as Hscan.
  rewrite NameSuffix_unfold; [|rewrite length_app; simpl; rewrite length_app, length_replicate; lia|done|done].
  destruct (scan _ 59 0 0) as [tmp rem]. cbv zeta. rewrite Hscan, (proj2 (Z.eqb_neq _ _)) by lia.
  rewrite <- (suffix_arith l1 (l2 ++ replicate m 0) x12);
    [|rewrite length_app, length_replicate; lia|done|done].
  cbv zeta. by rewrite length_app, length_replicate.
Qed.

Section Dotted.
Context (p q : bytes) (Hs : spelled (p ++ 46 :: q) = true) (Hq : q <> []) (Hd : 46 ∉ q).

Local Abbreviation s := (p ++ 46 :: q).
Local Abbreviation tail := (map charToSymbol (take (11 - length p) q)).
Local Abbreviation pad := (12 - length s)%nat.

Lemma dotted_length : (length p + 1 + length q <= 13)%nat /\ (0 < length q)%nat.
Proof.
  destruct (spelled_spec _ Hs) as (Hl & _). rewrite length_app in Hl. simpl in Hl.
  destruct q; [done|]. simpl in *. lia.
Qed.

Lemma dotted_alphabet : Forall (fun c => c ∈ base32Alphabet) q.
Proof.
  destruct (spelled_spec _ Hs) as (_ & Ha & _). apply Forall_app in Ha as [_ Ha]. by apply Forall_cons in Ha as [_ ?].
Qed.

Lemma dotted_symbols : symbols s = map charToSymbol p ++ 0 :: tail ++ replicate pad 0.
Proof.
  pose proof dotted_length. unfold symbols. rewrite symbols_pad. rewrite take_app_ge by lia.
  rewrite map_app, <- app_assoc. by replace (12 - length p)%nat with (S (11 - length p)) by lia.
Qed.

Lemma dotted_sym i : sym s (S (length p) + i) = sym q i.
Proof.
  unfold sym. rewrite lookup_app_r by lia. by replace (S (length p) + i - length p)%nat with (S i) by lia.
Qed.

Lemma dotted_tail : Forall (fun x => x <> 0) tail.
Proof.
  apply letters_nonzero; [apply Forall_take, dotted_alphabet|].
  intros Hin. by apply elem_of_take in Hin as (? & ?%list_elem_of_lookup_2 & _).
Qed.

Lemma dotted_sym12 : sym s 12 mod 16 = sym s 12.
Proof.
  destruct (spelled_spec _ Hs) as (_ & _ & H12 & _).
  apply Z.mod_small. pose proof (sym_range s 12) as [? _]. lia.
Qed.

Lemma dotted_nonempty : tail <> [] \/ sym s 12 mod 16 <> 0.
Proof.
  pose proof dotted_length. destruct (decide (length p = 11%nat)) as [E|].
  - right. rewrite dotted_sym12. replace (sym s 12) with (sym q 0) by (rewrite <- dotted_sym; f_equal; lia).
    pose proof (letters_nonzero q dotted_alphabet Hd) as Hn. destruct q as [|c q']; [done|].
    by apply Forall_cons in Hn as [? _].
  - left. intros E%(f_equal length). rewrite length_map, length_take in E. simpl in E. lia.
Qed.

(** The symbols of [q] are those of [s] after the dot, padded with dots. *)
Lemma suffix_symbols :
  symbols q = (tail ++ replicate pad 0) ++ [sym s 12 mod 16] ++ replicate (length p) 0 /\ sym q 12 = 0.
Proof.
  pose proof dotted_length. split; [|unfold sym; by rewrite lookup_ge_None_2 by lia].
  rewrite dotted_sym12. apply symbols_ext.
  - intros i Hi. assert (Hdrop : tail ++ replicate pad 0 = drop (S (length p)) (symbols s)).
    { rewrite dotted_symbols, drop_app_ge, length_map by (rewrite length_map; lia).
      by replace (S (length p) - length p)%nat with 1%nat by lia. }
    rewrite Hdrop. destruct (symbols_facts s) as [Hn _].
    assert (length (drop (S (length p)) (symbols s)) = 11 - length p)%nat as Hdl by (rewrite length_drop; lia).
    destruct (decide (i < 11 - length p)%nat).
    + rewrite lookup_app_l, lookup_drop by lia. unfold symbols. rewrite list_lookup_fmap, lookup_seq_lt by lia.
      simpl. f_equal. apply (dotted_sym i).
    + rewrite lookup_app_r, Hdl by lia. destruct (decide (i = 11 - length p)%nat) as [->|].
      * rewrite Nat.sub_diag. simpl. f_equal. rewrite <- dotted_sym. f_equal. lia.
      * replace (i - (11 - length p))%nat with (S (i - (12 - length p))) by lia. simpl.
        rewrite lookup_replicate_2 by lia. f_equal. unfold sym. by rewrite lookup_ge_None_2 by lia.
  - rewrite !length_app, length_map, length_take, !length_replicate. simpl. lia.
Qed.

Lemma NameSuffix_dotted n : N s = Ok n -> N q = Ok (NameSuffix n).
Proof.
  destruct (spelled_spec _ Hs) as (Hl & _). rewrite N_value by done. intros [= <-].
  pose proof dotted_length as Hlen. destruct suffix_symbols as [Eq E12]. destruct (symbols_facts s) as [_ Hf].
  rewrite (N_value q), Eq, E12, dotted_symbols, suffix_of_symbols;
    [by rewrite length_map|apply dotted_tail|apply dotted_nonempty|intros ?%sym12_dots; lia
    | |by rewrite <- dotted_symbols|by apply Z.mod_pos_bound|lia].
  rewrite !length_map, length_take, length_app. simpl. lia.
Qed.

End Dotted.

(** ** Properties *)

(** Names: every 64-bit number prints to a text that parses back to it; every
    text the alphabet can spell parses to a 64-bit number that prints back to the
    text; a text of 14 to 2^32 - 1 bytes is refused with [NameTypeException]. *)
Theorem name_round_trips :
  (forall n, in_u 64 n -> exists s, S_ n = Ok s /\ N s = Ok n) /\
  (forall s, spelled s = true -> exists n, N s = Ok n /\ in_u 64 n /\ S_ n = Ok s) /\
  (forall s, 13 < len s < 2 ^ 32 -> N s = Throw NameTypeException).
Proof.
  split_and!; [apply N_S|apply S_N|]. intros s Hl. unfold N. rewrite uwrap_id by (unfold in_u; lia).
  by rewrite (proj2 (Z.leb_gt _ _)) by lia.
Qed.

(** [NameSuffix] is the part of a name after its last dot: of the text [p.q] with
    [q] free of dots and not empty it is the name [q], and a name without a dot is its
    own suffix. *)
Theorem name_suffix_after_last_dot p q n :
  spelled (p ++ 46 :: q) = true -> q <> [] -> 46 ∉ q -> N (p ++ 46 :: q) = Ok n ->
  N q = Ok (NameSuffix n) /\
  (forall s m, spelled s = true -> 46 ∉ s -> N s = Ok m -> NameSuffix m = m).
Proof.
  intros Hs Hq Hd Hn. split; [by eapply NameSuffix_dotted|]. intros. by eapply NameSuffix_no_dot.
Qed.

(** ["eosio.msig"] *)
Lemma name_suffix_after_last_dot_witness :
  N [109; 115; 105; 103] = Ok (NameSuffix 6138663587900751872) /\
  (forall s m, spelled s = true -> 46 ∉ s -> N s = Ok m -> NameSuffix m = m).
Proof.
  apply (name_suffix_after_last_dot [101; 111; 115; 105; 111] [109; 115; 105; 103]);
    [vm_compute; reflexivity|discriminate|by_decide|vm_compute; reflexivity].
Defined.

(** Names order like their numbers: [CompareName] is -1, 0 or 1 as the first
    name is smaller, equal or greater, and the eight packed bytes of a name
    determine it. *)
Theorem name_order_and_pack a b :
  in_u 64 a -> in_u 64 b ->
  CompareName a b = match a ?= b with Lt => -1 | Eq => 0 | Gt => 1 end /\
  (Pack a = Pack b <-> a = b) /\ length (Pack a) = 8%nat.
Proof.
  intros Ha Hb. split_and!; [| |apply length_le_bytes].
  - unfold CompareName. destruct (Z.compare_spec a b); repeat case_match; rewrite ?Z.eqb_eq, ?Z.eqb_neq, ?Z.ltb_lt, ?Z.ltb_ge in *; lia.
  - split; [|by intros ->]. unfold Pack. intros E%(f_equal le_val).
    by rewrite !(le_val_le_bytes_small 8) in E.
Qed.

Lemma name_order_and_pack_witness :
  CompareName 5 7 = -1 /\ (Pack 5 = Pack 7 <-> 5 = 7) /\ length (Pack 5) = 8%nat.
Proof. apply (name_order_and_pack 5 7); by_decide. Defined.
