(* ===== verification/Time.v ===== *)
(** * Time: [common/time.go] and [chain/types/block_timestamp.go]

    A time point is a signed 64-bit count of microseconds, its coarse variant an
    unsigned 32-bit count of seconds, and a block timestamp an unsigned 32-bit
    count of half-second slots since the year 2000.  The conversions to and from
    text go through Go's [time.Format] and [time.Parse] and are left out. *)

From S2P Require Import Prelude.

(** ** The constants of [common/config.go] *)

Definition BlockIntervalMs : Z := 500.
Definition BlockTimestampEpochMs : Z := 946684800000.
Definition ProducerRepetitions : Z := 12.
Definition MaxProducers : Z := 125.
Definition MaxTrackedDposConfirmations : Z := 1024.

(** ** Microseconds; division of Go truncates towards zero *)

Definition MaxMicroseconds : Z := 0x7fffffffffffffff.
Definition MinMicroseconds : Z := 0.
Definition ToSeconds (ms : Z) : Z := Z.quot ms 1000000.
Definition Count (ms : Z) : Z := ms.
Definition Seconds (s : Z) : Z := i64 (s * 1000000).
Definition Milliseconds (s : Z) : Z := i64 (s * 1000).
Definition Minutes (m : Z) : Z := Seconds (i64 (60 * m)).
Definition Hours (h : Z) : Z := Minutes (i64 (60 * h)).
Definition Days (d : Z) : Z := Hours (i64 (24 * d)).

(** ** Time points *)

Module TimePoint.
Definition TimeSinceEpoch (tp : Z) : Z := tp.
Definition SecSinceEpoch (tp : Z) : Z := u32 tp / 1000000.
Definition AddUs (tp m : Z) : Z := i64 (tp + m).
Definition SubUs (tp m : Z) : Z := i64 (tp - m).
Definition Sub (tp t : Z) : Z := i64 (tp - t).
End TimePoint.

Module TimePointSec.
Definition NewTimePointSecTp (t : Z) : Z := u32 (Z.quot (TimePoint.TimeSinceEpoch t) 1000000).
Definition ToTimePoint (tp : Z) : Z := Seconds tp.
Definition SecSinceEpoch (tp : Z) : Z := tp.
Definition AddSec (tp offset : Z) : Z := u32 (tp + offset).
Definition SubSec (tp offset : Z) : Z := u32 (tp + offset).
Definition AddUs (tp m : Z) : Z := TimePoint.AddUs (ToTimePoint tp) m.
Definition SubUs (tp m : Z) : Z := TimePoint.SubUs (ToTimePoint tp) m.
Definition Sub (tp t : Z) : Z := TimePoint.Sub (ToTimePoint tp) (ToTimePoint t).
End TimePointSec.

Definition SubTps (tp t : Z) : Z := TimePoint.Sub tp (TimePointSec.ToTimePoint t).

(** ** Block timestamps *)

Definition NewBlockTimeStamp (t : Z) : Z :=
  let microSinceEpoch := TimePoint.TimeSinceEpoch t in
  let msecSinceEpoch := Z.quot microSinceEpoch 1000 in
  let slot := Z.quot (i64 (msecSinceEpoch - BlockTimestampEpochMs)) BlockIntervalMs in
  u32 slot.

Definition NewBlockTimeStampSec (ts : Z) : Z :=
  let secSinceEpoch := TimePointSec.SecSinceEpoch ts in
  let slot := Z.quot (i64 (u32 (secSinceEpoch * 1000) - BlockTimestampEpochMs)) BlockIntervalMs in
  u32 slot.

Definition ToTimePoint (t : Z) : Z :=
  let msec := i64 (t * BlockIntervalMs) in
  let msec := i64 (msec + BlockTimestampEpochMs) in
  Milliseconds msec.

Definition Next (t : Z) : result Z :=
  EosAssert (1 <=? u32 (2 ^ 32 - 1 - t)) OverflowException ≫= fun _ =>
  let result := NewBlockTimeStamp (ToTimePoint t) in
  Ok (u32 (result + 1)).

Definition MaxBlockTime : Z := 0xffff.
Definition MinBlockTime : Z := 0.

(** ** Lemmas *)

Lemma ToTimePoint_val t : in_u 32 t -> ToTimePoint t = (t * 500 + 946684800000) * 1000.
Proof.
  intros Ht. unfold ToTimePoint, Milliseconds, BlockIntervalMs, BlockTimestampEpochMs.
  unfold in_u in *. rewrite (swrap_id 64 (t * 500)) by (unfold in_s; norm_pow; lia).
  rewrite (swrap_id 64 (t * 500 + _)) by (unfold in_s; norm_pow; lia).
  by rewrite swrap_id by (unfold in_s; norm_pow; lia).
Qed.

Lemma NewBlockTimeStamp_val us :
  946684800000000 <= us < 2 ^ 63 -> NewBlockTimeStamp us = u32 ((us - 946684800000000) / 500000).
Proof.
  intros Hu. unfold NewBlockTimeStamp, TimePoint.TimeSinceEpoch, BlockTimestampEpochMs, BlockIntervalMs.
  rewrite (Z.quot_div_nonneg us 1000) by lia. rewrite swrap_id by (unfold in_s; norm_pow; Z.div_mod_to_equations; lia).
  rewrite Z.quot_div_nonneg by (Z.div_mod_to_equations; lia). f_equal.
  replace (us / 1000 - 946684800000) with ((us - 946684800000000) / 1000)
    by (replace us with (us - 946684800000000 + 946684800000 * 1000) at 2 by lia; rewrite Z.div_add by lia; lia).
  by rewrite Z.div_div by lia.
Qed.

(** ** Properties *)

(** Slots and time points: converting a block timestamp to a time point and back
    gives the slot again; a time point of the slot's half second maps to the slot;
    [Next] is the following slot, refused with [OverflowException] at the last one;
    and the conversion preserves the order of slots. *)
Theorem block_timestamp_slots t d :
  in_u 32 t -> 0 <= d < 500000 ->
  NewBlockTimeStamp (ToTimePoint t + d) = t /\
  Next t = (if t <? 2 ^ 32 - 1 then Ok (t + 1) else Throw OverflowException) /\
  (forall t', in_u 32 t' -> (t < t' <-> ToTimePoint t < ToTimePoint t')).
Proof.
  intros Ht Hd. assert (Hslot : forall e, 0 <= e < 500000 -> NewBlockTimeStamp (ToTimePoint t + e) = t).
  { intros e He. rewrite ToTimePoint_val by done. unfold in_u in Ht.
    rewrite NewBlockTimeStamp_val by (norm_pow; lia).
    replace ((t * 500 + 946684800000) * 1000 + e - 946684800000000) with (e + t * 500000) by lia.
    rewrite Z.div_add, Z.div_small by lia. by apply uwrap_id. }
  split_and!.
  - by apply Hslot.
  - unfold Next. rewrite EosAssert_bind. unfold in_u in Ht. rewrite (uwrap_id 32 (2 ^ 32 - 1 - t)) by (unfold in_u; lia).
    rewrite <- (Z.add_0_r (ToTimePoint t)), Hslot by lia.
    destruct (Z.ltb_spec t (2 ^ 32 - 1)), (Z.leb_spec 1 (2 ^ 32 - 1 - t)); try lia; [|done].
    by rewrite uwrap_id by (unfold in_u; lia).
  - intros t' Ht'. rewrite !ToTimePoint_val by done. lia.
Qed.

Lemma block_timestamp_slots_witness :
  NewBlockTimeStamp (ToTimePoint 1000 + 499999) = 1000 /\
  Next 1000 = (if 1000 <? 2 ^ 32 - 1 then Ok (1000 + 1) else Throw OverflowException) /\
  (forall t', in_u 32 t' -> (1000 < t' <-> ToTimePoint 1000 < ToTimePoint t')).
Proof. apply (block_timestamp_slots 1000 499999); [by_decide|lia]. Defined.

(** The conversion from seconds multiplies in 32 bits: of the first second of the
    year 2000 (slot 0) and of every second of the slots that follow up to slot 2^32,
    [NewBlockTimeStampSec] returns the slot of the wrapped product, which for the
    epoch itself is not the slot [NewBlockTimeStamp] computes. *)
Theorem block_timestamp_sec_wraps ts :
  in_u 32 ts ->
  NewBlockTimeStampSec ts = u32 (Z.quot (ts * 1000 mod 2 ^ 32 - 946684800000) 500) /\
  NewBlockTimeStampSec 946684800 <> NewBlockTimeStamp (TimePointSec.ToTimePoint 946684800).
Proof.
  intros Ht. split; [|by vm_compute]. unfold NewBlockTimeStampSec, TimePointSec.SecSinceEpoch, BlockTimestampEpochMs, BlockIntervalMs.
  rewrite swrap_id; [done|lia|]. pose proof (uwrap_range 32 (ts * 1000)) as Hr. unfold in_s, in_u in *. norm_pow. lia.
Qed.

Lemma block_timestamp_sec_wraps_witness :
  NewBlockTimeStampSec 5 = u32 (Z.quot (5 * 1000 mod 2 ^ 32 - 946684800000) 500) /\
  NewBlockTimeStampSec 946684800 <> NewBlockTimeStamp (TimePointSec.ToTimePoint 946684800).
Proof. apply (block_timestamp_sec_wraps 5). by_decide. Defined.

(** Time arithmetic: adding and subtracting microseconds and differences cancel
    modulo 2^64; seconds widen to time points without overflow and narrow back;
    [SubSec] moves forward like [AddSec]. *)
Theorem time_point_arithmetic tp m s o :
  in_s 64 tp -> in_s 64 m -> in_u 32 s ->
  TimePoint.SubUs (TimePoint.AddUs tp m) m = tp /\
  TimePoint.AddUs m (TimePoint.Sub tp m) = tp /\
  TimePointSec.ToTimePoint s = s * 1000000 /\
  TimePointSec.NewTimePointSecTp (TimePointSec.ToTimePoint s) = s /\
  TimePointSec.SubSec s o = TimePointSec.AddSec s o.
Proof.
  intros Ht Hm Hs. unfold TimePoint.SubUs, TimePoint.AddUs, TimePoint.Sub.
  assert (Hc : forall a b, in_s 64 a -> i64 (i64 (a + b) - b) = a) by (intros; word_lia).
  assert (Hto : TimePointSec.ToTimePoint s = s * 1000000).
  { unfold TimePointSec.ToTimePoint, Seconds. apply swrap_id; [lia|]. unfold in_s, in_u in *. norm_pow. lia. }
  split_and!; [by apply Hc| |done| |done].
  - replace (tp - m) with (tp + - m) by lia. rewrite (Z.add_comm m), <- (Z.sub_opp_r _ m). by apply Hc.
  - unfold TimePointSec.NewTimePointSecTp, TimePoint.TimeSinceEpoch. rewrite Hto, Z.quot_mul by lia. by apply uwrap_id.
Qed.

Lemma time_point_arithmetic_witness :
  TimePoint.SubUs (TimePoint.AddUs (2 ^ 63 - 1) 1) 1 = 2 ^ 63 - 1 /\
  TimePoint.AddUs 1 (TimePoint.Sub (2 ^ 63 - 1) 1) = 2 ^ 63 - 1 /\
  TimePointSec.ToTimePoint 7 = 7 * 1000000 /\
  TimePointSec.NewTimePointSecTp (TimePointSec.ToTimePoint 7) = 7 /\
  TimePointSec.SubSec 7 3 = TimePointSec.AddSec 7 3.
Proof. apply (time_point_arithmetic (2 ^ 63 - 1) 1 7 3); by_decide. Defined.
