(* ===== verification/Base58.v ===== *)
(** * Base58: the text of binary data

    [crypto/btcsuite/btcutil/base58/base58.go], which the keys and signatures are written
    with.  [math/big] is exact: a number is a [Z].  The loops run once for each digit; a
    text has at most twice as many digits as there are bytes. *)

From S2P Require Import Prelude Bytes.

Definition alphabet : bytes :=
  [49; 50; 51; 52; 53; 54; 55; 56; 57; 65; 66; 67; 68; 69; 70; 71; 72; 74; 75; 76; 77; 78; 80; 81; 82; 83; 84; 85; 86;
   87; 88; 89; 90; 97; 98; 99; 100; 101; 102; 103; 104; 105; 106; 107; 109; 110; 111; 112; 113; 114; 115; 116; 117; 118; 119; 120; 121; 122].
Definition alphabetIdx0 : Z := 49.

Definition b58 : list Z :=
  [255; 255; 255; 255; 255; 255; 255; 255; 255; 255; 255; 255; 255; 255; 255; 255; 255; 255; 255; 255; 255; 255; 255; 255; 255; 255; 255; 255; 255; 255; 255; 255;
   255; 255; 255; 255; 255; 255; 255; 255; 255; 255; 255; 255; 255; 255; 255; 255; 255; 0; 1; 2; 3; 4; 5; 6; 7; 8; 255; 255; 255; 255; 255; 255;
   255; 9; 10; 11; 12; 13; 14; 15; 16; 255; 17; 18; 19; 20; 21; 255; 22; 23; 24; 25; 26; 27; 28; 29; 30; 31; 32; 255; 255; 255; 255; 255;
   255; 33; 34; 35; 36; 37; 38; 39; 40; 41; 42; 43; 255; 44; 45; 46; 47; 48; 49; 50; 51; 52; 53; 54; 55; 56; 57; 255; 255; 255; 255; 255;
   255; 255; 255; 255; 255; 255; 255; 255; 255; 255; 255; 255; 255; 255; 255; 255; 255; 255; 255; 255; 255; 255; 255; 255; 255; 255; 255; 255; 255; 255; 255; 255;
   255; 255; 255; 255; 255; 255; 255; 255; 255; 255; 255; 255; 255; 255; 255; 255; 255; 255; 255; 255; 255; 255; 255; 255; 255; 255; 255; 255; 255; 255; 255; 255;
   255; 255; 255; 255; 255; 255; 255; 255; 255; 255; 255; 255; 255; 255; 255; 255; 255; 255; 255; 255; 255; 255; 255; 255; 255; 255; 255; 255; 255; 255; 255; 255;
   255; 255; 255; 255; 255; 255; 255; 255; 255; 255; 255; 255; 255; 255; 255; 255; 255; 255; 255; 255; 255; 255; 255; 255; 255; 255; 255; 255; 255; 255; 255; 255].

(** [x.SetBytes(b)], big-endian *)
Definition SetBytes (b : bytes) : Z := le_val (reverse b).

(** [x.Bytes()]: without leading zeros; the least byte first here *)
Fixpoint le_min (fuel : nat) (x : Z) : bytes :=
  if x <=? 0 then [] else match fuel with O => [] | S f => x mod 256 :: le_min f (x / 256) end.
Definition big_Bytes (fuel : nat) (x : Z) : bytes := reverse (le_min fuel x).

(** The least digit first. *)
Fixpoint encode_digits (fuel : nat) (x : Z) : bytes :=
  if x <=? 0 then [] else match fuel with O => [] | S f => nth (Z.to_nat (x mod 58)) alphabet 0 :: encode_digits f (x / 58) end.

(** How many [c] there are at the front. *)
Fixpoint leading (c : Z) (l : bytes) : nat :=
  match l with x :: l' => if x =? c then S (leading c l') else O | [] => O end.

Definition Encode (b : bytes) : bytes :=
  reverse (encode_digits (2 * length b) (SetBytes b) ++ replicate (leading 0 b) alphabetIdx0).

(** From the last character to the first. *)
Fixpoint decode_digits (l : bytes) (answer j : Z) : option Z :=
  match l with
  | [] => Some answer
  | c :: l' =>
      let tmp := nth (Z.to_nat c) b58 255 in
      if tmp =? 255 then None else decode_digits l' (answer + j * tmp) (j * 58)
  end.

Definition Decode (b : bytes) : bytes :=
  match decode_digits (reverse b) 0 1 with
  | None => []
  | Some answer => replicate (leading alphabetIdx0 b) 0 ++ big_Bytes (length b) answer
  end.

(** ** Round trip *)

Lemma b58_alphabet d : 0 <= d < 58 -> nth (Z.to_nat (nth (Z.to_nat d) alphabet 0)) b58 255 = d.
Proof.
  intros Hd. assert (Forall (fun i => nth (Z.to_nat (nth i alphabet 0)) b58 255 = Z.of_nat i) (seq 0 58)) as H by (vm_compute; repeat constructor).
  rewrite Forall_forall in H. rewrite (H (Z.to_nat d)); [lia|]. apply elem_of_seq. lia.
Qed.

Lemma alphabet_one d : 0 < d < 58 -> nth (Z.to_nat d) alphabet 0 <> alphabetIdx0.
Proof.
  intros Hd Heq. pose proof (b58_alphabet d ltac:(lia)) as H. rewrite Heq in H. change (nth (Z.to_nat alphabetIdx0) b58 255) with 0 in H. lia.
Qed.

Lemma decode_zeros k : forall a j, decode_digits (replicate k alphabetIdx0) a j = Some a.
Proof.
  induction k as [|k IH]; intros a j; [done|]. cbn [replicate decode_digits].
  change (nth (Z.to_nat alphabetIdx0) b58 255) with 0. cbv zeta. cbn [Z.eqb]. rewrite IH. f_equal. lia.
Qed.

Lemma decode_encode_digits fuel : forall x k a j, 0 <= x < 58 ^ Z.of_nat fuel ->
  decode_digits (encode_digits fuel x ++ replicate k alphabetIdx0) a j = Some (a + j * x).
Proof.
  induction fuel as [|f IH]; intros x k a j Hx; cbn [encode_digits]; destruct (Z.leb_spec x 0); cbn [app].
  - rewrite decode_zeros. replace x with 0 by lia. f_equal. lia.
  - change (58 ^ Z.of_nat 0) with 1 in Hx. lia.
  - rewrite decode_zeros. replace x with 0 by lia. f_equal. lia.
  - pose proof (Z.mod_pos_bound x 58 ltac:(lia)). pose proof (Z.div_mod x 58 ltac:(lia)). cbn [decode_digits]. rewrite b58_alphabet by lia. cbv zeta.
    rewrite (proj2 (Z.eqb_neq _ _)) by lia. rewrite IH.
    + f_equal. lia.
    + rewrite Nat2Z.inj_succ, Z.pow_succ_r in Hx by lia. split; [apply Z.div_pos; lia|apply Z.div_lt_upper_bound; lia].
Qed.

Lemma leading_replicate c k l : list.head l <> Some c -> leading c (replicate k c ++ l) = k.
Proof.
  intros Hl. induction k as [|k IH]; cbn; [|by rewrite Z.eqb_refl, IH]. destruct l as [|x l]; [done|]. cbn. destruct (Z.eqb_spec x c); [|done]. subst. done.
Qed.

Lemma leading_split c l : exists t, l = replicate (leading c l) c ++ t /\ list.head t <> Some c.
Proof.
  induction l as [|x l (t & IH & Ht)]; [by exists []|]. cbn. destruct (Z.eqb_spec x c) as [->|Hne].
  - exists t. cbn. by rewrite <- IH.
  - exists (x :: l). split; [done|]. intros [= ->]. done.
Qed.

(** The most significant digit is not the first letter of the alphabet. *)
Lemma encode_digits_last fuel : forall x, 0 <= x < 58 ^ Z.of_nat fuel -> last (encode_digits fuel x) <> Some alphabetIdx0.
Proof.
  induction fuel as [|f IH]; intros x Hx; cbn [encode_digits]; (destruct (Z.leb_spec x 0); [done|]); [done|].
  rewrite Nat2Z.inj_succ, Z.pow_succ_r in Hx by lia. rewrite last_cons.
  pose proof (Z.mod_pos_bound x 58 ltac:(lia)). pose proof (Z.div_mod x 58 ltac:(lia)).
  specialize (IH (x / 58) ltac:(split; [apply Z.div_pos; lia|apply Z.div_lt_upper_bound; lia])).
  destruct (last (encode_digits f (x / 58))) as [c|] eqn:E; [done|]. apply last_None in E. intros [= Heq]. eapply alphabet_one; [|exact Heq].
  destruct (Z.eq_dec (x mod 58) 0) as [Hm|]; [|lia]. exfalso. destruct f as [|f].
  - change (58 ^ Z.of_nat 0) with 1 in Hx. rewrite Z.mod_small in Hm by lia. lia.
  - cbn [encode_digits] in E. destruct (Z.leb_spec (x / 58) 0); [lia|done].
Qed.

Lemma le_min_val l : forall fuel, is_bytes l -> last l <> Some 0 -> (length l <= fuel)%nat -> le_min fuel (le_val l) = l.
Proof.
  induction l as [|b l IH]; intros fuel Hl Hlast Hf; [by destruct fuel|]. destruct fuel as [|fuel]; [cbn in Hf; lia|].
  inversion_clear Hl as [|? ? Hb Hl']. pose proof (le_val_range l Hl') as Hr. cbn [le_min le_val]. unfold in_u in *. change (2 ^ 8) with 256 in *.
  rewrite last_cons in Hlast. assert (le_val l = 0 -> l = []) as Hz.
  { intros Hv. destruct l as [|c l]; [done|]. exfalso. specialize (IH (length (c :: l)) Hl').
    destruct (last (c :: l)) eqn:E; [|by apply last_None in E]. specialize (IH Hlast ltac:(lia)). rewrite Hv in IH. done. }
  destruct (Z.leb_spec (b + 256 * le_val l) 0) as [H0|H0].
  { rewrite Hz in Hlast by lia. cbn in Hlast. exfalso. apply Hlast. f_equal. lia. }
  assert ((b + 256 * le_val l) mod 256 = b) as -> by (rewrite Z.mul_comm, Z.mod_add by lia; by apply Z.mod_small).
  assert ((b + 256 * le_val l) / 256 = le_val l) as -> by (rewrite Z.mul_comm, Z.div_add by lia; rewrite Z.div_small by lia; lia).
  f_equal. destruct l as [|c l]; [by destruct fuel|]. apply IH; [done| |cbn in *; lia]. destruct (last (c :: l)) eqn:E; [done|by apply last_None in E].
Qed.

Lemma le_val_app l k : le_val (l ++ replicate k 0) = le_val l.
Proof. induction l as [|b l IH]; cbn; [|by rewrite IH]. induction k as [|k IH]; cbn; lia. Qed.

Lemma encode_digits_length fuel : forall x n, 256 ^ Z.of_nat n <= x -> x < 58 ^ Z.of_nat fuel -> (n < length (encode_digits fuel x))%nat.
Proof.
  induction fuel as [|f IH]; intros x n Hn Hx; assert (0 < 256 ^ Z.of_nat n) by (apply Z.pow_pos_nonneg; lia); cbn [encode_digits]; rewrite (proj2 (Z.leb_gt _ _)) by lia.
  { change (58 ^ Z.of_nat 0) with 1 in Hx. lia. }
  cbn [length]. destruct n as [|n]; [lia|]. rewrite Nat2Z.inj_succ, Z.pow_succ_r in Hn, Hx by lia. apply -> Nat.succ_lt_mono. apply IH.
  - apply Z.div_le_lower_bound; lia.
  - apply Z.div_lt_upper_bound; lia.
Qed.

Lemma SetBytes_bound b : is_bytes b -> 0 <= SetBytes b < 58 ^ Z.of_nat (2 * length b).
Proof.
  intros Hb. unfold SetBytes. assert (is_bytes (reverse b)) as Hr by (by apply Forall_reverse). apply le_val_range in Hr. rewrite length_reverse in Hr.
  unfold in_u in Hr. split; [lia|]. eapply Z.lt_le_trans; [apply Hr|]. replace (Z.of_nat (2 * length b)) with (2 * Z.of_nat (length b)) by lia.
  rewrite !Z.pow_mul_r by lia. apply Z.pow_le_mono_l. change (2 ^ 8) with 256. change (58 ^ 2) with 3364. lia.
Qed.

(** What was written is read back. *)
Theorem base58_round_trip b : is_bytes b -> Decode (Encode b) = b.
Proof.
  intros Hb. pose proof (SetBytes_bound b Hb) as Hx. destruct (leading_split 0 b) as (t & Ht & Hhead). set (z := leading 0 b) in *.
  unfold Decode, Encode. fold z. rewrite reverse_involutive, decode_encode_digits by done. rewrite reverse_app, reverse_replicate.
  rewrite leading_replicate.
  - assert (SetBytes b = le_val (reverse t)) as Hv by (unfold SetBytes; rewrite Ht, reverse_app, reverse_replicate, le_val_app; done).
    trans (replicate z 0 ++ t); [|done]. f_equal. unfold big_Bytes. rewrite Z.add_0_l, Z.mul_1_l.
    match goal with |- reverse ?x = t => enough (x = reverse t) as -> by apply reverse_involutive end. rewrite Hv.
    assert (is_bytes t) as Htb by (unfold is_bytes in *; rewrite Ht in Hb; by apply Forall_app in Hb as [_ ?]).
    apply le_min_val; [by apply Forall_reverse|by rewrite last_reverse|].
    rewrite length_reverse, length_app, length_replicate, length_reverse, <- Hv. destruct t as [|c t]; [cbn; lia|].
    assert (c <> 0) by (intros ->; done). assert (0 <= c < 2 ^ 8) as Hc by (by inversion Htb).
    enough (length t < length (encode_digits (2 * length b) (SetBytes b)))%nat by (cbn [length] in *; lia). apply encode_digits_length; [|apply Hx].
    rewrite Hv. clear -Htb Hc H. change 256 with (2 ^ 8). rewrite <- Z.pow_mul_r by lia.
    inversion_clear Htb as [|? ? _ Ht']. rewrite reverse_cons. assert (is_bytes (reverse t)) as Hr by (by apply Forall_reverse).
    revert Hr. rewrite <- (length_reverse t). generalize (reverse t). intros l Hl. induction Hl as [|b l Hb Hl IH]; [cbn; lia|].
    cbn [app le_val length]. rewrite Nat2Z.inj_succ, Z.mul_succ_r, Z.pow_add_r by lia. unfold in_u in Hb. nia.
  - rewrite head_reverse. by apply encode_digits_last.
Qed.

Corollary Encode_inj b b' : is_bytes b -> is_bytes b' -> Encode b = Encode b' -> b = b'.
Proof. intros Hb Hb' H. by rewrite <- (base58_round_trip b Hb), H, base58_round_trip. Qed.
