(* ===== verification/Ecc.v ===== *)
(** * Ecc: the key and signature containers of [crypto/ecc]

    The bytes of a public key and of a signature, their packed forms, the text of a
    signature and the comparisons.  The curve arithmetic that recovers a key from a
    signature is the third-party code the package wraps: where a component needs it, it is
    an argument.  So is RIPEMD-160, of [golang.org/x/crypto]: the class [Ripemd160]. *)

From S2P Require Import Prelude Bytes Rlp.
From S2P Require Base58.

Definition CurveK1 : Z := 0.
Definition CurveR1 : Z := 1.

Record PublicKey : Type := mkPublicKey { Curve : Z; Content : bytes }.

#[global] Instance PublicKey_eq_dec : EqDecision PublicKey.
Proof. solve_decision. Defined.

(** The zero value: [Content] is an array of 33 bytes. *)
Definition PublicKey_zero : PublicKey := mkPublicKey 0 (replicate 33 0).

Definition Pack (p : PublicKey) : bytes := Curve p :: Content p.

(** [NewPublicKeyFromData] *)
Definition NewPublicKeyFromData (data : bytes) : result PublicKey :=
  if negb (len data =? 34) then Throw RlpError
  else match data with
  | c :: content =>
      if (c =? CurveK1) || (c =? CurveR1) then Ok (mkPublicKey c content) else Throw RlpError
  | [] => Throw RlpError
  end.

Definition Unpack (in_ : bytes) : result (PublicKey * Z) :=
  if len in_ <? 34 then Throw RlpError
  else NewPublicKeyFromData (take 34 in_) ≫= fun p => Ok (p, 34).

Definition Compare (p pub : PublicKey) : bool :=
  if negb (Curve p =? Curve pub) then false
  else if negb (bool_decide (Content p = Content pub)) then false
  else true.

(** [bytes.Compare] *)
Fixpoint bytes_Compare (a b : bytes) : Z :=
  match a, b with
  | [], [] => 0
  | [], _ :: _ => -1
  | _ :: _, [] => 1
  | x :: a', y :: b' => if x <? y then -1 else if y <? x then 1 else bytes_Compare a' b'
  end.

Definition ComparePubKey (pub1 pub2 : PublicKey) : Z :=
  let comp := bytes_Compare (Content pub1) (Content pub2) in
  if negb (comp =? 0) then comp
  else if Curve pub2 <? Curve pub1 then 1
  else if Curve pub1 <? Curve pub2 then -1
  else 0.

Definition IsEmpty (p : PublicKey) : bool := bool_decide (replicate 33 0 = Content p).

(** ** Signatures; [inner] is [None] for the zero value, whose interface is nil *)

Record Signature : Type := mkSignature { sCurve : Z; sContent : bytes; inner : option Z }.

#[global] Instance Signature_eq_dec : EqDecision Signature.
Proof. solve_decision. Defined.

Definition Signature_zero : Signature := mkSignature 0 [] None.

Definition SigPack (s : Signature) : result bytes :=
  let s := if len (sContent s) =? 0 then mkSignature CurveK1 (replicate 65 0) (inner s) else s in
  if negb (len (sContent s) =? 65) then Throw RlpError
  else Ok (sCurve s :: sContent s).

Definition NewSignatureFromData (data : bytes) : result Signature :=
  if negb (len data =? 66) then Throw RlpError
  else match data with
  | c :: content =>
      if (c =? CurveK1) || (c =? CurveR1) then Ok (mkSignature c content (Some c)) else Throw RlpError
  | [] => Throw RlpError
  end.

Definition SigUnpack (in_ : bytes) : result (Signature * Z) :=
  if len in_ <? 66 then Throw RlpError
  else NewSignatureFromData (take 66 in_) ≫= fun s => Ok (s, 66).

Definition NewSigNil : Signature := mkSignature CurveK1 (replicate 65 0) (Some CurveK1).
Definition SigIsEmpty (s : Signature) : bool := len (sContent s) =? 0.

(** [Signature.PublicKey]: the recovery of the curve's library, by the interface
    stored in the signature. *)
Definition recover_key (publicKey : Z -> bytes -> bytes -> result PublicKey) (s : Signature) (hash : bytes) : result PublicKey :=
  match inner s with
  | None => Throw NilDereference
  | Some c => publicKey c (sContent s) hash
  end.

(** *** The text of a signature *)

(** The digest of [ripemd160.New()]: 20 bytes. *)
Class Ripemd160 : Type := ripemd160 : bytes -> bytes.
Class Ripemd160Laws `{Ripemd160} : Prop := ripemd160_sum b : length (ripemd160 b) = 20%nat /\ is_bytes (ripemd160 b).

(** [CurveID.String] *)
Definition curve_String (c : Z) : bytes := if c =? CurveK1 then [75; 49] else if c =? CurveR1 then [82; 49] else [85; 78].

Definition Ripemd160checksumHashCurve `{Ripemd160} (in_ : bytes) (curve : Z) : bytes := take 4 (ripemd160 (in_ ++ curve_String curve)).

(** [SIG_K1_] and [SIG_R1_]; the checksum is on the first curve only. *)
Definition K1_string `{Ripemd160} (content : bytes) : bytes :=
  [83; 73; 71; 95; 75; 49; 95] ++ Base58.Encode (content ++ Ripemd160checksumHashCurve content CurveK1).
Definition R1_string (content : bytes) : bytes := [83; 73; 71; 95; 82; 49; 95] ++ Base58.Encode content.

Definition SigString `{Ripemd160} (s : Signature) : result bytes :=
  match inner s with
  | None => Throw NilDereference
  | Some c => Ok (if c =? CurveK1 then K1_string (sContent s) else R1_string (sContent s))
  end.

(** ** Lemmas *)

(** The values of the type: bytes, and one of the two curves or none behind the interface. *)
Definition sig_ok (s : Signature) : Prop := is_bytes (sContent s) /\ (inner s = None \/ inner s = Some CurveK1 \/ inner s = Some CurveR1).
#[global] Instance sig_ok_dec s : Decision (sig_ok s).
Proof. unfold sig_ok. apply _. Defined.

(** The text tells the content and the curve of the interface; the field [Curve] is not in
    it. *)
Lemma SigString_inj `{Ripemd160Laws} s s' text : sig_ok s -> sig_ok s' -> SigString s = Ok text -> SigString s' = Ok text ->
  inner s = inner s' /\ sContent s = sContent s'.
Proof.
  intros [Hb Hi] [Hb' Hi']. unfold SigString. destruct s as [cu l i], s' as [cu' l' i']. cbn in *.
  assert (Hk : forall x, length (Ripemd160checksumHashCurve x CurveK1) = 4%nat /\ is_bytes (Ripemd160checksumHashCurve x CurveK1)).
  { intros x. unfold Ripemd160checksumHashCurve. destruct (ripemd160_sum (x ++ curve_String CurveK1)) as [Hl Hr]. rewrite length_take, Hl. split; [done|by apply Forall_take]. }
  destruct Hi as [->|[->| ->]], Hi' as [->|[->| ->]]; try done; cbn; unfold K1_string, R1_string; cbn [app]; intros [= <-]; try done.
  - intros [= Ht]. split; [done|]. apply Base58.Encode_inj in Ht.
    + apply app_inj_2 in Ht as [-> _]; [done|]. by rewrite (proj1 (Hk l)), (proj1 (Hk l')).
    + apply Forall_app. split; [done|apply Hk].
    + apply Forall_app. split; [done|apply Hk].
  - intros [= Ht]. split; [done|]. symmetry. by apply Base58.Encode_inj.
Qed.

Definition wf (p : PublicKey) : Prop :=
  (Curve p = CurveK1 \/ Curve p = CurveR1) /\ length (Content p) = 33%nat.

#[global] Instance wf_dec p : Decision (wf p).
Proof. unfold wf. apply _. Defined.

Lemma PubKey_Compare_spec p q : Compare p q = true <-> p = q.
Proof.
  unfold Compare. destruct p as [c l], q as [c' l']; simpl.
  destruct (Z.eqb_spec c c'); simpl; [|naive_solver]. case_bool_decide; simpl; naive_solver.
Qed.

Lemma bytes_Compare_eq a : forall b, bytes_Compare a b = 0 <-> a = b.
Proof.
  induction a as [|x a IH]; intros [|y b]; simpl; try done.
  destruct (Z.ltb_spec x y); [naive_solver lia|]. destruct (Z.ltb_spec y x); [naive_solver lia|].
  rewrite IH. assert (x = y) by lia. naive_solver.
Qed.

Lemma bytes_Compare_antisym a : forall b, bytes_Compare b a = - bytes_Compare a b.
Proof.
  induction a as [|x a IH]; intros [|y b]; simpl; try done.
  destruct (Z.ltb_spec x y), (Z.ltb_spec y x); try lia. apply IH.
Qed.

Lemma bytes_Compare_cases a : forall b, bytes_Compare a b = -1 \/ bytes_Compare a b = 0 \/ bytes_Compare a b = 1.
Proof. induction a as [|x a IH]; intros [|y b]; simpl; auto. repeat case_match; auto. Qed.

Lemma bytes_Compare_trans a : forall b c,
  bytes_Compare a b = -1 -> bytes_Compare b c = -1 -> bytes_Compare a c = -1.
Proof.
  induction a as [|x a IH]; intros [|y b] [|z c]; simpl; try done.
  repeat (match goal with |- context [?p <? ?q] => destruct (Z.ltb_spec p q) end; try lia); intros; try lia.
  by eapply IH.
Qed.

Lemma ComparePubKey_lt p q :
  ComparePubKey p q = -1 <->
  bytes_Compare (Content p) (Content q) = -1 \/ Content p = Content q /\ Curve p < Curve q.
Proof.
  unfold ComparePubKey. rewrite <- bytes_Compare_eq.
  destruct (bytes_Compare_cases (Content p) (Content q)) as [E|[E|E]]; rewrite E; simpl;
    repeat (match goal with |- context [?a <? ?b] => destruct (Z.ltb_spec a b) end); lia.
Qed.

Lemma ComparePubKey_trans p q r : ComparePubKey p q = -1 -> ComparePubKey q r = -1 -> ComparePubKey p r = -1.
Proof.
  rewrite !ComparePubKey_lt. intros [H1|[H1 H1']] [H2|[H2 H2']].
  - left. by eapply bytes_Compare_trans.
  - left. by rewrite <- H2.
  - left. by rewrite H1.
  - right. split; [congruence|lia].
Qed.

(** ** Properties *)

(** Keys and signatures: a well-formed key or signature is read back from its
    packed bytes wherever they stand at the front of a buffer, [Compare] decides
    equality of keys, and an empty signature is packed as 66 zero bytes. *)
Theorem ecc_pack_round_trip p s rest :
  wf p -> (sCurve s = CurveK1 \/ sCurve s = CurveR1) -> length (sContent s) = 65%nat -> inner s = Some (sCurve s) ->
  Unpack (Pack p ++ rest) = Ok (p, len (Pack p)) /\
  (exists bs, SigPack s = Ok bs /\ SigUnpack (bs ++ rest) = Ok (s, len bs)) /\
  (forall q, Compare p q = true <-> p = q) /\
  SigPack Signature_zero = Ok (replicate 66 0).
Proof.
  intros [Hc Hl] Hs Hsl Hi.
  assert (Hcurve : forall c, c = CurveK1 \/ c = CurveR1 -> (c =? CurveK1) || (c =? CurveR1) = true)
    by (intros c [-> | ->]; done).
  split_and!; [| |apply PubKey_Compare_spec|done].
  - destruct p as [c l]. cbn [Curve Content] in Hc, Hl. unfold Pack, Unpack. cbn [Curve Content].
    assert (Hlen : length (c :: l) = 34%nat) by (simpl; lia).
    rewrite len_app, (proj2 (Z.ltb_ge _ _)) by (unfold len; lia).
    rewrite take_app_length' by done. unfold NewPublicKeyFromData, len at 1. rewrite Hlen. simpl. rewrite Hcurve by done.
    unfold len. rewrite Hlen. done.
  - destruct s as [c l i]. cbn [sContent sCurve inner] in Hs, Hsl, Hi. subst i.
    assert (Hlen : length (c :: l) = 66%nat) by (simpl; lia).
    exists (c :: l). split; [|unfold SigUnpack].
    { unfold SigPack, len. cbn [sContent]. rewrite Hsl. change (Z.of_nat 65 =? 0) with false. cbv iota.
      cbn [sContent]. by rewrite Hsl. }
    rewrite len_app, (proj2 (Z.ltb_ge _ _)) by (unfold len; lia).
    rewrite take_app_length' by done. unfold NewSignatureFromData, len at 1. rewrite Hlen. simpl. rewrite Hcurve by done.
    unfold len. rewrite Hlen. done.
Qed.

Lemma ecc_pack_round_trip_witness :
  Unpack (Pack PublicKey_zero ++ [1]) = Ok (PublicKey_zero, len (Pack PublicKey_zero)) /\
  (exists bs, SigPack NewSigNil = Ok bs /\ SigUnpack (bs ++ [1]) = Ok (NewSigNil, len bs)) /\
  (forall q, Compare PublicKey_zero q = true <-> PublicKey_zero = q) /\
  SigPack Signature_zero = Ok (replicate 66 0).
Proof. apply (ecc_pack_round_trip PublicKey_zero NewSigNil [1]); try reflexivity; [by_decide|by left]. Defined.

(** [ComparePubKey] is a total order on public keys: antisymmetric, transitive,
    and 0 exactly on equal keys. *)
Theorem compare_pub_key_total_order p q r :
  (ComparePubKey p q = 0 <-> p = q) /\
  ComparePubKey q p = - ComparePubKey p q /\
  (ComparePubKey p q = -1 \/ ComparePubKey p q = 0 \/ ComparePubKey p q = 1) /\
  (ComparePubKey p q = -1 /\ ComparePubKey q r = -1 -> ComparePubKey p r = -1).
Proof.
  split_and!.
  - unfold ComparePubKey. destruct p as [c l], q as [c' l']; simpl.
    destruct (Z.eqb_spec (bytes_Compare l l') 0) as [E|E]; simpl.
    + apply bytes_Compare_eq in E as ->. repeat case_match; rewrite ?Z.ltb_lt, ?Z.ltb_ge in *;
        split; intros Hx; try done; try (injection Hx; lia). f_equal. lia.
    + split; [done|]. intros [= -> ->]. by rewrite (proj2 (bytes_Compare_eq l' l')) in E.
  - unfold ComparePubKey. rewrite (bytes_Compare_antisym (Content p)).
    destruct (bytes_Compare_cases (Content p) (Content q)) as [E|[E|E]]; rewrite E; simpl; try done.
    repeat (match goal with |- context [?a <? ?b] => destruct (Z.ltb_spec a b) end); lia.
  - unfold ComparePubKey. destruct (bytes_Compare_cases (Content p) (Content q)) as [E|[E|E]]; rewrite E; simpl; auto.
    repeat case_match; auto.
  - intros [H1 H2]. by eapply ComparePubKey_trans.
Qed.
