(* ===== verification/BlockHeader.v ===== *)
(** * BlockHeader: [block_header.go] and [producer_schedule.go]

    The block header, the signed header and the producer schedules, their
    serialization as the digest sees it, and the block id, which carries the block
    number in its first four bytes. *)

From S2P Require Import Prelude Bytes Rlp Sha256.
From S2P Require Name Ecc.

Abbreviation BlockIdType := Sha256.

(** ** [common/endian_reverse.go] *)

Definition EndianReverseU64 (x : Z) : Z :=
  Z.lor (Z.lor (Z.lor (Z.lor (Z.lor (Z.lor (Z.lor
    (Z.land (Z.shiftr x 0x38) 0xFF)
    (Z.shiftl (Z.land (Z.shiftr x 0x30) 0xFF) 0x08))
    (Z.shiftl (Z.land (Z.shiftr x 0x28) 0xFF) 0x10))
    (Z.shiftl (Z.land (Z.shiftr x 0x20) 0xFF) 0x18))
    (Z.shiftl (Z.land (Z.shiftr x 0x18) 0xFF) 0x20))
    (Z.shiftl (Z.land (Z.shiftr x 0x10) 0xFF) 0x28))
    (Z.shiftl (Z.land (Z.shiftr x 0x08) 0xFF) 0x30))
    (Z.shiftl (Z.land x 0xFF) 0x38).

Definition EndianReverseU32 (x : Z) : Z :=
  Z.lor (Z.lor (Z.lor
    (Z.land (Z.shiftr x 0x18) 0xFF)
    (Z.shiftl (Z.land (Z.shiftr x 0x10) 0xFF) 0x08))
    (Z.shiftl (Z.land (Z.shiftr x 0x08) 0xFF) 0x10))
    (Z.shiftl (Z.land x 0xFF) 0x18).

(** ** Producer schedules *)

Record ProducerKey : Type := mkProducerKey { ProducerName : Z; BlockSigningKey : Ecc.PublicKey }.

(** [ProducerScheduleType] and [SharedProducerScheduleType] have the same fields. *)
Record ProducerScheduleType : Type := mkProducerScheduleType { Version : Z; Producers : list ProducerKey }.

#[global] Instance ProducerKey_eq_dec : EqDecision ProducerKey.
Proof. solve_decision. Defined.
#[global] Instance ProducerScheduleType_eq_dec : EqDecision ProducerScheduleType.
Proof. solve_decision. Defined.

Definition ProducerScheduleType_zero : ProducerScheduleType := mkProducerScheduleType 0 [].

Fixpoint find_key (l : list ProducerKey) (p : Z) : option Ecc.PublicKey :=
  match l with
  | [] => None
  | i :: l' => if ProducerName i =? p then Some (BlockSigningKey i) else find_key l' p
  end.

Definition GetProducerKey (ps : ProducerScheduleType) (p : Z) : Ecc.PublicKey * bool :=
  match find_key (Producers ps) p with
  | Some k => (k, true)
  | None => (Ecc.PublicKey_zero, false)
  end.

Definition Clear (spst : ProducerScheduleType) : ProducerScheduleType := mkProducerScheduleType 0 [].

(** [SharedProducerScheduleType.SharedProducerScheduleType]: the copy loop *)
Definition to_shared (a : ProducerScheduleType) : ProducerScheduleType :=
  mkProducerScheduleType (Version a) (foldl (fun ps p => ps ++ [p]) [] (Producers a)).
(** [SharedProducerScheduleType.ProducerScheduleType] *)
Definition of_shared (s : ProducerScheduleType) : ProducerScheduleType :=
  mkProducerScheduleType (Version s) (Producers s).

Definition Schedule_IsEmpty (p : ProducerScheduleType) : bool := (Version p =? 0) && (len (Producers p) =? 0).

(** ** Headers *)

Record Extension : Type := mkExtension { Type_ : Z; Data : bytes }.

Record BlockHeader : Type := mkBlockHeader {
  Timestamp : Z;
  Producer : Z;
  Confirmed : Z;
  Previous : BlockIdType;
  TransactionMRoot : Sha256;
  ActionMRoot : Sha256;
  ScheduleVersion : Z;
  NewProducers : option ProducerScheduleType;
  HeaderExtensions : list Extension }.

#[global] Instance Extension_eq_dec : EqDecision Extension.
Proof. solve_decision. Defined.
#[global] Instance BlockHeader_eq_dec : EqDecision BlockHeader.
Proof. solve_decision. Defined.

Definition BlockHeader_zero : BlockHeader :=
  mkBlockHeader 0 0 0 NewSha256Nil NewSha256Nil NewSha256Nil 0 None [].
Definition NewBlockHeader : BlockHeader :=
  mkBlockHeader 0 0 1 NewSha256Nil NewSha256Nil NewSha256Nil 0 None [].

(** The structs as the serializer sees them. *)
Definition gval_Name (n : Z) : gval := VPack (Name.Pack n).
Definition gval_ProducerKey (p : ProducerKey) : gval :=
  VStruct [(NoTag, gval_Name (ProducerName p)); (NoTag, VPack (Ecc.Pack (BlockSigningKey p)))].
Definition gval_Schedule (s : ProducerScheduleType) : gval :=
  VStruct [(NoTag, VUint32 (Version s)); (NoTag, VSlice (map gval_ProducerKey (Producers s)))].
Definition gval_Extension (e : Extension) : gval :=
  VStruct [(NoTag, VUint16 (Type_ e)); (NoTag, VSlice (map VUint8 (Data e)))].
Definition gval_BlockHeader (b : BlockHeader) : gval :=
  VStruct [(NoTag, VUint32 (Timestamp b)); (NoTag, gval_Name (Producer b)); (NoTag, VUint16 (Confirmed b));
           (NoTag, gval_Sha256 (Previous b)); (NoTag, gval_Sha256 (TransactionMRoot b));
           (NoTag, gval_Sha256 (ActionMRoot b)); (NoTag, VUint32 (ScheduleVersion b));
           (Optional, VPtr (option_map gval_Schedule (NewProducers b)));
           (NoTag, VSlice (map gval_Extension (HeaderExtensions b)))].

Definition Digest (b : BlockHeader) : result Sha256 := Hash256 (gval_BlockHeader b).

Definition NumFromID (id : BlockIdType) : Z := EndianReverseU32 (u32 (Hash0 id)).

Definition BlockNumber (b : BlockHeader) : Z := u32 (NumFromID (Previous b) + 1).

Definition BlockID (b : BlockHeader) : result BlockIdType :=
  Digest b ≫= fun result =>
  Ok (mkSha256 (u64 (Z.land (Hash0 result) 0xffffffff00000000 + EndianReverseU32 (BlockNumber b)))
        (Hash1 result) (Hash2 result) (Hash3 result)).

Definition Header_IsEmpty (b : BlockHeader) : bool :=
  (Timestamp b =? 0) && Name.IsEmpty (Producer b) && (Confirmed b =? 0) && IsEmpty (Previous b) &&
  IsEmpty (TransactionMRoot b) && IsEmpty (ActionMRoot b) && (ScheduleVersion b =? 0) &&
  (match NewProducers b with None => true | Some _ => false end) && (len (HeaderExtensions b) =? 0).

Record SignedBlockHeader : Type := mkSignedBlockHeader { Embedded : BlockHeader; ProducerSignature : Ecc.Signature }.

#[global] Instance SignedBlockHeader_eq_dec : EqDecision SignedBlockHeader.
Proof. solve_decision. Defined.

Definition SignedBlockHeader_zero : SignedBlockHeader := mkSignedBlockHeader BlockHeader_zero Ecc.Signature_zero.
Definition NewSignedBlockHeader : SignedBlockHeader := mkSignedBlockHeader NewBlockHeader Ecc.Signature_zero.

Definition Signed_IsEmpty (s : SignedBlockHeader) : bool :=
  (len (Ecc.sContent (ProducerSignature s)) =? 0) && Header_IsEmpty (Embedded s).

Record HeaderConfirmation : Type := mkHeaderConfirmation {
  ConfBlockId : BlockIdType; ConfProducer : Z; ConfSignature : Ecc.Signature }.

(** ** Lemmas *)

(** One byte appended above [k] bits. *)
Lemma lor_byte k a b :
  0 <= k -> in_u k a ->
  Z.lor a (Z.shiftl (Z.land b 0xFF) k) = a + 2 ^ k * (b mod 256) /\ in_u (k + 8) (a + 2 ^ k * (b mod 256)).
Proof.
  intros Hk Ha. change 0xFF with (Z.ones 8). rewrite Z.land_ones by lia. change (2 ^ 8) with 256.
  split; [by apply lor_shiftl_add|]. unfold in_u in *. rewrite Z.pow_add_r by lia. change (2 ^ 8) with 256.
  pose proof (Z.mod_pos_bound b 256). nia.
Qed.

Ltac append_byte :=
  match goal with |- context [Z.lor ?a (Z.shiftl (Z.land ?b 0xFF) ?k)] =>
    lazymatch a with
    | Z.lor _ _ => fail
    | _ => let E := fresh "E" in let R := fresh "R" in
           destruct (lor_byte k a b) as [E R]; [lia|assumption|]; rewrite E; clear E;
           let v := fresh "v" in set (v := a + 2 ^ k * (b mod 256)) in *; simpl Z.add in R
    end
  end.

Lemma first_byte a : in_u 8 (Z.land a 0xFF).
Proof. change 0xFF with (Z.ones 8). rewrite Z.land_ones by lia. by apply Z.mod_pos_bound. Qed.

Lemma EndianReverseU32_val b0 b1 b2 b3 :
  in_u 8 b0 -> in_u 8 b1 -> in_u 8 b2 -> in_u 8 b3 ->
  EndianReverseU32 (b0 + 2 ^ 8 * b1 + 2 ^ 16 * b2 + 2 ^ 24 * b3) = b3 + 2 ^ 8 * b2 + 2 ^ 16 * b1 + 2 ^ 24 * b0.
Proof.
  intros H0 H1 H2 H3. unfold EndianReverseU32. set (x := b0 + _ + _ + _).
  pose proof (first_byte (Z.shiftr x 24)). repeat append_byte.
  subst v v0 v1. change 0xFF with (Z.ones 8). rewrite Z.land_ones, !Z.shiftr_div_pow2 by lia.
  unfold in_u in H0, H1, H2, H3. subst x. norm_pow. Z.div_mod_to_equations. lia.
Qed.

Lemma split_bytes4 x : in_u 32 x ->
  exists b0 b1 b2 b3, x = b0 + 2 ^ 8 * b1 + 2 ^ 16 * b2 + 2 ^ 24 * b3 /\
    in_u 8 b0 /\ in_u 8 b1 /\ in_u 8 b2 /\ in_u 8 b3.
Proof.
  intros Hx. exists (x mod 256), (x / 2 ^ 8 mod 256), (x / 2 ^ 16 mod 256), (x / 2 ^ 24).
  unfold in_u in *. norm_pow. split_and!; Z.div_mod_to_equations; lia.
Qed.

Lemma EndianReverseU32_range x : in_u 32 x -> in_u 32 (EndianReverseU32 x).
Proof.
  intros (b0 & b1 & b2 & b3 & -> & H0 & H1 & H2 & H3)%split_bytes4.
  rewrite EndianReverseU32_val by done. unfold in_u in *. norm_pow. lia.
Qed.

Lemma EndianReverseU32_involutive x : in_u 32 x -> EndianReverseU32 (EndianReverseU32 x) = x.
Proof.
  intros (b0 & b1 & b2 & b3 & -> & H0 & H1 & H2 & H3)%split_bytes4.
  by rewrite !EndianReverseU32_val.
Qed.

Lemma Digest_wf b d : Digest b = Ok d -> wf d.
Proof.
  unfold Digest, Hash256. intros (bs & _ & H)%bind_Ok. destruct (NewSha256Byte_Sum bs) as (h & E & Hw). congruence.
Qed.

Lemma NumFromID_range id : wf id -> in_u 32 (NumFromID id).
Proof. intros _. apply EndianReverseU32_range, uwrap_range. lia. Qed.

Lemma BlockID_number b id : BlockID b = Ok id -> NumFromID id = BlockNumber b /\ wf id.
Proof.
  unfold BlockID. intros (d & Hd & [= <-])%bind_Ok. pose proof (Digest_wf b d Hd) as (H0 & H1 & H2 & H3)%wf_words.
  assert (Hn : in_u 32 (BlockNumber b)) by (apply uwrap_range; lia).
  pose proof (EndianReverseU32_range _ Hn) as Hr. unfold NumFromID. cbn [Hash0].
  assert (Hhigh : Z.land (Hash0 d) 0xffffffff00000000 = 2 ^ 32 * (Hash0 d / 2 ^ 32)).
  { replace 0xffffffff00000000 with (Z.shiftl (Z.ones 32) 32) by done.
    apply Z.bits_inj'. intros i Hi. rewrite (Z.mul_comm (2 ^ 32)), <- Z.shiftr_div_pow2, <- Z.shiftl_mul_pow2 by lia.
    autorewrite with bits. destruct (Z.ltb_spec i 32).
    - rewrite !(Z.testbit_neg_r _ (i - 32)) by lia. apply andb_false_r.
    - rewrite Z.shiftr_spec by lia. replace (i - 32 + 32) with i by lia. destruct (Z.ltb_spec i 64).
      + rewrite Z.ones_spec_low by lia. apply andb_true_r.
      + rewrite (testbit_above 64 (Hash0 d)) by (done || lia). done. }
  rewrite Hhigh. split.
  - assert (u32 (u64 (2 ^ 32 * (Hash0 d / 2 ^ 32) + EndianReverseU32 (BlockNumber b))) = EndianReverseU32 (BlockNumber b)) as ->.
    { unfold in_u in *. unfold uwrap. norm_pow. Z.div_mod_to_equations. lia. }
    by apply EndianReverseU32_involutive.
  - unfold wf, Hash. cbn [Hash0 Hash1 Hash2 Hash3]. rewrite !Forall_cons.
    split_and!; [apply uwrap_range; lia|exact H1|exact H2|exact H3|constructor].
Qed.

(** ** Properties *)

(** The id of a block carries its number: the number read back from a computed
    [BlockID] is [BlockNumber], one more than the number in [Previous] modulo 2^32, so a
    chain of headers numbers its blocks consecutively. *)
Theorem block_id_carries_number b id child :
  BlockID b = Ok id -> Previous child = id ->
  NumFromID id = BlockNumber b /\ BlockNumber child = u32 (BlockNumber b + 1) /\ wf id.
Proof.
  intros Hid Hp. destruct (BlockID_number b id Hid) as [Hn Hw]. split_and!; [done| |done].
  unfold BlockNumber at 1. by rewrite Hp, Hn.
Qed.

Definition first_id : BlockIdType :=
  mkSha256 2665691965042982912 15417790397258425615 7891651328766564047 10744768645343582684.
Definition second_header : BlockHeader := mkBlockHeader 1 0 0 first_id NewSha256Nil NewSha256Nil 0 None [].

Lemma block_id_carries_number_witness :
  BlockID NewBlockHeader = Ok first_id /\ NumFromID first_id = BlockNumber NewBlockHeader /\
  BlockNumber second_header = u32 (BlockNumber NewBlockHeader + 1) /\ wf first_id.
Proof.
  assert (E : BlockID NewBlockHeader = Ok first_id) by (vm_compute; reflexivity).
  split; [exact E|]. exact (block_id_carries_number NewBlockHeader first_id second_header E eq_refl).
Defined.

(** [IsEmpty] never holds of a header, since the digests it contains are arrays of
    four words: not even of the zero header or the zero signed header. *)
Theorem header_is_never_empty s : Signed_IsEmpty s = false /\ Header_IsEmpty (Embedded s) = false.
Proof.
  assert (H : Header_IsEmpty (Embedded s) = false).
  { unfold Header_IsEmpty. change (IsEmpty (Previous (Embedded s))) with false. rewrite !andb_false_r. done. }
  split; [|done]. unfold Signed_IsEmpty. rewrite H. apply andb_false_r.
Qed.

(** Producer schedules: [GetProducerKey] returns the key of the first entry with the
    name and reports whether there is one; copying a schedule to the shared form and
    back keeps it. *)
Theorem producer_schedule_lookup ps p :
  (forall k, GetProducerKey ps p = (k, true) ->
     exists l1 e l2, Producers ps = l1 ++ e :: l2 /\ ProducerName e = p /\ BlockSigningKey e = k /\
       Forall (fun e' => ProducerName e' <> p) l1) /\
  (GetProducerKey ps p = (Ecc.PublicKey_zero, false) <-> Forall (fun e => ProducerName e <> p) (Producers ps)) /\
  of_shared (to_shared ps) = ps.
Proof.
  assert (Hf : forall l, match find_key l p with
    | Some k => exists l1 e l2, l = l1 ++ e :: l2 /\ ProducerName e = p /\ BlockSigningKey e = k /\
        Forall (fun e' => ProducerName e' <> p) l1
    | None => Forall (fun e => ProducerName e <> p) l end).
  { induction l as [|e l IH]; simpl; [constructor|]. destruct (Z.eqb_spec (ProducerName e) p).
    - by exists [], e, l.
    - destruct (find_key l p); [|by constructor]. destruct IH as (l1 & e' & l2 & -> & ? & ? & ?).
      exists (e :: l1), e', l2. split_and!; auto. }
  specialize (Hf (Producers ps)). unfold GetProducerKey. split_and!.
  - intros k. destruct (find_key _ p); [|done]. by intros [= <-].
  - destruct (find_key _ p); [|done]. split; [done|]. intros Hall.
    destruct Hf as (l1 & e' & l2 & E & Hn & _). rewrite E, Forall_app, Forall_cons in Hall. by destruct Hall as (_ & ? & _).
  - unfold of_shared, to_shared. destruct ps as [v l]. simpl. f_equal.
    assert (forall acc, foldl (fun ps p => ps ++ [p]) acc l = acc ++ l) as ->; [|done].
    clear. induction l as [|x l IH]; intros acc; simpl; [by rewrite app_nil_r|]. by rewrite IH, <- app_assoc.
Qed.
