(* ===== verification/BlockHeaderState.v ===== *)
(** * BlockHeaderState: [chain/types/block_header_state.go] and [block_state.go]

    The header state follows a chain of headers: the producer schedule in force, the
    confirmations each recent block still needs, the block number proposed
    irreversible by each producer and the one two thirds of them imply, and the Merkle
    tree over all block ids.  [Next] is the transition the node makes for a received
    header.  The recovery of a public key from a signature is an argument. *)

From stdpp Require Import sorting.
From S2P Require Import Prelude Bytes Rlp Sha256 Merkle Time BlockHeader.
From S2P Require Ecc.

Record BlockHeaderState : Type := mkBlockHeaderState {
  BlockId : BlockIdType;
  BlockNum : Z;
  Header : SignedBlockHeader;
  DposProposedIrreversibleBlocknum : Z;
  DposIrreversibleBlocknum : Z;
  BftIrreversibleBlocknum : Z;
  PendingScheduleLibNum : Z;
  PendingScheduleHash : Sha256;
  PendingSchedule : ProducerScheduleType;
  ActiveSchedule : ProducerScheduleType;
  BlockrootMerkle : IncrementalMerkle;
  ProducerToLastProduced : gmap Z Z;
  ProducerToLastImpliedIrb : gmap Z Z;
  BlockSigningKey : Ecc.PublicKey;
  ConfirmCount : list Z;
  Confirmations : list HeaderConfirmation }.

(** Field updates. *)
Definition set_BlockId (v : BlockIdType) (b : BlockHeaderState) : BlockHeaderState :=
    mkBlockHeaderState v (BlockNum b) (Header b) (DposProposedIrreversibleBlocknum b)
    (DposIrreversibleBlocknum b) (BftIrreversibleBlocknum b) (PendingScheduleLibNum b)
    (PendingScheduleHash b) (PendingSchedule b) (ActiveSchedule b) (BlockrootMerkle b)
    (ProducerToLastProduced b) (ProducerToLastImpliedIrb b) (BlockSigningKey b) (ConfirmCount b)
    (Confirmations b).
Definition set_Header (v : SignedBlockHeader) (b : BlockHeaderState) : BlockHeaderState :=
    mkBlockHeaderState (BlockId b) (BlockNum b) v (DposProposedIrreversibleBlocknum b)
    (DposIrreversibleBlocknum b) (BftIrreversibleBlocknum b) (PendingScheduleLibNum b)
    (PendingScheduleHash b) (PendingSchedule b) (ActiveSchedule b) (BlockrootMerkle b)
    (ProducerToLastProduced b) (ProducerToLastImpliedIrb b) (BlockSigningKey b) (ConfirmCount b)
    (Confirmations b).
Definition set_DposProposedIrreversibleBlocknum (v : Z) (b : BlockHeaderState) : BlockHeaderState :=
    mkBlockHeaderState (BlockId b) (BlockNum b) (Header b) v (DposIrreversibleBlocknum b)
    (BftIrreversibleBlocknum b) (PendingScheduleLibNum b) (PendingScheduleHash b) (PendingSchedule b)
    (ActiveSchedule b) (BlockrootMerkle b) (ProducerToLastProduced b) (ProducerToLastImpliedIrb b)
    (BlockSigningKey b) (ConfirmCount b) (Confirmations b).
Definition set_BftIrreversibleBlocknum (v : Z) (b : BlockHeaderState) : BlockHeaderState :=
    mkBlockHeaderState (BlockId b) (BlockNum b) (Header b) (DposProposedIrreversibleBlocknum b)
    (DposIrreversibleBlocknum b) v (PendingScheduleLibNum b) (PendingScheduleHash b) (PendingSchedule b)
    (ActiveSchedule b) (BlockrootMerkle b) (ProducerToLastProduced b) (ProducerToLastImpliedIrb b)
    (BlockSigningKey b) (ConfirmCount b) (Confirmations b).
Definition set_PendingScheduleLibNum (v : Z) (b : BlockHeaderState) : BlockHeaderState :=
    mkBlockHeaderState (BlockId b) (BlockNum b) (Header b) (DposProposedIrreversibleBlocknum b)
    (DposIrreversibleBlocknum b) (BftIrreversibleBlocknum b) v (PendingScheduleHash b) (PendingSchedule
    b) (ActiveSchedule b) (BlockrootMerkle b) (ProducerToLastProduced b) (ProducerToLastImpliedIrb b)
    (BlockSigningKey b) (ConfirmCount b) (Confirmations b).
Definition set_PendingScheduleHash (v : Sha256) (b : BlockHeaderState) : BlockHeaderState :=
    mkBlockHeaderState (BlockId b) (BlockNum b) (Header b) (DposProposedIrreversibleBlocknum b)
    (DposIrreversibleBlocknum b) (BftIrreversibleBlocknum b) (PendingScheduleLibNum b) v
    (PendingSchedule b) (ActiveSchedule b) (BlockrootMerkle b) (ProducerToLastProduced b)
    (ProducerToLastImpliedIrb b) (BlockSigningKey b) (ConfirmCount b) (Confirmations b).
Definition set_PendingSchedule (v : ProducerScheduleType) (b : BlockHeaderState) : BlockHeaderState :=
    mkBlockHeaderState (BlockId b) (BlockNum b) (Header b) (DposProposedIrreversibleBlocknum b)
    (DposIrreversibleBlocknum b) (BftIrreversibleBlocknum b) (PendingScheduleLibNum b)
    (PendingScheduleHash b) v (ActiveSchedule b) (BlockrootMerkle b) (ProducerToLastProduced b)
    (ProducerToLastImpliedIrb b) (BlockSigningKey b) (ConfirmCount b) (Confirmations b).
Definition set_ActiveSchedule (v : ProducerScheduleType) (b : BlockHeaderState) : BlockHeaderState :=
    mkBlockHeaderState (BlockId b) (BlockNum b) (Header b) (DposProposedIrreversibleBlocknum b)
    (DposIrreversibleBlocknum b) (BftIrreversibleBlocknum b) (PendingScheduleLibNum b)
    (PendingScheduleHash b) (PendingSchedule b) v (BlockrootMerkle b) (ProducerToLastProduced b)
    (ProducerToLastImpliedIrb b) (BlockSigningKey b) (ConfirmCount b) (Confirmations b).
Definition set_ProducerToLastProduced (v : gmap Z Z) (b : BlockHeaderState) : BlockHeaderState :=
    mkBlockHeaderState (BlockId b) (BlockNum b) (Header b) (DposProposedIrreversibleBlocknum b)
    (DposIrreversibleBlocknum b) (BftIrreversibleBlocknum b) (PendingScheduleLibNum b)
    (PendingScheduleHash b) (PendingSchedule b) (ActiveSchedule b) (BlockrootMerkle b) v
    (ProducerToLastImpliedIrb b) (BlockSigningKey b) (ConfirmCount b) (Confirmations b).
Definition set_ProducerToLastImpliedIrb (v : gmap Z Z) (b : BlockHeaderState) : BlockHeaderState :=
    mkBlockHeaderState (BlockId b) (BlockNum b) (Header b) (DposProposedIrreversibleBlocknum b)
    (DposIrreversibleBlocknum b) (BftIrreversibleBlocknum b) (PendingScheduleLibNum b)
    (PendingScheduleHash b) (PendingSchedule b) (ActiveSchedule b) (BlockrootMerkle b)
    (ProducerToLastProduced b) v (BlockSigningKey b) (ConfirmCount b) (Confirmations b).
Definition set_ConfirmCount (v : list Z) (b : BlockHeaderState) : BlockHeaderState :=
    mkBlockHeaderState (BlockId b) (BlockNum b) (Header b) (DposProposedIrreversibleBlocknum b)
    (DposIrreversibleBlocknum b) (BftIrreversibleBlocknum b) (PendingScheduleLibNum b)
    (PendingScheduleHash b) (PendingSchedule b) (ActiveSchedule b) (BlockrootMerkle b)
    (ProducerToLastProduced b) (ProducerToLastImpliedIrb b) (BlockSigningKey b) v (Confirmations b).
Definition set_Confirmations (v : list HeaderConfirmation) (b : BlockHeaderState) : BlockHeaderState :=
    mkBlockHeaderState (BlockId b) (BlockNum b) (Header b) (DposProposedIrreversibleBlocknum b)
    (DposIrreversibleBlocknum b) (BftIrreversibleBlocknum b) (PendingScheduleLibNum b)
    (PendingScheduleHash b) (PendingSchedule b) (ActiveSchedule b) (BlockrootMerkle b)
    (ProducerToLastProduced b) (ProducerToLastImpliedIrb b) (BlockSigningKey b) (ConfirmCount b) v.

(** Writes to the header inside the state. *)
Definition set_Confirmed (c : Z) (h : SignedBlockHeader) : SignedBlockHeader :=
  let e := Embedded h in
  mkSignedBlockHeader (mkBlockHeader (Timestamp e) (Producer e) c (Previous e) (TransactionMRoot e)
    (ActionMRoot e) (ScheduleVersion e) (NewProducers e) (HeaderExtensions e)) (ProducerSignature h).
Definition set_NewProducers (p : ProducerScheduleType) (h : SignedBlockHeader) : SignedBlockHeader :=
  let e := Embedded h in
  mkSignedBlockHeader (mkBlockHeader (Timestamp e) (Producer e) (Confirmed e) (Previous e) (TransactionMRoot e)
    (ActionMRoot e) (ScheduleVersion e) (Some p) (HeaderExtensions e)) (ProducerSignature h).
Definition set_roots (t a : Sha256) (h : SignedBlockHeader) : SignedBlockHeader :=
  let e := Embedded h in
  mkSignedBlockHeader (mkBlockHeader (Timestamp e) (Producer e) (Confirmed e) (Previous e) t
    a (ScheduleVersion e) (NewProducers e) (HeaderExtensions e)) (ProducerSignature h).
Definition set_Signature (s : Ecc.Signature) (h : SignedBlockHeader) : SignedBlockHeader :=
  mkSignedBlockHeader (Embedded h) s.

Abbreviation hdr b := (Embedded (Header b)).

(** ** Schedules *)

Definition GetScheduledProducer (b : BlockHeaderState) (t : Z) : result ProducerKey :=
  let producers := Producers (ActiveSchedule b) in
  let m := u32 (len producers * ProducerRepetitions) in
  if m =? 0 then Throw DivideByZero
  else index producers (t mod m / ProducerRepetitions).

Definition CalcDposLastIrreversible (b : BlockHeaderState) : Z :=
  let blockNums := (map_to_list (ProducerToLastImpliedIrb b)).*2 in
  if len blockNums =? 0 then 0
  else nth (Z.to_nat ((len blockNums - 1) / 3)) (merge_sort Z.le blockNums) 0.

(** [make], [copy] and the write of the last element, in both branches. *)
Definition grow_confirm_count (confirmCount : list Z) (requiredConfs : Z) : list Z :=
  if len confirmCount <? MaxTrackedDposConfirmations then confirmCount ++ [u8 requiredConfs]
  else drop 1 confirmCount ++ [u8 requiredConfs].

Definition GenerateNext (b : BlockHeaderState) (when : Z) : result BlockHeaderState :=
  (if 0 <? when then
     EosAssert (Timestamp (hdr b) <? when) BlockValidateException ≫= fun _ => Ok when
   else Ok (u32 (Timestamp (hdr b) + 1))) ≫= fun when =>
  GetScheduledProducer b when ≫= fun proKey =>
  let blockNum := u32 (BlockNum b + 1) in
  Append (BlockrootMerkle b) (BlockId b) ≫= fun '(blockrootMerkle, _) =>
  let header := mkSignedBlockHeader
    (mkBlockHeader when (ProducerName proKey) 0 (BlockId b) NewSha256Nil NewSha256Nil
       (Version (ActiveSchedule b)) None []) Ecc.Signature_zero in
  let lastProduced := <[ProducerName proKey := blockNum]> (ProducerToLastProduced b) in
  let lastImplied := <[ProducerName proKey := DposProposedIrreversibleBlocknum b]> (ProducerToLastImpliedIrb b) in
  let numActiveProducers := len (Producers (ActiveSchedule b)) in
  let requiredConfs := u32 (u32 (numActiveProducers * 2 / 3) + 1) in
  let result lib := mkBlockHeaderState NewSha256Nil blockNum header
    (DposProposedIrreversibleBlocknum b) lib (BftIrreversibleBlocknum b)
    (PendingScheduleLibNum b) (PendingScheduleHash b) (PendingSchedule b) (ActiveSchedule b)
    blockrootMerkle lastProduced lastImplied (BlockHeader.BlockSigningKey proKey)
    (grow_confirm_count (ConfirmCount b) requiredConfs) [] in
  Ok (result (CalcDposLastIrreversible (result 0))).

(** The maps of a promoted schedule: the old entry or the last irreversible block. *)
Definition promote_map (old : gmap Z Z) (lib : Z) (producers : list ProducerKey) : gmap Z Z :=
  foldl (fun m pro => <[ProducerName pro := default lib (old !! ProducerName pro)]> m) ∅ producers.

Definition MaybePromotePending (b : BlockHeaderState) : BlockHeaderState * bool :=
  if (0 <? len (Producers (PendingSchedule b))) && (PendingScheduleLibNum b <=? DposIrreversibleBlocknum b) then
    let active := PendingSchedule b in
    let newProducerToLastProduced :=
      promote_map (ProducerToLastProduced b) (DposIrreversibleBlocknum b) (Producers active) in
    let newProducerToLastImpliedIrb :=
      promote_map (ProducerToLastImpliedIrb b) (DposIrreversibleBlocknum b) (Producers active) in
    let b := set_ActiveSchedule active b in
    let b := set_PendingSchedule ProducerScheduleType_zero b in
    let b := set_ProducerToLastProduced (<[Producer (hdr b) := BlockNum b]> newProducerToLastProduced) b in
    let b := set_ProducerToLastImpliedIrb newProducerToLastImpliedIrb b in
    (b, true)
  else (b, false).

Definition SetNewProducers (pending : ProducerScheduleType) : M BlockHeaderState unit :=
  b ← get;
  _ ← assertM (Version pending =? u32 (Version (ActiveSchedule b) + 1)) ProducerScheduleException;
  _ ← assertM (len (Producers (PendingSchedule b)) =? 0) ProducerScheduleException;
  _ ← modify (set_Header (set_NewProducers pending (Header b)));
  hash ← lift (Hash256 (gval_Schedule pending));
  _ ← modify (set_PendingScheduleHash hash);
  _ ← modify (set_PendingSchedule (of_shared pending));
  modify (set_PendingScheduleLibNum (BlockNum b)).

(** ** Confirmations *)

(** The loop of [SetConfirmed] over the indices [i], [i-1], ..., 0; [n] is [i + 1]. *)
Fixpoint SetConfirmed_loop (n : nat) (blocksToConfirm : Z) (b : BlockHeaderState) : BlockHeaderState :=
  match n with
  | O => b
  | S i =>
      if blocksToConfirm <=? 0 then b
      else
        let count := ConfirmCount b in
        let c := u8 (nth i count 0 - 1) in
        let b := set_ConfirmCount (<[i := c]> count) b in
        if c =? 0 then
          let blockNumFori := u32 (BlockNum b - u32 (len (ConfirmCount b) - 1 - Z.of_nat i)) in
          let b := set_DposProposedIrreversibleBlocknum blockNumFori b in
          if (i =? length (ConfirmCount b) - 1)%nat then set_ConfirmCount [] b
          else set_ConfirmCount (drop (i + 1) (ConfirmCount b)) b
        else SetConfirmed_loop i (u16 (blocksToConfirm - 1)) b
  end.

Definition SetConfirmed (numPrevBlocks : Z) (b : BlockHeaderState) : BlockHeaderState :=
  let b := set_Header (set_Confirmed numPrevBlocks (Header b)) b in
  let blocksToConfirm := u16 (numPrevBlocks + 1) in
  SetConfirmed_loop (length (ConfirmCount b)) blocksToConfirm b.

(** ** Signatures *)

(** [MakePair] of two digests (one of them a pointer in the source, which the
    serializer follows). *)
Definition gval_Pair (a b : Sha256) : gval := VStruct [(NoTag, gval_Sha256 a); (NoTag, gval_Sha256 b)].

Definition SigDigest (b : BlockHeaderState) : result Sha256 :=
  Digest (hdr b) ≫= fun d =>
  GetRoot (BlockrootMerkle b) ≫= fun root =>
  Hash256 (gval_Pair d root) ≫= fun headerBmroot =>
  Hash256 (gval_Pair headerBmroot (PendingScheduleHash b)).

Section Recovery.
Variable publicKey : Z -> bytes -> bytes -> result Ecc.PublicKey.

Definition Signee (b : BlockHeaderState) : result Ecc.PublicKey :=
  SigDigest b ≫= fun d => Ecc.recover_key publicKey (ProducerSignature (Header b)) (to_Bytes d).

Definition Sign (signer : Sha256 -> Ecc.Signature) : M BlockHeaderState unit :=
  b ← get;
  d ← lift (SigDigest b);
  _ ← modify (set_Header (set_Signature (signer d) (Header b)));
  signKey ← lift (Ecc.recover_key publicKey (signer d) (to_Bytes d));
  assertM (Ecc.Compare (BlockSigningKey b) signKey) WrongSigningKey.

Fixpoint not_confirmed_by (p : Z) (l : list HeaderConfirmation) : result unit :=
  match l with
  | [] => Ok tt
  | c :: l' => EosAssert (negb (ConfProducer c =? p)) ProducerDoubleConfirm ≫= fun _ => not_confirmed_by p l'
  end.

Definition AddConfirmation (conf : HeaderConfirmation) : M BlockHeaderState unit :=
  b ← get;
  _ ← lift (not_confirmed_by (ConfProducer conf) (Confirmations b));
  let '(key, hasKey) := GetProducerKey (ActiveSchedule b) (ConfProducer conf) in
  _ ← assertM hasKey ProducerNotInSchedule;
  d ← lift (SigDigest b);
  signer ← lift (Ecc.recover_key publicKey (ConfSignature conf) (to_Bytes d));
  _ ← assertM (Ecc.Compare signer key) WrongSigningKey;
  modify (set_Confirmations (Confirmations b ++ [conf])).

(** ** The transition *)

(** The header set by the supplied one after the checks. *)
Definition run_on {S A} (m : M S A) (s : S) : result S :=
  match m s with (s', Ok _) => Ok s' | (_, Throw e) => Throw e end.

Definition Next (b : BlockHeaderState) (h : SignedBlockHeader) (trust : bool) : result BlockHeaderState :=
  let e := Embedded h in
  EosAssert (negb (Timestamp e =? 0)) BlockValidateException ≫= fun _ =>
  EosAssert (len (HeaderExtensions e) =? 0) BlockValidateException ≫= fun _ =>
  EosAssert (Timestamp (hdr b) <? Timestamp e) BlockValidateException ≫= fun _ =>
  EosAssert (bool_decide (Previous e = BlockId b)) UnlinkableBlockException ≫= fun _ =>
  GenerateNext b (Timestamp e) ≫= fun result =>
  EosAssert (Producer (hdr result) =? Producer e) WrongProducer ≫= fun _ =>
  EosAssert (ScheduleVersion (hdr result) =? ScheduleVersion e) ProducerScheduleException ≫= fun _ =>
  (match ProducerToLastProduced b !! Producer e with
   | Some blockNum =>
       EosAssert (blockNum <? u32 (BlockNum result - Confirmed e)) ProducerDoubleConfirm
   | None => Ok tt
   end) ≫= fun _ =>
  let result := SetConfirmed (Confirmed e) result in
  let '(result, wasPendingPromoted) := MaybePromotePending result in
  (match NewProducers e with
   | Some p =>
       EosAssert (negb wasPendingPromoted) ProducerScheduleException ≫= fun _ =>
       run_on (SetNewProducers p) result
   | None => Ok result
   end) ≫= fun result =>
  let header := set_Signature (ProducerSignature h)
                  (set_roots (TransactionMRoot e) (ActionMRoot e) (Header result)) in
  let result := set_Header header result in
  BlockID (hdr result) ≫= fun id =>
  let result := set_BlockId id result in
  (if negb trust then
     Signee result ≫= fun signee =>
     EosAssert (Ecc.Compare (BlockSigningKey result) signee) WrongSigningKey
   else Ok tt) ≫= fun _ =>
  Ok result.

End Recovery.

(** ** Counting the producers of a map *)

Definition count (P : Z -> Prop) `{!forall v, Decision (P v)} (m : gmap Z Z) : nat :=
  size (filter (fun kv => P kv.2) m).

Definition values (m : gmap Z Z) : list Z := (map_to_list m).*2.

Lemma length_values m : length (values m) = size m.
Proof. unfold values. by rewrite length_fmap, length_map_to_list. Qed.

Lemma count_values (P : Z -> Prop) `{!forall v, Decision (P v)} m :
  count P m = length (filter P (values m)).
Proof.
  unfold count. induction m as [|k v m Hk IH] using map_ind.
  { unfold values. by rewrite map_filter_empty, map_size_empty, map_to_list_empty. }
  assert (Hp : values (<[k := v]> m) ≡ₚ v :: values m) by (unfold values; by rewrite map_to_list_insert).
  rewrite (filter_Permutation P _ _ Hp), filter_cons, map_filter_insert. cbn [snd].
  destruct (decide (P v)).
  - rewrite map_size_insert_None, IH; [done|]. apply map_lookup_filter_None. by left.
  - by rewrite delete_id.
Qed.

Lemma count_insert_le (P : Z -> Prop) `{!forall v, Decision (P v)} k v m :
  ~ P v -> (count P (<[k := v]> m) <= count P m)%nat.
Proof.
  intros Hv. unfold count. rewrite map_filter_insert_False by done.
  apply map_subseteq_size, map_filter_subseteq_mono, delete_subseteq.
Qed.

Lemma elem_of_values v m : v ∈ values m <-> exists k, m !! k = Some v.
Proof.
  unfold values. rewrite list_elem_of_fmap. split.
  - intros ([k v'] & -> & Hk%elem_of_map_to_list). by exists k.
  - intros [k Hk]. exists (k, v). split; [done|]. by apply elem_of_map_to_list.
Qed.

(** The element one third into the sorted values. *)
Definition third (l : list Z) : Z := nth (Z.to_nat ((len l - 1) / 3)) (merge_sort Z.le l) 0.

Lemma Sorted_nth_split (s : list Z) k r :
  Sorted Z.le s -> s !! k = Some r ->
  Forall (fun v => v <= r) (take (S k) s) /\ Forall (fun v => r <= v) (drop k s).
Proof.
  intros Hs Hk. apply Sorted_StronglySorted in Hs; [|intros ?; lia].
  revert k Hk. induction Hs as [|x s Hs IH Hx]; intros [|k] Hk; try done; simpl in *.
  - injection Hk as ->. split; [by repeat constructor|]. constructor; [lia|done].
  - destruct (IH k Hk). split; [|done]. constructor; [|done].
    by eapply Forall_lookup_1 in Hx.
Qed.

Lemma length_filter_all (P : Z -> Prop) `{!forall v, Decision (P v)} l :
  Forall P l -> length (filter P l) = length l.
Proof.
  induction 1 as [|x l Hx Hl IH]; [done|]. rewrite filter_cons_True by done. simpl. by rewrite IH.
Qed.

Lemma length_filter_split r (l : list Z) :
  (length (filter (fun x => (r <= x)%Z) l) + length (filter (fun x => (x < r)%Z) l) = length l)%nat.
Proof.
  induction l as [|x l IH]; [done|]. rewrite !filter_cons.
  destruct (decide (r <= x)), (decide (x < r)); simpl; lia.
Qed.

(** More than two thirds of the values reach the element and at least one third do
    not exceed it. *)
Lemma third_spec l : l <> [] ->
  third l ∈ l /\
  2 * len l < 3 * len (filter (fun v => third l <= v) l) /\
  len l <= 3 * len (filter (fun v => v <= third l) l).
Proof.
  intros Hne. set (s := merge_sort Z.le l). set (k := Z.to_nat ((len l - 1) / 3)).
  assert (Hp : s ≡ₚ l) by apply merge_sort_Permutation.
  assert (Hn : length s = length l) by by rewrite Hp.
  assert (Hl : (0 < length l)%nat) by (destruct l; simpl; [done|lia]).
  assert (Hk : 3 * Z.of_nat k <= len l - 1) by (unfold k, len in *; Z.div_mod_to_equations; lia).
  assert (Hk' : len l < 3 * Z.of_nat k + 4) by (unfold k, len in *; Z.div_mod_to_equations; lia).
  destruct (lookup_lt_is_Some_2 s k) as [r Hr]; [unfold len in *; lia|].
  assert (E : third l = r) by (unfold third; by apply nth_lookup_Some).
  destruct (Sorted_nth_split s k r) as [Hle Hge]; [apply Sorted_merge_sort; intros ? ?; lia|done|].
  rewrite E. split_and!.
  - rewrite <- Hp. by eapply list_elem_of_lookup_2.
  - unfold len. rewrite <- (filter_Permutation (fun v => r <= v) s l Hp).
    rewrite <- (take_drop k s), filter_app, length_app, (length_filter_all _ (drop k s)) by done.
    rewrite length_drop. unfold len in *. lia.
  - unfold len. rewrite <- (filter_Permutation (fun v => v <= r) s l Hp).
    rewrite <- (take_drop (S k) s), filter_app, length_app, (length_filter_all _ (take (S k) s)) by done.
    rewrite length_take. unfold len in *. lia.
Qed.

Lemma CalcDpos_third b :
  ProducerToLastImpliedIrb b <> ∅ -> CalcDposLastIrreversible b = third (values (ProducerToLastImpliedIrb b)).
Proof.
  intros Hne. unfold CalcDposLastIrreversible. fold (values (ProducerToLastImpliedIrb b)).
  rewrite (proj2 (Z.eqb_neq _ _)); [done|]. unfold len. rewrite length_values.
  intros H. apply Hne, map_size_empty_iff. lia.
Qed.

Lemma values_nonempty m : m <> ∅ -> values m <> [].
Proof. intros Hne H. apply Hne, map_size_empty_iff. by rewrite <- length_values, H. Qed.

(** Raising the value of one producer to at least the element does not lower it. *)
Lemma third_insert m k v :
  m <> ∅ -> third (values m) <= v -> third (values m) <= third (values (<[k := v]> m)).
Proof.
  intros Hne Hv. set (r := third (values m)) in *. set (m' := <[k := v]> m).
  assert (Hne' : m' <> ∅) by apply insert_non_empty.
  destruct (third_spec (values m) (values_nonempty _ Hne)) as (_ & H2 & _).
  destruct (third_spec (values m') (values_nonempty _ Hne')) as (_ & _ & H3).
  set (r' := third (values m')) in *. fold r in H2. destruct (Z.le_gt_cases r r') as [|Hlt]; [done|exfalso].
  unfold len in *. rewrite <- count_values, length_values in H2, H3.
  assert (Hsz : (size m <= size m')%nat) by (unfold m'; rewrite map_size_insert; case_match; unfold id; lia).
  assert (Hc : (count (fun x => (x <= r')%Z) m' <= count (fun x => (x < r)%Z) m)%nat).
  { transitivity (count (fun x => x < r) m').
    - unfold count. apply map_subseteq_size, map_filter_subseteq_ext. intros ? ? _. simpl. lia.
    - apply count_insert_le. lia. }
  assert (Hsum : (count (fun x => (r <= x)%Z) m + count (fun x => (x < r)%Z) m = size m)%nat).
  { rewrite !count_values, <- length_values. apply length_filter_split. }
  lia.
Qed.

(** ** The confirmation counts *)


Lemma SetConfirmed_loop_step i btc b :
  SetConfirmed_loop (S i) btc b =
    if btc <=? 0 then b
    else
      let c := u8 (nth i (ConfirmCount b) 0 - 1) in
      let b' := set_ConfirmCount (<[i := c]> (ConfirmCount b)) b in
      if c =? 0 then
        set_ConfirmCount (if (i =? length (ConfirmCount b') - 1)%nat then [] else drop (i + 1) (ConfirmCount b'))
          (set_DposProposedIrreversibleBlocknum
             (u32 (BlockNum b - u32 (len (ConfirmCount b') - 1 - Z.of_nat i))) b)
      else SetConfirmed_loop i (u16 (btc - 1)) b'.
Proof.
  cbn [SetConfirmed_loop]. destruct (btc <=? 0); [done|]. cbv zeta. destruct (_ =? 0); [|done].
  by destruct (_ =? _)%nat.
Qed.

(** The newest counts [l2] are lowered by one each; none of them reaches zero. *)
Lemma SetConfirmed_loop_lower l2 : forall btc b l1 done_,
  ConfirmCount b = l1 ++ l2 ++ done_ -> Forall (fun c => 2 <= c <= 255) l2 ->
  len l2 <= btc < 2 ^ 16 ->
  SetConfirmed_loop (length (l1 ++ l2)) btc b =
    SetConfirmed_loop (length l1) (btc - len l2) (set_ConfirmCount (l1 ++ map Z.pred l2 ++ done_) b).
Proof.
  induction l2 as [|c l2 IH] using rev_ind; intros btc b l1 done_ Hc Hl2 Hbtc.
  { rewrite app_nil_r. unfold len. simpl. rewrite Z.sub_0_r. simpl in Hc. rewrite <- Hc. by destruct b. }
  rewrite <- app_assoc in Hc. apply Forall_app in Hl2 as [Hl2 Hcc]. apply (proj1 (Forall_singleton _ _)) in Hcc. cbv beta in Hcc.
  rewrite len_app in *. unfold len in Hbtc at 2. simpl in Hbtc. assert (0 <= len l2) by (unfold len; lia).
  rewrite app_assoc, length_app, Nat.add_comm. cbn [length Nat.add]. rewrite SetConfirmed_loop_step.
  rewrite (proj2 (Z.leb_gt btc 0)), Hc by lia. cbv zeta.
  rewrite (app_assoc l1). cbn [app]. rewrite nth_middle, insert_middle.
  rewrite (uwrap_id 8) by (unfold in_u; norm_pow; lia). rewrite (proj2 (Z.eqb_neq (c - 1) 0)) by lia.
  rewrite (uwrap_id 16) by (unfold in_u; norm_pow; lia).
  rewrite (IH (btc - 1) _ l1 (c - 1 :: done_)); [|by rewrite <- app_assoc|done|lia].
  replace (btc - 1 - len l2) with (btc - (len l2 + len [c])) by (unfold len; simpl; lia).
  rewrite map_app, <- (app_assoc (map Z.pred l2)). reflexivity.
Qed.

(** A count of one below them reaches zero: its block is proposed irreversible. *)
Lemma SetConfirmed_loop_zero btc b l1 done_ :
  ConfirmCount b = l1 ++ 1 :: done_ -> 0 < btc -> len (ConfirmCount b) <= BlockNum b < 2 ^ 32 ->
  SetConfirmed_loop (length (l1 ++ [1])) btc b =
    set_ConfirmCount done_ (set_DposProposedIrreversibleBlocknum (BlockNum b - len done_) b).
Proof.
  intros Hc Hbtc Hn. rewrite length_app, Nat.add_comm. cbn [length Nat.add]. rewrite SetConfirmed_loop_step.
  rewrite (proj2 (Z.leb_gt btc 0)) by lia. rewrite Hc in *. cbv zeta. rewrite nth_middle, insert_middle.
  change (u8 (1 - 1)) with 0. change (0 =? 0) with true. cbv iota. cbn [ConfirmCount set_ConfirmCount].
  assert (Hlen : len (l1 ++ 0 :: done_) = len l1 + 1 + len done_) by (unfold len; rewrite length_app; simpl; lia).
  rewrite len_app in Hn. unfold len in Hn at 2. simpl in Hn. fold (len done_) in *.
  f_equal.
  - rewrite length_app. cbn [length]. destruct (Nat.eqb_spec (length l1) (length l1 + S (length done_) - 1)).
    + destruct done_; [done|simpl in *; lia].
    + rewrite drop_app_ge by lia.
      by replace (length l1 + 1 - length l1)%nat with 1%nat by lia.
  - f_equal. rewrite Hlen. replace (len l1 + 1 + len done_ - 1 - Z.of_nat (length l1)) with (len done_) by (unfold len; lia).
    rewrite (uwrap_id 32 (len done_)), uwrap_id; [done|..]; unfold in_u, len in *; lia.
Qed.

Lemma last_one_split (l : list Z) :
  Forall (fun c => 1 <= c <= 255) l ->
  Forall (fun c => 2 <= c <= 255) l \/
  exists l1 l2, l = l1 ++ 1 :: l2 /\ Forall (fun c => 2 <= c <= 255) l2.
Proof.
  induction 1 as [|c l Hc Hl [IH|(l1 & l2 & -> & IH)]]; [by left| |].
  - destruct (Z.eq_dec c 1) as [->|]; [right; by exists [], l|left; constructor; [lia|done]].
  - right. by exists (c :: l1), l2.
Qed.

Definition confirming (n : Z) (b : BlockHeaderState) : BlockHeaderState :=
  set_Header (set_Confirmed n (Header b)) b.

(** What [SetConfirmed] does: the counts of the newest [n + 1] blocks are lowered by
    one, unless one of them reaches zero; then the newest such block is proposed
    irreversible and only the counts of the blocks after it are kept. *)
Lemma SetConfirmed_cases n b :
  Forall (fun c => 1 <= c <= 255) (ConfirmCount b) -> len (ConfirmCount b) <= BlockNum b < 2 ^ 32 ->
  0 <= n < 2 ^ 16 - 1 ->
  (exists l1 l2, ConfirmCount b = l1 ++ l2 /\ len l2 = Z.min (len (ConfirmCount b)) (n + 1) /\
     Forall (fun c => 2 <= c <= 255) l2 /\
     SetConfirmed n b = set_ConfirmCount (l1 ++ map Z.pred l2) (confirming n b)) \/
  (exists l1 l2, ConfirmCount b = l1 ++ 1 :: l2 /\ len l2 <= n /\
     Forall (fun c => 2 <= c <= 255) l2 /\
     SetConfirmed n b = set_ConfirmCount (map Z.pred l2)
       (set_DposProposedIrreversibleBlocknum (BlockNum b - len l2) (confirming n b))).
Proof.
  intros Hc Hn Hr. unfold SetConfirmed. fold (confirming n b). cbv zeta.
  change (ConfirmCount (confirming n b)) with (ConfirmCount b).
  rewrite uwrap_id by (unfold in_u; norm_pow; lia). set (l := ConfirmCount b) in *.
  set (k := Z.to_nat (Z.max 0 (len l - (n + 1)))).
  assert (Hw : len (drop k l) = Z.min (len l) (n + 1)).
  { unfold len. rewrite length_drop. subst k. unfold len. lia. }
  rewrite <- (take_drop k l). set (w := drop k l) in *. set (l1 := take k l).
  assert (El : l = l1 ++ w) by (symmetry; apply take_drop).
  destruct (last_one_split w) as [H2|(a & l2 & Ew & H2)]; [apply Forall_drop, Hc| |].
  - left. exists l1, w. split_and!; [done| |done|].
    { by rewrite <- El. }
    rewrite (SetConfirmed_loop_lower w _ _ l1 []); [|by rewrite app_nil_r, <- El|done|norm_pow; lia].
    rewrite app_nil_r. destruct (Z.leb_spec (len l) (n + 1)).
    + replace l1 with (@nil Z); [done|]. unfold l1, k. by rewrite Z.max_l by lia.
    + rewrite Hw, Z.min_r, Z.sub_diag by lia. by destruct (length l1).
  - right. assert (Hl2 : len w = len a + 1 + len l2) by (rewrite Ew, len_app; unfold len; simpl; lia).
    assert (0 <= len a) by (unfold len; lia).
    exists (l1 ++ a), l2. split_and!; [by rewrite <- El, El, Ew, <- app_assoc|lia|done|].
    rewrite Ew, app_assoc. change (1 :: l2) with ([1] ++ l2). rewrite (app_assoc (l1 ++ a)).
    rewrite (SetConfirmed_loop_lower l2 _ _ ((l1 ++ a) ++ [1]) []);
      [|change (ConfirmCount (confirming n b)) with l; rewrite El, Ew, app_nil_r; by rewrite <- !app_assoc|done|norm_pow; lia].
    rewrite app_nil_r.
    rewrite (SetConfirmed_loop_zero _ _ (l1 ++ a) (map Z.pred l2)); [|cbn; by rewrite <- app_assoc|lia|].
    + unfold len. rewrite length_map. done.
    + cbn [ConfirmCount set_ConfirmCount BlockNum]. change (BlockNum (confirming n b)) with (BlockNum b).
      rewrite !len_app. unfold len in *. rewrite length_map. simpl. rewrite El, Ew, !length_app in Hn. simpl in Hn. lia.
Qed.

(** ** The invariant of a header state *)

Record hs_inv (b : BlockHeaderState) : Prop := {
  inv_num : 0 <= BlockNum b < 2 ^ 32;
  inv_tracked : len (ConfirmCount b) <= MaxTrackedDposConfirmations;
  inv_counts : Forall (fun c => 1 <= c <= 255) (ConfirmCount b);
  inv_proposed : 0 <= DposProposedIrreversibleBlocknum b /\
    DposProposedIrreversibleBlocknum b + len (ConfirmCount b) <= BlockNum b;
  inv_implied : map_Forall (fun _ v => 0 <= v <= DposProposedIrreversibleBlocknum b) (ProducerToLastImpliedIrb b);
  inv_produced : map_Forall (fun _ v => 0 <= v <= BlockNum b) (ProducerToLastProduced b);
  inv_lib : 0 <= DposIrreversibleBlocknum b <= DposProposedIrreversibleBlocknum b;
  inv_active : 1 <= len (Producers (ActiveSchedule b)) <= MaxProducers;
  inv_pending : len (Producers (PendingSchedule b)) <= MaxProducers }.

Lemma scheduled_producer_val b t :
  1 <= len (Producers (ActiveSchedule b)) <= MaxProducers -> 0 <= t ->
  exists key, GetScheduledProducer b t = Ok key /\
    Producers (ActiveSchedule b) !! Z.to_nat (t / ProducerRepetitions mod len (Producers (ActiveSchedule b))) = Some key.
Proof.
  intros Hl Ht. unfold GetScheduledProducer, ProducerRepetitions, MaxProducers in *. set (ps := Producers _) in *.
  rewrite uwrap_id by (unfold in_u; norm_pow; lia). rewrite (proj2 (Z.eqb_neq _ 0)) by lia.
  assert (E : t mod (len ps * 12) / 12 = t / 12 mod len ps).
  { rewrite (Z.mul_comm (len ps)), Z.rem_mul_r by lia.
    rewrite (Z.mul_comm 12), Z.div_add, (Z.div_small (t mod 12)) by (pose proof (Z.mod_pos_bound t 12); lia). lia. }
  rewrite E. pose proof (Z.mod_pos_bound (t / 12) (len ps) ltac:(lia)) as Hm.
  unfold index. rewrite (proj2 (Z.ltb_ge _ 0)) by lia.
  destruct (lookup_lt_is_Some_2 ps (Z.to_nat (t / 12 mod len ps))) as [key Hk]; [unfold len in *; lia|].
  exists key. by rewrite Hk.
Qed.

(** The record [GenerateNext] builds. *)
Definition template (b : BlockHeaderState) (when : Z) (key : ProducerKey) (m : IncrementalMerkle) (lib : Z) : BlockHeaderState :=
  mkBlockHeaderState NewSha256Nil (u32 (BlockNum b + 1))
    (mkSignedBlockHeader (mkBlockHeader when (ProducerName key) 0 (BlockId b) NewSha256Nil NewSha256Nil
       (Version (ActiveSchedule b)) None []) Ecc.Signature_zero)
    (DposProposedIrreversibleBlocknum b) lib (BftIrreversibleBlocknum b)
    (PendingScheduleLibNum b) (PendingScheduleHash b) (PendingSchedule b) (ActiveSchedule b) m
    (<[ProducerName key := u32 (BlockNum b + 1)]> (ProducerToLastProduced b))
    (<[ProducerName key := DposProposedIrreversibleBlocknum b]> (ProducerToLastImpliedIrb b))
    (BlockHeader.BlockSigningKey key)
    (grow_confirm_count (ConfirmCount b) (u32 (u32 (len (Producers (ActiveSchedule b)) * 2 / 3) + 1))) [].

Definition template_lib (b : BlockHeaderState) (key : ProducerKey) : Z :=
  third (values (<[ProducerName key := DposProposedIrreversibleBlocknum b]> (ProducerToLastImpliedIrb b))).

Lemma GenerateNext_inv b when r :
  GenerateNext b when = Ok r ->
  exists t key m root, (when = t /\ 0 < when /\ Timestamp (hdr b) < when \/
                        when <= 0 /\ t = u32 (Timestamp (hdr b) + 1)) /\
    GetScheduledProducer b t = Ok key /\ Append (BlockrootMerkle b) (BlockId b) = Ok (m, root) /\
    r = template b t key m (template_lib b key).
Proof.
  unfold GenerateNext. intros (t & Ht & (key & Hkey & ([m root] & Hm & [= <-])%bind_Ok)%bind_Ok)%bind_Ok.
  exists t, key, m, root. split_and!; [|done|done|].
  - destruct (Z.ltb_spec 0 when); inv_ok; [|right; by split]. left. rewrite Z.ltb_lt in *. done.
  - unfold template. f_equal. rewrite CalcDpos_third; [done|]. apply insert_non_empty.
Qed.

Lemma GenerateNext_ok b when key m root :
  Timestamp (hdr b) < when -> 0 < when -> GetScheduledProducer b when = Ok key ->
  Append (BlockrootMerkle b) (BlockId b) = Ok (m, root) ->
  GenerateNext b when = Ok (template b when key m (template_lib b key)).
Proof.
  intros Ht Hw Hk Hm. unfold GenerateNext. rewrite (proj2 (Z.ltb_lt 0 when)), EosAssert_bind, (proj2 (Z.ltb_lt _ when)) by done.
  rewrite Ok_bind, Hk, Ok_bind. cbv zeta. rewrite Hm, Ok_bind. f_equal. unfold template. f_equal.
  rewrite CalcDpos_third; [done|]. apply insert_non_empty.
Qed.

Lemma third_range lo hi l : l <> [] -> Forall (fun v => lo <= v <= hi) l -> lo <= third l <= hi.
Proof.
  intros Hne Hl. destruct (third_spec l Hne) as (Hin & _). rewrite Forall_forall in Hl. exact (Hl _ Hin).
Qed.

Lemma map_Forall_values (P : Z -> Prop) m : map_Forall (fun _ v => P v) m -> Forall P (values m).
Proof. intros H. apply Forall_forall. intros v [k Hk]%elem_of_values. by apply (H k v). Qed.

Lemma template_inv b t key m :
  hs_inv b -> BlockNum b + 1 < 2 ^ 32 -> hs_inv (template b t key m (template_lib b key)).
Proof.
  intros [] Hn. assert (Hu : u32 (BlockNum b + 1) = BlockNum b + 1) by (apply uwrap_id; unfold in_u; lia).
  assert (Himp : map_Forall (fun _ v => 0 <= v <= DposProposedIrreversibleBlocknum b)
    (<[ProducerName key := DposProposedIrreversibleBlocknum b]> (ProducerToLastImpliedIrb b))).
  { apply map_Forall_insert_2; [lia|done]. }
  assert (Hreq : u8 (u32 (u32 (len (Producers (ActiveSchedule b)) * 2 / 3) + 1)) =
                 len (Producers (ActiveSchedule b)) * 2 / 3 + 1).
  { unfold MaxProducers, uwrap in *. norm_pow. Z.div_mod_to_equations. lia. }
  assert (Hgrow : len (grow_confirm_count (ConfirmCount b) (u32 (u32 (len (Producers (ActiveSchedule b)) * 2 / 3) + 1)))
    <= Z.min MaxTrackedDposConfirmations (len (ConfirmCount b) + 1)).
  { unfold grow_confirm_count, MaxTrackedDposConfirmations in *.
    destruct (Z.ltb_spec (len (ConfirmCount b)) 1024); rewrite len_app; unfold len in *; simpl; rewrite ?length_drop; lia. }
  constructor; cbn -[grow_confirm_count]; rewrite ?Hu; try done; try lia.
  - unfold grow_confirm_count. rewrite Hreq.
    assert (1 <= len (Producers (ActiveSchedule b)) * 2 / 3 + 1 <= 255)
      by (unfold MaxProducers in *; Z.div_mod_to_equations; lia).
    case_match; apply Forall_app; (split; [by try apply Forall_drop|constructor; [done|constructor]]).
  - apply map_Forall_insert_2; [lia|]. eapply map_Forall_impl; [done|]. simpl. lia.
  - apply third_range; [apply values_nonempty, insert_non_empty|]. by apply map_Forall_values.
Qed.

(** A step that changes only the confirmations and the proposed block. *)
Lemma SetConfirmed_inv n b :
  hs_inv b -> 0 <= n < 2 ^ 16 ->
  hs_inv (SetConfirmed n b) /\
  DposProposedIrreversibleBlocknum b <= DposProposedIrreversibleBlocknum (SetConfirmed n b) <= BlockNum b /\
  exists c p, SetConfirmed n b = set_ConfirmCount c (set_DposProposedIrreversibleBlocknum p (confirming n b)).
Proof.
  intros Hb Hn. pose proof Hb as []. destruct inv_proposed0 as [Hp Hpl].
  assert (0 <= len (ConfirmCount b)) by (unfold len; lia).
  destruct (Z.eq_dec n (2 ^ 16 - 1)) as [->|].
  { unfold SetConfirmed. cbv zeta. change (u16 (2 ^ 16 - 1 + 1)) with 0.
    assert (E : forall k x, SetConfirmed_loop k 0 x = x) by by intros []. rewrite E. fold (confirming (2 ^ 16 - 1) b).
    split_and!; [by constructor|cbn; lia|cbn; lia|]. exists (ConfirmCount b), (DposProposedIrreversibleBlocknum b). by destruct b. }
  assert (Hpred : forall l, Forall (fun c => 2 <= c <= 255) l -> Forall (fun c => 1 <= c <= 255) (map Z.pred l)).
  { intros l Hl. apply Forall_map. eapply Forall_impl; [exact Hl|]. simpl. lia. }
  destruct (SetConfirmed_cases n b) as [(l1 & l2 & El & Hl & H2 & ->)|(l1 & l2 & El & Hl & H2 & ->)]; try done; try lia.
  - assert (Hlen : len (l1 ++ map Z.pred l2) = len (ConfirmCount b)) by (rewrite El, !len_app; unfold len; by rewrite length_map).
    split_and!; [constructor; cbn; rewrite ?Hlen; try done; try lia|cbn; lia|cbn; lia|].
    + rewrite El in inv_counts0. apply Forall_app in inv_counts0 as [? _]. apply Forall_app. auto.
    + by exists (l1 ++ map Z.pred l2), (DposProposedIrreversibleBlocknum b).
  - assert (Hlen : len (map Z.pred l2) = len l2) by (unfold len; by rewrite length_map).
    assert (Hll : len (ConfirmCount b) = len l1 + 1 + len l2) by (rewrite El, len_app; unfold len; simpl; lia).
    assert (0 <= len l1 /\ 0 <= len l2) by (unfold len; lia).
    split_and!; [constructor; cbn; rewrite ?Hlen; try done; try lia|cbn; lia|cbn; lia|by eexists _, _].
    + auto.
    + eapply map_Forall_impl; [done|]. simpl. lia.
Qed.

Lemma promote_map_spec old lib ps k :
  promote_map old lib ps !! k =
    if decide (k ∈ ProducerName <$> ps) then Some (default lib (old !! k)) else None.
Proof.
  unfold promote_map. assert (H : forall m : gmap Z Z, (foldl (fun m pro => <[ProducerName pro := default lib (old !! ProducerName pro)]> m) m ps) !! k =
    if decide (k ∈ ProducerName <$> ps) then Some (default lib (old !! k)) else m !! k).
  { induction ps as [|p ps IH]; intros m; [by rewrite decide_False by apply not_elem_of_nil|].
    simpl foldl. rewrite IH, fmap_cons. destruct (decide (k ∈ ProducerName <$> ps)).
    - by rewrite decide_True by (by right).
    - destruct (decide (k = ProducerName p)) as [->|].
      + rewrite decide_True by (by left). by rewrite lookup_insert_eq.
      + rewrite decide_False by (by rewrite elem_of_cons; naive_solver). by rewrite lookup_insert_ne. }
  rewrite H. by rewrite lookup_empty.
Qed.

Lemma promote_map_Forall (P : Z -> Prop) old lib ps :
  P lib -> map_Forall (fun _ v => P v) old -> map_Forall (fun _ v => P v) (promote_map old lib ps).
Proof.
  intros Hl Ho k v. rewrite promote_map_spec. case_decide; [|done]. intros [= <-].
  destruct (old !! k) eqn:E; simpl; [by apply (Ho k)|done].
Qed.

Lemma MaybePromotePending_inv b : hs_inv b -> hs_inv (MaybePromotePending b).1.
Proof.
  intros Hb. unfold MaybePromotePending. destruct (_ && _) eqn:E; [|done]. pose proof Hb as [].
  apply andb_true_iff in E as [E1%Z.ltb_lt _]. assert (0 <= len (ConfirmCount b)) by (unfold len; lia).
  constructor; cbn -[promote_map]; try done; try lia.
  - apply promote_map_Forall; [lia|done].
  - apply map_Forall_insert_2; [lia|]. apply (promote_map_Forall (fun v => 0 <= v <= BlockNum b)); [lia|done].
Qed.

Lemma SetNewProducers_inv p b b' :
  run_on (SetNewProducers p) b = Ok b' ->
  Version p = u32 (Version (ActiveSchedule b) + 1) /\ Producers (PendingSchedule b) = [] /\
  exists hash, Hash256 (gval_Schedule p) = Ok hash /\
    b' = set_PendingScheduleLibNum (BlockNum b) (set_PendingSchedule p (set_PendingScheduleHash hash
           (set_Header (set_NewProducers p (Header b)) b))).
Proof.
  unfold run_on, SetNewProducers, mbind, M_bind, get, assertM, lift, modify, EosAssert.
  destruct (Z.eqb_spec (Version p) (u32 (Version (ActiveSchedule b) + 1))); [|done].
  destruct (Z.eqb_spec (len (Producers (PendingSchedule b))) 0) as [H0|]; [|done].
  destruct (Hash256 (gval_Schedule p)) as [hash|]; [|done]. intros [= <-]. split_and!; [done| |].
  - destruct (Producers (PendingSchedule b)); [done|unfold len in H0; simpl in H0; lia].
  - exists hash. split; [done|]. by destruct p.
Qed.

(** ** What an accepted header implies *)

Lemma MaybePromotePending_frame b c promoted :
  MaybePromotePending b = (c, promoted) ->
  Header c = Header b /\ BlockNum c = BlockNum b /\ BlockSigningKey c = BlockSigningKey b /\
  BlockrootMerkle c = BlockrootMerkle b /\ DposIrreversibleBlocknum c = DposIrreversibleBlocknum b /\
  DposProposedIrreversibleBlocknum c = DposProposedIrreversibleBlocknum b /\
  (promoted = false -> c = b).
Proof. unfold MaybePromotePending. destruct (_ && _); intros [= <- <-]; split_and!; done. Qed.

(** The header of the state after the template, the confirmations and the optional
    schedule is the supplied one, up to the roots and the signature. *)
Definition header_of (b : BlockHeaderState) (h : SignedBlockHeader) (r1 : BlockHeaderState) : Prop :=
  set_Signature (ProducerSignature h)
    (set_roots (TransactionMRoot (Embedded h)) (ActionMRoot (Embedded h)) (Header r1)) = h.

Section Accepted.
Context (publicKey : Z -> bytes -> bytes -> result Ecc.PublicKey).
Context (b : BlockHeaderState) (h : SignedBlockHeader) (trust : bool) (r : BlockHeaderState).

Record accepted (key : ProducerKey) (m : IncrementalMerkle) (c : BlockHeaderState) (promoted : bool)
    (r1 : BlockHeaderState) (id : BlockIdType) : Prop := {
  acc_time : Timestamp (hdr b) < Timestamp (Embedded h);
  acc_link : Previous (Embedded h) = BlockId b;
  acc_ext : HeaderExtensions (Embedded h) = [];
  acc_slot : GetScheduledProducer b (Timestamp (Embedded h)) = Ok key;
  acc_tree : exists root, Append (BlockrootMerkle b) (BlockId b) = Ok (m, root);
  acc_producer : Producer (Embedded h) = ProducerName key;
  acc_version : ScheduleVersion (Embedded h) = Version (ActiveSchedule b);
  acc_range : forall n, ProducerToLastProduced b !! Producer (Embedded h) = Some n ->
    n < u32 (u32 (BlockNum b + 1) - Confirmed (Embedded h));
  acc_promote : MaybePromotePending (SetConfirmed (Confirmed (Embedded h))
    (template b (Timestamp (Embedded h)) key m (template_lib b key))) = (c, promoted);
  acc_schedule : match NewProducers (Embedded h) with
    | None => r1 = c
    | Some p => promoted = false /\ run_on (SetNewProducers p) c = Ok r1 end;
  acc_id : BlockID (Embedded h) = Ok id;
  acc_result : r = set_BlockId id (set_Header h r1);
  acc_signed : trust = false -> Signee publicKey r = Ok (BlockSigningKey r) }.

Lemma SetConfirmed_header n x : Header (SetConfirmed n x) = set_Confirmed n (Header x).
Proof.
  unfold SetConfirmed. cbv zeta. set (y := set_Header _ x).
  assert (H : forall k btc z, Header (SetConfirmed_loop k btc z) = Header z); [|by rewrite H].
  induction k as [|k IH]; intros btc z; [done|]. rewrite SetConfirmed_loop_step.
  destruct (btc <=? 0); [done|]. cbv zeta. destruct (_ =? 0); [done|]. by rewrite IH.
Qed.

Lemma SetNewProducers_header p x y :
  run_on (SetNewProducers p) x = Ok y -> Header y = set_NewProducers p (Header x).
Proof. intros (_ & _ & hash & _ & ->)%SetNewProducers_inv. done. Qed.

Lemma accepted_header key m c promoted r1 :
  HeaderExtensions (Embedded h) = [] -> Previous (Embedded h) = BlockId b ->
  Producer (Embedded h) = ProducerName key -> ScheduleVersion (Embedded h) = Version (ActiveSchedule b) ->
  MaybePromotePending (SetConfirmed (Confirmed (Embedded h))
    (template b (Timestamp (Embedded h)) key m (template_lib b key))) = (c, promoted) ->
  match NewProducers (Embedded h) with
  | None => r1 = c
  | Some p => promoted = false /\ run_on (SetNewProducers p) c = Ok r1 end ->
  header_of b h r1.
Proof.
  intros He Hp Hpr Hv Hpm Hs. destruct (MaybePromotePending_frame _ _ _ Hpm) as (Hh & _).
  rewrite SetConfirmed_header in Hh. cbn [template Header set_Confirmed] in Hh. unfold header_of.
  destruct h as [[ts pr cf pv tm am sv np ex] sg]. cbn in *. subst ex pv pr sv.
  destruct np as [p|].
  - destruct Hs as [_ Hs%SetNewProducers_header]. rewrite Hs, Hh. done.
  - subst r1. rewrite Hh. done.
Qed.

Lemma Next_accepted :
  0 <= Timestamp (Embedded h) -> Next publicKey b h trust = Ok r ->
  exists key m c promoted r1 id, accepted key m c promoted r1 id.
Proof.
  intros Ht HN. unfold Next in HN. cbv zeta in HN. inv_ok.
  rewrite negb_true_iff, Z.eqb_neq, Z.eqb_eq, Z.ltb_lt, bool_decide_eq_true in *.
  destruct (GenerateNext_inv b _ _ Hm3) as (t & key & m & root & Hw & Hk & Hm' & ->).
  destruct Hw as [(<- & _ & _)|[]]; [|lia]. cbn [template Header Embedded Producer ScheduleVersion] in Hm4, Hm5.
  destruct (MaybePromotePending _) as [c promoted] eqn:Hpm.
  apply bind_Ok in Hk0 as (r1 & Hs & (id & Hid & ([] & Hsig & Hr)%bind_Ok)%bind_Ok).
  exists key, m, c, promoted, r1, id.
  assert (Hext : HeaderExtensions (Embedded h) = []).
  { destruct (HeaderExtensions _); [done|unfold len in Hm0; simpl in Hm0; lia]. }
  assert (Hsch : match NewProducers (Embedded h) with
    | None => r1 = c | Some p => promoted = false /\ run_on (SetNewProducers p) c = Ok r1 end).
  { destruct (NewProducers (Embedded h)); inv_ok; [|done]. by destruct promoted. }
  pose proof (accepted_header key m c promoted r1 Hext Hm2 (eq_sym Hm4) (eq_sym Hm5) Hpm Hsch) as Hhd.
  unfold header_of in Hhd. rewrite Hhd in *. cbn [Header set_Header] in Hid. inv_ok.
  constructor; try done; [by exists root| |].
  - intros n Hn. rewrite Hn in Hm6. inv_ok. rewrite Z.ltb_lt in *. done.
  - intros ->. cbn [negb] in Hsig. apply bind_Ok in Hsig as (k & Hk' & Hc). inv_ok.
    apply Ecc.PubKey_Compare_spec in Hc. by rewrite <- Hr, Hk', Hc.
Qed.

End Accepted.

Lemma accepted_Next publicKey b h trust r key m c promoted r1 id :
  0 < Timestamp (Embedded h) ->
  accepted publicKey b h trust r key m c promoted r1 id -> Next publicKey b h trust = Ok r.
Proof.
  intros Ht [H1 H2 H3 H4 [root H5] H6 H7 H8 H9 H10 H11 H12 H13]. unfold Next. cbv zeta.
  rewrite !EosAssert_bind, (proj2 (Z.eqb_neq _ 0)), H3, (proj2 (Z.ltb_lt _ _)), bool_decide_true by (done || lia).
  cbn [negb]. change (len (@nil Extension) =? 0) with true. cbv iota.
  rewrite (GenerateNext_ok b _ key m root), Ok_bind, !EosAssert_bind by done.
  cbn [template Header Embedded Producer ScheduleVersion BlockNum].
  rewrite H6, H7, !Z.eqb_refl. rewrite <- H6 at 1.
  assert ((match ProducerToLastProduced b !! Producer (Embedded h) with
    | Some blockNum => EosAssert (blockNum <? u32 (u32 (BlockNum b + 1) - Confirmed (Embedded h))) ProducerDoubleConfirm
    | None => Ok tt end) = Ok tt) as Hr.
  { destruct (ProducerToLastProduced b !! _) as [n|] eqn:E; [|done].
    by rewrite (proj2 (Z.ltb_lt n _)) by by apply H8. }
  rewrite Hr, Ok_bind, H9.
  assert ((match NewProducers (Embedded h) with
    | Some p => EosAssert (negb promoted) ProducerScheduleException ≫= fun _ => run_on (SetNewProducers p) c
    | None => Ok c end) = Ok r1) as Hs.
  { destruct (NewProducers (Embedded h)); [|by subst]. by destruct H10 as [-> ->]. }
  rewrite Hs, Ok_bind.
  pose proof (accepted_header b h key m c promoted r1 H3 H2 H6 H7 H9 H10) as Hh. unfold header_of in Hh. rewrite Hh.
  cbn [Header set_Header]. rewrite H11, Ok_bind, <- H12. destruct trust; [done|]. cbn [negb].
  rewrite H13, Ok_bind by done. by rewrite (proj2 (Ecc.PubKey_Compare_spec _ _) eq_refl).
Qed.

(** ** The reference transition

    The state after a header, field by field, written without the functions of the
    source. *)

(** The part of a list after its last one. *)
Fixpoint after_one (l : list Z) : option (list Z) :=
  match l with
  | [] => None
  | c :: l' => match after_one l' with Some s => Some s | None => if c =? 1 then Some l' else None end
  end.

(** The counts and the proposed block once the newest [k] of the counts [l], which end at
    block [num], are confirmed. *)
Definition confirm_newest (k : nat) (l : list Z) (num proposed : Z) : list Z * Z :=
  let older := take (length l - k) l in
  let recent := drop (length l - k) l in
  match after_one recent with
  | Some later => (map Z.pred later, num - len later)
  | None => (older ++ map Z.pred recent, proposed)
  end.

(** The counts of the newest 1023 blocks, and of the new one, which more than two thirds of
    the producers have to confirm. *)
Definition tracked (l : list Z) (producers : Z) : list Z := drop (length l - 1023) l ++ [producers * 2 / 3 + 1].

(** [v] is backed by more than two thirds of the entries, and no greater one is. *)
Definition two_thirds (v : Z) (m : gmap Z Z) : Prop :=
  (exists p, m !! p = Some v) /\ 2 * Z.of_nat (size m) < 3 * Z.of_nat (count (fun x => v <= x) m) /\
  Z.of_nat (size m) <= 3 * Z.of_nat (count (fun x => x <= v) m).

(** [m'] has the producers [ps], with the entries of [m] and [lib] for a new one. *)
Definition carried (m m' : gmap Z Z) (lib : Z) (ps : list ProducerKey) : Prop :=
  forall p, m' !! p = if decide (p ∈ ProducerName <$> ps) then Some (default lib (m !! p)) else None.

Section Reference.
Context (publicKey : Z -> bytes -> bytes -> result Ecc.PublicKey).
Context (b : BlockHeaderState) (h : SignedBlockHeader) (trust : bool) (r : BlockHeaderState).
Notation e := (Embedded h).

(** The pending schedule becomes active once its block is irreversible. *)
Definition promotes : Prop := Producers (PendingSchedule b) <> [] /\ PendingScheduleLibNum b <= DposIrreversibleBlocknum r.

Definition implied : gmap Z Z := <[Producer e := DposProposedIrreversibleBlocknum b]> (ProducerToLastImpliedIrb b).
Definition produced : gmap Z Z := <[Producer e := BlockNum b + 1]> (ProducerToLastProduced b).

(** Promotion, and no new schedule in the same block. *)
Record promoted_to : Prop := {
  pt_new : NewProducers e = None;
  pt_active : ActiveSchedule r = PendingSchedule b;
  pt_pending : PendingSchedule r = ProducerScheduleType_zero;
  pt_hash : PendingScheduleHash r = PendingScheduleHash b /\ PendingScheduleLibNum r = PendingScheduleLibNum b;
  pt_implied : carried implied (ProducerToLastImpliedIrb r) (DposIrreversibleBlocknum r) (Producers (PendingSchedule b));
  pt_produced : exists m, carried produced m (DposIrreversibleBlocknum r) (Producers (PendingSchedule b)) /\
    ProducerToLastProduced r = <[Producer e := BlockNum b + 1]> m }.

(** No promotion; a new schedule has the next version and none is pending. *)
Record not_promoted : Prop := {
  np_active : ActiveSchedule r = ActiveSchedule b;
  np_implied : ProducerToLastImpliedIrb r = implied;
  np_produced : ProducerToLastProduced r = produced;
  np_new : match NewProducers e with
    | Some p => Version p = u32 (Version (ActiveSchedule b) + 1) /\ Producers (PendingSchedule b) = [] /\
        Hash256 (gval_Schedule p) = Ok (PendingScheduleHash r) /\ PendingSchedule r = p /\ PendingScheduleLibNum r = BlockNum b + 1
    | None => PendingScheduleHash r = PendingScheduleHash b /\ PendingSchedule r = PendingSchedule b /\ PendingScheduleLibNum r = PendingScheduleLibNum b
    end }.

(** The key under which the signature of the header is valid for its digest, the root of
    the block tree and the pending schedule. *)
Definition signed_by (key : Ecc.PublicKey) : Prop :=
  exists d root hb dg, BlockHeader.Digest e = Ok d /\ GetRoot (BlockrootMerkle r) = Ok root /\ Hash256 (gval_Pair d root) = Ok hb /\
    Hash256 (gval_Pair hb (PendingScheduleHash r)) = Ok dg /\ Ecc.recover_key publicKey (ProducerSignature h) (to_Bytes dg) = Ok key.

Record valid_next : Prop := {
  vn_time : Timestamp (hdr b) < Timestamp e;
  vn_link : Previous e = BlockId b;
  vn_ext : HeaderExtensions e = [];
  vn_producer : exists key, Producers (ActiveSchedule b) !! Z.to_nat (Timestamp e / 12 mod len (Producers (ActiveSchedule b))) = Some key /\
    Producer e = ProducerName key /\ BlockSigningKey r = BlockHeader.BlockSigningKey key;
  vn_version : ScheduleVersion e = Version (ActiveSchedule b);
  vn_range n : ProducerToLastProduced b !! Producer e = Some n -> n < u32 (BlockNum b + 1 - Confirmed e);
  vn_schedule : promotes /\ promoted_to \/ ~ promotes /\ not_promoted;
  vn_header : Header r = h;
  vn_id : BlockID e = Ok (BlockId r);
  vn_num : BlockNum r = BlockNum b + 1;
  vn_lib : two_thirds (DposIrreversibleBlocknum r) implied;
  vn_confirm : (ConfirmCount r, DposProposedIrreversibleBlocknum r) =
    confirm_newest (Z.to_nat (u16 (Confirmed e + 1))) (tracked (ConfirmCount b) (len (Producers (ActiveSchedule b))))
      (BlockNum b + 1) (DposProposedIrreversibleBlocknum b);
  vn_tree : exists root, Append (BlockrootMerkle b) (BlockId b) = Ok (BlockrootMerkle r, root);
  vn_rest : BftIrreversibleBlocknum r = BftIrreversibleBlocknum b /\ Confirmations r = [];
  vn_signed : trust = false -> signed_by (BlockSigningKey r) }.
End Reference.

Lemma after_one_none l : Forall (fun c => 2 <= c) l -> after_one l = None.
Proof. induction 1 as [|c l Hc Hl IH]; [done|]. cbn. rewrite IH, (proj2 (Z.eqb_neq _ _)) by lia. done. Qed.
Lemma after_one_app l1 l2 : Forall (fun c => 2 <= c) l2 -> after_one (l1 ++ 1 :: l2) = Some l2.
Proof. intros Hl. induction l1 as [|c l1 IH]; cbn; [by rewrite after_one_none|by rewrite IH]. Qed.

(** The loop of [SetConfirmed] computes it. *)
Lemma SetConfirmed_reference n b : hs_inv b -> 0 <= n < 2 ^ 16 ->
  SetConfirmed n b = let '(c, p) := confirm_newest (Z.to_nat (u16 (n + 1))) (ConfirmCount b) (BlockNum b) (DposProposedIrreversibleBlocknum b) in
    set_ConfirmCount c (set_DposProposedIrreversibleBlocknum p (confirming n b)).
Proof.
  intros Hb Hn. pose proof Hb as []. unfold confirm_newest. destruct (Z.eq_dec n (2 ^ 16 - 1)) as [->|].
  { unfold SetConfirmed. cbv zeta. change (u16 (2 ^ 16 - 1 + 1)) with 0. change (Z.to_nat 0) with 0%nat. rewrite Nat.sub_0_r, drop_all, firstn_all. cbn [after_one map].
    rewrite app_nil_r. assert (forall k x, SetConfirmed_loop k 0 x = x) as -> by by intros []. by destruct b. }
  rewrite uwrap_id by (unfold in_u; norm_pow; lia). assert (forall l, Forall (fun c => 2 <= c <= 255) l -> Forall (fun c => 2 <= c) l) as H2.
  { intros l Hl. eapply Forall_impl; [exact Hl|]. cbn. lia. }
  destruct (SetConfirmed_cases n b) as [(l1 & l2 & El & Hl & Hf & ->)|(l1 & l2 & El & Hl & Hf & ->)]; try done; try lia.
  - assert (length (ConfirmCount b) - Z.to_nat (n + 1) = length l1)%nat as ->.
    { rewrite El in *. rewrite len_app in Hl. unfold len in Hl. rewrite length_app. lia. }
    rewrite El, drop_app_length, take_app_length, after_one_none by auto. by destruct b.
  - assert (length (ConfirmCount b) - Z.to_nat (n + 1) <= length l1)%nat as Hk by (rewrite El, length_app; cbn; unfold len in Hl; lia).
    rewrite El, drop_app_le by (by rewrite El in Hk). rewrite after_one_app by auto. done.
Qed.

Lemma third_unique l v : v ∈ l -> 2 * len l < 3 * len (filter (fun x => v <= x) l) -> len l <= 3 * len (filter (fun x => x <= v) l) -> v = third l.
Proof.
  intros Hv H1 H2. assert (l <> []) as Hne by (intros ->; by apply not_elem_of_nil in Hv). destruct (third_spec l Hne) as (_ & H3 & H4).
  destruct (Z.lt_trichotomy v (third l)) as [Hlt|[|Hlt]]; [|done|]; exfalso.
  - assert (len (filter (fun x => x <= v) l) + len (filter (fun x => third l <= x) l) <= len l); [|lia].
    unfold len. clear -Hlt. generalize dependent (third l). intros t Hlt. induction l as [|x l IH]; [done|]. rewrite !filter_cons. repeat case_decide; cbn [length]; lia.
  - assert (len (filter (fun x => v <= x) l) + len (filter (fun x => x <= third l) l) <= len l); [|lia].
    unfold len. clear -Hlt. generalize dependent (third l). intros t Hlt. induction l as [|x l IH]; [done|]. rewrite !filter_cons. repeat case_decide; cbn [length]; lia.
Qed.

Lemma two_thirds_iff v m : two_thirds v m <-> m <> ∅ /\ v = third (values m).
Proof.
  unfold two_thirds. rewrite <- elem_of_values, !count_values, <- length_values. split.
  - intros (Hv & H1 & H2). split; [|by apply third_unique]. intros ->. unfold values in Hv. rewrite map_to_list_empty in Hv. by apply not_elem_of_nil in Hv.
  - intros [Hm ->]. pose proof (third_spec (values m) (values_nonempty m Hm)) as (? & ? & ?). done.
Qed.

Lemma grow_tracked l n : len l <= MaxTrackedDposConfirmations -> 1 <= n <= MaxProducers -> grow_confirm_count l (u32 (u32 (n * 2 / 3) + 1)) = tracked l n.
Proof.
  intros Hl Hn. assert (u8 (u32 (u32 (n * 2 / 3) + 1)) = n * 2 / 3 + 1) as E.
  { unfold MaxProducers, uwrap in *. norm_pow. Z.div_mod_to_equations. lia. }
  unfold grow_confirm_count, tracked. rewrite E. unfold MaxTrackedDposConfirmations, len in *. destruct (Z.ltb_spec (Z.of_nat (length l)) 1024).
  - by replace (length l - 1023)%nat with 0%nat by lia.
  - by replace (length l - 1023)%nat with 1%nat by lia.
Qed.

Lemma promote_carried old lib ps : carried old (promote_map old lib ps) lib ps.
Proof. intros p. apply promote_map_spec. Qed.
Lemma carried_unique old m m' lib ps : carried old m lib ps -> carried old m' lib ps -> m = m'.
Proof. intros H H'. apply map_eq. intros p. by rewrite H, H'. Qed.

Lemma Signee_iff publicKey h r k : Header r = h -> Signee publicKey r = Ok k <-> signed_by publicKey h r k.
Proof.
  intros <-. unfold Signee, SigDigest, signed_by. split.
  - intros (dg & (d & Hd & (root & Hroot & (hb & Hhb & Hdg)%bind_Ok)%bind_Ok)%bind_Ok & Hk)%bind_Ok. exists d, root, hb, dg. repeat split; assumption.
  - intros (d & root & hb & dg & Hd & Hroot & Hhb & Hdg & Hk). rewrite Hd, Ok_bind, Hroot, Ok_bind, Hhb, Ok_bind, Hdg, Ok_bind. assumption.
Qed.

Section Step.
Context (publicKey : Z -> bytes -> bytes -> result Ecc.PublicKey).
Context (b : BlockHeaderState) (h : SignedBlockHeader) (trust : bool).
Context (Hb : hs_inv b) (Ht : 0 < Timestamp (Embedded h)) (Hc : in_u 16 (Confirmed (Embedded h))) (Hn : BlockNum b + 1 < 2 ^ 32).
Notation e := (Embedded h).

Definition confirmed_next : list Z * Z :=
  confirm_newest (Z.to_nat (u16 (Confirmed e + 1))) (tracked (ConfirmCount b) (len (Producers (ActiveSchedule b)))) (BlockNum b + 1) (DposProposedIrreversibleBlocknum b).

(** The state that the promotion is decided on. *)
Lemma confirmed_template key m :
  SetConfirmed (Confirmed e) (template b (Timestamp e) key m (template_lib b key)) =
    set_ConfirmCount confirmed_next.1 (set_DposProposedIrreversibleBlocknum confirmed_next.2
      (confirming (Confirmed e) (template b (Timestamp e) key m (template_lib b key)))).
Proof.
  assert (u32 (BlockNum b + 1) = BlockNum b + 1) as Hu by (apply uwrap_id; pose proof (inv_num b Hb); unfold in_u; lia).
  rewrite SetConfirmed_reference by (by apply template_inv || exact Hc). cbn [template ConfirmCount BlockNum DposProposedIrreversibleBlocknum].
  rewrite Hu, (grow_tracked _ _ (inv_tracked b Hb) (inv_active b Hb)). fold confirmed_next. by destruct confirmed_next.
Qed.

Lemma implied_lib key : Producer e = ProducerName key -> two_thirds (template_lib b key) (implied b h).
Proof. intros Hk. apply two_thirds_iff. unfold implied. rewrite Hk. split; [apply insert_non_empty|done]. Qed.

Lemma promotes_test r :
  promotes b r <-> (0 <? len (Producers (PendingSchedule b))) && (PendingScheduleLibNum b <=? DposIrreversibleBlocknum r) = true.
Proof.
  unfold promotes. rewrite andb_true_iff, Z.ltb_lt, Z.leb_le. apply and_iff_compat_r. destruct (Producers (PendingSchedule b)); unfold len; cbn [length]; split; intros H; done || lia.
Qed.

(** An accepted header takes the state to the reference state. *)
Lemma accepted_valid r key m c promoted r1 id : accepted publicKey b h trust r key m c promoted r1 id -> valid_next publicKey b h trust r.
Proof.
  intros [H1 H2 H3 H4 H5 H6 H7 H8 H9 H10 H11 H12 H13].
  assert (u32 (BlockNum b + 1) = BlockNum b + 1) as Hu by (apply uwrap_id; pose proof (inv_num b Hb); unfold in_u; lia).
  assert (Header r = h) as Hh by (by rewrite H12).
  destruct (scheduled_producer_val b (Timestamp e) (inv_active b Hb) ltac:(lia)) as (key' & Hk' & Hslot). rewrite H4 in Hk'. injection Hk' as <-.
  rewrite confirmed_template in H9. unfold MaybePromotePending in H9.
  cbn [set_ConfirmCount set_DposProposedIrreversibleBlocknum confirming set_Header template PendingSchedule PendingScheduleLibNum DposIrreversibleBlocknum] in H9.
  assert (DposIrreversibleBlocknum r = template_lib b key /\ BlockNum r = BlockNum b + 1 /\ BlockSigningKey r = BlockHeader.BlockSigningKey key /\
    (ConfirmCount r, DposProposedIrreversibleBlocknum r) = confirmed_next /\ BlockrootMerkle r = m /\
    BftIrreversibleBlocknum r = BftIrreversibleBlocknum b /\ Confirmations r = [] /\ (promotes b r /\ promoted_to b h r \/ ~ promotes b r /\ not_promoted b h r))
    as (E1 & E2 & E3 & E4 & E5 & E6 & E7 & E8).
  { destruct (_ && _) eqn:Htest.
    - injection H9 as Ec Ep. subst promoted. destruct (NewProducers e) as [p|] eqn:Hnp; [by destruct H10|]. subst r1 c r. cbn -[promote_map template_lib confirm_newest].
      split_and!; try done; [by destruct confirmed_next|]. left. split; [by apply promotes_test|]. split; try done; cbn -[promote_map].
      + unfold implied. rewrite H6. apply promote_carried.
      + eexists. unfold produced. rewrite H6, Hu. split; [apply promote_carried|done].
    - injection H9 as Ec Ep. subst promoted. assert (DposIrreversibleBlocknum r = template_lib b key) as Hlib.
      { destruct (NewProducers e) as [p|] eqn:Hnp; [destruct H10 as [_ (_ & _ & hash & _ & ->)%SetNewProducers_inv]|subst r1]; by subst c r. }
      assert (~ promotes b r) as Hnot by (rewrite promotes_test, Hlib; by rewrite Htest).
      destruct (NewProducers e) as [p|] eqn:Hnp.
      + destruct H10 as [_ (Hv & Hpend & hash & Hhash & Hr1)%SetNewProducers_inv]. subst r1 c r. cbn -[template_lib confirm_newest] in *.
        split_and!; try done; [by destruct confirmed_next|]. right. split; [done|]. split; cbn; [done|by unfold implied; rewrite H6|by unfold produced; rewrite H6, Hu|].
        rewrite Hnp. split_and!; try done. 
      + subst r1 c r. cbn -[template_lib confirm_newest] in *. split_and!; try done; [by destruct confirmed_next|]. right. split; [done|].
        split; cbn; [done|by unfold implied; rewrite H6|by unfold produced; rewrite H6, Hu|]. by rewrite Hnp. }
  split; try done.
  - by exists key.
  - intros n Hr. specialize (H8 n Hr). rewrite Hu in H8. done.
  - by rewrite H12 in *.
  - rewrite E1. by apply implied_lib.
  - by rewrite E5.
  - intros Htr. apply Signee_iff; [done|]. by apply H13.
Qed.
(** The reference state is the one the header is accepted with. *)
Lemma valid_accepted r : valid_next publicKey b h trust r -> exists key m c promoted r1 id, accepted publicKey b h trust r key m c promoted r1 id.
Proof.
  intros V. pose proof V as [H1 H2 H3 (key & Hslot & Hk & Hkey) H5 H6 H7 H8 H9 H10 H11 H12 H13 [H14 H15] H16].
  assert (u32 (BlockNum b + 1) = BlockNum b + 1) as Hu by (apply uwrap_id; pose proof (inv_num b Hb); unfold in_u; lia).
  destruct (scheduled_producer_val b (Timestamp e) (inv_active b Hb) ltac:(lia)) as (key' & Hk' & Hslot'). unfold ProducerRepetitions in Hslot'.
  assert (key' = key) as -> by congruence. clear Hslot'.
  assert (DposIrreversibleBlocknum r = template_lib b key) as Hlib.
  { apply two_thirds_iff in H11 as [_ H11]. rewrite H11. unfold implied, template_lib. by rewrite Hk. }
  set (c := MaybePromotePending (SetConfirmed (Confirmed e) (template b (Timestamp e) key (BlockrootMerkle r) (template_lib b key)))).
  pose (r1 := match NewProducers e with
    | Some p => set_PendingScheduleLibNum (BlockNum c.1) (set_PendingSchedule p (set_PendingScheduleHash (PendingScheduleHash r)
                  (set_Header (set_NewProducers p (Header c.1)) c.1)))
    | None => c.1 end).
  assert (match NewProducers e with None => r1 = c.1 | Some p => c.2 = false /\ run_on (SetNewProducers p) c.1 = Ok r1 end /\
    r = set_BlockId (BlockId r) (set_Header h r1)) as [Hs Hr].
  { unfold r1, c. rewrite confirmed_template. unfold confirmed_next. rewrite <- H12. unfold MaybePromotePending.
    cbn [set_ConfirmCount set_DposProposedIrreversibleBlocknum confirming set_Header template PendingSchedule PendingScheduleLibNum DposIrreversibleBlocknum fst snd].
    rewrite <- Hlib. destruct H7 as [[Hp [P1 P2 P3 [P4 P4'] P5 (mp & P6 & P7)]]|[Hp [P1 P2 P3 P4]]].
    - rewrite (proj1 (promotes_test r) Hp), P1. split; [done|]. unfold implied, produced in *. rewrite Hk in *.
      pose proof (carried_unique _ _ _ _ _ P5 (promote_carried _ _ _)) as E1. pose proof (carried_unique _ _ _ _ _ P6 (promote_carried _ _ _)) as E2. subst mp.
      destruct r. cbn -[promote_map] in *. subst. unfold template. by rewrite Hu.
    - assert ((0 <? len (Producers (PendingSchedule b))) && (PendingScheduleLibNum b <=? DposIrreversibleBlocknum r) = false) as ->.
      { apply not_true_is_false. by rewrite <- promotes_test. }
      unfold implied, produced in *. rewrite Hk in *. cbn [fst snd]. destruct (NewProducers e) as [p|].
      + destruct P4 as (Q1 & Q2 & Q3 & Q4 & Q5). split; [split; [done|]|].
        * unfold run_on, SetNewProducers, mbind, M_bind, get, assertM, lift, modify, EosAssert.
          cbn [set_ConfirmCount set_DposProposedIrreversibleBlocknum set_Header confirming template ActiveSchedule PendingSchedule]. rewrite Q1, Z.eqb_refl, Q2, Q3. cbn. by destruct p.
        * destruct r. cbn in *. subst. unfold template. by rewrite Hu.
      + destruct P4 as (Q1 & Q2 & Q3). split; [done|]. destruct r. cbn in *. subst. unfold template. by rewrite Hu. }
  exists key, (BlockrootMerkle r), c.1, c.2, r1, (BlockId r). split; try done.
  - intros n Hr'. rewrite Hu. by apply H6.
  - unfold c. by rewrite <- surjective_pairing.
  - intros Htr. apply (Signee_iff publicKey h r); [done|]. by apply H16.
Qed.
End Step.

(** A header within the ranges of its fields, with a schedule that [SetProposedProducers]
    would have let pass. *)
Definition header_ok (e : BlockHeader) : Prop :=
  in_u 32 (Timestamp e) /\ in_u 16 (Confirmed e) /\
  match NewProducers e with Some p => len (Producers p) <= MaxProducers | None => True end.

Lemma accepted_step publicKey b h trust r :
  hs_inv b -> header_ok (Embedded h) -> BlockNum b + 1 < 2 ^ 32 -> Next publicKey b h trust = Ok r ->
  hs_inv r /\ BlockNum r = BlockNum b + 1 /\ Header r = h /\
  DposProposedIrreversibleBlocknum b <= DposProposedIrreversibleBlocknum r /\
  DposIrreversibleBlocknum r <= DposProposedIrreversibleBlocknum b /\
  (exists root, Append (BlockrootMerkle b) (BlockId b) = Ok (BlockrootMerkle r, root)) /\
  (exists key, GetScheduledProducer b (Timestamp (Embedded h)) = Ok key /\
     DposIrreversibleBlocknum r = template_lib b key).
Proof.
  intros Hb (Ht & Hc & Hnp) Hn HN.
  destruct (Next_accepted publicKey b h trust r ltac:(unfold in_u in Ht; lia) HN) as (key & m & c & promoted & r1 & id & A).
  pose proof (template_inv b (Timestamp (Embedded h)) key m Hb Hn) as Htm.
  destruct (SetConfirmed_inv (Confirmed (Embedded h)) _ Htm Hc) as (Hsc & Hmono & cc & p & Ecp).
  pose proof (MaybePromotePending_inv _ Hsc) as Hpi. pose proof (acc_promote _ _ _ _ _ _ _ _ _ _ _ A) as Hpm.
  rewrite Hpm in Hpi. simpl in Hpi.
  destruct (MaybePromotePending_frame _ _ _ Hpm) as (_ & Hbn & _ & Hmk & Hlib & Hdp & _).
  assert (Hu : BlockNum c = BlockNum b + 1).
  { rewrite Hbn, Ecp. cbn. apply uwrap_id. pose proof (inv_num b Hb). unfold in_u. lia. }
  assert (Hr1 : hs_inv r1 /\ BlockNum r1 = BlockNum c /\ BlockrootMerkle r1 = BlockrootMerkle c /\
    DposIrreversibleBlocknum r1 = DposIrreversibleBlocknum c /\
    DposProposedIrreversibleBlocknum r1 = DposProposedIrreversibleBlocknum c).
  { pose proof (acc_schedule _ _ _ _ _ _ _ _ _ _ _ A) as Hs. destruct (NewProducers (Embedded h)) as [q|].
    - destruct Hs as [_ (_ & _ & hash & _ & ->)%SetNewProducers_inv]. split_and!; try done.
      destruct Hpi. by constructor.
    - by subst. }
  destruct Hr1 as (Hir & Ebn & Emk & Elib & Edp). rewrite (acc_result _ _ _ _ _ _ _ _ _ _ _ A).
  assert (Hl2 : DposIrreversibleBlocknum c = template_lib b key) by (rewrite Hlib, Ecp; done).
  split_and!; cbn; try done; try congruence.
  - destruct Hir. by constructor.
  - rewrite Edp, Hdp. exact (proj1 Hmono).
  - rewrite Elib, Hl2. apply (inv_lib _ Htm).
  - rewrite Emk, Hmk, Ecp. cbn. apply (acc_tree _ _ _ _ _ _ _ _ _ _ _ A).
  - exists key. split; [apply (acc_slot _ _ _ _ _ _ _ _ _ _ _ A)|congruence].
Qed.

(** ** Chains of headers *)

Section Chain.
Context (publicKey : Z -> bytes -> bytes -> result Ecc.PublicKey).

(** The states reached from [g] by accepted headers whose schedules are not oversized, with
    the ids below them. *)
Inductive chain (g : BlockHeaderState) (ids0 : digests) : digests -> BlockHeaderState -> Prop :=
| chain_start : chain g ids0 ids0 g
| chain_next ids b h trust r :
    chain g ids0 ids b -> header_ok (Embedded h) -> BlockNum b + 1 < 2 ^ 32 ->
    Next publicKey b h trust = Ok r -> chain g ids0 (ids ++ [BlockId b]) r.

Lemma chain_facts g ids0 ids b :
  chain g ids0 ids b -> hs_inv g -> represents (BlockrootMerkle g) ids0 -> len ids0 <= BlockNum g ->
  hs_inv b /\ represents (BlockrootMerkle b) ids /\ len ids - len ids0 = BlockNum b - BlockNum g.
Proof.
  induction 1 as [|ids b h trust r Hc IH Hh Hn HN]; intros Hg Hm Hl; [split_and!; done || lia|].
  destruct (IH Hg Hm Hl) as (Hb & Hr & Hlen).
  destruct (accepted_step publicKey b h trust r Hb Hh Hn HN) as (Hi & Hbn & _ & _ & _ & (root & Ha) & _).
  assert (Z.of_nat (length ids) < 2 ^ 63) by (pose proof (inv_num b Hb); unfold len in *; norm_pow; lia).
  destruct (Append_represents _ _ (BlockId b) Hr ltac:(lia)) as (m' & Em & Hm').
  split_and!; [done| |rewrite len_app; unfold len at 2; simpl; lia].
  rewrite Ha in Em. by injection Em as <- _.
Qed.

End Chain.

Lemma represents_root m ids : represents m ids -> GetRoot m = Merkle.Merkle ids.
Proof.
  intros [Hn Ha]. unfold GetRoot. rewrite Hn, Ha. destruct ids as [|x ids]; [done|].
  rewrite last_index_snoc, Merkle_root by done. done.
Qed.

(** ** Properties *)

(** Block production rotates: with 1 to 125 active producers the producer of slot
    [t] is entry [(t / 12) mod n] of the schedule, so each producer owns twelve
    consecutive slots in turn and the lookup never panics; an empty schedule is a
    division by zero. *)
Theorem scheduled_producer_rotation b t :
  0 <= t -> len (Producers (ActiveSchedule b)) <= MaxProducers ->
  (Producers (ActiveSchedule b) = [] -> GetScheduledProducer b t = Throw DivideByZero) /\
  (Producers (ActiveSchedule b) <> [] ->
   exists key, GetScheduledProducer b t = Ok key /\
    Producers (ActiveSchedule b) !! Z.to_nat (t / 12 mod len (Producers (ActiveSchedule b))) = Some key).
Proof.
  intros Ht Hl. split; intros Hp.
  - unfold GetScheduledProducer. by rewrite Hp.
  - apply scheduled_producer_val; [|done]. destruct (Producers _); [done|unfold len in *; simpl in *; lia].
Qed.

(** A state with one producer after block 1. *)
Definition example_key : ProducerKey := mkProducerKey 5 Ecc.PublicKey_zero.
Definition example_schedule : ProducerScheduleType := mkProducerScheduleType 0 [example_key].
Definition example_state : BlockHeaderState :=
  mkBlockHeaderState first_id 1 NewSignedBlockHeader 0 0 0 0 NewSha256Nil ProducerScheduleType_zero
    example_schedule empty_tree ∅ ∅ Ecc.PublicKey_zero [] [].
Definition example_header : SignedBlockHeader :=
  mkSignedBlockHeader (mkBlockHeader 7 5 0 first_id NewSha256Nil NewSha256Nil 0 None []) Ecc.NewSigNil.
Definition example_recover (c : Z) (content hash : bytes) : result Ecc.PublicKey := Ok Ecc.PublicKey_zero.
Definition example_next : BlockHeaderState :=
  match Next example_recover example_state example_header false with Ok r => r | Throw _ => example_state end.

Lemma example_next_ok : Next example_recover example_state example_header false = Ok example_next.
Proof. vm_compute. reflexivity. Qed.

Lemma example_inv : hs_inv example_state.
Proof.
  constructor; try (vm_compute; done); unfold example_state; cbn; try apply map_Forall_empty; try constructor.
Qed.

Lemma scheduled_producer_rotation_witness :
  exists key, GetScheduledProducer example_state 30 = Ok key /\
    Producers (ActiveSchedule example_state) !! Z.to_nat (30 / 12 mod len (Producers (ActiveSchedule example_state))) = Some key.
Proof. apply (scheduled_producer_rotation example_state 30); [lia|by vm_compute|done]. Defined.

(** C3. The irreversible block number is backed by more than two thirds: of the block
    numbers implied irreversible by the [n] producers of the map, more than [2n/3] are
    at least [CalcDposLastIrreversible], at least [n/3] are at most it, it is one of
    them, and it is 0 for the empty map. *)
Theorem dpos_irreversible_two_thirds b :
  let m := ProducerToLastImpliedIrb b in
  let lib := CalcDposLastIrreversible b in
  (m = ∅ -> lib = 0) /\
  (m <> ∅ -> (exists p, m !! p = Some lib) /\
    2 * Z.of_nat (size m) < 3 * Z.of_nat (count (fun v => lib <= v) m) /\
    Z.of_nat (size m) <= 3 * Z.of_nat (count (fun v => v <= lib) m)).
Proof.
  intros m lib. split.
  - intros Hm. unfold lib, CalcDposLastIrreversible. fold m. rewrite Hm. by rewrite map_to_list_empty.
  - intros Hm. unfold lib. rewrite CalcDpos_third by done. fold m.
    destruct (third_spec (values m) (values_nonempty m Hm)) as (H1 & H2 & H3).
    unfold len in *. rewrite <- count_values, length_values in H2, H3.
    split_and!; [by apply elem_of_values|done|done].
Qed.

(** [SetConfirmed n]: the counts of the newest [n + 1] tracked blocks are lowered by
    one; if one of them reaches zero, the newest such block becomes the proposed
    irreversible block and only the counts of later blocks are kept, otherwise all
    are kept and the proposal is unchanged. *)
Theorem set_confirmed_effect n b :
  hs_inv b -> 0 <= n < 2 ^ 16 - 1 ->
  (exists l1 l2, ConfirmCount b = l1 ++ l2 /\ len l2 = Z.min (len (ConfirmCount b)) (n + 1) /\
     1 ∉ l2 /\ SetConfirmed n b = set_ConfirmCount (l1 ++ map Z.pred l2) (confirming n b)) \/
  (exists l1 l2, ConfirmCount b = l1 ++ 1 :: l2 /\ len l2 <= n /\ 1 ∉ l2 /\
     SetConfirmed n b = set_ConfirmCount (map Z.pred l2)
       (set_DposProposedIrreversibleBlocknum (BlockNum b - len l2) (confirming n b))).
Proof.
  intros Hb Hn. pose proof Hb as []. assert (H1 : forall l, Forall (fun c => 2 <= c <= 255) l -> 1 ∉ l).
  { intros l Hl Hin. rewrite Forall_forall in Hl. specialize (Hl 1 Hin). lia. }
  destruct (SetConfirmed_cases n b) as [(l1 & l2 & ? & ? & ? & ?)|(l1 & l2 & ? & ? & ? & ?)]; try done; try lia.
  - left. exists l1, l2. auto.
  - right. exists l1, l2. auto.
Qed.

Lemma set_confirmed_effect_witness :
  (exists l1 l2, ConfirmCount example_state = l1 ++ l2 /\ len l2 = Z.min (len (ConfirmCount example_state)) (2 + 1) /\
     1 ∉ l2 /\ SetConfirmed 2 example_state = set_ConfirmCount (l1 ++ map Z.pred l2) (confirming 2 example_state)) \/
  (exists l1 l2, ConfirmCount example_state = l1 ++ 1 :: l2 /\ len l2 <= 2 /\ 1 ∉ l2 /\
     SetConfirmed 2 example_state = set_ConfirmCount (map Z.pred l2)
       (set_DposProposedIrreversibleBlocknum (BlockNum example_state - len l2) (confirming 2 example_state))).
Proof. apply (set_confirmed_effect 2 example_state example_inv). norm_pow. lia. Defined.

(** C1. [Next] accepts exactly the headers that are later than the state, link to its
    id, have no extensions, are produced by the producer whose slot it is, in turn twelve
    slots each, under the active schedule version, do not confirm a range the producer
    already confirmed, carry a new schedule only when none is pending or promoted with the
    block and its version is the next one, and, unless trusted, are signed with the key of
    the scheduled producer; and the state it returns is, field by field, that of the
    reference transition: the header and its id, the next number, the irreversible block
    that more than two thirds imply, the counts with the newest confirmed blocks lowered
    and the proposed block, the schedules with the promotion of the pending one, the two
    maps of the producers and the block tree.  The size of a new schedule is not looked
    at.  The state is one of a chain ([hs_inv]) and its number is not the last one. *)
Theorem next_accepts_exactly publicKey b h trust r :
  hs_inv b -> 0 < Timestamp (Embedded h) -> in_u 16 (Confirmed (Embedded h)) -> BlockNum b + 1 < 2 ^ 32 ->
  Next publicKey b h trust = Ok r <-> valid_next publicKey b h trust r.
Proof.
  intros Hb Ht Hc Hn. split.
  - intros HN. destruct (Next_accepted publicKey b h trust r ltac:(lia) HN) as (key & m & c & promoted & r1 & id & A). by eapply accepted_valid.
  - intros V. destruct (valid_accepted publicKey b h trust Hb Ht Hc Hn r V) as (key & m & c & promoted & r1 & id & A). by eapply accepted_Next.
Qed.

Lemma next_accepts_exactly_witness : valid_next example_recover example_state example_header false example_next.
Proof.
  apply (next_accepts_exactly example_recover example_state example_header false example_next);
    [exact example_inv|cbn; lia|by vm_compute|done|exact example_next_ok].
Defined.

(** C2. Along every chain of accepted headers whose schedules have at most 125 producers
    (what [SetProposedProducers] checks of a proposal; [Next] does not), from a state that
    satisfies it, the invariant of header states holds (counts between 1 and 255 for at most
    1024 blocks, none below the proposed block, implied, irreversible, proposed and produced
    numbers in order), the block numbers are consecutive, and the root of the block tree is
    the Merkle root of the ids of all blocks below. *)
Theorem header_chain_invariant publicKey g ids0 ids b :
  chain publicKey g ids0 ids b ->
  hs_inv g -> represents (BlockrootMerkle g) ids0 -> len ids0 <= BlockNum g ->
  hs_inv b /\ len ids - len ids0 = BlockNum b - BlockNum g /\
  GetRoot (BlockrootMerkle b) = Merkle.Merkle ids.
Proof.
  intros Hc Hg Hm Hl. destruct (chain_facts publicKey g ids0 ids b Hc Hg Hm Hl) as (Hb & Hr & Hlen).
  split_and!; [done|done|by apply represents_root].
Qed.

Lemma header_chain_invariant_witness :
  hs_inv example_next /\ len [first_id] - len (@nil DigestType) = BlockNum example_next - BlockNum example_state /\
  GetRoot (BlockrootMerkle example_next) = Merkle.Merkle [first_id].
Proof.
  apply (header_chain_invariant example_recover example_state [] [first_id] example_next).
  - apply (chain_next example_recover example_state [] [] example_state example_header false example_next);
      [constructor|by repeat split|done|exact example_next_ok].
  - exact example_inv.
  - done.
  - done.
Defined.

(** C4. Accepting a header never lowers the proposed irreversible block, nor, as long as
    the irreversible block of the state is the one its producers imply, the irreversible
    block; that condition holds again after the step when no schedule was pending. *)
Theorem dpos_irreversible_monotone publicKey b h trust r :
  hs_inv b -> header_ok (Embedded h) -> BlockNum b + 1 < 2 ^ 32 -> Next publicKey b h trust = Ok r ->
  DposIrreversibleBlocknum b <= CalcDposLastIrreversible b ->
  DposProposedIrreversibleBlocknum b <= DposProposedIrreversibleBlocknum r /\
  DposIrreversibleBlocknum b <= DposIrreversibleBlocknum r /\
  (Producers (PendingSchedule b) = [] -> DposIrreversibleBlocknum r = CalcDposLastIrreversible r).
Proof.
  intros Hb Hh Hn HN Hlib.
  destruct (accepted_step publicKey b h trust r Hb Hh Hn HN) as (Hr & _ & _ & Hp & _ & _ & key & Hk & El).
  split_and!; [done| |].
  - destruct (decide (ProducerToLastImpliedIrb b = ∅)) as [E|E].
    + assert (CalcDposLastIrreversible b = 0)
        by (unfold CalcDposLastIrreversible; by rewrite E, map_to_list_empty).
      pose proof (inv_lib r Hr). lia.
    + rewrite El. unfold template_lib. rewrite CalcDpos_third in Hlib by done. etransitivity; [exact Hlib|]. apply third_insert; [done|].
      destruct (third_range 0 (DposProposedIrreversibleBlocknum b) (values (ProducerToLastImpliedIrb b)));
        [by apply values_nonempty|apply map_Forall_values, (inv_implied b Hb)|done].
  - intros Hpend. destruct Hh as (Ht & Hc & _).
    destruct (Next_accepted publicKey b h trust r ltac:(unfold in_u in Ht; lia) HN) as (key' & m & c & promoted & r1 & id & A).
    assert (key' = key) as -> by (pose proof (acc_slot _ _ _ _ _ _ _ _ _ _ _ A); congruence).
    destruct (SetConfirmed_inv (Confirmed (Embedded h)) _ (template_inv b (Timestamp (Embedded h)) key m Hb Hn) Hc)
      as (_ & _ & cc & p & Ecp).
    pose proof (acc_promote _ _ _ _ _ _ _ _ _ _ _ A) as Hpm. unfold MaybePromotePending in Hpm.
    rewrite Ecp in Hpm. cbn [PendingSchedule template set_ConfirmCount set_DposProposedIrreversibleBlocknum confirming set_Header] in Hpm.
    rewrite Hpend in Hpm. change (0 <? len (@nil ProducerKey)) with false in Hpm.
    cbn [andb] in Hpm. injection Hpm as <- <-.
    assert (Hi : ProducerToLastImpliedIrb r = <[ProducerName key := DposProposedIrreversibleBlocknum b]> (ProducerToLastImpliedIrb b)).
    { rewrite (acc_result _ _ _ _ _ _ _ _ _ _ _ A). pose proof (acc_schedule _ _ _ _ _ _ _ _ _ _ _ A) as Hs.
      destruct (NewProducers (Embedded h)); [destruct Hs as [_ (_ & _ & hash & _ & ->)%SetNewProducers_inv]|subst]; done. }
    rewrite El. rewrite CalcDpos_third; rewrite Hi; [done|]. apply insert_non_empty.
Qed.

Lemma dpos_irreversible_monotone_witness :
  DposProposedIrreversibleBlocknum example_state <= DposProposedIrreversibleBlocknum example_next /\
  DposIrreversibleBlocknum example_state <= DposIrreversibleBlocknum example_next /\
  (Producers (PendingSchedule example_state) = [] ->
   DposIrreversibleBlocknum example_next = CalcDposLastIrreversible example_next).
Proof.
  apply (dpos_irreversible_monotone example_recover example_state example_header false example_next);
    [exact example_inv|by repeat split|done|exact example_next_ok|by vm_compute].
Defined.

(** ** Signatures *)

Section Signed.
Context (publicKey : Z -> bytes -> bytes -> result Ecc.PublicKey).

(** A confirmation that verifies against the active schedule. *)
Definition conf_ok (b : BlockHeaderState) (c : HeaderConfirmation) : Prop :=
  exists key d, GetProducerKey (ActiveSchedule b) (ConfProducer c) = (key, true) /\
    SigDigest b = Ok d /\ Ecc.recover_key publicKey (ConfSignature c) (to_Bytes d) = Ok key.

Definition confs_inv (b : BlockHeaderState) : Prop :=
  NoDup (ConfProducer <$> Confirmations b) /\ Forall (conf_ok b) (Confirmations b).

Lemma not_confirmed_by_spec p l :
  not_confirmed_by p l = (if decide (p ∈ ConfProducer <$> l) then Throw ProducerDoubleConfirm else Ok tt).
Proof.
  induction l as [|c l IH]; [by rewrite decide_False by apply not_elem_of_nil|].
  cbn [not_confirmed_by]. rewrite EosAssert_bind, fmap_cons.
  destruct (Z.eqb_spec (ConfProducer c) p) as [->|Hne]; cbn [negb].
  - by rewrite decide_True by left.
  - rewrite IH. destruct (decide (p ∈ ConfProducer <$> l)).
    + by rewrite decide_True by by right.
    + rewrite decide_False; [done|]. rewrite elem_of_cons. naive_solver.
Qed.

Lemma AddConfirmation_unfold conf b :
  AddConfirmation publicKey conf b =
    if decide (ConfProducer conf ∈ ConfProducer <$> Confirmations b) then (b, Throw ProducerDoubleConfirm)
    else if negb (GetProducerKey (ActiveSchedule b) (ConfProducer conf)).2 then (b, Throw ProducerNotInSchedule)
    else match SigDigest b with
    | Throw e => (b, Throw e)
    | Ok d => match Ecc.recover_key publicKey (ConfSignature conf) (to_Bytes d) with
      | Throw e => (b, Throw e)
      | Ok signer =>
          if Ecc.Compare signer (GetProducerKey (ActiveSchedule b) (ConfProducer conf)).1
          then (set_Confirmations (Confirmations b ++ [conf]) b, Ok tt) else (b, Throw WrongSigningKey)
      end
    end.
Proof.
  unfold AddConfirmation, mbind, M_bind, get, lift. rewrite not_confirmed_by_spec. case_decide; [done|].
  destruct (GetProducerKey _ _) as [key [|]]; cbn [fst snd negb assertM EosAssert]; [|done].
  unfold assertM, lift, EosAssert. destruct (SigDigest b) as [d|]; [|done].
  destruct (Ecc.recover_key _ _ _) as [signer|]; [|done]. by destruct (Ecc.Compare signer key).
Qed.

End Signed.

Lemma SigDigest_confirmations l b : SigDigest (set_Confirmations l b) = SigDigest b.
Proof. reflexivity. Qed.

Lemma SigDigest_signature s b : SigDigest (set_Header (set_Signature s (Header b)) b) = SigDigest b.
Proof. reflexivity. Qed.

(** Confirmations: whatever [AddConfirmation] is given, the confirmations of the
    state stay pairwise from different producers, each in the active schedule and with
    a signature of the block that recovers to its scheduled key; an exception leaves
    them unchanged, a second confirmation of a producer is [ProducerDoubleConfirm] and
    one from outside the schedule [ProducerNotInSchedule]. *)
Theorem add_confirmation_sound publicKey conf b :
  confs_inv publicKey b ->
  let r := AddConfirmation publicKey conf b in
  confs_inv publicKey r.1 /\
  (r.2 = Ok tt -> r.1 = set_Confirmations (Confirmations b ++ [conf]) b) /\
  (forall e, r.2 = Throw e -> r.1 = b) /\
  (ConfProducer conf ∈ ConfProducer <$> Confirmations b -> r.2 = Throw ProducerDoubleConfirm) /\
  (ConfProducer conf ∉ ConfProducer <$> Confirmations b ->
   (GetProducerKey (ActiveSchedule b) (ConfProducer conf)).2 = false -> r.2 = Throw ProducerNotInSchedule).
Proof.
  intros Hi r. unfold r. rewrite AddConfirmation_unfold. case_decide as Hdup; [by split_and!|].
  destruct (GetProducerKey _ _) as [key [|]] eqn:Hk; cbn [fst snd negb]; [|by split_and!].
  destruct (SigDigest b) as [d|] eqn:Hd; [|by split_and!].
  destruct (Ecc.recover_key _ _ _) as [signer|] eqn:Hs; [|by split_and!].
  destruct (Ecc.Compare signer key) eqn:Hc; [|by split_and!].
  apply Ecc.PubKey_Compare_spec in Hc as ->. split_and!; try done. destruct Hi as [Hn Hf]. split.
  - cbn [Confirmations set_Confirmations fst]. rewrite fmap_app. apply NoDup_app. split_and!; [done| |apply NoDup_singleton].
    intros x Hx Hx'%list_elem_of_singleton. subst x. done.
  - cbn [Confirmations set_Confirmations fst]. apply Forall_app. split; [exact Hf|].
    constructor; [|constructor]. exists key, d. done.
Qed.

Lemma add_confirmation_sound_witness :
  confs_inv example_recover
    (AddConfirmation example_recover (mkHeaderConfirmation first_id 5 Ecc.NewSigNil) example_state).1.
Proof.
  apply (add_confirmation_sound example_recover (mkHeaderConfirmation first_id 5 Ecc.NewSigNil) example_state).
  split; constructor.
Defined.

(** Signing: when [Sign] succeeds, the state differs only in the signature and
    [Signee] recovers the block signing key, so [Next] accepts the signature; when the
    signature recovers to another key, [Sign] raises [WrongSigningKey] with that
    signature left in the header. *)
Theorem sign_then_signee publicKey signer b d key :
  SigDigest b = Ok d -> Ecc.recover_key publicKey (signer d) (to_Bytes d) = Ok key ->
  let b' := set_Header (set_Signature (signer d) (Header b)) b in
  (key = BlockSigningKey b ->
     Sign publicKey signer b = (b', Ok tt) /\ Signee publicKey b' = Ok (BlockSigningKey b')) /\
  (key <> BlockSigningKey b -> Sign publicKey signer b = (b', Throw WrongSigningKey)).
Proof.
  intros Hd Hk b'. assert (Hs : Sign publicKey signer b = (b', EosAssert (Ecc.Compare (BlockSigningKey b) key) WrongSigningKey)).
  { unfold Sign, mbind, M_bind, get, lift, modify, assertM. rewrite Hd, Hk. done. }
  split; intros Hkey.
  - subst key. rewrite Hs, (proj2 (Ecc.PubKey_Compare_spec _ _) eq_refl). split; [done|].
    unfold Signee. pose proof (SigDigest_signature (signer d) b) as Es. fold b' in Es. rewrite Es, Hd, Ok_bind. exact Hk.
  - rewrite Hs. destruct (Ecc.Compare (BlockSigningKey b) key) eqn:E; [|done].
    apply Ecc.PubKey_Compare_spec in E. congruence.
Qed.

Definition example_digest : Sha256 :=
  match SigDigest example_state with Ok d => d | Throw _ => NewSha256Nil end.

Lemma sign_then_signee_witness :
  Sign example_recover (fun _ => Ecc.NewSigNil) example_state =
    (set_Header (set_Signature Ecc.NewSigNil (Header example_state)) example_state, Ok tt).
Proof.
  assert (E : SigDigest example_state = Ok example_digest) by (vm_compute; reflexivity).
  exact (proj1 (proj1 (sign_then_signee example_recover (fun _ => Ecc.NewSigNil) example_state example_digest
    Ecc.PublicKey_zero E eq_refl) eq_refl)).
Defined.
