(* ===== verification/ResourceLimits.v ===== *)
(** * ResourceLimits: [chain/resource_limits.go] and its data types

    The accumulators and elastic limits of [chain/types/resource_limits_private.go],
    the objects of [entity/resource_*.go] and the manager, whose database is a record
    of its four tables.  A lookup of an account that was never initialised, which the
    source only logs before it goes on with a zero object, raises [MissingObject]:
    what the database does with such an object is not modelled here. *)

From stdpp Require Import sorting.
From S2P Require Import Prelude.
From S2P Require Uint128.

(** ** [common/types.go] and [common/config.go] *)

Definition Min (x y : Z) : Z := if x <? y then x else y.
Definition Max (x y : Z) : Z := if y <? x then x else y.
Definition RateLimitingPrecision : Z := 1000 * 1000.
Definition EosPercent (value percentage : Z) : Z := u64 (value * percentage) / 10000.

(** ** Accumulators and elastic limits *)

Record Ratio : Type := mkRatio { Numerator : Z; Denominator : Z }.

Record ElasticLimitParameters : Type := mkElastic {
  Target : Z; MaxLimit : Z; Periods : Z; MaxMultiplier : Z; ContractRate : Ratio; ExpandRate : Ratio }.

Record AccountResourceLimit : Type := mkAccountResourceLimit { Used : Z; Available : Z; MaxUse : Z }.

Definition Validate (e : ElasticLimitParameters) : result unit :=
  EosAssert (0 <? Periods e) ResourceLimitException ≫= fun _ =>
  EosAssert (0 <? Denominator (ContractRate e)) ResourceLimitException ≫= fun _ =>
  EosAssert (0 <? Denominator (ExpandRate e)) ResourceLimitException.

(** [x / y] of two unsigned integers, a panic for a zero divisor *)
Definition udiv (x y : Z) : result Z := if y =? 0 then Throw DivideByZero else Ok (x / y).

Definition UpdateElasticLimit (currentLimit averageUsage : Z) (params : ElasticLimitParameters) : result Z :=
  (if Target params <? averageUsage
   then udiv (u64 (currentLimit * Numerator (ContractRate params))) (Denominator (ContractRate params))
   else udiv (u64 (currentLimit * Numerator (ExpandRate params))) (Denominator (ExpandRate params))) ≫= fun result =>
  Ok (Min (Max result (MaxLimit params)) (u64 (MaxLimit params * MaxMultiplier params))).

Definition IntegerDivideCeil (num den : Z) : result Z :=
  if den =? 0 then Throw DivideByZero
  else if 0 <? num mod den then Ok (u64 (num / den + 1)) else Ok (num / den).

Record Accumulator : Type := mkAccumulator { LastOrdinal : Z; ValueEx : Z; Consumed : Z }.

Definition makeRatio (numerator denominator : Z) : Ratio := mkRatio numerator denominator.

Definition MultiWithRatio (value : Z) (ratio : Ratio) : result Z :=
  udiv (u64 (value * Numerator ratio)) (Denominator ratio).

(** The oversized value is only logged. *)
Definition DowngradeCast (v : Uint128.Uint128) : Z := swrap 64 (Uint128.Low v).

Definition Average (ema : Accumulator) : result Z := IntegerDivideCeil (ValueEx ema) RateLimitingPrecision.

Definition Add (ema : Accumulator) (units ordinal windowSize : Z) : result Accumulator :=
  IntegerDivideCeil (u64 (units * RateLimitingPrecision)) windowSize ≫= fun valueExContrib =>
  (if negb (LastOrdinal ema =? ordinal) then
     (if ordinal <? u32 (LastOrdinal ema + windowSize) then
        let delta := u32 (ordinal - LastOrdinal ema) in
        MultiWithRatio (ValueEx ema) (makeRatio (u32 (windowSize - delta)) windowSize)
      else Ok 0) ≫= fun valueEx =>
     Average (mkAccumulator ordinal valueEx (Consumed ema)) ≫= fun consumed =>
     Ok (mkAccumulator ordinal valueEx consumed)
   else Ok ema) ≫= fun ema =>
  Ok (mkAccumulator (LastOrdinal ema) (u64 (ValueEx ema + valueExContrib)) (u64 (Consumed ema + units))).

(** ** The objects *)

Record ConfigObject : Type := mkConfigObject {
  CpuLimitParameters : ElasticLimitParameters;
  NetLimitParameters : ElasticLimitParameters;
  AccountCpuUsageAverageWindow : Z;
  AccountNetUsageAverageWindow : Z }.

Definition NewResourceLimitsConfigObject : ConfigObject :=
  mkConfigObject
    (mkElastic (EosPercent 200000 1000) 200000 (60 * 1000 / 500) 1000 (mkRatio 99 100) (mkRatio 1000 999))
    (mkElastic (EosPercent (1024 * 1024) 1000) (1024 * 1024) (60 * 1000 / 500) 1000 (mkRatio 99 100) (mkRatio 1000 999))
    (24 * 60 * 60 * 1000 / 500) (24 * 60 * 60 * 1000 / 500).

Record StateObject : Type := mkStateObject {
  AverageBlockNetUsage : Accumulator; AverageBlockCpuUsage : Accumulator;
  PendingNetUsage : Z; PendingCpuUsage : Z;
  TotalNetWeight : Z; TotalCpuWeight : Z; TotalRamBytes : Z;
  VirtualNetLimit : Z; VirtualCpuLimit : Z }.

Definition zero_acc : Accumulator := mkAccumulator 0 0 0.
Definition DefaultResourceLimitsStateObject : StateObject := mkStateObject zero_acc zero_acc 0 0 0 0 0 0 0.

Record LimitsObject : Type := mkLimitsObject { NetWeight : Z; CpuWeight : Z; RamBytes : Z }.
Definition NewResourceLimitsObject : LimitsObject := mkLimitsObject (-1) (-1) (-1).

Record UsageObject : Type := mkUsageObject { NetUsage : Accumulator; CpuUsage : Accumulator; RamUsage : Z }.

(** The tables: the limits are indexed by [(Pending, Owner)], the usage by [Owner]. *)
Record Db : Type := mkDb {
  config : ConfigObject; state : StateObject;
  limits : gmap (bool * Z) LimitsObject; usages : gmap Z UsageObject }.

Definition set_config (c : ConfigObject) (d : Db) : Db := mkDb c (state d) (limits d) (usages d).
Definition set_state (s : StateObject) (d : Db) : Db := mkDb (config d) s (limits d) (usages d).
Definition set_limits (l : gmap (bool * Z) LimitsObject) (d : Db) : Db := mkDb (config d) (state d) l (usages d).
Definition set_usages (u : gmap Z UsageObject) (d : Db) : Db := mkDb (config d) (state d) (limits d) u.

(** [r.db.Find("byOwner", ...)] *)
Definition find_limits (pending : bool) (account : Z) : M Db LimitsObject :=
  d ← get; lift (match limits d !! (pending, account) with Some l => Ok l | None => Throw MissingObject end).
Definition find_usage (account : Z) : M Db UsageObject :=
  d ← get; lift (match usages d !! account with Some u => Ok u | None => Throw MissingObject end).

(** ** The manager *)

Definition InitializeDatabase : Db :=
  let config := NewResourceLimitsConfigObject in
  let s := DefaultResourceLimitsStateObject in
  let s := mkStateObject (AverageBlockNetUsage s) (AverageBlockCpuUsage s) (PendingNetUsage s) (PendingCpuUsage s)
    (TotalNetWeight s) (TotalCpuWeight s) (TotalRamBytes s)
    (MaxLimit (NetLimitParameters config)) (MaxLimit (CpuLimitParameters config)) in
  mkDb config s ∅ ∅.

Definition InitializeAccount (account : Z) : M Db unit :=
  _ ← modify (fun d => set_limits (<[(false, account) := NewResourceLimitsObject]> (limits d)) d);
  modify (fun d => set_usages (<[account := mkUsageObject zero_acc zero_acc 0]> (usages d)) d).

Definition SetBlockParameters (cpu net : ElasticLimitParameters) : M Db unit :=
  _ ← lift (Validate cpu);
  _ ← lift (Validate net);
  modify (fun d => set_config (mkConfigObject cpu net (AccountCpuUsageAverageWindow (config d))
                                 (AccountNetUsageAverageWindow (config d))) d).

(** [account] lists the set in its iteration order. *)
Fixpoint UpdateAccountUsage (account : list Z) (timeSlot : Z) : M Db unit :=
  match account with
  | [] => mret tt
  | a :: account' =>
      d ← get;
      usage ← find_usage a;
      net ← lift (Add (NetUsage usage) 0 timeSlot (AccountNetUsageAverageWindow (config d)));
      cpu ← lift (Add (CpuUsage usage) 0 timeSlot (AccountCpuUsageAverageWindow (config d)));
      _ ← modify (fun d => set_usages (<[a := mkUsageObject net cpu (RamUsage usage)]> (usages d)) d);
      UpdateAccountUsage account' timeSlot
  end.

Definition GetAccountLimits (account : Z) : M Db LimitsObject :=
  d ← get;
  match limits d !! (true, account) with
  | Some pendingBuo => mret pendingBuo
  | None => find_limits false account
  end.

Definition u128 (z : Z) : Uint128.Uint128 := Uint128.mkUint128 z 0.

(** The use of an account in its window and its share, in 128 bits. *)
Definition used_in_window (valueEx windowSize : Z) : Uint128.Uint128 :=
  (Uint128.Div (Uint128.MulUint64 valueEx windowSize) (u128 RateLimitingPrecision)).1.
Definition max_user_use (virtualLimit windowSize weight totalWeight : Z) : Uint128.Uint128 :=
  (Uint128.Div (Uint128.Mul (Uint128.MulUint64 virtualLimit windowSize) (u128 weight)) (u128 totalWeight)).1.

(** The check of one resource of one account. *)
Definition check_share (weight totalWeight windowSize virtualLimit valueEx : Z) (e : exn) : result unit :=
  if (0 <=? weight) && (0 <? totalWeight) then
    EosAssert (Uint128.Compare (used_in_window valueEx windowSize)
                 (max_user_use virtualLimit windowSize weight totalWeight) <? 1) e
  else Ok tt.

Fixpoint add_account_usage (account : list Z) (cpuUsage netUsage timeSlot : Z) (state : StateObject) (config : ConfigObject) : M Db unit :=
  match account with
  | [] => mret tt
  | a :: account' =>
      usage ← find_usage a;
      l ← GetAccountLimits a;
      cpu ← lift (Add (CpuUsage usage) cpuUsage timeSlot (AccountCpuUsageAverageWindow config));
      net ← lift (Add (NetUsage usage) netUsage timeSlot (AccountNetUsageAverageWindow config));
      _ ← modify (fun d => set_usages (<[a := mkUsageObject net cpu (RamUsage usage)]> (usages d)) d);
      _ ← lift (check_share (CpuWeight l) (TotalCpuWeight state) (AccountCpuUsageAverageWindow config)
                  (VirtualCpuLimit state) (ValueEx cpu) TxCpuUsageExceeded);
      _ ← lift (check_share (NetWeight l) (TotalNetWeight state) (AccountNetUsageAverageWindow config)
                  (VirtualNetLimit state) (ValueEx net) TxNetUsageExceeded);
      add_account_usage account' cpuUsage netUsage timeSlot state config
  end.

Definition add_pending (cpuUsage netUsage : Z) (s : StateObject) : StateObject :=
  mkStateObject (AverageBlockNetUsage s) (AverageBlockCpuUsage s)
    (u64 (PendingNetUsage s + netUsage)) (u64 (PendingCpuUsage s + cpuUsage))
    (TotalNetWeight s) (TotalCpuWeight s) (TotalRamBytes s) (VirtualNetLimit s) (VirtualCpuLimit s).

Definition AddTransactionUsage (account : list Z) (cpuUsage netUsage timeSlot : Z) : M Db unit :=
  d ← get;
  let s := state d in
  let c := config d in
  _ ← add_account_usage account cpuUsage netUsage timeSlot s c;
  let s := add_pending cpuUsage netUsage s in
  _ ← modify (set_state s);
  _ ← assertM (PendingCpuUsage s <=? MaxLimit (CpuLimitParameters c)) BlockResourceExhausted;
  assertM (PendingNetUsage s <=? MaxLimit (NetLimitParameters c)) BlockResourceExhausted.

Definition AddPendingRamUsage (account ramDelta : Z) : M Db unit :=
  if ramDelta =? 0 then mret tt
  else
    usage ← find_usage account;
    _ ← assertM ((ramDelta <=? 0) || (u64 ramDelta <=? 2 ^ 64 - 1 - RamUsage usage)) TransactionException;
    _ ← assertM ((0 <=? ramDelta) || (u64 (swrap 64 (- ramDelta)) <=? RamUsage usage)) TransactionException;
    modify (fun d => set_usages (<[account := mkUsageObject (NetUsage usage) (CpuUsage usage)
                                   (u64 (RamUsage usage + u64 ramDelta))]> (usages d)) d).

Definition VerifyAccountRamUsage (account : Z) : M Db unit :=
  l ← GetAccountLimits account;
  usage ← find_usage account;
  if 0 <=? RamBytes l then assertM (RamUsage usage <=? u64 (RamBytes l)) RamUsageExceeded else mret tt.

Definition GetAccountRamUsage (account : Z) : M Db Z :=
  usage ← find_usage account; mret (swrap 64 (RamUsage usage)).

Definition findOrCreatePendingLimits (account : Z) : M Db LimitsObject :=
  d ← get;
  match limits d !! (true, account) with
  | Some l => mret l
  | None =>
      l ← find_limits false account;
      _ ← modify (fun d => set_limits (<[(true, account) := l]> (limits d)) d);
      mret l
  end.

Definition SetAccountLimits (account ramBytes netWeight cpuWeight : Z) : M Db bool :=
  l ← findOrCreatePendingLimits account;
  let decreasedLimit := if 0 <=? ramBytes then (RamBytes l <? 0) || (ramBytes <? RamBytes l) else false in
  _ ← modify (fun d => set_limits (<[(true, account) := mkLimitsObject netWeight cpuWeight ramBytes]> (limits d)) d);
  mret decreasedLimit.

(** [updateStateAndValue]: the new total. *)
Definition updateStateAndValue (total value pendingValue : Z) : result Z :=
  (if 0 <? value then
     EosAssert (u64 value <=? total) RateLimitingStateInconsistent ≫= fun _ => Ok (u64 (total - u64 value))
   else Ok total) ≫= fun total =>
  (if 0 <? pendingValue then
     EosAssert (u64 pendingValue <=? 2 ^ 64 - 1 - total) RateLimitingStateInconsistent ≫= fun _ =>
     Ok (u64 (total + u64 pendingValue))
   else Ok total).

(** The owners with a pending object, in index order. *)
Definition pending_owners (l : gmap (bool * Z) LimitsObject) : list Z :=
  merge_sort Z.le ((filter (fun k => k.1 = true) (map_to_list l).*1).*2).

Definition set_totals (ram cpu net : Z) (s : StateObject) : StateObject :=
  mkStateObject (AverageBlockNetUsage s) (AverageBlockCpuUsage s) (PendingNetUsage s) (PendingCpuUsage s)
    net cpu ram (VirtualNetLimit s) (VirtualCpuLimit s).

(** One round of the loop: the first pending object is applied and removed. *)
Definition process_pending (owner : Z) (rso : StateObject) : M Db StateObject :=
  limit ← find_limits true owner;
  actual ← find_limits false owner;
  ram ← lift (updateStateAndValue (TotalRamBytes rso) (RamBytes actual) (RamBytes limit));
  cpu ← lift (updateStateAndValue (TotalCpuWeight rso) (CpuWeight actual) (CpuWeight limit));
  net ← lift (updateStateAndValue (TotalNetWeight rso) (NetWeight actual) (NetWeight limit));
  _ ← modify (fun d => set_limits (<[(false, owner) := limit]> (limits d)) d);
  _ ← modify (fun d => set_limits (delete (true, owner) (limits d)) d);
  mret (set_totals ram cpu net rso).

(** Every round removes one pending object: their number bounds the rounds. *)
Fixpoint process_loop (fuel : nat) (rso : StateObject) : M Db StateObject :=
  match fuel with
  | O => mret rso
  | S fuel' =>
      d ← get;
      match pending_owners (limits d) with
      | [] => mret rso
      | owner :: _ => rso ← process_pending owner rso; process_loop fuel' rso
      end
  end.

Definition ProcessAccountLimitUpdates : M Db unit :=
  d ← get;
  rso ← process_loop (S (size (limits d))) (state d);
  modify (set_state rso).

Definition UpdateVirtualCpuLimit (s : StateObject) (cfg : ConfigObject) : result StateObject :=
  Average (AverageBlockCpuUsage s) ≫= fun avg =>
  UpdateElasticLimit (VirtualCpuLimit s) avg (CpuLimitParameters cfg) ≫= fun l =>
  Ok (mkStateObject (AverageBlockNetUsage s) (AverageBlockCpuUsage s) (PendingNetUsage s) (PendingCpuUsage s)
    (TotalNetWeight s) (TotalCpuWeight s) (TotalRamBytes s) (VirtualNetLimit s) l).
Definition UpdateVirtualNetLimit (s : StateObject) (cfg : ConfigObject) : result StateObject :=
  Average (AverageBlockNetUsage s) ≫= fun avg =>
  UpdateElasticLimit (VirtualNetLimit s) avg (NetLimitParameters cfg) ≫= fun l =>
  Ok (mkStateObject (AverageBlockNetUsage s) (AverageBlockCpuUsage s) (PendingNetUsage s) (PendingCpuUsage s)
    (TotalNetWeight s) (TotalCpuWeight s) (TotalRamBytes s) l (VirtualCpuLimit s)).

Definition process_block (s : StateObject) (c : ConfigObject) (blockNum : Z) : result StateObject :=
  Add (AverageBlockCpuUsage s) (PendingCpuUsage s) blockNum (Periods (CpuLimitParameters c)) ≫= fun acc =>
  let s := mkStateObject (AverageBlockNetUsage s) acc (PendingNetUsage s) (PendingCpuUsage s)
    (TotalNetWeight s) (TotalCpuWeight s) (TotalRamBytes s) (VirtualNetLimit s) (VirtualCpuLimit s) in
  UpdateVirtualCpuLimit s c ≫= fun s =>
  let s := mkStateObject (AverageBlockNetUsage s) (AverageBlockCpuUsage s) (PendingNetUsage s) 0
    (TotalNetWeight s) (TotalCpuWeight s) (TotalRamBytes s) (VirtualNetLimit s) (VirtualCpuLimit s) in
  Add (AverageBlockNetUsage s) (PendingNetUsage s) blockNum (Periods (NetLimitParameters c)) ≫= fun acc =>
  let s := mkStateObject acc (AverageBlockCpuUsage s) (PendingNetUsage s) (PendingCpuUsage s)
    (TotalNetWeight s) (TotalCpuWeight s) (TotalRamBytes s) (VirtualNetLimit s) (VirtualCpuLimit s) in
  UpdateVirtualNetLimit s c ≫= fun s =>
  Ok (mkStateObject (AverageBlockNetUsage s) (AverageBlockCpuUsage s) 0 (PendingCpuUsage s)
    (TotalNetWeight s) (TotalCpuWeight s) (TotalRamBytes s) (VirtualNetLimit s) (VirtualCpuLimit s)).

Definition ProcessBlockUsage (blockNum : Z) : M Db unit :=
  d ← get;
  s ← lift (process_block (state d) (config d) blockNum);
  modify (set_state s).

Definition GetVirtualBlockCpuLimit (d : Db) : Z := VirtualCpuLimit (state d).
Definition GetVirtualBlockNetLimit (d : Db) : Z := VirtualNetLimit (state d).
Definition GetBlockCpuLimit (d : Db) : Z := u64 (MaxLimit (CpuLimitParameters (config d)) - PendingCpuUsage (state d)).
Definition GetBlockNetLimit (d : Db) : Z := u64 (MaxLimit (NetLimitParameters (config d)) - PendingNetUsage (state d)).

(** The tail the two [Ex] functions share. *)
Definition resource_limit (weight totalWeight windowSize limit valueEx : Z) : AccountResourceLimit :=
  if (weight <? 0) || (totalWeight =? 0) then mkAccountResourceLimit (-1) (-1) (-1)
  else
    let maxUserUseInWindow := max_user_use limit windowSize weight totalWeight in
    let usedInWindow := used_in_window valueEx windowSize in
    let available :=
      if negb (Uint128.Compare maxUserUseInWindow usedInWindow =? 1) then 0
      else DowngradeCast (Uint128.Sub maxUserUseInWindow usedInWindow) in
    mkAccountResourceLimit (DowngradeCast usedInWindow) available (DowngradeCast maxUserUseInWindow).

Definition GetAccountCpuLimitEx (name : Z) (elastic : bool) : M Db AccountResourceLimit :=
  d ← get;
  usage ← find_usage name;
  l ← GetAccountLimits name;
  mret (resource_limit (CpuWeight l) (TotalCpuWeight (state d)) (AccountCpuUsageAverageWindow (config d))
          (if elastic then VirtualCpuLimit (state d) else MaxLimit (CpuLimitParameters (config d)))
          (ValueEx (CpuUsage usage))).
Definition GetAccountCpuLimit (name : Z) (elastic : bool) : M Db Z :=
  arl ← GetAccountCpuLimitEx name elastic; mret (Available arl).

(** The window of the CPU usage, as in the source. *)
Definition GetAccountNetLimitEx (name : Z) (elastic : bool) : M Db AccountResourceLimit :=
  d ← get;
  usage ← find_usage name;
  l ← GetAccountLimits name;
  mret (resource_limit (NetWeight l) (TotalNetWeight (state d)) (AccountCpuUsageAverageWindow (config d))
          (if elastic then VirtualNetLimit (state d) else MaxLimit (NetLimitParameters (config d)))
          (ValueEx (NetUsage usage))).
Definition GetAccountNetLimit (name : Z) (elastic : bool) : M Db Z :=
  arl ← GetAccountNetLimitEx name elastic; mret (Available arl).

(** ** Accumulators *)

Definition ceil_div (num den : Z) : Z := (num + den - 1) / den.

Lemma IntegerDivideCeil_val num den :
  0 < den -> 0 <= num < 2 ^ 64 -> IntegerDivideCeil num den = Ok (ceil_div num den).
Proof.
  intros Hd Hn. unfold IntegerDivideCeil, ceil_div. rewrite (proj2 (Z.eqb_neq den 0)) by lia.
  pose proof (Z.div_mod num den ltac:(lia)) as E. pose proof (Z.mod_pos_bound num den Hd) as Hm.
  assert (0 <= num / den) by (apply Z.div_pos; lia).
  destruct (Z.ltb_spec 0 (num mod den)).
  - assert (num / den < 2 ^ 63) by (apply Z.div_lt_upper_bound; [lia|]; norm_pow; nia).
    rewrite uwrap_id by (unfold in_u; norm_pow; lia). f_equal.
    apply (Z.div_unique_pos _ _ _ (num mod den - 1)); lia.
  - f_equal. apply (Z.div_unique_pos _ _ _ (den - 1)); lia.
Qed.

(** The value after the decay between two ordinals. *)
Definition decayed (ema : Accumulator) (ordinal w : Z) : Z :=
  if LastOrdinal ema =? ordinal then ValueEx ema
  else if ordinal <? LastOrdinal ema + w then ValueEx ema * (w - (ordinal - LastOrdinal ema)) / w
  else 0.

(** The products and the window end stay within their types. *)
Definition ema_fits (ema : Accumulator) (units ordinal w : Z) : Prop :=
  0 < w < 2 ^ 32 /\ 0 <= LastOrdinal ema <= ordinal /\ LastOrdinal ema + w < 2 ^ 32 /\ ordinal < 2 ^ 32 /\
  0 <= units /\ units * RateLimitingPrecision < 2 ^ 64 /\ 0 <= ValueEx ema /\ ValueEx ema * w < 2 ^ 64.

#[global] Instance ema_fits_dec ema units ordinal w : Decision (ema_fits ema units ordinal w).
Proof. unfold ema_fits. apply _. Defined.

Lemma decayed_range ema units ordinal w :
  ema_fits ema units ordinal w -> 0 <= decayed ema ordinal w <= ValueEx ema.
Proof.
  intros (Hw & Ho & _ & _ & _ & _ & Hv & _). unfold decayed.
  destruct (Z.eqb_spec (LastOrdinal ema) ordinal); [lia|]. destruct (Z.ltb_spec ordinal (LastOrdinal ema + w)); [|lia].
  split; [apply Z.div_pos; nia|]. apply Z.div_le_upper_bound; nia.
Qed.

Lemma Add_val ema units ordinal w :
  ema_fits ema units ordinal w ->
  Add ema units ordinal w =
    Ok (mkAccumulator ordinal
          (u64 (decayed ema ordinal w + ceil_div (units * RateLimitingPrecision) w))
          (u64 ((if LastOrdinal ema =? ordinal then Consumed ema
                 else ceil_div (decayed ema ordinal w) RateLimitingPrecision) + units))).
Proof.
  intros Hf. pose proof (decayed_range _ _ _ _ Hf) as Hd. pose proof Hf as (Hw & Ho & Hwin & Ho32 & Hu & Hup & Hv & Hvw).
  assert (0 <= units * RateLimitingPrecision) by (unfold RateLimitingPrecision; lia).
  assert (Hv64 : ValueEx ema < 2 ^ 64) by (norm_pow; nia).
  unfold Add. rewrite (uwrap_id 64 (units * RateLimitingPrecision)) by (unfold in_u; lia).
  rewrite (IntegerDivideCeil_val (units * RateLimitingPrecision) w), Ok_bind by lia.
  unfold decayed in *. destruct (Z.eqb_spec (LastOrdinal ema) ordinal) as [<-|Hne]; cbn [negb]; [by rewrite Ok_bind|].
  rewrite (uwrap_id 32 (LastOrdinal ema + w)) by (unfold in_u; lia).
  assert (E : (if ordinal <? LastOrdinal ema + w
     then MultiWithRatio (ValueEx ema) (makeRatio (u32 (w - u32 (ordinal - LastOrdinal ema))) w) else Ok 0)
     = Ok (if ordinal <? LastOrdinal ema + w then ValueEx ema * (w - (ordinal - LastOrdinal ema)) / w else 0)).
  { destruct (Z.ltb_spec ordinal (LastOrdinal ema + w)); [|done].
    rewrite (uwrap_id 32 (ordinal - _)), (uwrap_id 32 (w - _)) by (unfold in_u; lia).
    unfold MultiWithRatio, udiv, makeRatio. cbn [Numerator Denominator]. rewrite (proj2 (Z.eqb_neq w 0)) by lia.
    rewrite uwrap_id; [done|]. unfold in_u. nia. }
  cbv zeta. rewrite E, Ok_bind. unfold Average. cbn [ValueEx].
  rewrite IntegerDivideCeil_val, !Ok_bind by (unfold RateLimitingPrecision; lia). done.
Qed.

(** With at most [m] units added at each ordinal, the accumulator stays below
    [m * precision + window]. *)
Lemma Add_bounded ema units ordinal w m :
  0 < w < 2 ^ 32 -> 0 <= units <= m -> (m * RateLimitingPrecision + w) * w < 2 ^ 64 ->
  0 <= LastOrdinal ema < ordinal -> ordinal < 2 ^ 32 -> LastOrdinal ema + w < 2 ^ 32 ->
  0 <= ValueEx ema <= m * RateLimitingPrecision + w ->
  exists ema', Add ema units ordinal w = Ok ema' /\ LastOrdinal ema' = ordinal /\
    0 <= ValueEx ema' <= m * RateLimitingPrecision + w /\
    ValueEx ema' = decayed ema ordinal w + ceil_div (units * RateLimitingPrecision) w.
Proof.
  intros Hw Hu Hb Ho Ho32 Hwin Hv. set (P := RateLimitingPrecision) in *. assert (HP : 0 < P) by (unfold P, RateLimitingPrecision; lia).
  assert (Hmp : 0 <= m * P) by nia.
  assert (Hf : ema_fits ema units ordinal w) by (unfold ema_fits; fold P; split_and!; nia).
  rewrite (Add_val _ _ _ _ Hf). fold P. eexists. split; [done|]. cbn [LastOrdinal ValueEx].
  pose proof (decayed_range _ _ _ _ Hf) as Hd.
  assert (Hdw : decayed ema ordinal w * w <= (m * P + w) * (w - 1)).
  { unfold decayed. rewrite (proj2 (Z.eqb_neq _ _)) by lia. destruct (Z.ltb_spec ordinal (LastOrdinal ema + w)); [|nia].
    transitivity (ValueEx ema * (w - (ordinal - LastOrdinal ema))); [|nia].
    rewrite Z.mul_comm. apply Z.mul_div_le. lia. }
  assert (Hc : 0 <= ceil_div (units * P) w) by (apply Z.div_pos; nia).
  assert (Hcw : ceil_div (units * P) w * w <= m * P + w - 1).
  { unfold ceil_div. rewrite Z.mul_comm. pose proof (Z.mul_div_le (units * P + w - 1) w ltac:(lia)). nia. }
  assert (Hsum : decayed ema ordinal w + ceil_div (units * P) w <= m * P + w) by nia.
  rewrite uwrap_id; [split_and!; lia|]. unfold in_u. nia.
Qed.

Lemma Average_val ema : 0 <= ValueEx ema < 2 ^ 64 -> Average ema = Ok (ceil_div (ValueEx ema) RateLimitingPrecision).
Proof. intros H. apply IntegerDivideCeil_val; [unfold RateLimitingPrecision; lia|done]. Qed.

(** ** Elastic limits *)

Definition params_ok (p : ElasticLimitParameters) : Prop :=
  0 < Periods p < 2 ^ 32 /\ 0 < Denominator (ContractRate p) /\ 0 < Denominator (ExpandRate p) /\
  1 <= MaxMultiplier p /\ 0 <= MaxLimit p /\ MaxLimit p * MaxMultiplier p < 2 ^ 64 /\
  (MaxLimit p * RateLimitingPrecision + Periods p) * Periods p < 2 ^ 64.

#[global] Instance params_ok_dec p : Decision (params_ok p).
Proof. unfold params_ok. apply _. Defined.

Lemma Min_val x y : Min x y = Z.min x y.
Proof. unfold Min. destruct (Z.ltb_spec x y); lia. Qed.
Lemma Max_val x y : Max x y = Z.max x y.
Proof. unfold Max. destruct (Z.ltb_spec y x); lia. Qed.

Lemma UpdateElasticLimit_val cur avg p :
  params_ok p ->
  UpdateElasticLimit cur avg p =
    Ok (Z.min (Z.max (if Target p <? avg
                      then u64 (cur * Numerator (ContractRate p)) / Denominator (ContractRate p)
                      else u64 (cur * Numerator (ExpandRate p)) / Denominator (ExpandRate p)) (MaxLimit p))
              (MaxLimit p * MaxMultiplier p)).
Proof.
  intros (_ & Hc & He & Hm & Hl & Hlm & _). unfold UpdateElasticLimit, udiv.
  rewrite !(proj2 (Z.eqb_neq _ 0)) by lia. rewrite (uwrap_id 64 (MaxLimit p * _)) by (unfold in_u; nia).
  destruct (Target p <? avg); by rewrite Ok_bind, Min_val, Max_val.
Qed.

(** The state between blocks: the pending usage fits a block, the accumulators and
    the virtual limits are in their ranges. *)
Definition acc_ok (p : ElasticLimitParameters) (acc : Accumulator) : Prop :=
  0 <= LastOrdinal acc /\ 0 <= ValueEx acc <= MaxLimit p * RateLimitingPrecision + Periods p.

Definition limit_ok (p : ElasticLimitParameters) (l : Z) : Prop := MaxLimit p <= l <= MaxLimit p * MaxMultiplier p.

Lemma acc_ok_u64 p acc : params_ok p -> acc_ok p acc -> 0 <= ValueEx acc < 2 ^ 64.
Proof. intros (Hp & _ & _ & _ & Hl & _ & Hb) [_ Hv]. unfold RateLimitingPrecision in *. nia. Qed.

Lemma UpdateElasticLimit_ok cur avg p : params_ok p -> exists l, UpdateElasticLimit cur avg p = Ok l /\ limit_ok p l.
Proof.
  intros Hp. rewrite UpdateElasticLimit_val by done. eexists. split; [done|].
  destruct Hp as (_ & _ & _ & Hm & Hl & _). unfold limit_ok. nia.
Qed.

(** ** Totals of the account limits *)

(** Only the actual objects count for the totals; [grand] counts the pending ones too. *)
Definition contribution (f : LimitsObject -> Z) (k : bool * Z) (v : LimitsObject) : Z :=
  if k.1 then 0 else Z.max 0 (f v).
Definition total (f : LimitsObject -> Z) : gmap (bool * Z) LimitsObject -> Z := sum_map (contribution f).
Definition grand (f : LimitsObject -> Z) : gmap (bool * Z) LimitsObject -> Z := sum_map (fun _ v => Z.max 0 (f v)).

Lemma contribution_nonneg f k v : 0 <= contribution f k v.
Proof. unfold contribution. destruct k as [[] o]; simpl; lia. Qed.

Lemma total_nonneg f l : 0 <= total f l.
Proof. apply sum_nonneg, contribution_nonneg. Qed.

Lemma total_grand f l : total f l <= grand f l.
Proof. apply sum_mono. intros [[] o] v; unfold contribution; simpl; lia. Qed.

Lemma contribution_le f l k v : l !! k = Some v -> contribution f k v <= total f l.
Proof. intros Hk. unfold total. rewrite (sum_delete _ l k v Hk). pose proof (total_nonneg f (delete k l)). unfold total in *. lia. Qed.

Definition limits_wf (o : LimitsObject) : Prop := in_s 64 (NetWeight o) /\ in_s 64 (CpuWeight o) /\ in_s 64 (RamBytes o).

(** The totals of the state are the sums over the actual objects, and every pending
    object has an actual one. *)
Record totals_inv (s : StateObject) (l : gmap (bool * Z) LimitsObject) : Prop := {
  tot_ram : TotalRamBytes s = total RamBytes l;
  tot_cpu : TotalCpuWeight s = total CpuWeight l;
  tot_net : TotalNetWeight s = total NetWeight l;
  tot_range : total RamBytes l < 2 ^ 64 /\ total CpuWeight l < 2 ^ 64 /\ total NetWeight l < 2 ^ 64;
  tot_wf : map_Forall (fun _ o => limits_wf o) l;
  tot_actual : forall o, is_Some (l !! (true, o)) -> is_Some (l !! (false, o)) }.

Lemma updateStateAndValue_val t v p :
  in_u 64 t -> in_s 64 v -> in_s 64 p -> Z.max 0 v <= t ->
  updateStateAndValue t v p =
    let t' := t - Z.max 0 v + Z.max 0 p in
    if t' <? 2 ^ 64 then Ok t' else Throw RateLimitingStateInconsistent.
Proof.
  intros Ht Hv Hp Hle. unfold updateStateAndValue, in_u, in_s in *. cbv zeta.
  assert (E : (if 0 <? v then EosAssert (u64 v <=? t) RateLimitingStateInconsistent ≫= fun _ => Ok (u64 (t - u64 v)) else Ok t)
    = Ok (t - Z.max 0 v)).
  { destruct (Z.ltb_spec 0 v); [|f_equal; lia]. rewrite !(uwrap_id 64 v), EosAssert_bind, (proj2 (Z.leb_le _ _)) by (unfold in_u; norm_pow; lia).
    rewrite uwrap_id by (unfold in_u; lia). f_equal. lia. }
  rewrite E, Ok_bind. destruct (Z.ltb_spec 0 p).
  - rewrite !(uwrap_id 64 p), EosAssert_bind by (unfold in_u; norm_pow; lia).
    destruct (Z.leb_spec p (2 ^ 64 - 1 - (t - Z.max 0 v))), (Z.ltb_spec (t - Z.max 0 v + Z.max 0 p) (2 ^ 64)); try lia; [|done].
    rewrite uwrap_id by (unfold in_u; lia). f_equal. lia.
  - rewrite (proj2 (Z.ltb_lt _ _)) by lia. f_equal. lia.
Qed.

(** What [GetAccountLimits] returns. *)
Definition effective (l : gmap (bool * Z) LimitsObject) (o : Z) : option LimitsObject :=
  match l !! (true, o) with Some p => Some p | None => l !! (false, o) end.

Definition apply_pending (o : Z) (p : LimitsObject) (l : gmap (bool * Z) LimitsObject) : gmap (bool * Z) LimitsObject :=
  delete (true, o) (<[(false, o) := p]> l).

Lemma effective_apply o p l o' : l !! (true, o) = Some p -> effective (apply_pending o p l) o' = effective l o'.
Proof.
  intros Hp. unfold effective, apply_pending. destruct (decide (o' = o)) as [->|Hne].
  - rewrite lookup_delete_eq, lookup_delete_ne, lookup_insert_eq, Hp by done. done.
  - by rewrite !lookup_delete_ne, !lookup_insert_ne by congruence.
Qed.

Lemma total_apply f o p a l :
  l !! (true, o) = Some p -> l !! (false, o) = Some a ->
  total f (apply_pending o p l) = total f l - Z.max 0 (f a) + Z.max 0 (f p).
Proof.
  intros Hp Ha. unfold apply_pending.
  pose proof (sum_delete (contribution f) (<[(false, o) := p]> l) (true, o) p) as Hd.
  rewrite lookup_insert_ne in Hd by done. specialize (Hd Hp). fold (total f) in Hd.
  unfold total at 1 in Hd. rewrite (sum_update _ l (false, o) a p Ha) in Hd.
  unfold total, contribution in *. simpl in Hd. lia.
Qed.

Lemma grand_apply f o p a l :
  l !! (true, o) = Some p -> l !! (false, o) = Some a -> grand f (apply_pending o p l) <= grand f l.
Proof.
  intros Hp Ha. unfold apply_pending, grand.
  pose proof (sum_delete (fun _ v => Z.max 0 (f v)) (<[(false, o) := p]> l) (true, o) p) as Hd.
  rewrite lookup_insert_ne in Hd by done. specialize (Hd Hp).
  rewrite (sum_update _ l (false, o) a p Ha) in Hd. simpl in Hd. lia.
Qed.

Definition npending (l : gmap (bool * Z) LimitsObject) : nat := size (filter (fun kv => kv.1.1 = true) l).

Lemma npending_apply o p l : l !! (true, o) = Some p -> npending l = S (npending (apply_pending o p l)).
Proof.
  intros Hp. unfold npending, apply_pending.
  rewrite map_filter_delete, map_filter_insert_False by done. rewrite map_filter_delete.
  rewrite (delete_id (filter _ l) (false, o)) by (apply map_lookup_filter_None; right; intros; by simpl).
  assert (Hf : filter (fun kv : (bool * Z) * LimitsObject => kv.1.1 = true) l !! (true, o) = Some p)
    by (by apply map_lookup_filter_Some).
  rewrite map_size_delete_Some by by exists p.
  destruct (size _) eqn:E; [|done]. apply map_size_empty_inv in E. by rewrite E, lookup_empty in Hf.
Qed.

Lemma pending_owners_elem o l : o ∈ pending_owners l <-> is_Some (l !! (true, o)).
Proof.
  unfold pending_owners. rewrite merge_sort_Permutation, list_elem_of_fmap. split.
  - intros ([b o'] & -> & Hin). apply list_elem_of_filter in Hin as [Hb Hin]. simpl in *. subst b.
    apply list_elem_of_fmap in Hin as ([k v] & -> & Hkv%elem_of_map_to_list). by exists v.
  - intros [v Hv]. exists (true, o). split; [done|]. apply list_elem_of_filter. split; [done|].
    apply list_elem_of_fmap. exists ((true, o), v). split; [done|]. by apply elem_of_map_to_list.
Qed.

(** ** Applying the pending limits *)

Definition totals_fit (l : gmap (bool * Z) LimitsObject) : bool :=
  (total RamBytes l <? 2 ^ 64) && (total CpuWeight l <? 2 ^ 64) && (total NetWeight l <? 2 ^ 64).

Definition with_totals (s : StateObject) (l : gmap (bool * Z) LimitsObject) : StateObject :=
  set_totals (total RamBytes l) (total CpuWeight l) (total NetWeight l) s.

Lemma totals_inv_apply s l o p a :
  totals_inv s l -> l !! (true, o) = Some p -> l !! (false, o) = Some a -> totals_fit (apply_pending o p l) = true ->
  totals_inv (with_totals s (apply_pending o p l)) (apply_pending o p l).
Proof.
  intros [] Hp Ha Hfit. unfold totals_fit in Hfit. rewrite !andb_true_iff, !Z.ltb_lt in Hfit.
  constructor; try done; [by destruct Hfit as [[]]| |].
  - unfold apply_pending. apply map_Forall_delete, map_Forall_insert_2; [|done]. by apply (tot_wf0 (true, o)).
  - intros o' Ho'. unfold apply_pending in *. destruct (decide (o' = o)) as [->|Hne].
    + rewrite lookup_delete_ne, lookup_insert_eq by done. by eexists.
    + rewrite !lookup_delete_ne, !lookup_insert_ne in * by congruence. by apply tot_actual0.
Qed.

Lemma update_total s l o p a (f : LimitsObject -> Z) :
  totals_inv s l -> total f l < 2 ^ 64 -> l !! (true, o) = Some p -> l !! (false, o) = Some a ->
  in_s 64 (f a) -> in_s 64 (f p) ->
  updateStateAndValue (total f l) (f a) (f p) =
    if total f (apply_pending o p l) <? 2 ^ 64 then Ok (total f (apply_pending o p l)) else Throw RateLimitingStateInconsistent.
Proof.
  intros Hi Ht Hp Ha Hfa Hfp. pose proof (total_nonneg f l). pose proof (contribution_le f l _ _ Ha) as Hc.
  unfold contribution in Hc. simpl in Hc.
  rewrite updateStateAndValue_val by (done || (unfold in_u; lia)). cbv zeta.
  by rewrite (total_apply f o p a l Hp Ha).
Qed.

Lemma process_pending_spec o rso d p a :
  totals_inv rso (limits d) -> limits d !! (true, o) = Some p -> limits d !! (false, o) = Some a ->
  process_pending o rso d =
    if totals_fit (apply_pending o p (limits d))
    then (set_limits (apply_pending o p (limits d)) d, Ok (with_totals rso (apply_pending o p (limits d))))
    else (d, Throw RateLimitingStateInconsistent).
Proof.
  intros Hi Hp Ha. pose proof Hi as []. destruct tot_range0 as (Hr1 & Hr2 & Hr3).
  destruct (tot_wf0 _ _ Hp) as (Wp1 & Wp2 & Wp3). destruct (tot_wf0 _ _ Ha) as (Wa1 & Wa2 & Wa3).
  unfold process_pending, find_limits, mbind, M_bind, get, lift. rewrite Hp, Ha, tot_ram0, tot_cpu0, tot_net0.
  rewrite !(update_total rso _ o p a) by done. unfold totals_fit.
  destruct (total RamBytes _ <? _); [|done]. destruct (total CpuWeight _ <? _); [|done].
  destruct (total NetWeight _ <? _); done.
Qed.

Lemma npending_zero l : pending_owners l = [] -> forall o, l !! (true, o) = None.
Proof.
  intros Hn o. apply eq_None_not_Some. intros Hs%pending_owners_elem. rewrite Hn in Hs. by apply not_elem_of_nil in Hs.
Qed.

(** The loop applies every pending object or stops at a total that does not fit. *)
Lemma process_loop_spec fuel : forall rso d,
  totals_inv rso (limits d) -> (npending (limits d) < fuel)%nat ->
  exists l', (forall o, effective l' o = effective (limits d) o) /\
   ((process_loop fuel rso d = (set_limits l' d, Ok (with_totals rso l')) /\
     totals_inv (with_totals rso l') l' /\ forall o, l' !! (true, o) = None) \/
    (process_loop fuel rso d = (set_limits l' d, Throw RateLimitingStateInconsistent) /\
     (grand RamBytes (limits d) < 2 ^ 64 -> grand CpuWeight (limits d) < 2 ^ 64 ->
      grand NetWeight (limits d) < 2 ^ 64 -> False))).
Proof.
  induction fuel as [|fuel IH]; intros rso d Hi Hf; [lia|].
  cbn [process_loop]. unfold mbind, M_bind, get. destruct (pending_owners (limits d)) as [|o os] eqn:Ho.
  { exists (limits d). split; [done|]. left. unfold mret, M_ret. destruct d as [c s l u]. cbn in *.
    assert (E : with_totals rso l = rso) by (destruct Hi; destruct rso; cbn in *; unfold with_totals, set_totals; cbn; congruence).
    rewrite E. split_and!; [done|done|by apply npending_zero]. }
  assert (Hin : o ∈ pending_owners (limits d)) by (rewrite Ho; left).
  apply pending_owners_elem in Hin as [p Hp]. destruct (tot_actual _ _ Hi o ltac:(by eexists)) as [a Ha].
  pose proof (process_pending_spec o rso d p a Hi Hp Ha) as E. unfold mbind, M_bind in E. rewrite E. clear E.
  set (l1 := apply_pending o p (limits d)). destruct (totals_fit l1) eqn:Hfit.
  - pose proof (totals_inv_apply rso (limits d) o p a Hi Hp Ha Hfit) as Hi1. fold l1 in Hi1.
    destruct (IH (with_totals rso l1) (set_limits l1 d) Hi1) as (l' & He & Hcase).
    { change (limits (set_limits l1 d)) with l1. pose proof (npending_apply o p (limits d) Hp). fold l1 in H. lia. }
    exists l'. split; [intros o'; rewrite He; by apply effective_apply|]. destruct Hcase as [(El & Ht & Hn)|(El & Hg)].
    + left. split_and!; [exact El|exact Ht|exact Hn].
    + right. split; [exact El|]. intros G1 G2 G3. change (limits (set_limits l1 d)) with l1 in Hg.
      pose proof (grand_apply RamBytes o p a _ Hp Ha). pose proof (grand_apply CpuWeight o p a _ Hp Ha).
      pose proof (grand_apply NetWeight o p a _ Hp Ha). fold l1 in H, H0, H1. apply Hg; lia.
  - exists (limits d). split; [done|]. right. split; [by destruct d|]. intros G1 G2 G3.
    pose proof (grand_apply RamBytes o p a _ Hp Ha). pose proof (grand_apply CpuWeight o p a _ Hp Ha).
    pose proof (grand_apply NetWeight o p a _ Hp Ha). fold l1 in H, H0, H1.
    pose proof (total_grand RamBytes l1). pose proof (total_grand CpuWeight l1). pose proof (total_grand NetWeight l1).
    unfold totals_fit in Hfit. rewrite !(proj2 (Z.ltb_lt _ _)) in Hfit by lia. done.
Qed.

(** ** Shares in 128 bits *)

Lemma u128_val y : in_u 64 y -> Uint128.val (u128 y) = y.
Proof. apply Uint128.val_small. Qed.

Lemma div_small_wf (x : Uint128.Uint128) y :
  Uint128.wf x -> in_u 64 y -> 0 < y ->
  Uint128.wf (Uint128.Div x (u128 y)).1 /\ Uint128.val (Uint128.Div x (u128 y)).1 = Uint128.val x / y.
Proof.
  intros Hx Hy Hp. pose proof (u128_val y Hy) as Hv.
  destruct (Uint128.Div_correct x (u128 y)) as (H1 & _ & H2 & _); [done|by apply Uint128.wf_small|by rewrite Hv|].
  split; [done|]. by rewrite H2, Hv.
Qed.

Lemma used_in_window_wf v w : in_u 64 v -> in_u 64 w -> Uint128.wf (used_in_window v w).
Proof. intros. apply div_small_wf; [by apply Uint128.MulUint64_wf|by_decide|by_decide]. Qed.

Lemma max_user_use_wf L w weight t : in_u 64 L -> in_u 64 w -> in_u 64 t -> 0 < t -> Uint128.wf (max_user_use L w weight t).
Proof. intros. apply div_small_wf; [apply Uint128.Mul_wf|done|done]. Qed.

(** The products of the share computation stay within what the 128-bit routines
    compute exactly. *)
Definition share_fits (L w weight t : Z) : Prop :=
  in_u 64 L /\ 0 <= w < 2 ^ 31 /\ in_u 64 weight /\ 0 < t < 2 ^ 64 /\ L * w * weight < 2 ^ 128 /\
  Uint128.halves_small (L * w mod 2 ^ 64) weight.

#[global] Instance share_fits_dec L w weight t : Decision (share_fits L w weight t).
Proof. unfold share_fits, Uint128.halves_small. apply _. Defined.

Lemma used_in_window_val v w :
  in_u 64 v -> 0 <= w < 2 ^ 31 -> Uint128.val (used_in_window v w) = v * w / RateLimitingPrecision.
Proof.
  intros Hv Hw. assert (Hw64 : in_u 64 w) by (unfold in_u; norm_pow; lia). unfold used_in_window.
  destruct (div_small_wf (Uint128.MulUint64 v w) RateLimitingPrecision) as [_ ->];
    [by apply Uint128.MulUint64_wf|by_decide|by_decide|].
  by rewrite Uint128.MulUint64_small by (done || by apply Uint128.halves_small_window).
Qed.

Lemma max_user_use_val L w weight t :
  share_fits L w weight t -> Uint128.val (max_user_use L w weight t) = L * w * weight / t.
Proof.
  intros (HL & Hw & Hwt & Ht & Hb & Hs). assert (Hw64 : in_u 64 w) by (unfold in_u; norm_pow; lia). unfold max_user_use.
  destruct (div_small_wf (Uint128.Mul (Uint128.MulUint64 L w) (u128 weight)) t) as [_ ->];
    [apply Uint128.Mul_wf|unfold in_u; lia|lia|].
  pose proof (Uint128.MulUint64_wf L w HL Hw64) as Hwf.
  assert (Hcap : Uint128.val (Uint128.MulUint64 L w) = L * w)
    by (apply Uint128.MulUint64_small; [done..|by apply Uint128.halves_small_window]).
  rewrite Uint128.Mul_spec; [|done|by apply Uint128.wf_small|by rewrite Uint128.MulUint64_low].
  rewrite Hcap, u128_val by done. rewrite Z.mod_small; [done|]. unfold in_u in *. nia.
Qed.

(** A checked account uses more than its share of the limit in the window. *)
Definition over_share (weight totalWeight windowSize virtualLimit valueEx : Z) : Prop :=
  0 <= weight /\ 0 < totalWeight /\
  virtualLimit * windowSize * weight / totalWeight < valueEx * windowSize / RateLimitingPrecision.

#[global] Instance over_share_dec weight t w L v : Decision (over_share weight t w L v).
Proof. unfold over_share. apply _. Defined.

Lemma check_share_exact weight t w L v e :
  in_u 64 v -> (0 <= weight -> 0 < t -> share_fits L w weight t) ->
  check_share weight t w L v e = if bool_decide (over_share weight t w L v) then Throw e else Ok tt.
Proof.
  intros Hv Hs. unfold check_share, over_share.
  destruct (Z.leb_spec 0 weight) as [H0|H0], (Z.ltb_spec 0 t) as [H1|H1]; cbn [andb];
    try (rewrite bool_decide_false by lia; done).
  specialize (Hs H0 H1). pose proof Hs as (HL & Hw & _ & Ht & _).
  assert (Hw64 : in_u 64 w) by (unfold in_u; norm_pow; lia). assert (Ht64 : in_u 64 t) by (unfold in_u; lia).
  rewrite Uint128.Compare_spec by (by apply used_in_window_wf || by apply max_user_use_wf).
  rewrite used_in_window_val, max_user_use_val by done. unfold EosAssert.
  destruct (Z.compare_spec (v * w / RateLimitingPrecision) (L * w * weight / t)); cbn;
    (rewrite bool_decide_false by lia; done) || (rewrite bool_decide_true by lia; done).
Qed.

(** ** Transactions *)

(** The usage of an account after a charge: the old value decayed to the slot of the
    block, plus the charge spread over the window, rounded up. *)
Definition advanced (ema : Accumulator) (units slot w : Z) : Accumulator :=
  mkAccumulator slot (decayed ema slot w + ceil_div (units * RateLimitingPrecision) w)
    (u64 ((if LastOrdinal ema =? slot then Consumed ema
           else ceil_div (decayed ema slot w) RateLimitingPrecision) + units)).

Definition charged (c : ConfigObject) (cpu net slot : Z) (u : UsageObject) : UsageObject :=
  mkUsageObject (advanced (NetUsage u) net slot (AccountNetUsageAverageWindow c))
    (advanced (CpuUsage u) cpu slot (AccountCpuUsageAverageWindow c)) (RamUsage u).

(** The account uses more than its share of a resource after the charge. *)
Definition cpu_over (s : StateObject) (c : ConfigObject) (o : LimitsObject) (u : UsageObject) : Prop :=
  over_share (CpuWeight o) (TotalCpuWeight s) (AccountCpuUsageAverageWindow c) (VirtualCpuLimit s) (ValueEx (CpuUsage u)).
Definition net_over (s : StateObject) (c : ConfigObject) (o : LimitsObject) (u : UsageObject) : Prop :=
  over_share (NetWeight o) (TotalNetWeight s) (AccountNetUsageAverageWindow c) (VirtualNetLimit s) (ValueEx (NetUsage u)).

(** The account has limits and a usage, and none of the sums and products of its charge
    leaves its type. *)
Definition chargeable (d : Db) (cpu net slot : Z) (a : Z) (o : LimitsObject) (u : UsageObject) : Prop :=
  let c := config d in let s := state d in
  effective (limits d) a = Some o /\ usages d !! a = Some u /\
  ema_fits (CpuUsage u) cpu slot (AccountCpuUsageAverageWindow c) /\
  ema_fits (NetUsage u) net slot (AccountNetUsageAverageWindow c) /\
  in_u 64 (ValueEx (CpuUsage (charged c cpu net slot u))) /\
  in_u 64 (ValueEx (NetUsage (charged c cpu net slot u))) /\
  (0 <= CpuWeight o -> 0 < TotalCpuWeight s ->
     share_fits (VirtualCpuLimit s) (AccountCpuUsageAverageWindow c) (CpuWeight o) (TotalCpuWeight s)) /\
  (0 <= NetWeight o -> 0 < TotalNetWeight s ->
     share_fits (VirtualNetLimit s) (AccountNetUsageAverageWindow c) (NetWeight o) (TotalNetWeight s)).

Lemma Add_advanced ema units slot w :
  ema_fits ema units slot w -> in_u 64 (ValueEx (advanced ema units slot w)) ->
  Add ema units slot w = Ok (advanced ema units slot w).
Proof. intros Hf Hv. rewrite Add_val by done. cbn [advanced ValueEx] in Hv. by rewrite (uwrap_id 64 (_ + ceil_div _ _)). Qed.

Lemma GetAccountLimits_effective a d :
  GetAccountLimits a d = (d, match effective (limits d) a with Some o => Ok o | None => Throw MissingObject end).
Proof.
  unfold GetAccountLimits, effective, find_limits, mbind, M_bind, get, lift.
  by destruct (limits d !! (true, a)).
Qed.

(** Of an account [a] charged in the database [d], with its old usage. *)
Definition on_account (P : LimitsObject -> UsageObject -> Prop) (d : Db) (a : Z) : Prop :=
  exists o u, effective (limits d) a = Some o /\ usages d !! a = Some u /\ P o u.

Lemma on_account_usages (P : LimitsObject -> UsageObject -> Prop) us d a :
  us !! a = usages d !! a -> on_account P (set_usages us d) a <-> on_account P d a.
Proof. intros E. unfold on_account. cbn. by rewrite E. Qed.

Lemma chargeable_usages us d cpu net slot a o u :
  us !! a = usages d !! a -> chargeable d cpu net slot a o u -> chargeable (set_usages us d) cpu net slot a o u.
Proof. intros E. unfold chargeable. cbn. by rewrite E. Qed.

(** The accounts of [accts] charged and within their shares. *)
Definition settled (cpu net slot : Z) (d : Db) (us : gmap Z UsageObject) (a : Z) : Prop :=
  on_account (fun o u => us !! a = Some (charged (config d) cpu net slot u) /\
    ~ cpu_over (state d) (config d) o (charged (config d) cpu net slot u) /\
    ~ net_over (state d) (config d) o (charged (config d) cpu net slot u)) d a.

Lemma add_account_usage_exact accts : forall cpu net slot d,
  NoDup accts -> Forall (fun a => exists o u, chargeable d cpu net slot a o u) accts ->
  exists us, (add_account_usage accts cpu net slot (state d) (config d) d).1 = set_usages us d /\
    (forall a, a ∉ accts -> us !! a = usages d !! a) /\
    match (add_account_usage accts cpu net slot (state d) (config d) d).2 with
    | Ok _ => Forall (settled cpu net slot d us) accts
    | Throw e =>
        let exceeds P := Exists (on_account (fun o u => P (state d) (config d) o (charged (config d) cpu net slot u)) d) accts in
        (e = TxCpuUsageExceeded /\ exceeds cpu_over) \/ (e = TxNetUsageExceeded /\ exceeds net_over)
    end.
Proof.
  induction accts as [|a accts IH]; intros cpu net slot d Hnd Hch.
  { exists (usages d). split_and!; [by destruct d|done|constructor]. }
  apply NoDup_cons in Hnd as [Hna Hnd]. apply Forall_cons in Hch as [(o & u & Ho & Hu & Fc & Fn & Vc & Vn & Sc & Sn) Hch].
  cbn [add_account_usage]. unfold find_usage, mbind, M_bind, get, lift. rewrite Hu, GetAccountLimits_effective, Ho.
  rewrite (Add_advanced _ _ _ _ Fc Vc), (Add_advanced _ _ _ _ Fn Vn). unfold modify.
  set (us1 := <[a := mkUsageObject _ _ (RamUsage u)]> (usages d)).
  assert (Hus1 : forall x, x ∉ a :: accts -> us1 !! x = usages d !! x).
  { intros x Hx. unfold us1. rewrite lookup_insert_ne; [done|]. intros ->. apply Hx. left. }
  assert (Hin : forall x, x ∈ accts -> us1 !! x = usages d !! x).
  { intros x Hx. unfold us1. rewrite lookup_insert_ne; [done|]. by intros ->. }
  cbn [charged CpuUsage NetUsage] in Vc, Vn.
  rewrite (check_share_exact (CpuWeight o) _ _ _ _ TxCpuUsageExceeded Vc Sc).
  rewrite (check_share_exact (NetWeight o) _ _ _ _ TxNetUsageExceeded Vn Sn).
  case_bool_decide as Hc; [exists us1; split_and!; [done|done|left; split; [done|]; left; by exists o, u]|].
  case_bool_decide as Hn; [exists us1; split_and!; [done|done|right; split; [done|]; left; by exists o, u]|].
  destruct (IH cpu net slot (set_usages us1 d) Hnd) as (us & E & Hfr & Hr).
  { rewrite Forall_forall in Hch |- *. intros x Hx. destruct (Hch x Hx) as (o' & w & Hw). exists o', w.
    by apply chargeable_usages; [apply Hin|]. }
  cbn [set_usages state config] in E, Hr. exists us. split_and!.
  - exact E.
  - intros x Hx. rewrite Hfr by (intros ?; apply Hx; by right). by apply Hus1.
  - destruct (add_account_usage accts _ _ _ _ _ _).2 as [[]|e].
    + constructor.
      * exists o, u. split_and!; [done|done|rewrite Hfr by done; apply lookup_insert_eq|done|done].
      * rewrite Forall_forall in Hr |- *. intros x Hx. specialize (Hr x Hx). unfold settled in Hr |- *.
        by rewrite on_account_usages in Hr by (by apply Hin).
    + destruct Hr as [[He Hx]|[He Hx]]; [left|right]; (split; [exact He|]); right; rewrite Exists_exists in Hx |- *;
        destruct Hx as (x & Hx & Hp); exists x; (split; [exact Hx|]); by rewrite on_account_usages in Hp by (by apply Hin).
Qed.

Lemma settled_none accts cpu net slot d us :
  Forall (settled cpu net slot d us) accts ->
  let exceeds P := Exists (on_account (fun o u => P (state d) (config d) o (charged (config d) cpu net slot u)) d) accts in
  ~ exceeds cpu_over /\ ~ exceeds net_over /\
  (forall a, a ∈ accts -> us !! a = charged (config d) cpu net slot <$> usages d !! a).
Proof.
  intros Hs exceeds. rewrite Forall_forall in Hs.
  split_and!; try (intros (a & Ha & o & u & Ho & Hu & Hx)%Exists_exists;
    destruct (Hs a Ha) as (o' & u0 & Ho' & Hu' & _ & Hc & Hn); simplify_eq; by eauto).
  intros a Ha. destruct (Hs a Ha) as (o & u & _ & -> & -> & _). done.
Qed.

(** ** Blocks *)

Definition block_ok (c : ConfigObject) (s : StateObject) : Prop :=
  acc_ok (CpuLimitParameters c) (AverageBlockCpuUsage s) /\ acc_ok (NetLimitParameters c) (AverageBlockNetUsage s) /\
  0 <= PendingCpuUsage s <= MaxLimit (CpuLimitParameters c) /\ 0 <= PendingNetUsage s <= MaxLimit (NetLimitParameters c).

(** The block number is new and the window after the last one does not wrap. *)
Definition ordinal_ok (acc : Accumulator) (w n : Z) : Prop :=
  LastOrdinal acc < n < 2 ^ 32 /\ LastOrdinal acc + w < 2 ^ 32.

Lemma acc_step p acc units n :
  params_ok p -> acc_ok p acc -> 0 <= units <= MaxLimit p -> ordinal_ok acc (Periods p) n ->
  exists acc', Add acc units n (Periods p) = Ok acc' /\ acc_ok p acc' /\ LastOrdinal acc' = n.
Proof.
  intros (Hp & _ & _ & _ & Hl & _ & Hb) [Ho Hv] Hu [Hn Hw].
  destruct (Add_bounded acc units n (Periods p) (MaxLimit p)) as (acc' & E & El & Hv' & _); try done; try lia.
  exists acc'. split_and!; [done|split; [lia|done]|done].
Qed.

Lemma process_block_ok c s n :
  params_ok (CpuLimitParameters c) -> params_ok (NetLimitParameters c) -> block_ok c s ->
  ordinal_ok (AverageBlockCpuUsage s) (Periods (CpuLimitParameters c)) n ->
  ordinal_ok (AverageBlockNetUsage s) (Periods (NetLimitParameters c)) n ->
  exists cpu net lc ln, process_block s c n =
    Ok (mkStateObject net cpu 0 0 (TotalNetWeight s) (TotalCpuWeight s) (TotalRamBytes s) ln lc) /\
    acc_ok (CpuLimitParameters c) cpu /\ acc_ok (NetLimitParameters c) net /\
    LastOrdinal cpu = n /\ LastOrdinal net = n /\
    limit_ok (CpuLimitParameters c) lc /\ limit_ok (NetLimitParameters c) ln.
Proof.
  intros Hpc Hpn (Ac & An & Pc & Pn) Oc On.
  destruct (acc_step _ _ _ _ Hpc Ac Pc Oc) as (cpu & Ec & Hc & Hlc).
  destruct (acc_step _ _ _ _ Hpn An Pn On) as (net & En & Hn & Hln).
  destruct (UpdateElasticLimit_ok (VirtualCpuLimit s) (ceil_div (ValueEx cpu) RateLimitingPrecision) _ Hpc) as (lc & Elc & Hlim).
  destruct (UpdateElasticLimit_ok (VirtualNetLimit s) (ceil_div (ValueEx net) RateLimitingPrecision) _ Hpn) as (ln & Eln & Hlin).
  exists cpu, net, lc, ln. split; [|by split_and!].
  unfold process_block. rewrite Ec, Ok_bind. cbv zeta. unfold UpdateVirtualCpuLimit. cbn [AverageBlockCpuUsage VirtualCpuLimit].
  rewrite (Average_val cpu) by exact (acc_ok_u64 _ _ Hpc Hc). rewrite Ok_bind, Elc, !Ok_bind.
  cbn [AverageBlockNetUsage PendingNetUsage]. rewrite En, Ok_bind. unfold UpdateVirtualNetLimit. cbn [AverageBlockNetUsage VirtualNetLimit].
  rewrite (Average_val net) by exact (acc_ok_u64 _ _ Hpn Hn). rewrite Ok_bind, Eln, !Ok_bind. done.
Qed.

(** ** Properties *)

(** C31. Applying the pending account limits: starting from totals that are the sums of
    the positive actual limits, [ProcessAccountLimitUpdates] leaves every account the
    limits [GetAccountLimits] reported before, removes every pending object and makes the
    totals the sums again; it can only fail with [RateLimitingStateInconsistent], and
    does not when all actual and pending limits together fit in 64 bits. *)
Theorem process_limit_updates_exact d :
  totals_inv (state d) (limits d) ->
  let r := ProcessAccountLimitUpdates d in
  (forall o, effective (limits r.1) o = effective (limits d) o) /\
  (r.2 = Ok tt -> (forall o, limits r.1 !! (true, o) = None) /\ totals_inv (state r.1) (limits r.1)) /\
  (forall e, r.2 = Throw e -> e = RateLimitingStateInconsistent /\ state r.1 = state d) /\
  (grand RamBytes (limits d) < 2 ^ 64 -> grand CpuWeight (limits d) < 2 ^ 64 ->
   grand NetWeight (limits d) < 2 ^ 64 -> r.2 = Ok tt).
Proof.
  intros Hi r. unfold r, ProcessAccountLimitUpdates, mbind, M_bind, get.
  destruct (process_loop_spec (S (size (limits d))) (state d) d Hi) as (l' & He & [(E & Ht & Hn)|(E & Hg)]).
  { apply Nat.lt_succ_r. apply map_size_filter. }
  - rewrite E. split_and!; [done| |done|done]. intros _. split; [exact Hn|exact Ht].
  - rewrite E. split_and!; [done|done|by intros e [= <-]|]. intros G1 G2 G3. destruct (Hg G1 G2 G3).
Qed.

Definition example_db : Db :=
  mkDb NewResourceLimitsConfigObject DefaultResourceLimitsStateObject
    (<[(true, 7) := mkLimitsObject 10 20 30]> (<[(false, 7) := NewResourceLimitsObject]> ∅))
    (<[7 := mkUsageObject zero_acc zero_acc 100]> ∅).

Lemma example_totals : totals_inv (state example_db) (limits example_db).
Proof.
  constructor; [vm_compute; reflexivity|vm_compute; reflexivity|vm_compute; reflexivity|split_and!; vm_compute; reflexivity| |].
  - unfold example_db. cbn [limits]. repeat apply map_Forall_insert_2; try apply map_Forall_empty; by_decide || (unfold limits_wf; split_and!; by_decide).
  - intros o. unfold example_db. cbn [limits]. intros [v Hv]. destruct (decide (o = 7)) as [->|Hne].
    + by exists NewResourceLimitsObject.
    + rewrite !lookup_insert_ne, lookup_empty in Hv by congruence. done.
Qed.

Lemma process_limit_updates_exact_witness : (ProcessAccountLimitUpdates example_db).2 = Ok tt.
Proof. apply (process_limit_updates_exact example_db example_totals); vm_compute; reflexivity. Defined.

(** C32. Charging a transaction to accounts that have limits and usages, when no sum or
    product of the charge overflows its type: [AddTransactionUsage] accepts exactly when
    no account uses more than its share [limit * window * weight / total weight] of a
    virtual limit and the block's pending CPU and NET usage stay within the block limits;
    it then has added the charge to every account, its old usage decayed to the slot plus
    the charge spread over the window and rounded up, and to the pending usage. It
    otherwise raises the exception of the resource some account exceeds, or
    [BlockResourceExhausted] when only a block limit is exceeded. Accounts that are not
    charged keep their usage, and limits and configuration are unchanged. *)
Theorem add_transaction_usage_exact accts cpu net slot d :
  NoDup accts -> Forall (fun a => exists o u, chargeable d cpu net slot a o u) accts ->
  in_u 64 (PendingCpuUsage (state d) + cpu) -> in_u 64 (PendingNetUsage (state d) + net) ->
  let r := AddTransactionUsage accts cpu net slot d in
  let exceeds P := Exists (on_account (fun o u => P (state d) (config d) o (charged (config d) cpu net slot u)) d) accts in
  let block_over := MaxLimit (CpuLimitParameters (config d)) < PendingCpuUsage (state d) + cpu \/
                    MaxLimit (NetLimitParameters (config d)) < PendingNetUsage (state d) + net in
  limits r.1 = limits d /\ config r.1 = config d /\
  (forall a, a ∉ accts -> usages r.1 !! a = usages d !! a) /\
  match r.2 with
  | Ok _ => ~ exceeds cpu_over /\ ~ exceeds net_over /\ ~ block_over /\
      (forall a, a ∈ accts -> usages r.1 !! a = charged (config d) cpu net slot <$> usages d !! a) /\
      PendingCpuUsage (state r.1) = PendingCpuUsage (state d) + cpu /\
      PendingNetUsage (state r.1) = PendingNetUsage (state d) + net
  | Throw e =>
      (e = TxCpuUsageExceeded /\ exceeds cpu_over) \/ (e = TxNetUsageExceeded /\ exceeds net_over) \/
      (e = BlockResourceExhausted /\ block_over /\ ~ exceeds cpu_over /\ ~ exceeds net_over)
  end.
Proof.
  intros Hnd Hch Pc Pn r exceeds block_over. unfold r, AddTransactionUsage, mbind, M_bind, get.
  destruct (add_account_usage_exact accts cpu net slot d Hnd Hch) as (us & E & Hfr & Hr).
  destruct (add_account_usage accts cpu net slot (state d) (config d) d) as [d1 [[]|e]]; cbn [fst snd] in *; subst d1.
  2: { split_and!; [done|done|done|]. destruct Hr as [Hr|Hr]; [by left|by right; left]. }
  destruct (settled_none accts cpu net slot d us Hr) as (Nc & Nn & Hus).
  unfold modify, assertM, lift, EosAssert, add_pending. cbn [PendingCpuUsage PendingNetUsage].
  rewrite (uwrap_id 64 (PendingNetUsage _ + _)), (uwrap_id 64 (PendingCpuUsage _ + _)) by done.
  destruct (Z.leb_spec (PendingCpuUsage (state d) + cpu) (MaxLimit (CpuLimitParameters (config d))));
    [|split_and!; [done..|]; right; right; split_and!; [done|left; lia|done|done]].
  destruct (Z.leb_spec (PendingNetUsage (state d) + net) (MaxLimit (NetLimitParameters (config d))));
    [|split_and!; [done..|]; right; right; split_and!; [done|right; lia|done|done]].
  split_and!; [done..|]. cbn [snd fst]. split_and!; try done. intros [?|?]; lia.
Qed.

(** Account 8 has a tenth of the CPU weight and none of the NET weight. *)
Definition charge_db : Db :=
  mkDb NewResourceLimitsConfigObject (mkStateObject zero_acc zero_acc 0 0 0 100 0 (1024 * 1024) 200000)
    (<[(false, 8) := mkLimitsObject (-1) 10 (-1)]> ∅)
    (<[8 := mkUsageObject zero_acc (mkAccumulator 1 500 0) 100]> ∅).

Lemma charge_db_chargeable : chargeable charge_db 5 6 3 8 (mkLimitsObject (-1) 10 (-1)) (mkUsageObject zero_acc (mkAccumulator 1 500 0) 100).
Proof. unfold chargeable. split_and!; by_decide || (intros; by_decide) || (vm_compute; reflexivity). Qed.

Lemma add_transaction_usage_exact_witness :
  (AddTransactionUsage [8] 5 6 3 charge_db).2 = Ok tt /\
  usages (AddTransactionUsage [8] 5 6 3 charge_db).1 !! 8 =
    Some (mkUsageObject (mkAccumulator 3 35 6) (mkAccumulator 3 (499 + 29) 6) 100) /\
  PendingCpuUsage (state (AddTransactionUsage [8] 5 6 3 charge_db).1) = 5.
Proof.
  assert (E : (AddTransactionUsage [8] 5 6 3 charge_db).2 = Ok tt) by (vm_compute; reflexivity). split; [exact E|].
  destruct (add_transaction_usage_exact [8] 5 6 3 charge_db) as (_ & _ & _ & H);
    [by_decide|apply Forall_singleton; do 2 eexists; apply charge_db_chargeable|by_decide|by_decide|].
  rewrite E in H. destruct H as (_ & _ & _ & Hu & Hc & _). split; [|exact Hc].
  rewrite Hu by apply list_elem_of_here. vm_compute. reflexivity.
Defined.

(** RAM: [AddPendingRamUsage] adds the signed delta exactly, raises
    [TransactionException] without a change exactly when the result would leave the
    unsigned 64-bit range, and touches no other account. *)
Lemma ram_usage_exact a delta d u :
  usages d !! a = Some u -> in_u 64 (RamUsage u) -> in_s 64 delta ->
  AddPendingRamUsage a delta d =
    if bool_decide (in_u 64 (RamUsage u + delta))
    then (set_usages (<[a := mkUsageObject (NetUsage u) (CpuUsage u) (RamUsage u + delta)]> (usages d)) d, Ok tt)
    else (d, Throw TransactionException).
Proof.
  intros Hu Hr Hd. unfold AddPendingRamUsage. destruct (Z.eqb_spec delta 0) as [->|Hne].
  { rewrite Z.add_0_r, bool_decide_true by done. unfold mret, M_ret. f_equal. destruct d as [c s l us]. cbn in *.
    unfold set_usages. cbn. f_equal. rewrite insert_id; [done|]. by destruct u. }
  unfold find_usage, mbind, M_bind, get, lift, assertM, lift, EosAssert. rewrite Hu.
  unfold in_u, in_s in *. destruct (Z.leb_spec delta 0) as [Hneg|Hpos]; cbn [orb].
  - rewrite (proj2 (Z.leb_gt 0 delta)) by lia. cbn [orb].
    assert (E : u64 (swrap 64 (- delta)) = - delta) by word_lia. rewrite E.
    destruct (Z.leb_spec (- delta) (RamUsage u)).
    + rewrite bool_decide_true by lia. unfold modify. assert (u64 (RamUsage u + u64 delta) = RamUsage u + delta) as -> by word_lia. done.
    + rewrite bool_decide_false by lia. done.
  - assert (E : u64 delta = delta) by word_lia. rewrite E.
    destruct (Z.leb_spec delta (2 ^ 64 - 1 - RamUsage u)).
    + rewrite (proj2 (Z.leb_le 0 delta)) by lia. cbn [orb]. rewrite bool_decide_true by lia. unfold modify.
      by rewrite uwrap_id by (unfold in_u; lia).
    + rewrite bool_decide_false by lia. done.
Qed.

(** Ending a block: with well-formed parameters, a pending usage within the block
    limits and a new block number, [ProcessBlockUsage] returns, resets the pending
    usage, keeps both averages below the bound that excludes overflow in later blocks,
    and keeps each virtual limit between the limit and its multiple. *)
Theorem block_usage_processed d n :
  let c := config d in
  params_ok (CpuLimitParameters c) -> params_ok (NetLimitParameters c) -> block_ok c (state d) ->
  ordinal_ok (AverageBlockCpuUsage (state d)) (Periods (CpuLimitParameters c)) n ->
  ordinal_ok (AverageBlockNetUsage (state d)) (Periods (NetLimitParameters c)) n ->
  exists s', ProcessBlockUsage n d = (set_state s' d, Ok tt) /\
    PendingCpuUsage s' = 0 /\ PendingNetUsage s' = 0 /\ block_ok c s' /\
    limit_ok (CpuLimitParameters c) (VirtualCpuLimit s') /\ limit_ok (NetLimitParameters c) (VirtualNetLimit s').
Proof.
  intros c Hpc Hpn Hb Oc On.
  destruct (process_block_ok c (state d) n Hpc Hpn Hb Oc On) as (cpu & net & lc & ln & E & Ac & An & _ & _ & Lc & Ln).
  eexists. unfold ProcessBlockUsage, mbind, M_bind, get, lift. fold c. rewrite E. split; [done|]. cbn.
  destruct Hpc as (_ & _ & _ & _ & ? & _), Hpn as (_ & _ & _ & _ & ? & _). split_and!; try done.
Qed.

Lemma block_usage_processed_witness :
  exists s', ProcessBlockUsage 1 example_db = (set_state s' example_db, Ok tt) /\
    PendingCpuUsage s' = 0 /\ PendingNetUsage s' = 0 /\ block_ok (config example_db) s' /\
    limit_ok (CpuLimitParameters (config example_db)) (VirtualCpuLimit s') /\
    limit_ok (NetLimitParameters (config example_db)) (VirtualNetLimit s').
Proof.
  apply (block_usage_processed example_db 1); try by_decide; unfold block_ok, acc_ok, ordinal_ok; split_and!; by_decide.
Defined.
