(* ===== verification/Authority.v ===== *)
(** * Authority: authorities and the authority checker

    [chain/types/authority.go] and [chain/types/authority_checker.go], with
    [PermissionLevel] of [common/types.go]: the well-formedness test of an
    authority, the order in which its factors are tried, and the recursive check
    that provided keys, permissions and a delay satisfy a permission.

    The callback [permissionToAuthority] is an argument of the checker in the
    source and a section variable here.  The checker is a pointer shared by every
    visitor, and so is the cache: both are the state of the monad.  A visitor's
    own fields are arguments.  The recursion is bounded by
    [RecursionDepthLimit], a [uint16]; the definitions carry fuel, and
    [check_total] shows that the limit's value is enough fuel. *)

From stdpp Require Import sorting.
From S2P Require Import Prelude Bytes Rlp Ecc Name Time.

(** ** Data *)

Record PermissionLevel : Type := mkPermissionLevel { Actor : Z; Permission : Z }.

#[global] Instance PermissionLevel_eq_dec : EqDecision PermissionLevel.
Proof. solve_decision. Defined.
#[global] Instance PermissionLevel_countable : Countable PermissionLevel :=
  inj_countable' (fun p => (Actor p, Permission p)) (fun p => mkPermissionLevel p.1 p.2)
    (fun p => match p with mkPermissionLevel _ _ => eq_refl end).

Definition ComparePermissionLevel (first second : PermissionLevel) : Z :=
  if Actor second <? Actor first then 1
  else if Actor first <? Actor second then -1
  else if Permission second <? Permission first then 1
  else if Permission first <? Permission second then -1
  else 0.

Record PermissionLevelWeight : Type := mkPermissionLevelWeight { plPermission : PermissionLevel; plWeight : Z }.
Record KeyWeight : Type := mkKeyWeight { kwKey : Ecc.PublicKey; kwWeight : Z }.
Record WaitWeight : Type := mkWaitWeight { WaitSec : Z; wwWeight : Z }.

Record Authority : Type := mkAuthority {
  Threshold : Z;
  Keys : list KeyWeight;
  Accounts : list PermissionLevelWeight;
  Waits : list WaitWeight }.

Definition KeyWeight_Compare (key kw : KeyWeight) : bool :=
  if negb (Ecc.Compare (kwKey key) (kwKey kw)) then false
  else if negb (kwWeight key =? kwWeight kw) then false
  else true.

Definition NewAuthority (k : Ecc.PublicKey) (delaySec : Z) : Authority :=
  if 0 <? delaySec
  then mkAuthority 2 [mkKeyWeight k 1] [] [mkWaitWeight delaySec 1]
  else mkAuthority 1 [mkKeyWeight k 1] [] [].

(** [BillableSizeV] of the kinds an authority is billed for: 24, 16 and 8 bytes
    rounded up to the alignment of 16. *)
Definition BillableAlignment : Z := 16.
Definition BillableSizeV (value : Z) : Z :=
  (value + BillableAlignment - 1) / BillableAlignment * BillableAlignment.

(** A failed encoding counts as 0 bytes: the error is dropped. *)
Definition packed_size (key : KeyWeight) : Z :=
  match EncodeSize (VPack (Ecc.Pack (kwKey key))) false with Ok n => n | Throw _ => 0 end.

Definition GetBillableSize (sharedAuth : Authority) : Z :=
  let accountSize := u64 (len (Accounts sharedAuth) * BillableSizeV 24) in
  let waitsSize := u64 (len (Waits sharedAuth) * BillableSizeV 16) in
  let keysSize := foldl (fun n key => u64 (u64 (n + BillableSizeV 8) + u64 (packed_size key))) 0 (Keys sharedAuth) in
  u64 (u64 (accountSize + waitsSize) + keysSize).

(** ** [Validate]

    The three loops of the source: the running total, or [None] for the early
    [return false] on a pair that is not strictly ordered. *)

Fixpoint validate_loop {A} (ordered : A -> A -> bool) (weight : A -> Z) (prev : option A) (l : list A) (totalWeight : Z) : option Z :=
  match l with
  | [] => Some totalWeight
  | a :: l' =>
      if match prev with Some p => negb (ordered p a) | None => false end then None
      else validate_loop ordered weight (Some a) l' (u32 (totalWeight + weight a))
  end.

Definition key_before (a b : KeyWeight) : bool := Ecc.ComparePubKey (kwKey a) (kwKey b) =? -1.
Definition account_before (a b : PermissionLevelWeight) : bool :=
  ComparePermissionLevel (plPermission a) (plPermission b) =? -1.
Definition wait_before (a b : WaitWeight) : bool := negb (WaitSec b <=? WaitSec a).

Definition Validate (auth : Authority) : bool :=
  if Z.shiftl 1 16 <? len (Accounts auth) + len (Keys auth) + len (Waits auth) then false
  else if Threshold auth =? 0 then false
  else match validate_loop key_before kwWeight None (Keys auth) 0 with
  | None => false
  | Some t1 =>
      match validate_loop account_before plWeight None (Accounts auth) t1 with
      | None => false
      | Some t2 =>
          match validate_loop wait_before wwWeight None (Waits auth) t2 with
          | None => false
          | Some totalWeight => Threshold auth <=? totalWeight
          end
      end
  end.

(** ** The factors of an authority, and their sort *)

Inductive Meta : Type :=
| MWait (w : WaitWeight) | MKey (k : KeyWeight) | MPerm (p : PermissionLevelWeight).

Definition meta_weight (m : Meta) : Z :=
  match m with MWait w => wwWeight w | MKey k => kwWeight k | MPerm p => plWeight p end.
Definition meta_type (m : Meta) : Z := match m with MWait _ => 1 | MKey _ => 2 | MPerm _ => 3 end.

(** [MetaPermission.Less]: the second type switch assigns [iType] again, and
    [jType] stays 0. *)
Definition Less (mi mj : Meta) : bool :=
  let iWeight := meta_weight mi in
  let jWeight := meta_weight mj in
  let iType := meta_type mj in
  let jType := 0 in
  if iWeight <? jWeight then true
  else if jWeight <? iWeight then false
  else iType <? jType.

Definition compare_swap (j : nat) (m : list Meta) : list Meta :=
  match m !! j, m !! S j with
  | Some a, Some b => if Less a b then <[S j := a]> (<[j := b]> m) else m
  | _, _ => m
  end.

(** The inner loop, [n] iterations from index [j]. *)
Fixpoint sort_inner (n j : nat) (m : list Meta) : list Meta :=
  match n with
  | O => m
  | S n' => sort_inner n' (S j) (compare_swap j m)
  end.

(** The outer loop: [n] is [m.Len()-1-i]. *)
Fixpoint sort_outer (n : nat) (m : list Meta) : list Meta :=
  match n with
  | O => m
  | S n' => sort_outer n' (sort_inner n 0 m)
  end.

Definition Sort (m : list Meta) : list Meta := sort_outer (length m - 1) m.

(** [SatisfiedAcd] collects waits, keys and accounts, in this order. *)
Definition metas (authority : Authority) : list Meta :=
  map MWait (Waits authority) ++ map MKey (Keys authority) ++ map MPerm (Accounts authority).

(** ** The checker *)

Inductive PermissionCacheStatus : Type := BeingEvaluated | PermissionUnsatisfied | PermissionSatisfied.

#[global] Instance PermissionCacheStatus_eq_dec : EqDecision PermissionCacheStatus.
Proof. solve_decision. Defined.

Notation PermissionCacheType := (gmap PermissionLevel PermissionCacheStatus).

Record AuthorityChecker : Type := mkAuthorityChecker {
  ProvidedKeys : list Ecc.PublicKey;
  ProvidedPermissions : list PermissionLevel;
  UsedKeys : list bool;
  ProvidedDelay : Z;
  RecursionDepthLimit : Z }.

Definition set_UsedKeys (u : list bool) (ac : AuthorityChecker) : AuthorityChecker :=
  mkAuthorityChecker (ProvidedKeys ac) (ProvidedPermissions ac) u (ProvidedDelay ac) (RecursionDepthLimit ac).
Definition set_ProvidedDelay (d : Z) (ac : AuthorityChecker) : AuthorityChecker :=
  mkAuthorityChecker (ProvidedKeys ac) (ProvidedPermissions ac) (UsedKeys ac) d (RecursionDepthLimit ac).

Definition MakeAuthChecker (recursionDepthLimit : Z) (providedKeys : list Ecc.PublicKey)
    (providedPermission : list PermissionLevel) (providedDelay : Z) : AuthorityChecker :=
  mkAuthorityChecker providedKeys providedPermission (replicate (length providedKeys) false)
    providedDelay recursionDepthLimit.

Definition AllKeysUsed (ac : AuthorityChecker) : bool := forallb id (UsedKeys ac).

(** The keys whose flag is [flag], in the order of [ProvidedKeys]; a flag past
    the end of [ProvidedKeys] would be an index out of range. *)
Fixpoint keys_flagged (flag : bool) (i : Z) (used : list bool) (keys : list Ecc.PublicKey) : result (list Ecc.PublicKey) :=
  match used with
  | [] => Ok []
  | u :: used' =>
      if eqb u flag
      then k ← index keys i; rest ← keys_flagged flag (i + 1) used' keys; Ok (k :: rest)
      else keys_flagged flag (i + 1) used' keys
  end.

Definition GetUsedKeys (ac : AuthorityChecker) : result (list Ecc.PublicKey) :=
  keys_flagged true 0 (UsedKeys ac) (ProvidedKeys ac).
Definition GetUnusedKeys (ac : AuthorityChecker) : result (list Ecc.PublicKey) :=
  keys_flagged false 0 (UsedKeys ac) (ProvidedKeys ac).

Definition PermissionStatusInCache (permissions : PermissionCacheType) (level : PermissionLevel) : option PermissionCacheStatus :=
  match permissions !! level with
  | Some status => Some status
  | None => permissions !! mkPermissionLevel (Actor level) 0
  end.

Definition initializePermissionCache (ac : AuthorityChecker) (cachedPermission : PermissionCacheType) : PermissionCacheType :=
  foldl (fun c p => <[p := PermissionSatisfied]> c) cachedPermission (ProvidedPermissions ac).

(** The checker and the cache the visitors point to. *)
Record St : Type := mkSt { checker : AuthorityChecker; cached : PermissionCacheType }.

Definition cache_set (p : PermissionLevel) (status : PermissionCacheStatus) (s : St) : St :=
  mkSt (checker s) (<[p := status]> (cached s)).
Definition used_set (u : list bool) (s : St) : St := mkSt (set_UsedKeys u (checker s)) (cached s).

Section Check.
Variable permissionToAuthority : PermissionLevel -> result Authority.

Definition VisitWaitWeight (totalWeight : Z) (w : WaitWeight) : M St Z :=
  s ← get;
  mret (if Seconds (WaitSec w) <=? ProvidedDelay (checker s) then u32 (totalWeight + wwWeight w) else totalWeight).

(** The first provided key that compares equal. *)
Fixpoint find_provided (keys : list Ecc.PublicKey) (key : Ecc.PublicKey) (itr : nat) : option nat :=
  match keys with
  | [] => None
  | k :: keys' => if Ecc.Compare k key then Some itr else find_provided keys' key (S itr)
  end.

Definition VisitKeyWeight (totalWeight : Z) (k : KeyWeight) : M St Z :=
  s ← get;
  match find_provided (ProvidedKeys (checker s)) (kwKey k) 0 with
  | Some itr =>
      if (itr <? length (UsedKeys (checker s)))%nat then
        modify (used_set (<[itr := true]> (UsedKeys (checker s))));;
        mret (u32 (totalWeight + kwWeight k))
      else lift (Throw IndexOutOfRange)
  | None => mret totalWeight
  end.

(** [Visit] and [SatisfiedAcd], given the visit of an account at a depth. *)
Section Open.
Variable visitPermission : Z -> Z -> PermissionLevelWeight -> M St Z.

Definition Visit (depth totalWeight : Z) (m : Meta) : M St Z :=
  match m with
  | MWait w => VisitWaitWeight totalWeight w
  | MKey k => VisitKeyWeight totalWeight k
  | MPerm p => visitPermission depth totalWeight p
  end.

Fixpoint visit_all (depth threshold totalWeight : Z) (l : list Meta) : M St bool :=
  match l with
  | [] => mret false
  | m :: l' =>
      totalWeight ← Visit depth totalWeight m;
      if threshold <=? totalWeight then mret true else visit_all depth threshold totalWeight l'
  end.

(** The deferred function puts the old [UsedKeys] back unless the authority was
    satisfied, when the body throws as well. *)
Definition SatisfiedAcd_with (authority : Authority) (depth : Z) : M St bool := fun s =>
  let oldUsedKeys := UsedKeys (checker s) in
  match visit_all depth (Threshold authority) 0 (Sort (metas authority)) s with
  | (s', Ok true) => (s', Ok true)
  | (s', r) => (used_set oldUsedKeys s', r)
  end.
End Open.

(** The body of [VisitPermissionLevelWeight], given [SatisfiedAcd]: a
    [PermissionQueryException] of the callback means that the permission does not
    exist and adds nothing; once the authority is known, [propagateError] lets
    every exception through. *)
Definition VisitPermission_with (satisfiedAcd : Authority -> Z -> M St bool)
    (depth totalWeight : Z) (permission : PermissionLevelWeight) : M St Z :=
  s ← get;
  match PermissionStatusInCache (cached s) (plPermission permission) with
  | None =>
      if depth <? RecursionDepthLimit (checker s) then
        match permissionToAuthority (plPermission permission) with
        | Throw PermissionQueryException => mret totalWeight
        | Throw e => lift (Throw e)
        | Ok auth =>
            r ← (if Threshold auth =? 0 then mret false
                 else modify (cache_set (plPermission permission) BeingEvaluated);;
                      satisfiedAcd auth (u16 (depth + 1)));
            if (r : bool) then
              modify (cache_set (plPermission permission) PermissionSatisfied);;
              mret (u32 (totalWeight + plWeight permission))
            else
              modify (cache_set (plPermission permission) PermissionUnsatisfied);;
              mret totalWeight
        end
      else mret totalWeight
  | Some PermissionSatisfied => mret (u32 (totalWeight + plWeight permission))
  | Some _ => mret totalWeight
  end.

Fixpoint VisitPermissionLevelWeight (fuel : nat) : Z -> Z -> PermissionLevelWeight -> M St Z :=
  VisitPermission_with
    match fuel with
    | O => fun _ _ => lift (Throw OutOfFuel)
    | S fuel' => SatisfiedAcd_with (VisitPermissionLevelWeight fuel')
    end.

(** One unit of fuel per level below the limit. *)
Definition enough (ac : AuthorityChecker) : nat := Z.to_nat (RecursionDepthLimit ac).

Definition cache_or_new (ac : AuthorityChecker) (cachedPerms : option PermissionCacheType) : PermissionCacheType :=
  match cachedPerms with Some c => c | None => initializePermissionCache ac ∅ end.

Definition SatisfiedAcd (authority : Authority) (cachedPerms : option PermissionCacheType) (depth : Z)
    (ac : AuthorityChecker) : St * result bool :=
  SatisfiedAcd_with (VisitPermissionLevelWeight (enough ac)) authority depth (mkSt ac (cache_or_new ac cachedPerms)).

Definition SatisfiedLc (permission : PermissionLevel) (cachedPerms : option PermissionCacheType)
    (ac : AuthorityChecker) : St * result bool :=
  (w ← Visit (VisitPermissionLevelWeight (enough ac)) 0 0 (MPerm (mkPermissionLevelWeight permission 1));
   mret (0 <? w)) (mkSt ac (cache_or_new ac cachedPerms)).

Definition SatisfiedLoc (permission : PermissionLevel) (overrideProvidedDelay : Z)
    (cachedPerms : option PermissionCacheType) (ac : AuthorityChecker) : St * result bool :=
  SatisfiedLc permission cachedPerms (set_ProvidedDelay overrideProvidedDelay ac).
End Check.

(** ** The sort *)

Lemma Less_spec a b : Less a b = (meta_weight a <? meta_weight b).
Proof.
  unfold Less. destruct (Z.ltb_spec (meta_weight a) (meta_weight b)); [done|].
  destruct (Z.ltb_spec (meta_weight b) (meta_weight a)); [done|]. by destruct b.
Qed.

(** One pass, on the list: [x] sinks below what is heavier, for [n] steps. *)
Fixpoint sink (n : nat) (x : Meta) (l : list Meta) : list Meta :=
  match n, l with
  | S n', y :: l' => if Less x y then y :: sink n' x l' else x :: sink n' y l'
  | _, _ => x :: l
  end.

Lemma compare_swap_at pre x y l :
  compare_swap (length pre) (pre ++ x :: y :: l) = pre ++ if Less x y then y :: x :: l else x :: y :: l.
Proof.
  unfold compare_swap. rewrite list_lookup_middle by done.
  rewrite (cons_middle x pre), (assoc_L (++)), list_lookup_middle by (rewrite length_app; simpl; lia).
  rewrite <- (assoc_L (++)). simpl. destruct (Less x y); [|done].
  rewrite insert_middle, (cons_middle y pre), (assoc_L (++)).
  replace (S (length pre)) with (length (pre ++ [y])) by (rewrite length_app; simpl; lia).
  by rewrite insert_middle, <- (assoc_L (++)).
Qed.

Lemma sort_inner_sink n : forall pre x l,
  (n <= length l)%nat -> sort_inner n (length pre) (pre ++ x :: l) = pre ++ sink n x l.
Proof.
  induction n as [|n IH]; intros pre x [|y l] Hn; simpl in *; try done; try lia.
  assert (Hs : forall a b, sort_inner n (S (length pre)) (pre ++ a :: b :: l) = pre ++ a :: sink n b l).
  { intros a b. replace (S (length pre)) with (length (pre ++ [a])) by (rewrite length_app; simpl; lia).
    by rewrite (cons_middle a pre (b :: l)), (cons_middle a pre (sink n b l)), !(assoc_L (++)), IH by lia. }
  rewrite compare_swap_at. by destruct (Less x y).
Qed.

Definition heavier (a b : Meta) : Prop := meta_weight b <= meta_weight a.
#[global] Instance heavier_trans : Transitive heavier.
Proof. unfold heavier. intros ???. lia. Qed.
#[global] Instance heavier_dec a b : Decision (heavier a b).
Proof. unfold heavier. apply _. Defined.

Lemma sink_perm n : forall x l, sink n x l ≡ₚ x :: l.
Proof.
  induction n as [|n IH]; intros x [|y l]; simpl; try done.
  destruct (Less x y); rewrite IH; [apply Permutation_swap|done].
Qed.

Lemma sink_stable w n : forall x l,
  filter (fun m => meta_weight m = w) (sink n x l) = filter (fun m => meta_weight m = w) (x :: l).
Proof.
  induction n as [|n IH]; intros x [|y l]; simpl; try done.
  destruct (Less x y) eqn:HL; rewrite filter_cons, IH, !filter_cons;
    rewrite Less_spec in HL; repeat case_decide; simplify_eq; try done; lia.
Qed.

(** After a pass over the first [n + 1] elements, the last of them is the lightest. *)
Lemma sink_last n : forall x l, (n <= length l)%nat ->
  exists front m, sink n x l = front ++ m :: drop n l /\ length front = n /\
    front ++ [m] ≡ₚ x :: take n l /\ Forall (fun a => heavier a m) front.
Proof.
  induction n as [|n IH]; intros x [|y l] Hn; simpl in *; try lia.
  - by exists [], x.
  - by exists [], x.
  - rewrite Less_spec.
    assert (HIH : forall z, exists front m, sink n z l = front ++ m :: drop n l /\ length front = n /\
      front ++ [m] ≡ₚ z :: take n l /\ Forall (fun a => heavier a m) front) by (intros; apply IH; lia).
    assert (Hmin : forall z front m, front ++ [m] ≡ₚ z :: take n l -> Forall (fun a => heavier a m) front -> heavier z m).
    { intros z front m Hp Hf. assert (Hz : z ∈ front ++ [m]) by (rewrite Hp; set_solver).
      apply elem_of_app in Hz as [Hz| ->%list_elem_of_singleton]; [by eapply Forall_forall in Hf|unfold heavier; lia]. }
    destruct (Z.ltb_spec (meta_weight x) (meta_weight y)).
    + destruct (HIH x) as (f & m & -> & Hl & Hp & Hf). exists (y :: f), m. simpl.
      split_and!; [done|by rewrite Hl|rewrite Hp; apply Permutation_swap|].
      constructor; [|done]. specialize (Hmin _ _ _ Hp Hf). unfold heavier in *. lia.
    + destruct (HIH y) as (f & m & -> & Hl & Hp & Hf). exists (x :: f), m. simpl.
      split_and!; [done|by rewrite Hl|by rewrite Hp|].
      constructor; [|done]. specialize (Hmin _ _ _ Hp Hf). unfold heavier in *. lia.
Qed.

Lemma sort_outer_cons n x l :
  (S n <= length l)%nat -> sort_outer (S n) (x :: l) = sort_outer n (sink (S n) x l).
Proof.
  intros Hn. change (sort_outer (S n) (x :: l)) with (sort_outer n (sort_inner (S n) 0 (x :: l))).
  f_equal. by apply (sort_inner_sink (S n) []).
Qed.

Lemma sink_cons n x l : exists y l', sink n x l = y :: l'.
Proof. destruct n, l as [|z l]; simpl; eauto. destruct (Less x z); eauto. Qed.

Lemma sort_outer_keeps n : forall m, (n < length m)%nat ->
  sort_outer n m ≡ₚ m /\
  forall w, filter (fun a => meta_weight a = w) (sort_outer n m) = filter (fun a => meta_weight a = w) m.
Proof.
  induction n as [|n IH]; intros [|x l] Hn; simpl length in Hn; try lia; [done..|].
  rewrite sort_outer_cons by lia.
  destruct (IH (sink (S n) x l)) as [Hp Hf]; [rewrite (Permutation_length (sink_perm (S n) x l)); simpl; lia|].
  split; [by rewrite Hp, sink_perm|intros w; by rewrite Hf, sink_stable].
Qed.

(** What [i] passes leave: the last elements are final. *)
Lemma sort_outer_sorted n : forall front back, length front = S n ->
  StronglySorted heavier back -> (forall a b, a ∈ front -> b ∈ back -> heavier a b) ->
  StronglySorted heavier (sort_outer n (front ++ back)).
Proof.
  induction n as [|n IH]; intros [|x f] back Hl Hs Hfb; simpl in Hl; try lia.
  - destruct f; [|done]. simpl. constructor; [done|]. apply Forall_forall. intros b Hb. apply Hfb; set_solver.
  - simpl app. rewrite sort_outer_cons by (rewrite length_app; lia).
    destruct (sink_last (S n) x (f ++ back)) as (front' & m & -> & Hl' & Hp & Hm); [rewrite length_app; lia|].
    rewrite drop_app_length', take_app_length' in * by lia.
    assert (Hin : forall a, a ∈ front' ++ [m] -> a ∈ x :: f) by (intros a; by rewrite Hp).
    apply IH; [done| |].
    + constructor; [done|]. apply Forall_forall. intros b Hb. apply Hfb; [apply Hin; set_solver|done].
    + intros a b Ha [->|Hb]%elem_of_cons; [by eapply Forall_forall in Hm|].
      apply Hfb; [apply Hin; set_solver|done].
Qed.

Lemma Sort_nil : Sort [] = [].
Proof. done. Qed.

Lemma Sort_perm l : Sort l ≡ₚ l.
Proof. destruct l as [|x l]; [done|]. apply sort_outer_keeps. simpl. lia. Qed.

(** ** [Validate] *)

Definition weights {A} (w : A -> Z) (l : list A) : Z := foldr (fun a t => w a + t) 0 l.

Lemma weights_app {A} (w : A -> Z) l1 l2 : weights w (l1 ++ l2) = weights w l1 + weights w l2.
Proof. induction l1 as [|a l IH]; simpl; [done|]. rewrite IH. lia. Qed.

Lemma weights_bounds {A} (w : A -> Z) l :
  Forall (fun a => in_u 16 (w a)) l -> 0 <= weights w l <= 65535 * len l.
Proof.
  unfold len, in_u. induction 1 as [|a l Ha _ IH]; simpl; [done|]. lia.
Qed.

Lemma weights_nonneg {A} (w : A -> Z) l : Forall (fun a => 0 <= w a) l -> 0 <= weights w l.
Proof. induction 1; simpl; lia. Qed.

#[global] Instance weights_proper {A} (w : A -> Z) : Proper ((≡ₚ) ==> (=)) (weights w).
Proof. intros l l'. induction 1; simpl; lia. Qed.

Lemma weights_submseteq {A} (w : A -> Z) l1 l2 :
  Forall (fun a => 0 <= w a) l2 -> l1 ⊆+ l2 -> weights w l1 <= weights w l2.
Proof.
  intros Hw [l3 Hp]%submseteq_Permutation. rewrite Hp, weights_app.
  enough (0 <= weights w l3) by lia. apply weights_nonneg. rewrite Hp in Hw. by apply Forall_app in Hw as [_ ?].
Qed.

Definition chained {A} (ordered : A -> A -> bool) (prev : option A) (l : list A) : Prop :=
  Sorted (fun a b => ordered a b = true) (match prev with Some p => p :: l | None => l end).

Lemma validate_loop_spec {A} (ordered : A -> A -> bool) (weight : A -> Z) l : forall prev t t',
  Forall (fun a => in_u 16 (weight a)) l -> 0 <= t -> t + 65535 * len l < 2 ^ 32 ->
  validate_loop ordered weight prev l t = Some t' <-> chained ordered prev l /\ t' = t + weights weight l.
Proof.
  unfold chained. induction l as [|a l IH]; intros prev t t' Hw Ht Hb; simpl.
  - rewrite Z.add_0_r. assert (Sorted (fun a b => ordered a b = true) (match prev with Some p => [p] | None => [] end))
      by (destruct prev; repeat constructor). naive_solver.
  - inversion_clear Hw as [|?? Ha Hl]. assert (Hc : len (a :: l) = len l + 1) by (unfold len; simpl; lia). rewrite Hc in Hb. unfold in_u in Ha.
    assert (Hl0 : 0 <= len l) by (unfold len; lia).
    rewrite uwrap_id by (unfold in_u; lia).
    specialize (IH (Some a) (t + weight a) t' Hl ltac:(lia) ltac:(lia)). simpl in IH.
    destruct prev as [p|]; [destruct (ordered p a) eqn:Ho|]; simpl; rewrite ?IH.
    + split; intros [Hs ->]; (split; [|lia]); [by apply Sorted_cons; [|apply HdRel_cons]|by inversion Hs].
    + split; [done|]. intros [Hs _]. inversion_clear Hs as [|?? _ Hh]. inversion_clear Hh. congruence.
    + split; intros [Hs ->]; (split; [done|lia]).
Qed.

#[global] Instance key_before_trans : Transitive (fun a b => key_before a b = true).
Proof.
  intros a b c. unfold key_before. rewrite !Z.eqb_eq. apply Ecc.ComparePubKey_trans.
Qed.

Lemma ComparePermissionLevel_lt p q :
  ComparePermissionLevel p q = -1 <-> Actor p < Actor q \/ Actor p = Actor q /\ Permission p < Permission q.
Proof.
  unfold ComparePermissionLevel.
  repeat match goal with |- context [?a <? ?b] => destruct (Z.ltb_spec a b) end; lia.
Qed.

#[global] Instance account_before_trans : Transitive (fun a b => account_before a b = true).
Proof.
  intros a b c. unfold account_before. rewrite !Z.eqb_eq, !ComparePermissionLevel_lt. lia.
Qed.

#[global] Instance wait_before_trans : Transitive (fun a b => wait_before a b = true).
Proof. intros a b c. unfold wait_before. rewrite !negb_true_iff, !Z.leb_gt. lia. Qed.

(** A loop of [Validate] followed by the rest [k] of the function. *)
Lemma validate_loop_then {A} (ordered : A -> A -> bool) (R : relation A) (weight : A -> Z) l t (k : Z -> bool) :
  Transitive (fun a b => ordered a b = true) -> (forall a b, ordered a b = true <-> R a b) ->
  Forall (fun a => in_u 16 (weight a)) l -> 0 <= t -> t + 65535 * len l < 2 ^ 32 ->
  (match validate_loop ordered weight None l t with None => false | Some t' => k t' end) = true <->
  StronglySorted R l /\ k (t + weights weight l) = true.
Proof.
  intros Htr HR Hw Ht Hb.
  assert (Hs : chained ordered None l <-> StronglySorted R l).
  { transitivity (StronglySorted (fun a b => ordered a b = true) l).
    - split; [apply Sorted_StronglySorted; exact Htr|apply StronglySorted_Sorted].
    - clear -HR. split; (induction 1 as [|a l' _ IH Hf]; [constructor|]); constructor;
        try done; eapply Forall_impl; try exact Hf; apply HR. }
  pose proof (validate_loop_spec ordered weight l None t) as Hspec.
  destruct (validate_loop ordered weight None l t) as [t'|].
  - destruct (proj1 (Hspec t' Hw Ht Hb) eq_refl) as [Hc ->]. tauto.
  - split; [done|]. intros [Hss _]. apply Hs in Hss.
    by pose proof (proj2 (Hspec _ Hw Ht Hb) (conj Hss eq_refl)).
Qed.

(** The fields of an authority fit the types of the source. *)
Record auth_wf (a : Authority) : Prop := {
  wf_threshold : in_u 32 (Threshold a);
  wf_keys : Forall (fun k => in_u 16 (kwWeight k)) (Keys a);
  wf_accounts : Forall (fun p => in_u 16 (plWeight p)) (Accounts a);
  wf_waits : Forall (fun w => in_u 16 (wwWeight w)) (Waits a) }.

Definition total_weight (a : Authority) : Z :=
  weights kwWeight (Keys a) + weights plWeight (Accounts a) + weights wwWeight (Waits a).

Lemma metas_weight a : weights meta_weight (metas a) = total_weight a.
Proof.
  unfold metas, total_weight. rewrite !weights_app.
  assert (Hm : forall B (f : B -> Meta) l, weights meta_weight (map f l) = weights (fun b => meta_weight (f b)) l)
    by (intros B f l; induction l; simpl; congruence).
  rewrite !Hm. simpl. unfold weights. lia.
Qed.

(** ** What a permission's satisfaction means *)

Section Meaning.
Variable permissionToAuthority : PermissionLevel -> result Authority.
Variables (keys : list Ecc.PublicKey) (permissions : list PermissionLevel) (delay : Z).

(** A permission is satisfied when it is provided, when the actor's empty
    permission is, or when factors of its authority, each of them met, weigh as
    much as the threshold.  The definition knows nothing of caches, depths or
    orders of evaluation. *)
Inductive satisfied : PermissionLevel -> Prop :=
| sat_provided p : p ∈ permissions -> satisfied p
| sat_any p : satisfied (mkPermissionLevel (Actor p) 0) -> satisfied p
| sat_authority p a ms :
    permissionToAuthority p = Ok a -> Threshold a <> 0 -> ms ⊆+ metas a ->
    (forall w, MWait w ∈ ms -> Seconds (WaitSec w) <= delay) ->
    (forall k, MKey k ∈ ms -> kwKey k ∈ keys) ->
    (forall x, MPerm x ∈ ms -> satisfied (plPermission x)) ->
    Threshold a <= weights meta_weight ms -> satisfied p.

Definition gains (m : Meta) : Prop :=
  match m with
  | MWait w => Seconds (WaitSec w) <= delay
  | MKey k => kwKey k ∈ keys
  | MPerm x => satisfied (plPermission x)
  end.

Lemma satisfied_by p a ms :
  permissionToAuthority p = Ok a -> Threshold a <> 0 -> ms ⊆+ metas a -> Forall gains ms ->
  Threshold a <= weights meta_weight ms -> satisfied p.
Proof.
  intros Hp Ht Hs Hg Hw. rewrite Forall_forall in Hg. eapply sat_authority; try done; intros ? Hin; by apply Hg in Hin.
Qed.

Record ok_state (s : St) : Prop := {
  given_keys : ProvidedKeys (checker s) = keys;
  given_delay : ProvidedDelay (checker s) = delay;
  given_permissions : ProvidedPermissions (checker s) = permissions;
  cache_sound : forall p, cached s !! p = Some PermissionSatisfied -> satisfied p }.

Lemma ok_state_used s u : ok_state s -> ok_state (used_set u s).
Proof. intros []. by split. Qed.

Lemma ok_state_cache s p c : ok_state s -> (c = PermissionSatisfied -> satisfied p) -> ok_state (cache_set p c s).
Proof.
  intros [Hk Hd Hg Hc] Hp. split; [done..|]. intros q. simpl.
  destruct (decide (q = p)) as [->|]; [rewrite lookup_insert_eq; naive_solver|rewrite lookup_insert_ne by done; apply Hc].
Qed.

(** A visit leaves the state sound and adds a factor's weight only when the
    factor is met. *)
Definition visit_sound {A} (weight : A -> Z) (met : A -> Prop) (visit : Z -> A -> M St Z) : Prop :=
  forall total a s s' r, ok_state s -> visit total a s = (s', r) ->
    ok_state s' /\ forall t, r = Ok t -> t = total \/ t = u32 (total + weight a) /\ met a.

Lemma VisitWaitWeight_sound : visit_sound wwWeight (fun w => gains (MWait w)) VisitWaitWeight.
Proof.
  intros total w s s' r Hs H. unfold VisitWaitWeight in H. simpl in H. injection H as <- <-.
  split; [done|]. intros t [= <-]. rewrite (given_delay _ Hs).
  destruct (Z.leb_spec (Seconds (WaitSec w)) delay); auto.
Qed.

Lemma find_provided_spec ks key : forall i,
  match find_provided ks key i with
  | Some j => exists n, j = (i + n)%nat /\ ks !! n = Some key
  | None => key ∉ ks
  end.
Proof.
  induction ks as [|k ks IH]; intros i; simpl; [set_solver|].
  destruct (Ecc.Compare k key) eqn:Hc.
  - apply Ecc.PubKey_Compare_spec in Hc as ->. exists 0%nat. split; [lia|done].
  - specialize (IH (S i)). destruct (find_provided ks key (S i)).
    + destruct IH as (m & -> & Hm). exists (S m). split; [lia|done].
    + assert (k <> key) by (intros E; apply Ecc.PubKey_Compare_spec in E; congruence). set_solver.
Qed.

Lemma VisitKeyWeight_sound : visit_sound kwWeight (fun k => gains (MKey k)) VisitKeyWeight.
Proof.
  intros total k s s' r Hs H. unfold VisitKeyWeight, mbind, M_bind, get in H. rewrite (given_keys _ Hs) in H.
  pose proof (find_provided_spec keys (kwKey k) 0) as Hf.
  destruct (find_provided keys (kwKey k) 0) as [i|]; [destruct (_ <? _)%nat|]; simpl in H; injection H as <- <-.
  - split; [by apply ok_state_used|]. intros t [= <-]. right. split; [done|].
    destruct Hf as (n & _ & Hn). by eapply list_elem_of_lookup_2.
  - by split.
  - split; [done|]. intros t [= <-]. by left.
Qed.

Lemma Visit_sound visitPermission depth :
  visit_sound plWeight (fun x => gains (MPerm x)) (visitPermission depth) ->
  visit_sound meta_weight gains (Visit visitPermission depth).
Proof.
  intros Hv total [w|k|x] s s' r Hs H; simpl in H.
  - by eapply VisitWaitWeight_sound.
  - by eapply VisitKeyWeight_sound.
  - by eapply Hv.
Qed.

Lemma u32_le z : 0 <= z -> 0 <= u32 z <= z.
Proof. intros. unfold uwrap. split; [by apply Z.mod_pos_bound|by apply Z.mod_le]. Qed.

(** What the running total of [visit_all] stands for: factors [got] already met. *)
Lemma visit_all_sound visitPermission depth threshold l :
  visit_sound plWeight (fun x => gains (MPerm x)) (visitPermission depth) ->
  Forall (fun m => 0 <= meta_weight m) l ->
  forall total got s s' r, ok_state s -> 0 <= total <= weights meta_weight got -> Forall gains got ->
  visit_all visitPermission depth threshold total l s = (s', r) ->
  ok_state s' /\ (r = Ok true -> exists ms, ms ⊆+ l /\ Forall gains ms /\ threshold <= weights meta_weight (ms ++ got)).
Proof.
  intros Hv. induction 1 as [|m l Hm _ IH]; intros total got s s' r Hs Ht Hg H; simpl in H.
  { injection H as <- <-. done. }
  unfold mbind, M_bind in H. destruct (Visit visitPermission depth total m s) as [s1 [t|e]] eqn:E;
    destruct (Visit_sound _ _ Hv _ _ _ _ _ Hs E) as [Hs1 Hgain]; [|by injection H as <- <-].
  assert (Hstep : exists got', Forall gains got' /\ 0 <= t <= weights meta_weight got' /\ exists ex, got' = ex ++ got /\ ex ⊆+ [m]).
  { destruct (Hgain t eq_refl) as [->|[-> Hmet]].
    - exists got. split_and!; [done|lia|lia|]. exists []. split; [done|apply submseteq_nil_l].
    - exists (m :: got). split; [by constructor|]. pose proof (u32_le (total + meta_weight m)). simpl.
      split; [lia|]. by exists [m]. }
  destruct Hstep as (got' & Hg' & Ht' & ex & -> & Hex). apply Forall_app in Hg' as Hgs. destruct Hgs as [Hgx _].
  destruct (Z.leb_spec threshold t).
  - injection H as <- <-. split; [done|]. intros _. exists ex. split_and!; [|done|lia].
    change (m :: l) with ([m] ++ l). by apply submseteq_inserts_r.
  - destruct (IH _ _ _ _ _ Hs1 Ht' Hg' H) as [Hs' Hr]. split; [done|]. intros Hok.
    destruct (Hr Hok) as (ms & Hms & Hgm & Hw). exists (ex ++ ms).
    split_and!; [change (m :: l) with ([m] ++ l); by apply submseteq_app|by apply Forall_app|].
    by rewrite (Permutation_app_comm ex), <- (assoc_L (++)).
Qed.

Hypothesis authorities_wf : forall p a, permissionToAuthority p = Ok a -> auth_wf a.

Lemma metas_nonneg a : auth_wf a -> Forall (fun m => 0 <= meta_weight m) (metas a).
Proof.
  intros [_ Hk Ha Hw]. unfold metas. rewrite !Forall_app, !Forall_map.
  split_and!; eapply Forall_impl; try done; simpl; unfold in_u; lia.
Qed.

Lemma SatisfiedAcd_sound visitPermission depth a s s' r :
  visit_sound plWeight (fun x => gains (MPerm x)) (visitPermission depth) -> auth_wf a -> ok_state s ->
  SatisfiedAcd_with visitPermission a depth s = (s', r) ->
  ok_state s' /\ (r = Ok true -> exists ms, ms ⊆+ metas a /\ Forall gains ms /\ Threshold a <= weights meta_weight ms).
Proof.
  intros Hv Ha Hs H. unfold SatisfiedAcd_with in H.
  destruct (visit_all _ _ _ _ _ s) as [s1 r1] eqn:E.
  destruct (visit_all_sound visitPermission depth (Threshold a) (Sort (metas a)) Hv) with (total := 0) (got := @nil Meta)
    (s := s) (s' := s1) (r := r1) as [Hs1 Hr]; try done.
  { rewrite Sort_perm. by apply metas_nonneg. }
  assert (Hr' : r1 = Ok true -> exists ms, ms ⊆+ metas a /\ Forall gains ms /\ Threshold a <= weights meta_weight ms).
  { intros Ho. destruct (Hr Ho) as (ms & Hms & Hg & Hw). exists ms. rewrite app_nil_r in Hw.
    split_and!; [by rewrite <- (Sort_perm (metas a))|done|done]. }
  destruct r1 as [[]|]; injection H as <- <-; auto using ok_state_used.
Qed.

Lemma VisitPermission_with_sound satisfiedAcd depth :
  (forall a s s' r, auth_wf a -> ok_state s -> satisfiedAcd a (u16 (depth + 1)) s = (s', r) ->
     ok_state s' /\ (r = Ok true -> exists ms, ms ⊆+ metas a /\ Forall gains ms /\ Threshold a <= weights meta_weight ms)) ->
  visit_sound plWeight (fun x => gains (MPerm x)) (VisitPermission_with permissionToAuthority satisfiedAcd depth).
Proof.
  intros Hacd total x s s' r Hs H. unfold VisitPermission_with, mbind, M_bind, get, lift, mret, M_ret, modify in H.
  destruct (PermissionStatusInCache (cached s) (plPermission x)) as [st|] eqn:Hst.
  { assert (Hsat : st = PermissionSatisfied -> gains (MPerm x)).
    { intros ->. unfold PermissionStatusInCache in Hst. simpl.
      destruct (cached s !! plPermission x) eqn:Hc; [simplify_eq; by apply (cache_sound _ Hs)|].
      by apply sat_any, (cache_sound _ Hs). }
    destruct st; injection H as <- <-; (split; [done|]); intros t [= <-]; auto. }
  destruct (_ <? _); [|injection H as <- <-; split; [done|]; intros t [= <-]; by left].
  destruct (permissionToAuthority (plPermission x)) as [a|e] eqn:Ha.
  - destruct (Z.eqb_spec (Threshold a) 0) as [|Ht].
    { injection H as <- <-. split; [by apply ok_state_cache|]. intros t [= <-]. by left. }
    destruct (satisfiedAcd a _ _) as [s1 [[]|]] eqn:E;
      (destruct (Hacd a _ _ _ (authorities_wf _ _ Ha) (ok_state_cache s _ BeingEvaluated Hs ltac:(done)) E) as [Hs1 Hr]);
      injection H as <- <-.
    + destruct (Hr eq_refl) as (ms & Hms & Hg & Hw). assert (Hsat : satisfied (plPermission x)) by by eapply satisfied_by.
      split; [by apply ok_state_cache|]. intros t [= <-]. by right.
    + split; [by apply ok_state_cache|]. intros t [= <-]. by left.
    + split; [done|]. done.
  - destruct e; injection H as <- <-; (split; [done|]); intros t [= <-]; by left.
Qed.

Lemma VisitPermissionLevelWeight_sound fuel : forall depth,
  visit_sound plWeight (fun x => gains (MPerm x)) (VisitPermissionLevelWeight permissionToAuthority fuel depth).
Proof.
  induction fuel as [|fuel IH]; intros depth; apply VisitPermission_with_sound; intros a s s' r Ha Hs H.
  - injection H as <- <-. split; [done|]. done.
  - eapply SatisfiedAcd_sound; eauto.
Qed.

Lemma initial_cache_sound ac p :
  ProvidedPermissions ac = permissions -> initializePermissionCache ac ∅ !! p = Some PermissionSatisfied -> p ∈ permissions.
Proof.
  unfold initializePermissionCache. intros ->.
  assert (Hg : forall l (c : PermissionCacheType), foldl (fun c p => <[p := PermissionSatisfied]> c) c l !! p = Some PermissionSatisfied ->
    c !! p = Some PermissionSatisfied \/ p ∈ l).
  { induction l as [|q l IH]; simpl; intros c H; [by left|]. apply IH in H as [H|H]; [|set_solver].
    destruct (decide (p = q)) as [->|]; [set_solver|]. rewrite lookup_insert_ne in H by done. by left. }
  intros [H|H]%Hg; [by rewrite lookup_empty in H|done].
Qed.
End Meaning.

(** ** Totality, and what happens to [UsedKeys] *)

(** Two states of one check: the inputs are the same, the flags of used keys are
    as many and none was cleared. *)
Record steady (s s' : St) : Prop := {
  st_keys : ProvidedKeys (checker s') = ProvidedKeys (checker s);
  st_perms : ProvidedPermissions (checker s') = ProvidedPermissions (checker s);
  st_delay : ProvidedDelay (checker s') = ProvidedDelay (checker s);
  st_limit : RecursionDepthLimit (checker s') = RecursionDepthLimit (checker s);
  st_length : length (UsedKeys (checker s')) = length (UsedKeys (checker s));
  st_flags : forall i, UsedKeys (checker s) !! i = Some true -> UsedKeys (checker s') !! i = Some true }.

#[global] Instance steady_preorder : PreOrder steady.
Proof.
  split; [by split|]. intros s1 s2 s3 [] []. split; try congruence. auto.
Qed.

Lemma steady_cache s p c : steady s (cache_set p c s).
Proof. by split. Qed.

Definition ready (s : St) : Prop :=
  length (UsedKeys (checker s)) = length (ProvidedKeys (checker s)) /\ in_u 16 (RecursionDepthLimit (checker s)).

Lemma steady_ready s s' : steady s s' -> ready s -> ready s'.
Proof. intros [Hk _ _ Hl Hu _] [H1 H2]. unfold ready. by rewrite Hk, Hl, Hu. Qed.

Section Total.
Variable permissionToAuthority : PermissionLevel -> result Authority.
(** The callback's only exception is that of a permission that does not exist. *)
Hypothesis query_only : forall p e, permissionToAuthority p = Throw e -> e = PermissionQueryException.

Definition visit_total {A} (visit : Z -> A -> M St Z) (s : St) : Prop :=
  forall total a, exists s' t, visit total a s = (s', Ok t) /\ steady s s'.

Lemma VisitWaitWeight_total s : visit_total VisitWaitWeight s.
Proof. intros total w. by eexists _, _. Qed.

Lemma VisitKeyWeight_total s : ready s -> visit_total VisitKeyWeight s.
Proof.
  intros [Hl _] total k. unfold VisitKeyWeight, mbind, M_bind, get.
  pose proof (find_provided_spec (ProvidedKeys (checker s)) (kwKey k) 0) as Hf.
  destruct (find_provided _ _ 0) as [i|]; [|by eexists _, _].
  destruct Hf as (n & -> & Hn%lookup_lt_Some). simpl.
  rewrite (proj2 (Nat.ltb_lt _ _)) by lia. eexists _, _. split; [done|].
  split; simpl; try done; [by rewrite length_insert|]. intros j Hj.
  destruct (decide (j = n)) as [->|]; [rewrite list_lookup_insert_eq; [done|lia]|by rewrite list_lookup_insert_ne].
Qed.

(** The visit of accounts at a depth is total on every state of the check. *)
Definition total_at (visitPermission : Z -> Z -> PermissionLevelWeight -> M St Z) (depth : Z) (limit : Z) : Prop :=
  forall s, ready s -> RecursionDepthLimit (checker s) = limit -> visit_total (visitPermission depth) s.

Lemma visit_all_total visitPermission depth threshold limit l :
  total_at visitPermission depth limit -> forall total s, ready s -> RecursionDepthLimit (checker s) = limit ->
  exists s' b, visit_all visitPermission depth threshold total l s = (s', Ok b) /\ steady s s'.
Proof.
  intros Hv. induction l as [|m l IH]; intros total s Hs Hlim; cbn [visit_all]; [by eexists _, _|].
  unfold mbind, M_bind.
  assert (Hm : visit_total (Visit visitPermission depth) s).
  { intros t [w|k|x]; [apply VisitWaitWeight_total|by apply VisitKeyWeight_total|by apply Hv]. }
  destruct (Hm total m) as (s1 & t & -> & Hst). destruct (threshold <=? t); [by eexists _, _|].
  destruct (IH t s1 (steady_ready _ _ Hst Hs)) as (s' & b & -> & Hst'); [by rewrite (st_limit _ _ Hst)|].
  exists s', b. split; [done|]. by etrans.
Qed.

Lemma SatisfiedAcd_total visitPermission depth limit a s :
  total_at visitPermission depth limit -> ready s -> RecursionDepthLimit (checker s) = limit ->
  exists s' b, SatisfiedAcd_with visitPermission a depth s = (s', Ok b) /\ steady s s' /\
    (b = false -> UsedKeys (checker s') = UsedKeys (checker s)).
Proof.
  intros Hv Hs Hlim. unfold SatisfiedAcd_with.
  destruct (visit_all_total _ _ (Threshold a) _ (Sort (metas a)) Hv 0 s Hs Hlim) as (s' & b & -> & Hst).
  exists (if b then s' else used_set (UsedKeys (checker s)) s'), b.
  destruct b; (split; [done|]); [done|]. destruct Hst. by split.
Qed.

Lemma VisitPermission_with_total satisfiedAcd depth s total x :
  (forall a s1, depth < RecursionDepthLimit (checker s) -> steady s s1 ->
     exists s' b, satisfiedAcd a (u16 (depth + 1)) s1 = (s', Ok b) /\ steady s1 s' /\
       (b = false -> UsedKeys (checker s') = UsedKeys (checker s1))) ->
  exists s' t, VisitPermission_with permissionToAuthority satisfiedAcd depth total x s = (s', Ok t) /\ steady s s' /\
    (t = total /\ UsedKeys (checker s') = UsedKeys (checker s) \/ t = u32 (total + plWeight x)).
Proof.
  intros Hacd. unfold VisitPermission_with, mbind, M_bind, get, lift, mret, M_ret, modify.
  destruct (PermissionStatusInCache _ _) as [[]|]; [by eexists _, _; split_and!; auto..|].
  destruct (Z.ltb_spec depth (RecursionDepthLimit (checker s))) as [Hd|]; [|by eexists _, _; split_and!; auto].
  destruct (permissionToAuthority (plPermission x)) as [a|e] eqn:Ha.
  - destruct (Threshold a =? 0); [eexists _, _; split; [done|]; split; [apply steady_cache|by left]|].
    destruct (Hacd a _ Hd (steady_cache s (plPermission x) BeingEvaluated)) as (s1 & b & -> & Hst & Hu).
    assert (Hst' : steady s s1) by (etrans; [apply steady_cache|done]).
    destruct b; eexists _, _; (split; [done|]); (split; [etrans; [done|apply steady_cache]|]); [by right|].
    left. split; [done|]. simpl. by rewrite Hu.
  - apply query_only in Ha as ->. by eexists _, _; split_and!; auto.
Qed.

(** The fuel [limit - depth] is enough. *)
Lemma VisitPermissionLevelWeight_total fuel : forall depth limit,
  0 <= depth -> limit - depth <= Z.of_nat fuel -> forall s total x, ready s -> RecursionDepthLimit (checker s) = limit ->
  exists s' t, VisitPermissionLevelWeight permissionToAuthority fuel depth total x s = (s', Ok t) /\ steady s s' /\
    (t = total /\ UsedKeys (checker s') = UsedKeys (checker s) \/ t = u32 (total + plWeight x)).
Proof.
  induction fuel as [|fuel IH]; intros depth limit Hd Hf s total x Hs Hlim;
    apply VisitPermission_with_total; intros a s1 Hlt Hst; [lia|].
  pose proof (steady_ready _ _ Hst Hs) as Hs1. destruct Hs as [_ Hb]. unfold in_u in Hb.
  assert (Hw : u16 (depth + 1) = depth + 1) by (apply uwrap_id; unfold in_u; lia).
  eapply SatisfiedAcd_total; [|done|done]. intros s2 Hs2 Hl2 t y. rewrite Hw.
  fold (VisitPermissionLevelWeight permissionToAuthority).
  destruct (IH (depth + 1) limit ltac:(lia) ltac:(lia) s2 t y Hs2) as (s' & t' & -> & Hst' & _); [|by eexists _, _].
  rewrite Hl2, (st_limit _ _ Hst). done.
Qed.
End Total.

(** ** Authorities without accounts *)

Definition available (ac : AuthorityChecker) (m : Meta) : bool :=
  match m with
  | MWait w => Seconds (WaitSec w) <=? ProvidedDelay ac
  | MKey k => bool_decide (kwKey k ∈ ProvidedKeys ac)
  | MPerm _ => false
  end.

Definition available_weight (ac : AuthorityChecker) (l : list Meta) : Z :=
  weights (fun m => if available ac m then meta_weight m else 0) l.

Definition is_account (m : Meta) : bool := match m with MPerm _ => true | _ => false end.

Lemma available_steady s s' m : steady s s' -> available (checker s') m = available (checker s) m.
Proof. intros [Hk _ Hd _ _ _]. destruct m; simpl; by rewrite ?Hk, ?Hd. Qed.

Lemma available_weight_steady s s' l :
  steady s s' -> available_weight (checker s') l = available_weight (checker s) l.
Proof.
  intros Hst. unfold available_weight. induction l as [|m l IH]; simpl; [done|].
  by rewrite IH, (available_steady s s').
Qed.

Lemma available_weight_nonneg ac l : Forall (fun m => 0 <= meta_weight m) l -> 0 <= available_weight ac l.
Proof. induction 1 as [|m l Hm _ IH]; simpl; [done|]. unfold available_weight in *. simpl. destruct (available ac m); lia. Qed.

Lemma Visit_flat visitPermission depth total m s :
  ready s -> is_account m = false ->
  exists s', Visit visitPermission depth total m s =
    (s', Ok (if available (checker s) m then u32 (total + meta_weight m) else total)) /\ steady s s'.
Proof.
  intros Hs Hm. destruct m as [w|k|x]; [|clear Hm|done].
  - simpl. by eexists.
  - destruct (VisitKeyWeight_total s Hs total k) as (s' & t & E & Hst). exists s'. cbn [Visit]. rewrite E.
    split; [|done]. do 2 f_equal. revert E. unfold VisitKeyWeight, mbind, M_bind, get. cbn [available meta_weight].
    pose proof (find_provided_spec (ProvidedKeys (checker s)) (kwKey k) 0) as Hf.
    destruct (find_provided _ _ 0) as [i|].
    + destruct Hf as (n & -> & Hn%list_elem_of_lookup_2). rewrite bool_decide_true by done.
      destruct (_ <? _)%nat; [|done]. by intros [= <- <-].
    + rewrite bool_decide_false by done. by intros [= <- <-].
Qed.

Lemma visit_all_flat visitPermission depth threshold l : forall total s,
  ready s -> Forall (fun m => is_account m = false) l -> Forall (fun m => 0 <= meta_weight m) l ->
  0 <= total < threshold -> total + weights meta_weight l < 2 ^ 32 ->
  exists s', visit_all visitPermission depth threshold total l s =
    (s', Ok (threshold <=? total + available_weight (checker s) l)) /\ steady s s'.
Proof.
  induction l as [|m l IH]; intros total s Hs Ha Hw Ht Hb; cbn [visit_all].
  { exists s. unfold available_weight. simpl. by rewrite (proj2 (Z.leb_gt _ _)) by lia. }
  inversion_clear Ha as [|?? Hm Hl]. inversion_clear Hw as [|?? Hm0 Hl0]. cbn [weights foldr] in Hb. fold (weights meta_weight l) in Hb.
  unfold mbind, M_bind. destruct (Visit_flat visitPermission depth total m s Hs Hm) as (s1 & -> & Hst).
  pose proof (weights_nonneg _ _ Hl0). pose proof (available_weight_nonneg (checker s) l Hl0) as Hav.
  assert (Hc : available_weight (checker s) (m :: l) =
    (if available (checker s) m then meta_weight m else 0) + available_weight (checker s) l) by done.
  rewrite Hc. clear Hc. set (t := if available (checker s) m then u32 (total + meta_weight m) else total).
  assert (Et : t = total + if available (checker s) m then meta_weight m else 0).
  { unfold t. destruct (available _ m); [apply uwrap_id; unfold in_u; lia|lia]. }
  assert (total <= t <= total + meta_weight m) by (destruct (available _ m); lia).
  destruct (Z.leb_spec threshold t).
  - exists s1. split; [|done]. by rewrite (proj2 (Z.leb_le _ _)) by lia.
  - destruct (IH t s1) as (s' & -> & Hst'); [by eapply steady_ready|done|done|lia|lia|].
    exists s'. split; [|by etrans]. rewrite (available_weight_steady _ _ _ Hst). do 3 f_equal. lia.
Qed.

Lemma flat_metas a : Accounts a = [] -> Forall (fun m => is_account m = false) (metas a).
Proof.
  intros Ha. unfold metas. rewrite Ha, !Forall_app, !Forall_map. split_and!; [by apply Forall_true..|constructor].
Qed.

Lemma total_weight_bound a :
  auth_wf a -> len (Accounts a) + len (Keys a) + len (Waits a) <= 2 ^ 16 -> 0 <= total_weight a < 2 ^ 32.
Proof.
  intros [_ Hk Ha Hw] Hc. apply weights_bounds in Hk, Ha, Hw. unfold total_weight. lia.
Qed.

#[global] Instance available_weight_proper ac : Proper ((≡ₚ) ==> (=)) (available_weight ac).
Proof. intros l l' Hl. unfold available_weight. by rewrite Hl. Qed.

(** ** Properties *)

(** [Validate] accepts an authority exactly when it has at most 65536 factors, a
    threshold that is not 0, keys, accounts and waits each strictly ascending (so
    without duplicates), and factors that weigh at least the threshold.  The total is
    the integer sum: with that many 16-bit weights the [uint32] never wraps. *)
Theorem validate_exact a :
  auth_wf a ->
  Validate a = true <->
  len (Accounts a) + len (Keys a) + len (Waits a) <= 2 ^ 16 /\ Threshold a <> 0 /\
  StronglySorted (fun k k' => Ecc.ComparePubKey (kwKey k) (kwKey k') = -1) (Keys a) /\
  StronglySorted (fun p q => ComparePermissionLevel (plPermission p) (plPermission q) = -1) (Accounts a) /\
  StronglySorted (fun w w' => WaitSec w < WaitSec w') (Waits a) /\
  Threshold a <= total_weight a.
Proof.
  intros [Ht Hk Ha Hw]. unfold Validate. change (Z.shiftl 1 16) with (2 ^ 16).
  destruct (Z.ltb_spec (2 ^ 16) (len (Accounts a) + len (Keys a) + len (Waits a))); [split; [done|lia]|].
  destruct (Z.eqb_spec (Threshold a) 0); [naive_solver|].
  pose proof (weights_bounds _ _ Hk) as Bk. pose proof (weights_bounds _ _ Ha) as Ba.
  assert (0 <= len (Accounts a) /\ 0 <= len (Keys a) /\ 0 <= len (Waits a)) by (unfold len; lia).
  rewrite (validate_loop_then key_before (fun k k' => Ecc.ComparePubKey (kwKey k) (kwKey k') = -1));
    [|tc_solve|intros; apply Z.eqb_eq|done|lia|lia].
  rewrite (validate_loop_then account_before (fun p q => ComparePermissionLevel (plPermission p) (plPermission q) = -1));
    [|tc_solve|intros; apply Z.eqb_eq|done|lia|lia].
  rewrite (validate_loop_then wait_before (fun w w' => WaitSec w < WaitSec w'));
    [|tc_solve|intros; unfold wait_before; by rewrite negb_true_iff, Z.leb_gt|done|lia|lia].
  rewrite Z.leb_le, Z.add_0_l. unfold total_weight. tauto.
Qed.

Definition one_key (n : Z) : Ecc.PublicKey := Ecc.mkPublicKey 0 (replicate 32 0 ++ [n]).
Definition two_of_three : Authority :=
  mkAuthority 2 [mkKeyWeight (one_key 1) 1; mkKeyWeight (one_key 2) 1; mkKeyWeight (one_key 3) 1] [] [].

#[global] Instance auth_wf_dec a : Decision (auth_wf a).
Proof.
  refine (cast_if (decide (in_u 32 (Threshold a) /\ Forall (fun k => in_u 16 (kwWeight k)) (Keys a) /\
    Forall (fun p => in_u 16 (plWeight p)) (Accounts a) /\ Forall (fun w => in_u 16 (wwWeight w)) (Waits a))));
    abstract (try (destruct_and!; by split); intros []; tauto).
Defined.

Lemma validate_exact_witness :
  Validate two_of_three = true <->
  len (Accounts two_of_three) + len (Keys two_of_three) + len (Waits two_of_three) <= 2 ^ 16 /\ Threshold two_of_three <> 0 /\
  StronglySorted (fun k k' => Ecc.ComparePubKey (kwKey k) (kwKey k') = -1) (Keys two_of_three) /\
  StronglySorted (fun p q => ComparePermissionLevel (plPermission p) (plPermission q) = -1) (Accounts two_of_three) /\
  StronglySorted (fun w w' => WaitSec w < WaitSec w') (Waits two_of_three) /\
  Threshold two_of_three <= total_weight two_of_three.
Proof. apply (validate_exact two_of_three). by_decide. Defined.

(** The order of evaluation: [Sort] returns a permutation of the factors with
    weights descending, and factors of the same weight stay in the order in which
    they were collected: waits, then keys, then accounts. *)
Theorem meta_sort_stable l :
  Sort l ≡ₚ l /\ StronglySorted (fun a b => meta_weight b <= meta_weight a) (Sort l) /\
  forall w, filter (fun m => meta_weight m = w) (Sort l) = filter (fun m => meta_weight m = w) l.
Proof.
  destruct l as [|x l]; [split_and!; [done|constructor|done]|]. unfold Sort.
  replace (length (x :: l) - 1)%nat with (length l) by (simpl; lia).
  destruct (sort_outer_keeps (length l) (x :: l)) as [Hp Hf]; [simpl; lia|]. split_and!; [done| |done].
  pose proof (sort_outer_sorted (length l) (x :: l) []) as Hs. rewrite app_nil_r in Hs.
  apply Hs; [done|constructor|set_solver].
Qed.

(** A successful check means satisfaction, and keeps what was provided. *)
Lemma SatisfiedLc_sound permissionToAuthority permission ac s' b :
  (forall p a, permissionToAuthority p = Ok a -> auth_wf a) ->
  SatisfiedLc permissionToAuthority permission None ac = (s', Ok b) ->
  ok_state permissionToAuthority (ProvidedKeys ac) (ProvidedPermissions ac) (ProvidedDelay ac) s' /\
  (b = true -> satisfied permissionToAuthority (ProvidedKeys ac) (ProvidedPermissions ac) (ProvidedDelay ac) permission).
Proof.
  intros Hwf. unfold SatisfiedLc. generalize (enough ac). intros fuel. unfold mbind, M_bind. cbn [Visit].
  set (s0 := mkSt ac (cache_or_new ac None)).
  assert (Hs0 : ok_state permissionToAuthority (ProvidedKeys ac) (ProvidedPermissions ac) (ProvidedDelay ac) s0).
  { split; [done..|]. intros p Hp. apply sat_provided. by eapply initial_cache_sound in Hp. }
  destruct (VisitPermissionLevelWeight _ fuel 0 0 _ s0) as [s1 [t|e]] eqn:E; [|done]. intros [= <- <-].
  pose proof (VisitPermissionLevelWeight_sound permissionToAuthority (ProvidedKeys ac) (ProvidedPermissions ac) (ProvidedDelay ac) Hwf
    fuel 0 0 _ _ _ _ Hs0 E) as [Hs1 Hr].
  split; [done|]. intros Ht. destruct (Hr t eq_refl) as [->|[_ Hsat]]; done.
Qed.

(** C14. The check is sound: when [SatisfiedLoc] returns true, the permission is satisfied
    in the sense of [satisfied], from the provided keys and permissions and the
    delay; no cached result, cycle of authorities, cut-off by depth or overflow of a
    total makes it accept more. *)
Theorem authority_check_sound permissionToAuthority permission delay ac s' :
  (forall p a, permissionToAuthority p = Ok a -> auth_wf a) ->
  SatisfiedLoc permissionToAuthority permission delay None ac = (s', Ok true) ->
  satisfied permissionToAuthority (ProvidedKeys ac) (ProvidedPermissions ac) delay permission.
Proof.
  intros Hwf E. by apply (SatisfiedLc_sound permissionToAuthority permission (set_ProvidedDelay delay ac) s' true Hwf) in E as [_ Hs]; auto.
Qed.

(** Alice needs her key and Bob; Bob needs his key, or Alice. *)
Definition alice : PermissionLevel := mkPermissionLevel 5 1.
Definition bob : PermissionLevel := mkPermissionLevel 6 1.
Definition example_authorities (p : PermissionLevel) : result Authority :=
  if decide (p = alice) then Ok (mkAuthority 2 [mkKeyWeight (one_key 1) 1] [mkPermissionLevelWeight bob 1] [])
  else if decide (p = bob) then Ok (mkAuthority 1 [mkKeyWeight (one_key 2) 1] [mkPermissionLevelWeight alice 2] [])
  else Throw PermissionQueryException.
Definition example_checker : AuthorityChecker := MakeAuthChecker 6 [one_key 1; one_key 2] [] 0.

Lemma example_authorities_wf p a : example_authorities p = Ok a -> auth_wf a.
Proof. unfold example_authorities. repeat case_decide; intros [= <-]; by_decide. Qed.

Lemma example_authorities_query p e : example_authorities p = Throw e -> e = PermissionQueryException.
Proof. unfold example_authorities. repeat case_decide; by intros [= <-]. Qed.

Lemma authority_check_sound_witness :
  satisfied example_authorities (ProvidedKeys example_checker) (ProvidedPermissions example_checker) 0 alice.
Proof.
  apply (authority_check_sound example_authorities alice 0 example_checker
    (SatisfiedLoc example_authorities alice 0 None example_checker).1).
  - exact example_authorities_wf.
  - vm_compute. reflexivity.
Defined.

(** C15. The check always returns: if the callback raises nothing but the exception of a
    missing permission and there is a flag per key, [SatisfiedLc] returns a boolean
    whatever the authorities are, cyclic or not; the fuel of the model is never
    exhausted and no index is out of range.  The inputs and the number of flags are
    unchanged, no flag is cleared, and a failed check leaves all flags as they were. *)
Theorem authority_check_total permissionToAuthority permission cachedPerms ac :
  (forall p e, permissionToAuthority p = Throw e -> e = PermissionQueryException) ->
  length (UsedKeys ac) = length (ProvidedKeys ac) -> in_u 16 (RecursionDepthLimit ac) ->
  exists s' b, SatisfiedLc permissionToAuthority permission cachedPerms ac = (s', Ok b) /\
    steady (mkSt ac (cache_or_new ac cachedPerms)) s' /\
    (b = false -> UsedKeys (checker s') = UsedKeys ac).
Proof.
  intros Hq Hl Hlim. unfold SatisfiedLc, mbind, M_bind. cbn [Visit].
  destruct (VisitPermissionLevelWeight_total permissionToAuthority Hq (enough ac) 0 (RecursionDepthLimit ac)
    ltac:(done) ltac:(unfold enough, in_u in *; lia) (mkSt ac (cache_or_new ac cachedPerms)) 0
    (mkPermissionLevelWeight permission 1)) as (s' & t & -> & Hst & Ht); [done|done|].
  exists s', (0 <? t). split_and!; [done|done|]. intros Hb. destruct Ht as [[_ Hu] | ->]; [done|discriminate Hb].
Qed.

Lemma authority_check_total_witness :
  exists s' b, SatisfiedLc example_authorities bob None example_checker = (s', Ok b) /\
    steady (mkSt example_checker (cache_or_new example_checker None)) s' /\
    (b = false -> UsedKeys (checker s') = UsedKeys example_checker).
Proof.
  apply (authority_check_total example_authorities bob None example_checker);
    [exact example_authorities_query|reflexivity|by_decide].
Defined.

(** For an authority without accounts the check is exact: of a valid authority, it
    returns whether the waits within the delay and the keys that are provided weigh at
    least the threshold. *)
Theorem flat_authority_exact permissionToAuthority a cachedPerms depth ac :
  auth_wf a -> Validate a = true -> Accounts a = [] ->
  length (UsedKeys ac) = length (ProvidedKeys ac) -> in_u 16 (RecursionDepthLimit ac) ->
  exists s', SatisfiedAcd permissionToAuthority a cachedPerms depth ac =
    (s', Ok (Threshold a <=? available_weight ac (metas a))).
Proof.
  intros Hwf Hv Ha Hl Hlim. unfold SatisfiedAcd, SatisfiedAcd_with.
  assert (Hcount : len (Accounts a) + len (Keys a) + len (Waits a) <= 2 ^ 16 /\ Threshold a <> 0).
  { unfold Validate in Hv. destruct (Z.ltb_spec (Z.shiftl 1 16) (len (Accounts a) + len (Keys a) + len (Waits a))); [done|].
    destruct (Z.eqb_spec (Threshold a) 0); [done|]. done. }
  destruct Hcount as [Hc Ht]. pose proof (total_weight_bound a Hwf Hc). pose proof (wf_threshold _ Hwf) as Htr. unfold in_u in Htr.
  destruct (visit_all_flat (VisitPermissionLevelWeight permissionToAuthority (enough ac)) depth (Threshold a)
    (Sort (metas a)) 0 (mkSt ac (cache_or_new ac cachedPerms))) as (s' & -> & _).
  - done.
  - rewrite Sort_perm. by apply flat_metas.
  - rewrite Sort_perm. by apply metas_nonneg.
  - lia.
  - rewrite Sort_perm, metas_weight. lia.
  - rewrite (available_weight_proper _ _ _ (Sort_perm (metas a))), Z.add_0_l. cbn [checker]. destruct (Threshold a <=? _); by eexists.
Qed.

Lemma flat_authority_exact_witness :
  exists s', SatisfiedAcd example_authorities two_of_three None 1 example_checker =
    (s', Ok (Threshold two_of_three <=? available_weight example_checker (metas two_of_three))).
Proof.
  apply (flat_authority_exact example_authorities two_of_three None 1 example_checker); try reflexivity; by_decide.
Defined.

(** ** A key that is needed and reported unused

    Carol's authority is tried first, visits Bob, who is satisfied by the only
    provided key, and fails; its flags are put back but Bob stays in the cache as
    satisfied.  Bob's weight then satisfies the permission without the flag of the
    key being set again. *)
Definition rollback_authorities (p : PermissionLevel) : result Authority :=
  if decide (p = mkPermissionLevel 5 1) then
    Ok (mkAuthority 1 [] [mkPermissionLevelWeight bob 1; mkPermissionLevelWeight (mkPermissionLevel 7 1) 2] [])
  else if decide (p = bob) then Ok (mkAuthority 1 [mkKeyWeight (one_key 2) 1] [] [])
  else if decide (p = mkPermissionLevel 7 1) then
    Ok (mkAuthority 2 [mkKeyWeight (one_key 3) 1] [mkPermissionLevelWeight bob 1] [])
  else Throw PermissionQueryException.

Definition run_rollback (keys : list Ecc.PublicKey) : bool * bool :=
  let r := SatisfiedLc rollback_authorities (mkPermissionLevel 5 1) None (MakeAuthChecker 6 keys [] 0) in
  (match r.2 with Ok b => b | Throw _ => false end, AllKeysUsed (checker r.1)).

(** The permission is satisfied with the key and not without it, yet
    [AllKeysUsed] is false: the caller would reject the signature as irrelevant. *)
Theorem used_key_reported_unused :
  run_rollback [one_key 2] = (true, false) /\ run_rollback [] = (false, true).
Proof. split; vm_compute; reflexivity. Qed.
