(* ===== verification/OrderedIndex.v ===== *)
(** * OrderedIndex: the ordered index of [libraries/multiindex]

    An ordered index is a red-black tree of nodes, each with the key of the object
    it belongs to.  The model keeps the in-order sequence of the objects (their
    addresses), which determines what every operation of the interface returns:
    the tree is searched, and its nodes inserted, by comparisons along a descent,
    so that on a sorted sequence [put] inserts after the equal keys, [LowerBound]
    stops at the first key that is not less and [UpperBound] at the first that is
    greater.  The balancing of the tree is not modelled.

    The keys are read through the objects, as the composite keys of the source are
    pointers to fields; [val] is the heap. *)

From stdpp Require Import sorting.
From S2P Require Import Prelude.

Notation ptr := positive.

(** What an instance promises of its comparator on the keys of objects: a total
    preorder. *)
Class IndexOrder {V K : Type} (Comparator : K -> K -> Z) (KeyFunc : V -> K) : Prop := {
  compare_flip (a b : V) : Comparator (KeyFunc b) (KeyFunc a) < 0 <-> 0 < Comparator (KeyFunc a) (KeyFunc b);
  compare_trans (a b c : V) :
    Comparator (KeyFunc a) (KeyFunc b) <= 0 -> Comparator (KeyFunc b) (KeyFunc c) <= 0 ->
    Comparator (KeyFunc a) (KeyFunc c) <= 0 }.

Section Index.
Context {V K : Type} (Comparator : K -> K -> Z) (KeyFunc : V -> K).

(** The position found by the descent of [put]: right of the keys that are not
    greater. *)
Fixpoint put (val : ptr -> V) (p : ptr) (l : list ptr) : list ptr :=
  match l with
  | [] => [p]
  | q :: l' =>
      if Comparator (KeyFunc (val p)) (KeyFunc (val q)) <? 0 then p :: l else q :: put val p l'
  end.

Definition remove (p : ptr) (l : list ptr) : list ptr := filter (fun q => q <> p) l.

(** The iterator's neighbours of a node. *)
Fixpoint neighbours (prev : option ptr) (p : ptr) (l : list ptr) : option ptr * option ptr :=
  match l with
  | [] => (prev, None)
  | q :: l' => if decide (q = p) then (prev, head l') else neighbours (Some q) p l'
  end.

Definition inPlace (val : ptr -> V) (p : ptr) (l : list ptr) : bool :=
  let '(prev, next) := neighbours None p l in
  let prevResult := match prev with
                    | None => 1
                    | Some q => Comparator (KeyFunc (val p)) (KeyFunc (val q))
                    end in
  let nextResult := match next with
                    | None => -1
                    | Some q => Comparator (KeyFunc (val p)) (KeyFunc (val q))
                    end in
  (0 <=? prevResult) && (nextResult <=? 0).

(** [modify], after the object's fields were changed: [val] is the heap with the
    new fields. *)
Definition modify_index (val : ptr -> V) (p : ptr) (l : list ptr) : list ptr :=
  if inPlace val p l then l else put val p (remove p l).

(** The iterators: the rest of the sequence. *)
Fixpoint LowerBound (val : ptr -> V) (key : K) (l : list ptr) : list ptr :=
  match l with
  | [] => []
  | q :: l' => if 0 <? Comparator key (KeyFunc (val q)) then LowerBound val key l' else l
  end.

Fixpoint UpperBound (val : ptr -> V) (key : K) (l : list ptr) : list ptr :=
  match l with
  | [] => []
  | q :: l' => if 0 <=? Comparator key (KeyFunc (val q)) then UpperBound val key l' else l
  end.

(** The range between the two bounds. *)
Fixpoint between (val : ptr -> V) (key : K) (l : list ptr) : list ptr :=
  match l with
  | [] => []
  | q :: l' => if 0 <=? Comparator key (KeyFunc (val q)) then q :: between val key l' else []
  end.

Definition EqualRange (val : ptr -> V) (key : K) (l : list ptr) : list ptr :=
  between val key (LowerBound val key l).

(** [Iterator.Next]: the element after [p]; [None] is the end. *)
Fixpoint next (p : ptr) (l : list ptr) : option ptr :=
  match l with
  | [] => None
  | q :: l' => if decide (q = p) then head l' else next p l'
  end.

(** ** Lemmas *)

Definition before (val : ptr -> V) (p q : ptr) : Prop :=
  Comparator (KeyFunc (val p)) (KeyFunc (val q)) <= 0.

Definition ordered (val : ptr -> V) : list ptr -> Prop := StronglySorted (before val).

(** Only the keys matter. *)
Lemma ordered_ext val val' l :
  (forall p, p ∈ l -> KeyFunc (val' p) = KeyFunc (val p)) -> ordered val l -> ordered val' l.
Proof.
  intros Hk. unfold ordered. induction 1 as [|q l Hl IH Hq]; [constructor|].
  constructor; [apply IH; intros p Hp; apply Hk; set_solver|].
  rewrite Forall_forall in Hq |- *. intros r Hr. unfold before. rewrite !Hk by set_solver. by apply Hq.
Qed.

Lemma put_perm val p l : put val p l ≡ₚ p :: l.
Proof.
  induction l as [|q l IH]; simpl; [done|]. destruct (_ <? _); [done|].
  rewrite IH. apply Permutation_swap.
Qed.

Lemma remove_elem p q l : q ∈ remove p l <-> q <> p /\ q ∈ l.
Proof. unfold remove. by rewrite list_elem_of_filter. Qed.

Lemma remove_ordered val p l : ordered val l -> ordered val (remove p l).
Proof.
  unfold ordered, remove. induction 1 as [|q l Hl IH Hq]; simpl; [constructor|].
  rewrite filter_cons. case_decide; [|done]. constructor; [done|].
  apply Forall_forall. intros r [_ Hr]%list_elem_of_filter. by eapply Forall_forall in Hq.
Qed.

Lemma remove_notin p l : p ∉ l -> remove p l = l.
Proof.
  unfold remove. induction l as [|q l IH]; [done|]. intros H. rewrite filter_cons, IH by set_solver.
  rewrite decide_True; [done|set_solver].
Qed.

Lemma remove_middle p l1 l2 : p ∉ l1 -> p ∉ l2 -> remove p (l1 ++ p :: l2) = l1 ++ l2.
Proof.
  intros H1%remove_notin H2%remove_notin. unfold remove in *.
  rewrite filter_app, filter_cons_False by naive_solver. by rewrite H1, H2.
Qed.

Lemma remove_perm p l : NoDup l -> p ∈ l -> l ≡ₚ p :: remove p l.
Proof.
  intros Hn (l1 & l2 & ->)%list_elem_of_split. apply NoDup_app in Hn as (_ & Hd & [Hp _]%NoDup_cons).
  rewrite remove_middle by set_solver. by rewrite Permutation_middle.
Qed.

Lemma remove_NoDup p l : NoDup l -> NoDup (remove p l).
Proof. apply NoDup_filter. Qed.

Lemma neighbours_middle p l1 l2 : forall prev, p ∉ l1 ->
  neighbours prev p (l1 ++ p :: l2) = (match last l1 with Some q => Some q | None => prev end, head l2).
Proof.
  induction l1 as [|q l1 IH]; intros prev H; simpl; [by rewrite decide_True|].
  rewrite decide_False by set_solver. rewrite IH by set_solver. destruct l1 as [|r l1]; [done|].
  rewrite last_cons_cons. destruct (last (r :: l1)) eqn:E; [done|]. by apply last_None in E.
Qed.

Lemma modify_perm val p l : NoDup l -> p ∈ l -> modify_index val p l ≡ₚ l.
Proof.
  intros Hn Hp. unfold modify_index. destruct (inPlace val p l); [done|].
  rewrite put_perm. symmetry. by apply remove_perm.
Qed.

Lemma ordered_last val l q x : ordered val l -> last l = Some q -> x ∈ l -> x = q \/ before val x q.
Proof.
  unfold ordered. induction 1 as [|y l Hl IH Hy]; [done|]. intros Hq [->|Hx]%elem_of_cons.
  - destruct l as [|z l]; [left; by injection Hq|]. right. rewrite last_cons_cons in Hq.
    rewrite Forall_forall in Hy. by apply Hy, last_Some_elem_of.
  - apply IH; [|done]. destruct l; [set_solver|done].
Qed.

(** On an ordered sequence, the bounds of a key that respects the order split the
    sequence by comparison. *)
Definition respects (key : K) : Prop := forall a b : V,
  Comparator (KeyFunc a) (KeyFunc b) <= 0 ->
  (0 < Comparator key (KeyFunc b) -> 0 < Comparator key (KeyFunc a)) /\
  (0 <= Comparator key (KeyFunc b) -> 0 <= Comparator key (KeyFunc a)).

Lemma LowerBound_filter val key l : respects key -> ordered val l ->
  LowerBound val key l = filter (fun p => Comparator key (KeyFunc (val p)) <= 0) l.
Proof.
  intros Hk. unfold ordered. induction 1 as [|q l Hl IH Hq]; [done|]. simpl.
  destruct (Z.ltb_spec 0 (Comparator key (KeyFunc (val q)))).
  - by rewrite filter_cons_False by lia.
  - rewrite filter_cons_True by lia. f_equal. rewrite Forall_forall in Hq. clear IH Hl.
    induction l as [|r l IH]; [done|].
    assert (before val q r) as Hqr by (apply Hq; set_solver). destruct (Hk _ _ Hqr).
    rewrite filter_cons_True by lia. f_equal. apply IH. intros x Hx. apply Hq. set_solver.
Qed.

Lemma between_filter val key l : respects key -> ordered val l ->
  between val key l = filter (fun p => 0 <= Comparator key (KeyFunc (val p))) l.
Proof.
  intros Hk. unfold ordered. induction 1 as [|q l Hl IH Hq]; [done|]. simpl.
  destruct (Z.leb_spec 0 (Comparator key (KeyFunc (val q)))).
  - rewrite filter_cons_True by lia. by rewrite IH.
  - rewrite filter_cons_False by lia. rewrite Forall_forall in Hq. clear IH Hl.
    induction l as [|r l IH]; [done|].
    assert (before val q r) as Hqr by (apply Hq; set_solver). destruct (Hk _ _ Hqr).
    rewrite filter_cons_False by lia. apply IH. intros x Hx. apply Hq. set_solver.
Qed.

Lemma filter_ordered (P : ptr -> Prop) `{!forall x, Decision (P x)} val l : ordered val l -> ordered val (filter P l).
Proof.
  unfold ordered. induction 1 as [|q l Hl IH Hq]; [constructor|].
  rewrite filter_cons. case_decide; [|done]. constructor; [done|].
  apply Forall_forall. intros x [_ Hx]%list_elem_of_filter. rewrite Forall_forall in Hq. by apply Hq.
Qed.

Lemma EqualRange_elem val key l p : respects key -> ordered val l ->
  p ∈ EqualRange val key l <-> p ∈ l /\ Comparator key (KeyFunc (val p)) = 0.
Proof.
  intros Hk Ho. unfold EqualRange. rewrite LowerBound_filter by done.
  rewrite between_filter, !list_elem_of_filter by (try apply filter_ordered; done).
  split; [intros (?&?&?); split; [done|lia]|intros [? ->]; done].
Qed.

Context `{!IndexOrder Comparator KeyFunc}.

#[export] Instance before_trans val : Transitive (before val).
Proof. intros p q r. apply compare_trans. Qed.

Lemma not_before val p q : Comparator (KeyFunc (val p)) (KeyFunc (val q)) < 0 \/ before val q p.
Proof.
  unfold before. pose proof (compare_flip (val q) (val p)). lia.
Qed.

Lemma put_ordered val p l : ordered val l -> ordered val (put val p l).
Proof.
  unfold ordered. induction 1 as [|q l Hl IH Hq]; simpl; [repeat constructor|].
  destruct (Z.ltb_spec (Comparator (KeyFunc (val p)) (KeyFunc (val q))) 0) as [Hlt|Hge].
  - assert (Hpq : before val p q) by (unfold before; lia).
    constructor; [by constructor|]. constructor; [done|].
    eapply Forall_impl; [exact Hq|]. intros r Hr. by etrans.
  - constructor; [done|]. rewrite (put_perm val p l). constructor; [|done].
    destruct (not_before val p q); [lia|done].
Qed.

Lemma modify_ordered val p l :
  NoDup l -> p ∈ l -> ordered val (remove p l) -> ordered val (modify_index val p l).
Proof.
  intros Hn Hp Ho. unfold modify_index. destruct (inPlace val p l) eqn:Hi; [|by apply put_ordered].
  revert Hi Ho. apply list_elem_of_split in Hp as (l1 & l2 & ->).
  apply NoDup_app in Hn as (_ & Hd & [Hp2 _]%NoDup_cons). assert (Hp1 : p ∉ l1) by set_solver.
  unfold inPlace. rewrite neighbours_middle, remove_middle by done. rewrite andb_true_iff, !Z.leb_le.
  intros [Hprev Hnext] (H12 & H1 & H2)%StronglySorted_app.
  assert (Hl : forall x, x ∈ l1 -> before val x p).
  { intros x Hx. destruct (last l1) as [q|] eqn:Hq; [|by apply last_None in Hq; set_solver].
    assert (Hqp : before val q p) by (destruct (not_before val p q); [lia|done]).
    destruct (ordered_last val l1 q x H1 Hq Hx) as [->|]; [done|by etrans]. }
  assert (Hr : forall x, x ∈ l2 -> before val p x).
  { intros x Hx. destruct l2 as [|q l2]; [set_solver|]. simpl in Hnext.
    apply elem_of_cons in Hx as [->|Hx]; [done|]. inversion_clear H2 as [|?? _ Hq].
    rewrite Forall_forall in Hq. transitivity q; [exact Hnext|by apply Hq]. }
  apply StronglySorted_app. split_and!; [|done|].
  - intros x y Hx [->|Hy]%elem_of_cons; [by apply Hl|]. by apply H12.
  - constructor; [done|]. apply Forall_forall. exact Hr.
Qed.
End Index.
