(* ===== verification/ForkDatabase.v ===== *)
(** * ForkDatabase: [chain/fork_database.go] and [chain/types/block_state.go]

    The tree of blocks that are not yet irreversible.  Block states are objects
    shared by pointer: the index, the head and the callers hold addresses into one
    heap, and a change through any of them is seen by all.  The index is the
    container of [forkdb_multi_index]: a unique hash map by block id and three
    ordered indices, by previous id, by number and by irreversibility, with the
    comparators of that package.

    [Irreversible.Emit] calls the subscribers of the signal; the model records the
    block emitted.  An iterator is the address it stands at; reading through an
    iterator whose node was erased is a nil dereference, as the erased node has
    lost its successor in the chain of indices.  The transactions of a block are
    carried along unread: their types are parameters. *)

From stdpp Require Import sorting.
From S2P Require Import Prelude Bytes Rlp Sha256 Merkle BlockHeader BlockHeaderState OrderedIndex.
From S2P Require Ecc.

#[global] Instance Sha256_countable : Countable Sha256 :=
  inj_countable' (fun h => (Hash0 h, Hash1 h, Hash2 h, Hash3 h))
    (fun '(a, b, c, d) => mkSha256 a b c d) (fun h => match h with mkSha256 _ _ _ _ => eq_refl end).

(** ** The keys and comparators of the three ordered indices *)

Definition ByPrevCompare : BlockIdType -> BlockIdType -> Z := Sha256Compare.

Definition ByBlockNumComposite : Type := option Z * option bool.

Definition ByBlockNumCompare (aBlock bBlock : ByBlockNumComposite) : Z :=
  let byNum := match aBlock.1, bBlock.1 with
               | Some a, Some b => if a <? b then -1 else if b <? a then 1 else 0
               | _, _ => 0
               end in
  if negb (byNum =? 0) then byNum
  else match aBlock.2, bBlock.2 with
  | Some a, Some b => if a && negb b then -1 else if negb a && b then 1 else 0
  | _, _ => 0
  end.

Definition ByLibBlockNumComposite : Type := option Z * option Z * option Z.

(** One field of the composite, descending. *)
Definition compare_desc (a b : option Z) : Z :=
  match a, b with
  | Some x, Some y => if y <? x then -1 else if x <? y then 1 else 0
  | _, _ => 0
  end.

Definition ByLibBlockNumCompare (aBlock bBlock : ByLibBlockNumComposite) : Z :=
  let dpos := compare_desc aBlock.1.1 bBlock.1.1 in
  if negb (dpos =? 0) then dpos
  else let bft := compare_desc aBlock.1.2 bBlock.1.2 in
  if negb (bft =? 0) then bft
  else compare_desc aBlock.2 bBlock.2.

Section ForkDb.
Context {Receipt Trx : Type}.
Variable publicKey : Z -> bytes -> bytes -> result Ecc.PublicKey.

(** ** Block states *)

Record SignedBlock : Type := mkSignedBlock {
  sbHeader : SignedBlockHeader;
  Transactions : list Receipt;
  BlockExtensions : list Extension }.

Definition SignedBlock_zero : SignedBlock := mkSignedBlock SignedBlockHeader_zero [] [].

Record BlockState : Type := mkBlockState {
  bhs : BlockHeaderState;
  Block : SignedBlock;
  Validated : bool;
  InCurrentChain : bool;
  Trxs : list Trx }.

Definition set_bhs (h : BlockHeaderState) (b : BlockState) : BlockState :=
  mkBlockState h (Block b) (Validated b) (InCurrentChain b) (Trxs b).
Definition set_Validated (v : bool) (b : BlockState) : BlockState :=
  mkBlockState (bhs b) (Block b) v (InCurrentChain b) (Trxs b).
Definition set_InCurrentChain (v : bool) (b : BlockState) : BlockState :=
  mkBlockState (bhs b) (Block b) (Validated b) v (Trxs b).
Definition set_Bft (n : Z) (b : BlockState) : BlockState := set_bhs (set_BftIrreversibleBlocknum n (bhs b)) b.

Definition bsId (b : BlockState) : BlockIdType := BlockId (bhs b).
Definition bsNum (b : BlockState) : Z := BlockNum (bhs b).
Definition bsPrevious (b : BlockState) : BlockIdType := Previous (hdr (bhs b)).
Definition bsDpos (b : BlockState) : Z := DposIrreversibleBlocknum (bhs b).
Definition bsBft (b : BlockState) : Z := BftIrreversibleBlocknum (bhs b).

Definition NewBlockState (cur : BlockHeaderState) : BlockState := mkBlockState cur SignedBlock_zero false false [].

Definition NewBlockState2 (prev : BlockHeaderState) (when : Z) : result BlockState :=
  GenerateNext prev when ≫= fun h =>
  Ok (mkBlockState h (mkSignedBlock (Header h) [] []) false false []).

Definition NewBlockState3 (prev : BlockHeaderState) (b : SignedBlock) (trust : bool) : result BlockState :=
  Next publicKey prev (sbHeader b) trust ≫= fun h => Ok (mkBlockState h b false false []).

(** ** The container *)

Definition ByBlockIdFunc (n : BlockState) : BlockIdType := bsId n.
Definition ByPrevFunc (n : BlockState) : BlockIdType := bsPrevious n.
Definition ByBlockNumFunc (n : BlockState) : ByBlockNumComposite := (Some (bsNum n), Some (InCurrentChain n)).
Definition ByLibBlockNumFunc (n : BlockState) : ByLibBlockNumComposite := (Some (bsDpos n), Some (bsBft n), Some (bsNum n)).

Record MultiIndex : Type := mkMultiIndex {
  byBlockId : gmap BlockIdType ptr;
  byPrev : list ptr;
  byBlockNum : list ptr;
  byLib : list ptr }.

Record ForkDatabase : Type := mkForkDatabase {
  heap : ptr -> BlockState;
  Index : MultiIndex;
  Head : option ptr;
  Irreversible : list ptr }.

Definition set_heap (h : ptr -> BlockState) (f : ForkDatabase) : ForkDatabase :=
  mkForkDatabase h (Index f) (Head f) (Irreversible f).
Definition set_Index (i : MultiIndex) (f : ForkDatabase) : ForkDatabase :=
  mkForkDatabase (heap f) i (Head f) (Irreversible f).
Definition set_Head (h : option ptr) (f : ForkDatabase) : ForkDatabase :=
  mkForkDatabase (heap f) (Index f) h (Irreversible f).
Definition Emit (p : ptr) (f : ForkDatabase) : ForkDatabase :=
  mkForkDatabase (heap f) (Index f) (Head f) (Irreversible f ++ [p]).

(** A write through a pointer. *)
Definition store (p : ptr) (b : BlockState) (f : ForkDatabase) : ForkDatabase :=
  set_heap (fun q => if decide (q = p) then b else heap f q) f.

Definition Size (f : ForkDatabase) : nat := size (byBlockId (Index f)).

Definition Insert (p : ptr) : M ForkDatabase bool := fun f =>
  let i := Index f in
  let val := heap f in
  match byBlockId i !! ByBlockIdFunc (val p) with
  | Some _ => (f, Ok false)
  | None =>
      (set_Index (mkMultiIndex (<[ByBlockIdFunc (val p) := p]> (byBlockId i))
        (OrderedIndex.put ByPrevCompare ByPrevFunc val p (byPrev i))
        (OrderedIndex.put ByBlockNumCompare ByBlockNumFunc val p (byBlockNum i))
        (OrderedIndex.put ByLibBlockNumCompare ByLibBlockNumFunc val p (byLib i))) f, Ok true)
  end.

Definition Find (id : BlockIdType) (f : ForkDatabase) : option ptr := byBlockId (Index f) !! id.

Definition Erase (p : ptr) (f : ForkDatabase) : ForkDatabase :=
  let i := Index f in
  set_Index (mkMultiIndex (delete (ByBlockIdFunc (heap f p)) (byBlockId i))
    (remove p (byPrev i)) (remove p (byBlockNum i)) (remove p (byLib i))) f.

(** [Modify] with a function that leaves the block id alone, as all of the callers'
    do: the hashed index puts the node back under the same key. *)
Definition Modify (p : ptr) (mod_ : BlockState -> BlockState) (f : ForkDatabase) : ForkDatabase :=
  let f := store p (mod_ (heap f p)) f in
  let i := Index f in
  let val := heap f in
  set_Index (mkMultiIndex (byBlockId i)
    (modify_index ByPrevCompare ByPrevFunc val p (byPrev i))
    (modify_index ByBlockNumCompare ByBlockNumFunc val p (byBlockNum i))
    (modify_index ByLibBlockNumCompare ByLibBlockNumFunc val p (byLib i))) f.

(** [Begin().Value()]: on an empty index the iterator has no node. *)
Definition begin_value (l : list ptr) : result ptr :=
  match l with [] => Throw NilDereference | p :: _ => Ok p end.

(** ** Operations *)

Definition GetBlock (id : BlockIdType) (f : ForkDatabase) : option ptr := Find id f.

Definition SetHead (s : ptr) : M ForkDatabase unit :=
  inserted ← Insert s;
  f ← get;
  id ← lift (BlockID (hdr (bhs (heap f s))));
  _ ← assertM (bool_decide (bsId (heap f s) = id)) ForkDatabaseException;
  _ ← assertM inserted ForkDatabaseException;
  match Head f with
  | None => modify (set_Head (Some s))
  | Some h => if bsNum (heap f h) <? bsNum (heap f s) then modify (set_Head (Some s)) else mret tt
  end.

(** The blocks built on [id]: from the lower bound while the previous id is [id]. *)
Fixpoint while_previous (val : ptr -> BlockState) (id : BlockIdType) (l : list ptr) : list ptr :=
  match l with
  | [] => []
  | p :: l' => if decide (bsPrevious (val p) = id) then p :: while_previous val id l' else []
  end.

Definition children (id : BlockIdType) (f : ForkDatabase) : list ptr :=
  while_previous (heap f) id (LowerBound ByPrevCompare ByPrevFunc (heap f) id (byPrev (Index f))).

(** The queue of [Remove], from index [i] on. *)
Fixpoint remove_loop (fuel : nat) (removeQueue : list BlockIdType) : M ForkDatabase unit :=
  match removeQueue with
  | [] => mret tt
  | id :: rest =>
      match fuel with
      | O => lift (Throw OutOfFuel)
      | S fuel' =>
          _ ← modify (fun f => match Find id f with Some p => Erase p f | None => f end);
          f ← get;
          remove_loop fuel' (rest ++ map (fun p => bsId (heap f p)) (children id f))
      end
  end.

Definition Remove (id : BlockIdType) : M ForkDatabase unit :=
  f ← get;
  _ ← remove_loop (S (Size f)) [id];
  f ← get;
  h ← lift (begin_value (byLib (Index f)));
  modify (set_Head (Some h)).

Definition SetValidity (h : ptr) (valid : bool) : M ForkDatabase unit :=
  f ← get;
  if negb valid then Remove (bsId (heap f h)) else modify (store h (set_Validated true (heap f h))).

Definition MarkInCurrentChain (h : ptr) (inCurrentChain : bool) : M ForkDatabase unit :=
  f ← get;
  if eqb (InCurrentChain (heap f h)) inCurrentChain then mret tt
  else match Find (bsId (heap f h)) f with
  | None => lift (Throw ForkDbBlockNotFound)
  | Some p => modify (Modify p (set_InCurrentChain inCurrentChain))
  end.

(** The loop of [Prune] over older blocks, given the recursive call. *)
Fixpoint prune_older (prune : ptr -> M ForkDatabase unit) (fuel : nat) (num : Z) : M ForkDatabase unit :=
  f ← get;
  match byBlockNum (Index f) with
  | bni :: _ =>
      if bsNum (heap f bni) <? num then
        match fuel with
        | O => lift (Throw OutOfFuel)
        | S fuel' => _ ← prune bni; prune_older prune fuel' num
        end
      else mret tt
  | [] => mret tt
  end.

(** The loop over the other blocks of the same number: [nitr] is advanced before its
    block is removed. *)
Fixpoint prune_siblings (fuel : nat) (nitr : option ptr) (num : Z) : M ForkDatabase unit :=
  match nitr with
  | None => mret tt
  | Some p =>
      f ← get;
      if decide (p ∈ byBlockNum (Index f)) then
        if bsNum (heap f p) =? num then
          match fuel with
          | O => lift (Throw OutOfFuel)
          | S fuel' => _ ← Remove (bsId (heap f p)); prune_siblings fuel' (next p (byBlockNum (Index f))) num
          end
        else mret tt
      else lift (Throw NilDereference)
  end.

Fixpoint prune_rec (fuel : nat) (h : ptr) : M ForkDatabase unit :=
  f ← get;
  let num := bsNum (heap f h) in
  _ ← prune_older (match fuel with O => fun _ => lift (Throw OutOfFuel) | S fuel' => prune_rec fuel' end) (Size f) num;
  f ← get;
  _ ← match Find (bsId (heap f h)) f with
      | Some p => modify (fun f => Erase p (Emit p f))
      | None => mret tt
      end;
  f ← get;
  prune_siblings (Size f) (head (LowerBound ByBlockNumCompare ByBlockNumFunc (heap f) (Some num, None) (byBlockNum (Index f)))) num.

(** The call on the first block of the index finds no older one: one level. *)
Definition Prune (h : ptr) : M ForkDatabase unit := prune_rec 1 h.

Definition AddBlockState (b : ptr) : M ForkDatabase ptr :=
  inserted ← Insert b;
  _ ← assertM inserted ForkDatabaseException;
  f ← get;
  head ← lift (begin_value (byLib (Index f)));
  _ ← modify (set_Head (Some head));
  let lib := bsDpos (heap f head) in
  oldest ← lift (begin_value (byBlockNum (Index f)));
  _ ← (if bsNum (heap f oldest) <? lib then Prune oldest else mret tt);
  mret b.

(** [new] is the address of the block state allocated by [NewBlockState3]. *)
Definition AddSignedBlock (new : ptr) (b : option SignedBlock) (trust : bool) : M ForkDatabase ptr :=
  match b with
  | None => lift (Throw ForkDatabaseException)
  | Some b =>
      f ← get;
      _ ← assertM (bool_decide (is_Some (Head f))) ForkDbBlockNotFound;
      id ← lift (BlockID (Embedded (sbHeader b)));
      _ ← assertM (bool_decide (Find id f = None)) ForkDatabaseException;
      match Find (Previous (Embedded (sbHeader b))) f with
      | None => lift (Throw ForkDatabaseException)
      | Some prior =>
          result ← lift (NewBlockState3 (bhs (heap f prior)) b trust);
          _ ← modify (store new result);
          AddBlockState new
      end
  end.

Definition GetBlockInCurrentChainByNum (n : Z) (f : ForkDatabase) : option ptr :=
  match LowerBound ByBlockNumCompare ByBlockNumFunc (heap f) (Some n, None) (byBlockNum (Index f)) with
  | [] => None
  | nitr :: _ =>
      if negb (bsNum (heap f nitr) =? n) || negb (InCurrentChain (heap f nitr)) then None else Some nitr
  end.

(** One layer of the breadth-first traversal: [update] of the source. *)
Definition update_child (blockNum : Z) (pitr : ptr) (st : ForkDatabase * list BlockIdType) : ForkDatabase * list BlockIdType :=
  let '(f, updated) := st in
  if bsBft (heap f pitr) <? blockNum
  then (Modify pitr (set_Bft blockNum) f, updated ++ [bsId (heap f pitr)])
  else (Modify pitr id f, updated).

Definition update_layer (blockNum : Z) (in_ : list BlockIdType) (f : ForkDatabase) : ForkDatabase * list BlockIdType :=
  foldl (fun st i =>
    foldl (fun st pitr => update_child blockNum pitr st) st
      (EqualRange ByPrevCompare ByPrevFunc (heap st.1) i (byPrev (Index st.1)))) (f, []) in_.

Fixpoint update_loop (fuel : nat) (blockNum : Z) (queue : list BlockIdType) : M ForkDatabase unit :=
  match queue with
  | [] => mret tt
  | _ =>
      match fuel with
      | O => lift (Throw OutOfFuel)
      | S fuel' => fun f =>
          let '(f', updated) := update_layer blockNum queue f in update_loop fuel' blockNum updated f'
      end
  end.

Definition SetBftIrreversible (id : BlockIdType) : M ForkDatabase unit :=
  f ← get;
  match Find id f with
  | None => lift (Throw NilDereference)
  | Some p =>
      let blockNum := bsNum (heap f p) in
      _ ← modify (Modify p (fun b => set_Bft (bsNum b) b));
      update_loop (S (Size f)) blockNum [id]
  end.

Definition AddConfirmation (c : HeaderConfirmation) : M ForkDatabase unit :=
  f ← get;
  match GetBlock (ConfBlockId c) f with
  | None => lift (Throw ForkDbBlockNotFound)
  | Some header =>
      let '(h, r) := BlockHeaderState.AddConfirmation publicKey c (bhs (heap f header)) in
      _ ← modify (store header (set_bhs h (heap f header)));
      _ ← lift r;
      if (BftIrreversibleBlocknum h <? BlockNum h) &&
         (len (Producers (ActiveSchedule h)) * 2 / 3 + 1 <=? len (Confirmations h))
      then SetBftIrreversible (ConfBlockId c) else mret tt
  end.

(** ** Branches

    [EosAssert] is given the fields of the pointer it tests: for a nil pointer the
    arguments already panic. *)
Definition parent (p : ptr) (f : ForkDatabase) : option ptr := GetBlock (bsPrevious (heap f p)) f.

(** The first two loops: climb from [a] while it is higher than [b]. *)
Fixpoint climb (fuel : nat) (a b : ptr) (acc : list ptr) (f : ForkDatabase) : result (ptr * list ptr) :=
  if bsNum (heap f b) <? bsNum (heap f a) then
    match fuel with
    | O => Throw OutOfFuel
    | S fuel' =>
        match parent a f with
        | None => Throw NilDereference
        | Some a' => climb fuel' a' b (acc ++ [a]) f
        end
    end
  else Ok (a, acc).

Fixpoint climb_both (fuel : nat) (a b : ptr) (first second : list ptr) (f : ForkDatabase) : result (list ptr * list ptr) :=
  if decide (bsPrevious (heap f a) = bsPrevious (heap f b)) then Ok (first ++ [a], second ++ [b])
  else match fuel with
  | O => Throw OutOfFuel
  | S fuel' =>
      match parent a f, parent b f with
      | Some a', Some b' => climb_both fuel' a' b' (first ++ [a]) (second ++ [b]) f
      | _, _ => Throw NilDereference
      end
  end.

Definition FetchBranchFrom (first second : BlockIdType) (f : ForkDatabase) : result (list ptr * list ptr) :=
  match GetBlock first f, GetBlock second f with
  | Some a, Some b =>
      '(a, l1) ← climb (Size f) a b [] f;
      '(b, l2) ← climb (Size f) b a [] f;
      climb_both (Size f) a b l1 l2 f
  | _, _ => Throw NilDereference
  end.

(** ** The three orders *)

#[export] Instance by_prev_order : IndexOrder ByPrevCompare ByPrevFunc.
Proof.
  split; unfold ByPrevCompare; intros a b.
  - rewrite (Sha256Compare_antisym (ByPrevFunc a)). lia.
  - intros c H1 H2. apply Sha256Compare_le_trans with (b := ByPrevFunc b); done.
Qed.

#[export] Instance by_num_order : IndexOrder ByBlockNumCompare ByBlockNumFunc.
Proof.
  split; unfold ByBlockNumCompare, ByBlockNumFunc; simpl; intros a b.
  - destruct (Z.ltb_spec (bsNum b) (bsNum a)), (Z.ltb_spec (bsNum a) (bsNum b)); simpl; try lia.
    destruct (InCurrentChain a), (InCurrentChain b); simpl; lia.
  - intros c. destruct (Z.ltb_spec (bsNum a) (bsNum b)), (Z.ltb_spec (bsNum b) (bsNum a)),
      (Z.ltb_spec (bsNum b) (bsNum c)), (Z.ltb_spec (bsNum c) (bsNum b)),
      (Z.ltb_spec (bsNum a) (bsNum c)), (Z.ltb_spec (bsNum c) (bsNum a)); simpl; try lia;
      destruct (InCurrentChain a), (InCurrentChain b), (InCurrentChain c); simpl; lia.
Qed.

(** The order by irreversibility is the descending lexicographic one. *)
Definition lib_le (a b : BlockState) : Prop :=
  bsDpos b < bsDpos a \/ bsDpos a = bsDpos b /\
  (bsBft b < bsBft a \/ bsBft a = bsBft b /\ bsNum b <= bsNum a).

Lemma ByLib_le a b : ByLibBlockNumCompare (ByLibBlockNumFunc a) (ByLibBlockNumFunc b) <= 0 <-> lib_le a b.
Proof.
  unfold ByLibBlockNumCompare, ByLibBlockNumFunc, lib_le, compare_desc; simpl.
  destruct (Z.ltb_spec (bsDpos b) (bsDpos a)), (Z.ltb_spec (bsDpos a) (bsDpos b)); simpl; try lia.
  destruct (Z.ltb_spec (bsBft b) (bsBft a)), (Z.ltb_spec (bsBft a) (bsBft b)); simpl; try lia.
  destruct (Z.ltb_spec (bsNum b) (bsNum a)), (Z.ltb_spec (bsNum a) (bsNum b)); simpl; lia.
Qed.

#[export] Instance by_lib_order : IndexOrder ByLibBlockNumCompare ByLibBlockNumFunc.
Proof.
  split; intros a b.
  - pose proof (ByLib_le a b) as H. pose proof (ByLib_le b a) as H'. unfold lib_le in *.
    unfold ByLibBlockNumCompare, ByLibBlockNumFunc, compare_desc in *; simpl in *.
    destruct (Z.ltb_spec (bsDpos b) (bsDpos a)), (Z.ltb_spec (bsDpos a) (bsDpos b)); simpl in *; try lia.
    destruct (Z.ltb_spec (bsBft b) (bsBft a)), (Z.ltb_spec (bsBft a) (bsBft b)); simpl in *; try lia.
    destruct (Z.ltb_spec (bsNum b) (bsNum a)), (Z.ltb_spec (bsNum a) (bsNum b)); simpl in *; lia.
  - intros c. rewrite !ByLib_le. unfold lib_le. lia.
Qed.

(** ** The invariant of the container *)

Definition blocks (f : ForkDatabase) : list ptr := byLib (Index f).

Record index_ok (f : ForkDatabase) : Prop := {
  ix_nodup : NoDup (blocks f);
  ix_prev : byPrev (Index f) ≡ₚ blocks f;
  ix_num : byBlockNum (Index f) ≡ₚ blocks f;
  ix_id : forall id p, Find id f = Some p <-> p ∈ blocks f /\ bsId (heap f p) = id;
  ix_ord_prev : ordered ByPrevCompare ByPrevFunc (heap f) (byPrev (Index f));
  ix_ord_num : ordered ByBlockNumCompare ByBlockNumFunc (heap f) (byBlockNum (Index f));
  ix_ord_lib : ordered ByLibBlockNumCompare ByLibBlockNumFunc (heap f) (byLib (Index f)) }.

Lemma ids_unique f p q :
  index_ok f -> p ∈ blocks f -> q ∈ blocks f -> bsId (heap f p) = bsId (heap f q) -> p = q.
Proof.
  intros Hf Hp Hq He. assert (H1 : Find (bsId (heap f q)) f = Some p) by by apply (ix_id f Hf).
  assert (H2 : Find (bsId (heap f q)) f = Some q) by by apply (ix_id f Hf). congruence.
Qed.

Lemma Insert_false f f' p : Insert p f = (f', Ok false) -> f' = f.
Proof. unfold Insert. destruct (byBlockId _ !! _); congruence. Qed.

Lemma Insert_true f f' p : index_ok f -> Insert p f = (f', Ok true) ->
  index_ok f' /\ blocks f' ≡ₚ p :: blocks f /\ p ∉ blocks f /\ heap f' = heap f /\
  Head f' = Head f /\ Irreversible f' = Irreversible f /\ (forall q, q ∈ blocks f -> bsId (heap f q) <> bsId (heap f p)).
Proof.
  intros Hf H. unfold Insert in H. destruct (byBlockId (Index f) !! ByBlockIdFunc (heap f p)) as [q|] eqn:Hn; [congruence|].
  injection H as <-.
  assert (Hids : forall q, q ∈ blocks f -> bsId (heap f q) <> bsId (heap f p)).
  { intros q Hq He. assert (Hq' : Find (bsId (heap f p)) f = Some q) by (apply (ix_id f Hf); done). unfold Find in Hq'.
    unfold ByBlockIdFunc in Hn. congruence. }
  assert (Hp : p ∉ blocks f) by (intros Hp; by apply (Hids p)).
  split_and!; try done; [|by unfold blocks; simpl; rewrite put_perm].
  destruct Hf as [Hnd Hpv Hnm Hid Ho1 Ho2 Ho3]. unfold blocks, Find in *. split; unfold blocks, Find; simpl.
  - rewrite put_perm. by apply NoDup_cons.
  - by rewrite !put_perm, Hpv.
  - by rewrite !put_perm, Hnm.
  - intros id q. rewrite put_perm, elem_of_cons. unfold ByBlockIdFunc.
    destruct (decide (id = bsId (heap f p))) as [->|Hne].
    + rewrite lookup_insert_eq. naive_solver.
    + rewrite lookup_insert_ne by done. rewrite Hid. naive_solver.
  - by apply put_ordered; [tc_solve|].
  - by apply put_ordered; [tc_solve|].
  - by apply put_ordered; [tc_solve|].
Qed.

Lemma Erase_ok f p : index_ok f -> p ∈ blocks f ->
  index_ok (Erase p f) /\ blocks (Erase p f) = remove p (blocks f).
Proof.
  intros Hf Hp. split; [|done].
  assert (Hu : forall q, q ∈ blocks f -> bsId (heap f q) = bsId (heap f p) -> q = p) by (intros; by apply (ids_unique f)).
  destruct Hf as [Hnd Hpv Hnm Hid Ho1 Ho2 Ho3]. unfold blocks, Find in *. split; unfold blocks, Find; simpl.
  - by apply remove_NoDup.
  - unfold remove. by rewrite Hpv.
  - unfold remove. by rewrite Hnm.
  - intros id q. rewrite remove_elem. unfold ByBlockIdFunc.
    destruct (decide (id = bsId (heap f p))) as [->|Hne].
    + rewrite lookup_delete_eq. split; [done|]. intros [[Hqp Hq] He]. by destruct (Hqp (Hu q Hq He)).
    + rewrite lookup_delete_ne by done. rewrite Hid. naive_solver.
  - by apply remove_ordered.
  - by apply remove_ordered.
  - by apply remove_ordered.
Qed.

(** The fields the container reads. *)
Definition same_keys (a b : BlockState) : Prop :=
  bsId a = bsId b /\ bsPrevious a = bsPrevious b /\ bsNum a = bsNum b /\ InCurrentChain a = InCurrentChain b /\
  bsDpos a = bsDpos b /\ bsBft a = bsBft b.

Lemma heap_store p b f q : heap (store p b f) q = if decide (q = p) then b else heap f q.
Proof. done. Qed.

Lemma store_ok f p b : index_ok f -> (p ∈ blocks f -> same_keys b (heap f p)) -> index_ok (store p b f).
Proof.
  intros Hf Hk.
  assert (Hsame : forall q, q ∈ blocks f -> same_keys (heap (store p b f) q) (heap f q)).
  { intros q Hq. rewrite heap_store. case_decide as Hqp; [subst; by apply Hk|]. by split_and!. }
  destruct Hf as [Hnd Hpv Hnm Hid Ho1 Ho2 Ho3]. unfold blocks, Find in *. split; unfold blocks, Find; try done.
  - intros id q. change (Index (store p b f)) with (Index f). rewrite Hid.
    split; intros [Hq He]; destruct (Hsame q Hq) as (Hi & _); split; congruence.
  - eapply ordered_ext; [|exact Ho1]. intros q Hq. rewrite Hpv in Hq. by apply Hsame in Hq as (_ & ? & _).
  - eapply ordered_ext; [|exact Ho2]. intros q Hq. rewrite Hnm in Hq. apply Hsame in Hq as (_ & _ & E1 & E2 & _).
    unfold ByBlockNumFunc. congruence.
  - eapply ordered_ext; [|exact Ho3]. intros q Hq. apply Hsame in Hq as (_ & _ & E1 & _ & E2 & E3).
    unfold ByLibBlockNumFunc. congruence.
Qed.

Lemma Modify_ok f p g : index_ok f -> p ∈ blocks f -> bsId (g (heap f p)) = bsId (heap f p) ->
  index_ok (Modify p g f) /\ blocks (Modify p g f) ≡ₚ blocks f /\ heap (Modify p g f) = heap (store p (g (heap f p)) f).
Proof.
  intros Hf Hp Hg. destruct Hf as [Hnd Hpv Hnm Hid Ho1 Ho2 Ho3]. unfold blocks, Find in *.
  set (val' := heap (store p (g (heap f p)) f)).
  assert (Hrest : forall K (C : K -> K -> Z) (F : BlockState -> K) l, ordered C F (heap f) l -> ordered C F val' (remove p l)).
  { intros K C F l Hl. eapply ordered_ext; [|by apply remove_ordered]. intros q [Hq _]%remove_elem.
    unfold val'. by rewrite heap_store, decide_False. }
  assert (Hin : p ∈ byPrev (Index f) /\ p ∈ byBlockNum (Index f)) by (by rewrite Hpv, Hnm). destruct Hin as [Hp1 Hp2].
  assert (Hn1 : NoDup (byPrev (Index f))) by by rewrite Hpv.
  assert (Hn2 : NoDup (byBlockNum (Index f))) by by rewrite Hnm.
  assert (HL : byLib (Index (Modify p g f)) ≡ₚ byLib (Index f)) by by apply modify_perm.
  split_and!; [|done|done]. split; unfold blocks, Find; rewrite ?HL; try done.
  - change (byPrev (Index (Modify p g f))) with (modify_index ByPrevCompare ByPrevFunc val' p (byPrev (Index f))).
    by rewrite modify_perm.
  - change (byBlockNum (Index (Modify p g f))) with (modify_index ByBlockNumCompare ByBlockNumFunc val' p (byBlockNum (Index f))).
    by rewrite modify_perm.
  - intros id q. change (byBlockId (Index (Modify p g f))) with (byBlockId (Index f)). rewrite Hid, HL.
    change (heap (Modify p g f)) with val'. unfold val'. rewrite heap_store. case_decide; [subst|done]. by rewrite Hg.
  - apply modify_ordered; [tc_solve|done..|by apply Hrest].
  - apply modify_ordered; [tc_solve|done..|by apply Hrest].
  - apply modify_ordered; [tc_solve|done..|by apply Hrest].
Qed.

Lemma size_blocks f : index_ok f -> Size f = length (blocks f).
Proof.
  intros Hf. unfold Size. rewrite <- length_map_to_list.
  assert (Hm : (map_to_list (byBlockId (Index f))).*2 ≡ₚ blocks f).
  { apply NoDup_Permutation.
    - apply NoDup_fmap_2_strong; [|apply NoDup_map_to_list]. intros [i1 p1] [i2 p2] H1 H2 He. simpl in He. subst p2.
      apply elem_of_map_to_list, (ix_id f Hf) in H1 as [_ <-]. by apply elem_of_map_to_list, (ix_id f Hf) in H2 as [_ <-].
    - apply (ix_nodup f Hf).
    - intros p. rewrite list_elem_of_fmap. split.
      + intros ([i q] & -> & H%elem_of_map_to_list). by apply (ix_id f Hf) in H as [? _].
      + intros Hp. exists (bsId (heap f p), p). split; [done|]. apply elem_of_map_to_list. by apply (ix_id f Hf). }
  by rewrite <- Hm, length_fmap.
Qed.

(** ** Children *)

Lemma prev_respects id : respects ByPrevCompare ByPrevFunc id.
Proof.
  intros a b. unfold ByPrevCompare. intros Hab.
  assert (Hg : forall x y, 0 < Sha256Compare x y <-> ~ Sha256Compare x y <= 0) by lia.
  split; intros H.
  - apply Hg. intros Hc. apply Hg in H. apply H. by eapply Sha256Compare_le_trans.
  - rewrite (Sha256Compare_antisym (ByPrevFunc a)).
    assert (Sha256Compare (ByPrevFunc b) id <= 0) by (rewrite Sha256Compare_antisym; lia).
    pose proof (Sha256Compare_le_trans _ _ _ Hab H0). lia.
Qed.

Lemma while_previous_filter val id l :
  ordered ByPrevCompare ByPrevFunc val l -> Forall (fun p => ByPrevCompare id (ByPrevFunc (val p)) <= 0) l ->
  while_previous val id l = filter (fun p => bsPrevious (val p) = id) l.
Proof.
  unfold ordered. induction 1 as [|q l Hl IH Hq]; [done|]. intros Hf. inversion_clear Hf as [|?? Hqf Hlf]. simpl.
  rewrite filter_cons. case_decide as Hd; [by rewrite IH|].
  assert (Hlt : 0 < Sha256Compare (bsPrevious (val q)) id).
  { unfold ByPrevCompare, ByPrevFunc in Hqf. rewrite Sha256Compare_antisym.
    destruct (decide (Sha256Compare id (bsPrevious (val q)) = 0)) as [E|]; [|lia].
    apply Sha256Compare_eq in E. congruence. }
  clear IH Hl Hlf. induction l as [|r l IH]; [done|].
  rewrite Forall_cons in Hq. destruct Hq as [Hr Hq]. unfold before, ByPrevCompare, ByPrevFunc in Hr.
  rewrite filter_cons_False; [by apply IH|]. intros E. rewrite E in Hr. lia.
Qed.

Lemma children_elem f id p : index_ok f -> p ∈ children id f <-> p ∈ blocks f /\ bsPrevious (heap f p) = id.
Proof.
  intros Hf. unfold children. rewrite LowerBound_filter by (apply prev_respects || apply (ix_ord_prev f Hf)).
  rewrite while_previous_filter.
  - rewrite !list_elem_of_filter, (ix_prev f Hf). split; [naive_solver|]. intros [Hp E]. split_and!; [done| |done].
    unfold ByPrevFunc, ByPrevCompare. rewrite E. by rewrite (proj2 (Sha256Compare_eq id id) eq_refl).
  - apply filter_ordered, (ix_ord_prev f Hf).
  - apply Forall_forall. by intros q [? _]%list_elem_of_filter.
Qed.

Lemma children_NoDup f id : index_ok f -> NoDup (children id f).
Proof.
  intros Hf. unfold children. rewrite LowerBound_filter by (apply prev_respects || apply (ix_ord_prev f Hf)).
  rewrite while_previous_filter.
  - do 2 apply NoDup_filter. rewrite (ix_prev f Hf). apply (ix_nodup f Hf).
  - apply filter_ordered, (ix_ord_prev f Hf).
  - apply Forall_forall. by intros q [? _]%list_elem_of_filter.
Qed.

(** ** Removal *)

(** The ids of [id0] and of all blocks built on it, directly or not. *)
Inductive below (f : ForkDatabase) (id0 : BlockIdType) : BlockIdType -> Prop :=
| below_self : below f id0 id0
| below_child p : p ∈ blocks f -> below f id0 (bsPrevious (heap f p)) -> below f id0 (bsId (heap f p)).

(** The state of the removal: [done] are the ids processed, [queue] those to come. *)
Record removing (f0 : ForkDatabase) (id0 : BlockIdType) (done queue : list BlockIdType) (f : ForkDatabase) : Prop := {
  rm_ok : index_ok f;
  rm_heap : heap f = heap f0;
  rm_blocks : forall p, p ∈ blocks f <-> p ∈ blocks f0 /\ bsId (heap f0 p) ∉ done;
  rm_below : forall id, id ∈ done ++ queue -> below f0 id0 id;
  rm_root : id0 ∈ done \/ queue = [id0];
  rm_closed : forall p, p ∈ blocks f0 -> bsPrevious (heap f0 p) ∈ done -> bsId (heap f0 p) ∈ done ++ queue;
  rm_nodup : NoDup queue;
  rm_fresh : forall id, id ∈ queue -> id ∉ done;
  rm_origin : forall id, id ∈ queue -> id = id0 \/
    exists p, p ∈ blocks f0 /\ bsId (heap f0 p) = id /\ bsPrevious (heap f0 p) ∈ done;
  rm_emitted : Irreversible f = Irreversible f0 }.

Definition erase_id (id : BlockIdType) (f : ForkDatabase) : ForkDatabase :=
  match Find id f with Some p => Erase p f | None => f end.

Lemma erase_id_spec id f : index_ok f ->
  index_ok (erase_id id f) /\ heap (erase_id id f) = heap f /\ Irreversible (erase_id id f) = Irreversible f /\
  Head (erase_id id f) = Head f /\
  forall p, p ∈ blocks (erase_id id f) <-> p ∈ blocks f /\ bsId (heap f p) <> id.
Proof.
  intros Hf. unfold erase_id. destruct (Find id f) as [p|] eqn:Hp.
  - apply (ix_id f Hf) in Hp as [Hp <-]. destruct (Erase_ok f p Hf Hp) as [Hok Hb]. split_and!; try done.
    intros q. rewrite Hb, remove_elem. split; intros [H1 H2]; split; try done; try congruence.
    intros E. by apply H1, (ids_unique f).
  - split_and!; try done. intros q. split; [|by intros []]. intros Hq. split; [done|]. intros E.
    assert (Find id f = Some q) by (by apply (ix_id f Hf)). congruence.
Qed.

(** One step of the queue. *)
Lemma removing_step f0 id0 done id rest f :
  index_ok f0 -> removing f0 id0 done (id :: rest) f ->
  let f1 := erase_id id f in
  let kids := map (fun p => bsId (heap f1 p)) (children id f1) in
  removing f0 id0 (id :: done) (rest ++ kids) f1.
Proof.
  intros Hf0 [Hok Hh Hb Hbe Hroot Hcl Hnd Hfr Hor Hem] f1 kids.
  destruct (erase_id_spec id f Hok) as (Hok1 & Hh1 & Hem1 & _ & Hb1). fold f1 in Hok1, Hh1, Hem1, Hb1.
  assert (Hidone : id ∉ done) by (apply Hfr; set_solver).
  assert (Hkids : forall x, x ∈ kids <-> exists p, p ∈ blocks f0 /\ bsId (heap f0 p) = x /\ bsPrevious (heap f0 p) = id /\ x ∉ id :: done).
  { intros x. unfold kids. rewrite list_elem_of_fmap. setoid_rewrite children_elem; [|done]. rewrite Hh1, Hh.
    split; [intros (p & -> & [Hp E])|intros (p & Hp & <- & E & Hx)]; exists p; rewrite Hb1, Hb, Hh in *; set_solver. }
  assert (Hbelow_id : below f0 id0 id) by (apply Hbe; set_solver).
  split; rewrite ?Hh1, ?Hh, ?Hem1; try done.
  - intros p. rewrite Hb1, Hb, Hh. set_solver.
  - intros x Hx. assert (Hx' : x ∈ done ++ id :: rest \/ x ∈ kids) by set_solver.
    destruct Hx' as [Hx'|(p & Hp & <- & E & _)%Hkids]; [by apply Hbe|]. apply below_child; [done|]. by rewrite E.
  - left. destruct Hroot as [|[= -> ->]]; set_solver.
  - intros p Hp Hpr. destruct (decide (bsId (heap f0 p) ∈ id :: done)); [set_solver|].
    apply elem_of_cons in Hpr as [E|Hpr]; [|specialize (Hcl p Hp Hpr); set_solver].
    apply elem_of_app. right. apply elem_of_app. right. apply Hkids. by exists p.
  - apply NoDup_app. apply NoDup_cons in Hnd as [Hid Hnd]. split_and!; [done| |].
    + intros x Hx (p & Hp & <- & E & Hn)%Hkids.
      destruct (Hor (bsId (heap f0 p))) as [E0|(q & Hq & Eq & Hqd)]; [set_solver| |].
      * destruct Hroot as [Hr|[= -> ->]]; [|set_solver]. apply (Hfr (bsId (heap f0 p))); [set_solver|congruence].
      * assert (q = p) as -> by by apply (ids_unique f0). congruence.
    + unfold kids. apply NoDup_fmap_2_strong; [|by apply children_NoDup].
      intros p q [Hp _]%children_elem [Hq _]%children_elem E; [|done..]. by apply (ids_unique f1).
  - intros x [Hx|(p & _ & <- & _ & Hn)%Hkids]%elem_of_app; [|done].
    intros [->|Hd]%elem_of_cons; [by apply NoDup_cons in Hnd as [? _]|]. by apply (Hfr x); [set_solver|].
  - intros x [Hx|(p & Hp & E & Hpr & _)%Hkids]%elem_of_app.
    + destruct (Hor x) as [|(p & Hp & E & Hpr)]; [set_solver|by left|]. right. exists p. set_solver.
    + right. exists p. set_solver.
Qed.

(** What is left to process: the queue and the blocks outside of it. *)
Definition pending_removals (queue : list BlockIdType) (f : ForkDatabase) : nat :=
  length queue + length (filter (fun p => bsId (heap f p) ∉ queue) (blocks f)).

Lemma pending_step f0 id0 done id rest f :
  index_ok f0 -> removing f0 id0 done (id :: rest) f ->
  let f1 := erase_id id f in
  let kids := map (fun p => bsId (heap f1 p)) (children id f1) in
  (S (pending_removals (rest ++ kids) f1) <= pending_removals (id :: rest) f)%nat.
Proof.
  intros Hf0 Hr f1 kids. pose proof (removing_step _ _ _ _ _ _ Hf0 Hr) as Hr1. fold f1 kids in Hr1.
  destruct (erase_id_spec id f (rm_ok _ _ _ _ _ Hr)) as (Hok1 & Hh1 & _ & _ & Hb1). fold f1 in Hok1, Hh1, Hb1.
  unfold pending_removals. rewrite length_app. unfold kids at 1. rewrite length_map. simpl length.
  pose proof (rm_nodup _ _ _ _ _ Hr1) as Hnd. apply NoDup_app in Hnd as (_ & Hdisj & _).
  enough (length (children id f1) + length (filter (fun p => bsId (heap f1 p) ∉ rest ++ kids) (blocks f1)) <=
    length (filter (fun p => bsId (heap f p) ∉ id :: rest) (blocks f)))%nat by lia.
  rewrite <- length_app. apply submseteq_length, NoDup_submseteq.
  - apply NoDup_app. split_and!; [by apply children_NoDup| |apply NoDup_filter, (ix_nodup f1 Hok1)].
    intros p Hp [Hn _]%list_elem_of_filter. apply Hn, elem_of_app. right. unfold kids. apply list_elem_of_fmap. by exists p.
  - intros p [Hp|[Hn Hp]%list_elem_of_filter]%elem_of_app; apply list_elem_of_filter.
    + assert (Hk : bsId (heap f1 p) ∈ kids) by (apply list_elem_of_fmap; by exists p).
      apply children_elem in Hp as [Hp _]; [|done]. apply Hb1 in Hp as [Hp Hid]. split; [|done].
      rewrite Hh1 in Hk. intros [E|Hx]%elem_of_cons; [done|]. by apply (Hdisj (bsId (heap f p))).
    + apply Hb1 in Hp as [Hp Hid]. rewrite Hh1 in Hn. split; [set_solver|done].
Qed.

Lemma remove_loop_spec f0 id0 fuel : index_ok f0 -> forall done queue f,
  removing f0 id0 done queue f -> (pending_removals queue f <= fuel)%nat ->
  exists f' done', remove_loop fuel queue f = (f', Ok tt) /\ removing f0 id0 done' [] f' /\ Head f' = Head f.
Proof.
  intros Hf0. induction fuel as [|fuel IH]; intros done [|id rest] f Hr Hfuel; try (exists f, done; by split_and!).
  - unfold pending_removals in Hfuel. simpl in Hfuel. lia.
  - cbn [remove_loop]. unfold mbind, M_bind, modify, get. fold (erase_id id f).
    destruct (IH (id :: done) _ _ (removing_step _ _ _ _ _ _ Hf0 Hr)) as (f' & done' & E & Hr' & Hh').
    { pose proof (pending_step _ _ _ _ _ _ Hf0 Hr). simpl in *. lia. }
    exists f', done'. rewrite E. split_and!; [done..|]. rewrite Hh'. by apply erase_id_spec, (rm_ok _ _ _ _ _ Hr).
Qed.

Lemma removing_init f id0 : index_ok f -> removing f id0 [] [id0] f.
Proof.
  intros Hf. split; try done; try set_solver.
  - intros id Hid. assert (id = id0) as -> by set_solver. constructor.
  - apply NoDup_singleton.
Qed.

(** The queue of [Remove] is emptied, and what is left is what is not below the id. *)
Lemma remove_all_below f id : index_ok f ->
  exists f', remove_loop (S (Size f)) [id] f = (f', Ok tt) /\ index_ok f' /\ heap f' = heap f /\
    Irreversible f' = Irreversible f /\ Head f' = Head f /\
    forall p, p ∈ blocks f' <-> p ∈ blocks f /\ ~ below f id (bsId (heap f p)).
Proof.
  intros Hf. destruct (remove_loop_spec f id (S (Size f)) Hf [] [id] f (removing_init f id Hf)) as (f' & done & E & Hr & Hh).
  { unfold pending_removals. rewrite (size_blocks f Hf). simpl.
    pose proof (length_filter (fun p => bsId (heap f p) ∉ [id]) (blocks f)). lia. }
  exists f'. split_and!; [done|apply Hr..|done|].
  intros p. rewrite (rm_blocks _ _ _ _ _ Hr). split; intros [Hp Hn]; (split; [done|]); intros Hb; apply Hn.
  - clear Hn Hp. induction Hb as [|q Hq Hb IH].
    + destruct (rm_root _ _ _ _ _ Hr); [done|discriminate].
    + pose proof (rm_closed _ _ _ _ _ Hr q Hq IH). set_solver.
  - apply (rm_below _ _ _ _ _ Hr). set_solver.
Qed.

(** [h] is a best block: no block has a higher irreversible number, among equals a
    higher BFT number, among those a higher number. *)
Definition best (f : ForkDatabase) (h : ptr) : Prop :=
  h ∈ blocks f /\ forall q, q ∈ blocks f -> lib_le (heap f h) (heap f q).

Lemma begin_best f h l : index_ok f -> byLib (Index f) = h :: l -> best f h.
Proof.
  intros Hf Hb. unfold best, blocks. rewrite Hb. split; [set_solver|].
  pose proof (ix_ord_lib f Hf) as Ho. rewrite Hb in Ho. inversion_clear Ho as [|?? _ Hh].
  intros q [->|Hq]%elem_of_cons; [unfold lib_le; lia|].
  rewrite Forall_forall in Hh. by apply ByLib_le, Hh.
Qed.

Lemma set_Head_ok h f : index_ok (set_Head h f) <-> index_ok f.
Proof. split; intros []; by split. Qed.

Lemma Emit_ok p f : index_ok (Emit p f) <-> index_ok f.
Proof. split; intros []; by split. Qed.

(** Removals keep the order by number: what is left is a filter of what was there. *)
Definition thinned (f f' : ForkDatabase) : Prop :=
  exists del : list ptr, byBlockNum (Index f') = filter (fun p => p ∉ del) (byBlockNum (Index f)).

Lemma thinned_refl f : thinned f f.
Proof.
  exists []. induction (byBlockNum (Index f)) as [|p l IH]; [done|].
  rewrite filter_cons_True by set_solver. by rewrite <- IH.
Qed.

Lemma thinned_trans f1 f2 f3 : thinned f1 f2 -> thinned f2 f3 -> thinned f1 f3.
Proof.
  intros [d1 E1] [d2 E2]. exists (d1 ++ d2). rewrite E2, E1, list_filter_filter.
  apply list_filter_iff. set_solver.
Qed.

Lemma thinned_erase p f : thinned f (Erase p f).
Proof. exists [p]. simpl. unfold remove. apply list_filter_iff. set_solver. Qed.

Lemma remove_loop_thinned fuel : forall queue f f' r, remove_loop fuel queue f = (f', r) -> thinned f f'.
Proof.
  induction fuel as [|fuel IH]; intros [|id rest] f f' r E; cbn in E; try (injection E as <- <-; apply thinned_refl).
  unfold mbind, M_bind, modify, get in E. apply IH in E. eapply thinned_trans; [|exact E].
  destruct (Find id f); [apply thinned_erase|apply thinned_refl].
Qed.

(** [Remove]: exactly the id and what is built on it leave the index; the head
    becomes a best block of the rest, and without a rest the code panics. *)
Lemma Remove_spec f id : index_ok f ->
  exists f' r, Remove id f = (f', r) /\ index_ok f' /\ heap f' = heap f /\ Irreversible f' = Irreversible f /\
    thinned f f' /\ (forall p, p ∈ blocks f' <-> p ∈ blocks f /\ ~ below f id (bsId (heap f p))) /\
    (r = Ok tt /\ (exists h, Head f' = Some h /\ best f' h) \/
     r = Throw NilDereference /\ blocks f' = [] /\ Head f' = Head f).
Proof.
  intros Hf. unfold Remove, mbind, M_bind, get.
  destruct (remove_all_below f id Hf) as (f' & E & Hok & Hh & Hem & Hhd & Hb). pose proof (remove_loop_thinned _ _ _ _ _ E) as Ht.
  rewrite E. unfold lift. destruct (byLib (Index f')) as [|h l] eqn:Hl; simpl.
  - exists f', (Throw NilDereference). split_and!; try done. right. by split_and!.
  - exists (set_Head (Some h) f'), (Ok tt). split_and!; try done; [by apply set_Head_ok|].
    left. split; [done|]. exists h. split; [done|]. by apply (begin_best f' h l).
Qed.

Lemma Remove_shrinks f f' r id p : index_ok f -> Remove id f = (f', r) -> p ∈ blocks f -> bsId (heap f p) = id ->
  (Size f' < Size f)%nat /\ p ∉ blocks f'.
Proof.
  intros Hf E Hp Hid. destruct (Remove_spec f id Hf) as (f1 & r1 & E1 & Hok & Hh & _ & _ & Hb & _).
  rewrite E in E1. injection E1 as <- <-.
  assert (Hn : p ∉ blocks f') by (rewrite Hb; intros [_ H]; apply H; rewrite Hid; constructor).
  split; [|done]. rewrite !size_blocks by done. apply (Nat.le_trans _ (length (p :: blocks f'))); [simpl; lia|].
  apply submseteq_length, NoDup_submseteq; [apply NoDup_cons; split; [done|apply (ix_nodup f' Hok)]|].
  intros q [->|Hq]%elem_of_cons; [done|]. by apply Hb in Hq as [? _].
Qed.
End ForkDb.
