(* ===== verification/ForkPrune.v ===== *)
(** * ForkPrune: pruning, adding blocks, and the reachable states of the fork database

    The operations of [ForkDatabase.v] that retire irreversible blocks and accept
    new ones: what they leave in the index, that their loops end, and the invariant
    of the container along every sequence of operations. *)

From stdpp Require Import sorting.
From S2P Require Import Prelude Bytes Rlp Sha256 Merkle BlockHeader BlockHeaderState OrderedIndex ForkDatabase.
From S2P Require Ecc.

Section Prune.
Context {Receipt Trx : Type}.
Local Abbreviation ForkDatabase := (@ForkDatabase.ForkDatabase Receipt Trx).
Local Abbreviation BlockState := (@ForkDatabase.BlockState Receipt Trx).
Implicit Types (f : ForkDatabase) (p q h : ptr).

(** ** Iterators by number *)

Lemma num_respects n : respects (V := BlockState) ByBlockNumCompare ByBlockNumFunc (Some n, None).
Proof.
  intros a b. unfold ByBlockNumCompare, ByBlockNumFunc. simpl.
  repeat match goal with |- context [?x <? ?y] => destruct (Z.ltb_spec x y) end; simpl; try lia;
    destruct (InCurrentChain a), (InCurrentChain b); simpl; lia.
Qed.

Lemma num_key_le n (b : BlockState) : ByBlockNumCompare (Some n, None) (ByBlockNumFunc b) <= 0 <-> n <= bsNum b.
Proof.
  unfold ByBlockNumCompare, ByBlockNumFunc. simpl.
  destruct (Z.ltb_spec n (bsNum b)), (Z.ltb_spec (bsNum b) n); simpl; lia.
Qed.

(** The lower bound of a number: the blocks from that number on. *)
Lemma num_lower_bound f n : index_ok f ->
  LowerBound ByBlockNumCompare ByBlockNumFunc (heap f) (Some n, None) (byBlockNum (Index f)) =
  filter (fun p => n <= bsNum (heap f p)) (byBlockNum (Index f)).
Proof.
  intros Hf. rewrite LowerBound_filter by (apply num_respects || apply (ix_ord_num f Hf)).
  apply list_filter_iff. intros p. apply num_key_le.
Qed.

(** Earlier in the index means a lower number, or the same one and not less in the
    current chain. *)
Lemma num_before (a b : BlockState) :
  ByBlockNumCompare (ByBlockNumFunc a) (ByBlockNumFunc b) <= 0 <->
  bsNum a < bsNum b \/ bsNum a = bsNum b /\ (InCurrentChain b = true -> InCurrentChain a = true).
Proof.
  unfold ByBlockNumCompare, ByBlockNumFunc. simpl.
  destruct (Z.ltb_spec (bsNum a) (bsNum b)), (Z.ltb_spec (bsNum b) (bsNum a)); simpl; try lia.
  destruct (InCurrentChain a), (InCurrentChain b); simpl; split; intros; try lia; try tauto.
  all: destruct H1 as [|[_ H1]]; [lia|]. all: by specialize (H1 eq_refl).
Qed.

Lemma begin_oldest f p l q : index_ok f -> byBlockNum (Index f) = p :: l -> q ∈ blocks f -> bsNum (heap f p) <= bsNum (heap f q).
Proof.
  intros Hf E Hq. rewrite <- (ix_num f Hf), E in Hq. pose proof (ix_ord_num f Hf) as Ho. rewrite E in Ho.
  inversion_clear Ho as [|?? _ Hh]. apply elem_of_cons in Hq as [->|Hq]; [lia|].
  rewrite Forall_forall in Hh. apply Hh, num_before in Hq. lia.
Qed.

(** [q] comes after [p]. *)
Definition follows (l : list ptr) p q : Prop := [p; q] `sublist_of` l.

Lemma sublist_pair_split l p q : NoDup l -> follows l p q ->
  exists l1 l2, l = l1 ++ p :: l2 /\ q ∈ l2 /\ p ∉ l1.
Proof.
  unfold follows. intros Hn H. apply sublist_cons_l in H as (l1 & l2 & -> & H). exists l1, l2. split_and!; [done| |].
  - apply sublist_subseteq in H. set_solver.
  - apply NoDup_app in Hn as (_ & Hd & _). set_solver.
Qed.

Lemma next_middle p l1 l2 : p ∉ l1 -> next p (l1 ++ p :: l2) = head l2.
Proof.
  induction l1 as [|q l1 IH]; intros Hp; simpl; [by rewrite decide_True|].
  rewrite decide_False by set_solver. apply IH. set_solver.
Qed.

(** What follows [p] is the next element or follows it. *)
Lemma follows_next l p q : NoDup l -> follows l p q ->
  exists r, next p l = Some r /\ (q = r \/ follows l r q).
Proof.
  intros Hn (l1 & l2 & -> & Hq & Hp)%sublist_pair_split; [|done]. rewrite next_middle by done.
  destruct l2 as [|r l2]; [set_solver|]. exists r. split; [done|].
  apply elem_of_cons in Hq as [->|Hq]; [by left|]. right. unfold follows.
  apply sublist_inserts_l, sublist_cons, sublist_skip. by apply singleton_sublist_l.
Qed.

Lemma follows_thinned f f' p q : index_ok f' ->
  thinned f f' -> p ∈ blocks f' -> q ∈ blocks f' ->
  follows (byBlockNum (Index f)) p q -> follows (byBlockNum (Index f')) p q.
Proof.
  intros Hf' [del E] Hp Hq Hs. rewrite <- (ix_num f' Hf'), E, list_elem_of_filter in Hp, Hq.
  unfold follows in *. rewrite E. clear E. destruct Hp as [Hp _], Hq as [Hq _].
  assert (Hkeep : forall k l, k `sublist_of` l -> filter (fun p => p ∉ del) k `sublist_of` filter (fun p => p ∉ del) l).
  { induction 1 as [|x k l H IH|x k l H IH]; [done| |]; rewrite ?filter_cons; case_decide; by try constructor. }
  apply Hkeep in Hs. by rewrite !filter_cons_True, filter_nil in Hs.
Qed.

(** ** The loops of [Prune] *)

(** What every step of a pruning does to the database. *)
Record pruned (f f' : ForkDatabase) : Prop := {
  pr_ok : index_ok f';
  pr_heap : heap f' = heap f;
  pr_sub : forall p, p ∈ blocks f' -> p ∈ blocks f }.

Lemma pruned_refl f : index_ok f -> pruned f f.
Proof. by split. Qed.

Lemma pruned_trans f1 f2 f3 : pruned f1 f2 -> pruned f2 f3 -> pruned f1 f3.
Proof. intros [] []. split; [done|congruence|auto]. Qed.

Lemma Remove_pruned f f' r id : index_ok f -> Remove id f = (f', r) ->
  pruned f f' /\ thinned f f' /\ Irreversible f' = Irreversible f /\ r <> Throw OutOfFuel.
Proof.
  intros Hf E. destruct (Remove_spec f id Hf) as (f1 & r1 & E1 & Hok & Hh & Hem & Ht & Hb & Hr).
  rewrite E in E1. injection E1 as <- <-. split_and!; try done.
  - split; [done..|]. intros p Hp. by apply Hb in Hp as [? _].
  - destruct Hr as [[-> _]|[-> _]]; done.
Qed.

Lemma follows_num f p q : index_ok f -> follows (byBlockNum (Index f)) p q -> bsNum (heap f p) <= bsNum (heap f q).
Proof.
  intros Hf H. assert (Hnd : NoDup (byBlockNum (Index f))) by (rewrite (ix_num f Hf); apply (ix_nodup f Hf)).
  destruct (sublist_pair_split _ _ _ Hnd H) as (l1 & l2 & EL & Hq & _).
  pose proof (ix_ord_num f Hf) as Ho. rewrite EL in Ho. apply StronglySorted_app_1_r in Ho.
  inversion_clear Ho as [|?? _ Hh]. rewrite Forall_forall in Hh. specialize (Hh q Hq). apply num_before in Hh. lia.
Qed.

Lemma next_follows l p r : NoDup l -> p ∈ l -> next p l = Some r -> follows l p r.
Proof.
  intros Hn (l1 & l2 & ->)%list_elem_of_split Hr. apply NoDup_app in Hn as (_ & Hd & _).
  rewrite next_middle in Hr by set_solver. destruct l2 as [|r' l2]; [done|]. injection Hr as ->.
  unfold follows. apply sublist_inserts_l, sublist_skip, sublist_skip, sublist_nil_l.
Qed.

Lemma follows_elem l p q : follows l p q -> q ∈ l.
Proof. intros H%sublist_subseteq. set_solver. Qed.

(** The iterator of the loop: no block of the number [num] is before it. *)
Definition at_siblings (num : Z) (f : ForkDatabase) (nitr : option ptr) : Prop :=
  (forall p, nitr = Some p -> num <= bsNum (heap f p)) /\
  (forall q, q ∈ blocks f -> bsNum (heap f q) = num -> exists p, nitr = Some p /\ (q = p \/ follows (byBlockNum (Index f)) p q)).

Lemma at_siblings_done num f nitr : index_ok f -> at_siblings num f nitr ->
  (forall p, nitr = Some p -> bsNum (heap f p) <> num) -> forall q, q ∈ blocks f -> bsNum (heap f q) <> num.
Proof.
  intros Hf [Hle Hn] Hd q Hq E. destruct (Hn q Hq E) as (p & -> & [->|Hfol]); [by apply (Hd p)|].
  apply follows_num in Hfol; [|done]. specialize (Hle p eq_refl). specialize (Hd p eq_refl). lia.
Qed.

Lemma at_siblings_next num f f' p : index_ok f -> pruned f f' -> thinned f f' -> p ∈ blocks f -> p ∉ blocks f' ->
  bsNum (heap f p) = num -> at_siblings num f (Some p) ->
  (forall r, next p (byBlockNum (Index f)) = Some r -> r ∈ blocks f') ->
  at_siblings num f' (next p (byBlockNum (Index f))).
Proof.
  intros Hf [Hok Hh Hsub] Ht Hp Hp' Hnum [_ Hn] Hlive. split; rewrite Hh.
  - intros r Hr. apply next_follows, follows_num in Hr; [lia|done| |rewrite (ix_num f Hf); done].
    rewrite (ix_num f Hf). apply (ix_nodup f Hf).
  - intros q Hq Eq. destruct (Hn q (Hsub q Hq) Eq) as (p0 & [= <-] & [->|Hfol]); [done|].
    apply follows_next in Hfol as (r & Hr & Hqr); [|rewrite (ix_num f Hf); apply (ix_nodup f Hf)].
    exists r. split; [done|]. destruct Hqr as [->|Hqr]; [by left|]. right.
    apply (follows_thinned f); try done. by apply Hlive.
Qed.

Lemma prune_siblings_spec num fuel : forall nitr f f' r,
  index_ok f -> (Size f <= fuel)%nat -> ((forall p, nitr = Some p -> p ∈ blocks f) -> at_siblings num f nitr) ->
  prune_siblings fuel nitr num f = (f', r) ->
  pruned f f' /\ Irreversible f' = Irreversible f /\ r <> Throw OutOfFuel /\
  (r = Ok tt -> forall q, q ∈ blocks f' -> bsNum (heap f' q) <> num).
Proof.
  induction fuel as [fuel IH] using lt_wf_ind. intros [p|] f f' r Hf Hs Hn E.
  2: { assert (E' : (f, Ok tt) = (f', r)) by (by destruct fuel). injection E' as <- <-.
       split_and!; [by apply pruned_refl|done..|]. intros _. by apply (at_siblings_done num f None Hf (Hn ltac:(done))). }
  assert (Hex : forall r0, (f, r0) = (f', r) -> r0 <> Throw OutOfFuel ->
    (r0 = Ok tt -> forall q, q ∈ blocks f -> bsNum (heap f q) <> num) ->
    pruned f f' /\ Irreversible f' = Irreversible f /\ r <> Throw OutOfFuel /\
    (r = Ok tt -> forall q, q ∈ blocks f' -> bsNum (heap f' q) <> num)).
  { intros r0 [= <- <-] ? ?. split_and!; [by apply pruned_refl|done..]. }
  destruct (decide (p ∈ byBlockNum (Index f))) as [Hp|Hp].
  2: { apply (Hex (Throw NilDereference)); [|done..].
       by destruct fuel; cbn [prune_siblings] in E; unfold mbind, M_bind, get in E; rewrite decide_False in E. }
  assert (Hpb : p ∈ blocks f) by by rewrite <- (ix_num f Hf).
  specialize (Hn ltac:(intros ? [= <-]; done)).
  destruct (decide (bsNum (heap f p) = num)) as [Hpn|Hpn].
  2: { apply (Hex (Ok tt)); [|done|intros _; apply (at_siblings_done num f (Some p)); naive_solver].
       by destruct fuel; cbn [prune_siblings] in E; unfold mbind, M_bind, get in E; rewrite decide_True in E by done;
         rewrite (proj2 (Z.eqb_neq _ _)) in E. }
  destruct fuel as [|fuel].
  { rewrite (size_blocks f Hf) in Hs. destruct (blocks f); [set_solver|simpl in Hs; lia]. }
  cbn [prune_siblings] in E. unfold mbind, M_bind, get in E. rewrite decide_True in E by done.
  rewrite (proj2 (Z.eqb_eq _ _)) in E by done.
  destruct (Remove (bsId (heap f p)) f) as [f1 [[]|e]] eqn:ER;
    destruct (Remove_pruned _ _ _ _ Hf ER) as (Hpr & Ht & Hem & Hnf).
  - destruct (Remove_shrinks _ _ _ _ p Hf ER Hpb eq_refl) as [Hsz Hp1].
    destruct (IH fuel ltac:(lia) (next p (byBlockNum (Index f))) f1 f' r (pr_ok _ _ Hpr) ltac:(lia)) with (2 := E) as (Hpr' & Hem' & Hr' & Hdone).
    { intros Hlive. by apply (at_siblings_next num f f1 p). }
    split_and!; [by eapply pruned_trans|congruence|done|done].
  - injection E as <- <-. by split_and!.
Qed.

(** The tail of [Prune h], once no block is older: its block is emitted and erased,
    then the other blocks of the number are removed. *)
Definition prune_tail (h : ptr) (num : Z) : M ForkDatabase unit :=
  f ← get;
  _ ← match Find (bsId (heap f h)) f with
      | Some p => modify (fun f => Erase p (Emit p f))
      | None => mret tt
      end;
  f ← get;
  prune_siblings (Size f) (head (LowerBound ByBlockNumCompare ByBlockNumFunc (heap f) (Some num, None) (byBlockNum (Index f)))) num.

Lemma head_filter_follows (P : ptr -> Prop) `{!forall x, Decision (P x)} l q :
  q ∈ filter P l -> exists p, head (filter P l) = Some p /\ (q = p \/ follows l p q).
Proof.
  intros Hq. pose proof (sublist_filter P l) as Hs. destruct (filter P l) as [|p k]; [set_solver|].
  exists p. split; [done|]. apply elem_of_cons in Hq as [->|Hq]; [by left|]. right. unfold follows.
  etrans; [|exact Hs]. apply sublist_skip. by apply singleton_sublist_l.
Qed.

Lemma lower_bound_at_siblings num f : index_ok f ->
  at_siblings num f (head (LowerBound ByBlockNumCompare ByBlockNumFunc (heap f) (Some num, None) (byBlockNum (Index f)))).
Proof.
  intros Hf. rewrite num_lower_bound by done. split.
  - intros p Hp. apply head_Some_elem_of, list_elem_of_filter in Hp. tauto.
  - intros q Hq E. apply head_filter_follows, list_elem_of_filter. split; [lia|]. by rewrite (ix_num f Hf).
Qed.

Lemma prune_tail_spec h num f f' r : index_ok f -> prune_tail h num f = (f', r) ->
  pruned f f' /\ r <> Throw OutOfFuel /\
  (r = Ok tt -> forall q, q ∈ blocks f' -> bsNum (heap f' q) <> num) /\
  match Find (bsId (heap f h)) f with
  | Some p => (Size f' < Size f)%nat /\ p ∉ blocks f' /\ Irreversible f' = Irreversible f ++ [p]
  | None => Irreversible f' = Irreversible f
  end.
Proof.
  intros Hf E. unfold prune_tail, mbind, M_bind, get, modify, mret, M_ret in E.
  destruct (Find (bsId (heap f h)) f) as [p|] eqn:Hfind.
  - apply (ix_id f Hf) in Hfind as [Hp _].
    destruct (Erase_ok (Emit p f) p (proj2 (Emit_ok p f) Hf) Hp) as [Hok Hb].
    change (blocks (Emit p f)) with (blocks f) in Hb. set (f1 := Erase p (Emit p f)) in *.
    destruct (prune_siblings_spec _ _ _ _ _ _ Hok (le_n _) (fun _ => lower_bound_at_siblings num f1 Hok) E) as (Hpr & Hem & Hr & Hd).
    assert (Hpr1 : pruned f f1) by (split; [done..|]; rewrite Hb; intros q [_ ?]%remove_elem; done).
    assert (Hpn : p ∉ blocks f') by (intros Hx; apply (pr_sub _ _ Hpr) in Hx; rewrite Hb in Hx; by apply remove_elem in Hx as [? _]).
    split_and!; [by eapply pruned_trans|done..| |done|by rewrite Hem].
    rewrite !size_blocks by (done || apply Hpr). apply (Nat.le_trans _ (length (p :: blocks f'))); [simpl; lia|].
    apply submseteq_length, NoDup_submseteq; [apply NoDup_cons; split; [done|apply (ix_nodup _ (pr_ok _ _ Hpr))]|].
    intros q [->|Hq]%elem_of_cons; [done|]. by apply (pr_sub _ _ Hpr1), (pr_sub _ _ Hpr).
  - destruct (prune_siblings_spec _ _ _ _ _ _ Hf (le_n _) (fun _ => lower_bound_at_siblings num f Hf) E) as (Hpr & Hem & Hr & Hd).
    by split_and!.
Qed.
(** The blocks announced as irreversible: blocks of the index with ascending numbers. *)
Record announced (f f' : ForkDatabase) (ems : list ptr) (bound : Z) : Prop := {
  an_log : Irreversible f' = Irreversible f ++ ems;
  an_known : forall p, p ∈ ems -> p ∈ blocks f /\ bsNum (heap f p) <= bound;
  an_ascending : StronglySorted (fun p q => bsNum (heap f p) < bsNum (heap f q)) ems }.

Lemma prune_rec_unfold fuel h f :
  prune_rec fuel h f =
  (_ ← prune_older (match fuel with O => fun _ => lift (Throw OutOfFuel) | S fuel' => prune_rec fuel' end) (Size f) (bsNum (heap f h));
   prune_tail h (bsNum (heap f h))) f.
Proof. by destruct fuel. Qed.

Lemma prune_begin f p l : byBlockNum (Index f) = p :: l -> prune_rec 0 p f = prune_tail p (bsNum (heap f p)) f.
Proof.
  intros E. rewrite prune_rec_unfold. unfold mbind, M_bind.
  assert (Hno : forall n, prune_older (fun _ => lift (Throw OutOfFuel)) n (bsNum (heap f p)) f = (f, Ok tt)).
  { intros n. destruct n; cbn [prune_older]; unfold mbind, M_bind, get; by rewrite E, Z.ltb_irrefl. }
  by rewrite Hno.
Qed.

Lemma prune_older_spec num fuel : forall f f' r,
  index_ok f -> (Size f <= fuel)%nat -> prune_older (prune_rec 0) fuel num f = (f', r) ->
  pruned f f' /\ r <> Throw OutOfFuel /\ (r = Ok tt -> forall q, q ∈ blocks f' -> num <= bsNum (heap f' q)) /\
  exists ems, announced f f' ems (num - 1).
Proof.
  induction fuel as [|fuel IH]; intros f f' r Hf Hs E; cbn [prune_older] in E; unfold mbind, M_bind, get in E;
    destruct (byBlockNum (Index f)) as [|p l] eqn:EL.
  1, 3: injection E as <- <-; split_and!; [by apply pruned_refl|done| |exists []; split; [by rewrite app_nil_r|set_solver|constructor]];
    intros _ q Hq; rewrite <- (ix_num f Hf), EL in Hq; set_solver.
  all: assert (Hp : p ∈ blocks f) by (rewrite <- (ix_num f Hf), EL; set_solver).
  all: destruct (Z.ltb_spec (bsNum (heap f p)) num) as [Hlt|Hge];
    [|injection E as <- <-; split_and!; [by apply pruned_refl|done| |exists []; split; [by rewrite app_nil_r|set_solver|constructor]];
      intros _ q Hq; pose proof (begin_oldest f p l q Hf EL Hq); lia].
  { rewrite (size_blocks f Hf) in Hs. destruct (blocks f); [set_solver|simpl in Hs; lia]. }
  rewrite (prune_begin f p l EL) in E.
  destruct (prune_tail p (bsNum (heap f p)) f) as [f1 r1] eqn:ET.
  destruct (prune_tail_spec _ _ _ _ _ Hf ET) as (Hpr & Hr1 & Hd1 & Hfind).
  rewrite (proj2 (ix_id f Hf _ p) (conj Hp eq_refl)) in Hfind. destruct Hfind as (Hsz & Hpn & Hem).
  destruct r1 as [[]|e].
  - destruct (IH f1 f' r (pr_ok _ _ Hpr) ltac:(lia) E) as (Hpr' & Hr' & Hd' & ems & [Hlog Hk Hasc]).
    split_and!; [by eapply pruned_trans|done|done|]. exists (p :: ems). rewrite (pr_heap _ _ Hpr) in Hk, Hasc. split.
    + by rewrite Hlog, Hem, <- (assoc_L (++)).
    + intros q [->|Hq]%elem_of_cons; [split; [done|lia]|]. destruct (Hk q Hq). split; [|done]. by apply (pr_sub _ _ Hpr).
    + constructor; [done|]. apply Forall_forall. intros q Hq. destruct (Hk q Hq) as [Hqb _].
      pose proof (begin_oldest f p l q Hf EL (pr_sub _ _ Hpr q Hqb)).
      specialize (Hd1 eq_refl q Hqb). rewrite (pr_heap _ _ Hpr) in Hd1. lia.
  - injection E as <- <-. split_and!; [done|done|done|]. exists [p]. split; [done| |repeat constructor].
    intros q ->%list_elem_of_singleton. split; [done|lia].
Qed.

Lemma Prune_spec h f f' r : index_ok f -> h ∈ blocks f -> Prune h f = (f', r) ->
  pruned f f' /\ r <> Throw OutOfFuel /\
  (r = Ok tt -> forall q, q ∈ blocks f' -> bsNum (heap f h) < bsNum (heap f' q)) /\
  exists ems, announced f f' ems (bsNum (heap f h)).
Proof.
  intros Hf Hh E. unfold Prune in E. rewrite prune_rec_unfold in E. unfold mbind, M_bind in E.
  destruct (prune_older _ _ _ f) as [f1 r1] eqn:EO.
  destruct (prune_older_spec _ _ _ _ _ Hf (le_n _) EO) as (Hpr & Hr1 & Hd1 & ems & [Hlog Hk Hasc]).
  destruct r1 as [[]|e].
  2: { injection E as <- <-. split_and!; [done..|]. exists ems. split; [done| |done].
       intros p Hp. destruct (Hk p Hp). split; [done|lia]. }
  destruct (prune_tail_spec _ _ _ _ _ (pr_ok _ _ Hpr) E) as (Hpr' & Hr & Hd & Hfind).
  split_and!; [by eapply pruned_trans|done| |].
  - intros -> q Hq. specialize (Hd eq_refl q Hq). pose proof (Hd1 eq_refl q (pr_sub _ _ Hpr' q Hq)).
    rewrite (pr_heap _ _ Hpr') in *. lia.
  - destruct (Find (bsId (heap f1 h)) f1) as [p|] eqn:Hp.
    + apply (ix_id f1 (pr_ok _ _ Hpr)) in Hp as [Hp Hid]. rewrite (pr_heap _ _ Hpr) in Hid. destruct Hfind as (_ & _ & Hem).
      assert (p = h) as -> by (apply (ids_unique f); [done|by apply (pr_sub _ _ Hpr)|done..]).
      exists (ems ++ [h]). split.
      * by rewrite Hem, Hlog, (assoc_L (++)).
      * intros q [Hq| ->%list_elem_of_singleton]%elem_of_app; [|by split]. destruct (Hk q Hq). split; [done|lia].
      * apply StronglySorted_app_2; [|done|repeat constructor]. intros q x Hq ->%list_elem_of_singleton.
        destruct (Hk q Hq). lia.
    + exists ems. split; [congruence| |done]. intros q Hq. destruct (Hk q Hq). split; [done|lia].
Qed.

(** Without the assumption that [h] is in the index. *)
Lemma Prune_pruned h f f' r : index_ok f -> Prune h f = (f', r) -> pruned f f' /\ r <> Throw OutOfFuel.
Proof.
  intros Hf E. unfold Prune in E. rewrite prune_rec_unfold in E. unfold mbind, M_bind in E.
  destruct (prune_older _ _ _ f) as [f1 r1] eqn:EO.
  destruct (prune_older_spec _ _ _ _ _ Hf (le_n _) EO) as (Hpr & Hr1 & _ & _).
  destruct r1 as [[]|e]; [|by injection E as <- <-].
  destruct (prune_tail_spec _ _ _ _ _ (pr_ok _ _ Hpr) E) as (Hpr' & Hr & _).
  split; [by eapply pruned_trans|done].
Qed.

(** ** The head after a pruning *)

Definition head_best (f : ForkDatabase) : Prop := exists h, Head f = Some h /\ best f h.

Lemma prune_siblings_head num fuel : forall nitr f f',
  index_ok f -> prune_siblings fuel nitr num f = (f', Ok tt) -> f' = f \/ head_best f'.
Proof.
  induction fuel as [|fuel IH]; intros [p|] f f' Hf E; cbn [prune_siblings] in E; unfold mbind, M_bind, get, lift in E;
    repeat case_decide; try (destruct (_ =? num)); try (injection E as <-; by left); try done.
  destruct (Remove (bsId (heap f p)) f) as [f1 [[]|e]] eqn:ER; [|done].
  destruct (Remove_spec f (bsId (heap f p)) Hf) as (f2 & r2 & E2 & Hok & _ & _ & _ & _ & Hr).
  rewrite ER in E2. injection E2 as <- <-.
  destruct (IH _ _ _ Hok E) as [->|]; [|by right]. right. by destruct Hr as [[_ ?]|[]].
Qed.

(** Pruning the first block of the index, when the head is not that block. *)
Lemma prune_older_first f o l : byBlockNum (Index f) = o :: l -> forall n, prune_older (prune_rec 0) n (bsNum (heap f o)) f = (f, Ok tt).
Proof. intros EL n. destruct n; cbn [prune_older]; unfold mbind, M_bind, get; by rewrite EL, Z.ltb_irrefl. Qed.

(** The first block of the index is announced and goes. *)
Lemma Prune_oldest f f' o l r : index_ok f -> byBlockNum (Index f) = o :: l -> Prune o f = (f', r) ->
  Irreversible f' = Irreversible f ++ [o] /\ o ∉ blocks f'.
Proof.
  intros Hf EL E. unfold Prune in E. rewrite prune_rec_unfold in E. unfold mbind, M_bind in E. rewrite (prune_older_first f o l EL) in E.
  destruct (prune_tail_spec _ _ _ _ _ Hf E) as (_ & _ & _ & Hfind). assert (o ∈ blocks f) as Ho by (rewrite <- (ix_num f Hf), EL; set_solver).
  rewrite (proj2 (ix_id f Hf _ o) (conj Ho eq_refl)) in Hfind. by destruct Hfind as (_ & ? & ?).
Qed.

Lemma Prune_oldest_head f f' o l h : index_ok f -> byBlockNum (Index f) = o :: l -> Head f = Some h -> best f h -> h <> o ->
  Prune o f = (f', Ok tt) -> head_best f'.
Proof.
  intros Hf EL Hh [Hhb Hbest] Hne E. unfold Prune in E. rewrite prune_rec_unfold in E. unfold mbind, M_bind in E.
  rewrite (prune_older_first f o l EL) in E. assert (Ho : o ∈ blocks f) by (rewrite <- (ix_num f Hf), EL; set_solver).
  unfold prune_tail, mbind, M_bind, get, modify in E. rewrite (proj2 (ix_id f Hf _ o) (conj Ho eq_refl)) in E.
  destruct (Erase_ok (Emit o f) o (proj2 (Emit_ok o f) Hf) Ho) as [Hok Hb].
  apply prune_siblings_head in E as [->|]; [|done..]. exists h. split; [done|].
  unfold best. rewrite Hb. split; [by apply remove_elem|]. intros q [_ Hq]%remove_elem. by apply Hbest.
Qed.

(** ** Properties *)

(** C10. [Remove id] takes out of the index exactly the block [id] and the blocks built on
    it, directly or not, and terminates; the other blocks and all objects are as
    before.  The head is then a block with the highest irreversible number, among
    those the highest BFT number, among those the highest number; if no block is left
    the code dereferences a nil pointer. *)
Theorem fork_remove_exact f id : index_ok f ->
  exists f' r, Remove id f = (f', r) /\ index_ok f' /\ heap f' = heap f /\
    (forall p, p ∈ blocks f' <-> p ∈ blocks f /\ ~ below f id (bsId (heap f p))) /\
    (r = Ok tt /\ (exists h, Head f' = Some h /\ best f' h) \/ r = Throw NilDereference /\ blocks f' = []).
Proof.
  intros Hf. destruct (Remove_spec f id Hf) as (f' & r & E & Hok & Hh & _ & _ & Hb & Hr).
  exists f', r. split_and!; try done. destruct Hr as [?|(? & ? & _)]; auto.
Qed.

(** C11. [Prune h] for a block of the index terminates, with one level of recursion; what
    it leaves is a part of the index, and when it returns no block with a number up to
    that of [h] is left.  The blocks it announces as irreversible are blocks of the
    index, in ascending order of their numbers. *)
Theorem fork_prune_result f f' r h : index_ok f -> h ∈ blocks f -> Prune h f = (f', r) ->
  r <> Throw OutOfFuel /\ index_ok f' /\ heap f' = heap f /\ (forall p, p ∈ blocks f' -> p ∈ blocks f) /\
  (r = Ok tt -> forall q, q ∈ blocks f' -> bsNum (heap f h) < bsNum (heap f' q)) /\
  exists ems, Irreversible f' = Irreversible f ++ ems /\
    (forall p, p ∈ ems -> p ∈ blocks f /\ bsNum (heap f p) <= bsNum (heap f h)) /\
    StronglySorted (fun p q => bsNum (heap f p) < bsNum (heap f q)) ems.
Proof.
  intros Hf Hh E. destruct (Prune_spec h f f' r Hf Hh E) as ([Hok Hhp Hsub] & Hr & Hd & ems & [Hl Hk Ha]).
  split_and!; try done. by exists ems.
Qed.

Lemma Insert_known f b : index_ok f ->
  (exists q, q ∈ blocks f /\ bsId (heap f q) = bsId (heap f b)) <-> Insert b f = (f, Ok false).
Proof.
  intros Hf. unfold Insert, ByBlockIdFunc. pose proof (ix_id f Hf (bsId (heap f b))) as Hid. unfold Find in Hid.
  destruct (byBlockId (Index f) !! bsId (heap f b)) as [q|]; [split; [done|]; intros _; exists q; by apply Hid|].
  split; [|done]. intros (q & Hq). by apply Hid in Hq.
Qed.

(** C9. [AddBlockState] of a block whose id is known raises [ForkDatabaseException] and changes
    nothing.  With a new id the block is added: of the blocks there are then, let [h] be a
    best one by irreversible, BFT-irreversible and own number, and [o] one of the least
    number.  When no number is below what [h] says is irreversible, the call returns the
    block, the index holds exactly the blocks from before and the new one, and the head is
    [h].  Otherwise [o] is announced as irreversible, and no other, and taken out with the
    blocks that the pruning takes; when the call then returns, only later numbers than
    that of [o] are left and the head is a best block of what is left.  No block may claim
    an irreversible number above its own. *)
Theorem fork_add_block_state f b : index_ok f ->
  (forall p, p = b \/ p ∈ blocks f -> bsDpos (heap f p) <= bsNum (heap f p)) ->
  ((exists q, q ∈ blocks f /\ bsId (heap f q) = bsId (heap f b)) -> AddBlockState b f = (f, Throw ForkDatabaseException)) /\
  ((forall q, q ∈ blocks f -> bsId (heap f q) <> bsId (heap f b)) ->
   exists f' r h o, AddBlockState b f = (f', r) /\ index_ok f' /\ heap f' = heap f /\
     h ∈ b :: blocks f /\ (forall q, q ∈ b :: blocks f -> lib_le (heap f h) (heap f q)) /\
     o ∈ b :: blocks f /\ (forall q, q ∈ b :: blocks f -> bsNum (heap f o) <= bsNum (heap f q)) /\
     (bsDpos (heap f h) <= bsNum (heap f o) ->
        r = Ok b /\ blocks f' ≡ₚ b :: blocks f /\ Head f' = Some h /\ Irreversible f' = Irreversible f) /\
     (bsNum (heap f o) < bsDpos (heap f h) ->
        r <> Throw OutOfFuel /\ (forall p, p ∈ blocks f' -> p ∈ b :: blocks f) /\ o ∉ blocks f' /\ Irreversible f' = Irreversible f ++ [o] /\
        forall b', r = Ok b' -> b' = b /\ (forall q, q ∈ blocks f' -> bsNum (heap f o) < bsNum (heap f q)) /\
          exists h', Head f' = Some h' /\ best f' h')).
Proof.
  intros Hf Hdpos. unfold AddBlockState, mbind, M_bind, assertM, lift. split.
  { intros Hq. by rewrite (proj1 (Insert_known f b Hf) Hq). }
  intros Hnew. destruct (Insert b f) as [f1 [[]|e]] eqn:EI.
  2: { pose proof (Insert_false _ _ _ EI) as ->. destruct (proj2 (Insert_known f b Hf) EI) as (q & Hq & Hid). by destruct (Hnew q Hq). }
  2: { unfold Insert in EI. by destruct (byBlockId _ !! _). }
  destruct (Insert_true f f1 b Hf EI) as (Hf1 & Hb1 & Hbn & Hh1 & _ & Hi1 & _). cbn [EosAssert]. unfold get, modify.
  assert (Hin1 : forall p, p ∈ blocks f1 <-> p ∈ b :: blocks f) by (intros p; by rewrite Hb1).
  destruct (byLib (Index f1)) as [|h l] eqn:El; [unfold blocks in Hb1; rewrite El in Hb1; by apply Permutation_nil_cons in Hb1|].
  cbn [begin_value]. destruct (begin_best f1 h l Hf1 El) as [Hhin Hbest]. rewrite Hh1 in *.
  destruct (byBlockNum (Index f1)) as [|o l'] eqn:En.
  { pose proof (ix_num f1 Hf1) as Hp. unfold blocks in Hp. rewrite En, El in Hp. by apply Permutation_nil_cons in Hp. }
  cbn [begin_value]. set (f2 := set_Head (Some h) f1) in *.
  assert (Hf2 : index_ok f2) by by apply set_Head_ok.
  assert (Ho : o ∈ blocks f2) by (rewrite <- (ix_num f2 Hf2); unfold f2; simpl; rewrite En; set_solver).
  assert (Hold : forall q, q ∈ b :: blocks f -> bsNum (heap f o) <= bsNum (heap f q)).
  { intros q Hq. rewrite <- Hh1. apply (begin_oldest f1 o l' q Hf1 En). by apply Hin1. }
  destruct (Z.ltb_spec (bsNum (heap f o)) (bsDpos (heap f h))) as [Hlt|Hge].
  - destruct (Prune o f2) as [f' r] eqn:EP. destruct (Prune_spec _ _ _ _ Hf2 Ho EP) as ([Hok Hhp Hsub] & Hr & Hd & _).
    destruct (Prune_oldest f2 f' o l' r Hf2 En EP) as [Hem Hgone]. change (heap f2) with (heap f1) in *. rewrite Hh1 in *.
    exists f', (match r with Ok _ => Ok b | Throw e => Throw e end), h, o.
    split; [by destruct r as [[]|]|]. split; [done|]. split; [done|]. split; [by apply Hin1|]. split; [intros q Hq; by apply Hbest, Hin1|].
    split; [by apply Hin1|]. split; [done|]. split; [lia|]. intros _. split; [by destruct r as [|[]]|].
    split; [intros p Hp; by apply Hin1, Hsub|]. split; [done|]. split; [by rewrite Hem; unfold f2; cbn; rewrite Hi1|].
    intros b' Hb'. destruct r as [[]|]; [|done]. injection Hb' as <-. split; [done|]. split; [intros q Hq; specialize (Hd eq_refl q Hq); by rewrite Hhp in Hd|].
    apply (Prune_oldest_head f2 f' o l' h); try done; [split; [done|]; intros q Hq; change (heap f2) with (heap f1); rewrite Hh1; by apply Hbest|].
    intros ->. specialize (Hdpos o ltac:(apply elem_of_cons, Hin1; exact Ho)). lia.
  - exists f2, (Ok b), h, o. split; [done|]. split; [done|]. split; [done|]. split; [by apply Hin1|]. split; [intros q Hq; by apply Hbest, Hin1|].
    split; [by apply Hin1|]. split; [done|]. split; [done|lia].
Qed.
(** [GetBlockInCurrentChainByNum] returns a block of that number in the current chain
    exactly when the index holds one. *)
Theorem fork_current_chain_lookup f n : index_ok f ->
  match GetBlockInCurrentChainByNum n f with
  | Some p => p ∈ blocks f /\ bsNum (heap f p) = n /\ InCurrentChain (heap f p) = true
  | None => forall p, p ∈ blocks f -> bsNum (heap f p) = n -> InCurrentChain (heap f p) = false
  end.
Proof.
  intros Hf. unfold GetBlockInCurrentChainByNum. rewrite num_lower_bound by done.
  assert (Hin : forall p, p ∈ filter (fun p => n <= bsNum (heap f p)) (byBlockNum (Index f)) <-> p ∈ blocks f /\ n <= bsNum (heap f p))
    by (intros p; rewrite list_elem_of_filter, (ix_num f Hf); tauto).
  pose proof (filter_ordered _ _ (fun p => n <= bsNum (heap f p)) _ _ (ix_ord_num f Hf)) as Ho.
  destruct (filter (fun p => n <= bsNum (heap f p)) (byBlockNum (Index f))) as [|p l].
  { intros p Hp Hn. exfalso. eapply not_elem_of_nil, (Hin p). split; [done|lia]. }
  destruct (proj1 (Hin p)) as [Hp Hpn]; [set_solver|].
  assert (Hfirst : forall q, q ∈ blocks f -> bsNum (heap f q) = n -> InCurrentChain (heap f q) = true ->
    bsNum (heap f p) = n /\ InCurrentChain (heap f p) = true).
  { intros q Hq Hqn Hc. assert (Hql : q ∈ p :: l) by (apply Hin; split; [done|lia]).
    apply elem_of_cons in Hql as [->|Hql]; [done|]. inversion_clear Ho as [|?? _ Hh]. rewrite Forall_forall in Hh.
    apply Hh, num_before in Hql. destruct Hql as [|[? Hcc]]; [lia|]. split; [lia|auto]. }
  destruct (Z.eqb_spec (bsNum (heap f p)) n) as [E|E], (InCurrentChain (heap f p)) eqn:Ec; simpl; try done;
    intros q Hq Hqn; destruct (InCurrentChain (heap f q)) eqn:Hc; try done; destruct (Hfirst q Hq Hqn Hc); congruence.
Qed.
End Prune.

(** ** Witnesses: a chain of two blocks with a fork at the second, one block on each *)

Definition example_id (n : Z) : BlockIdType := mkSha256 n 0 0 0.

Definition example_block (n prev num lib : Z) (current : bool) : @BlockState unit unit :=
  mkBlockState (mkBlockHeaderState (example_id n) num
    (mkSignedBlockHeader (mkBlockHeader 0 0 0 (example_id prev) NewSha256Nil NewSha256Nil 0 None []) Ecc.Signature_zero)
    0 lib 0 0 NewSha256Nil ProducerScheduleType_zero ProducerScheduleType_zero empty_tree ∅ ∅ Ecc.PublicKey_zero [] [])
    SignedBlock_zero false current [].

(** Blocks 1 - 2 - 5 and 3 - 4 on block 1; [current] tells whether 5 is in the current chain. *)
Definition example_heap (current : bool) (p : ptr) : @BlockState unit unit :=
  match p with
  | 1%positive => example_block 1 0 1 0 true
  | 2%positive => example_block 2 1 2 0 true
  | 3%positive => example_block 3 1 2 0 false
  | 4%positive => example_block 4 3 3 0 false
  | 5%positive => example_block 5 2 3 0 current
  | _ => example_block 6 5 4 2 false
  end.

Fixpoint insert_all (l : list ptr) (f : @ForkDatabase unit unit) : ForkDatabase :=
  match l with [] => f | p :: l' => insert_all l' (Insert p f).1 end.

Definition example_db (current : bool) : @ForkDatabase unit unit :=
  insert_all [1; 2; 3; 4; 5]%positive (mkForkDatabase (example_heap current) (mkMultiIndex ∅ [] [] []) None []).

Lemma insert_all_ok l : forall f, index_ok f -> index_ok (insert_all l f).
Proof.
  induction l as [|p l IH]; intros f Hf; [done|]. simpl. apply IH. destruct (Insert p f) as [f1 [[]|e]] eqn:E; simpl.
  - by apply (Insert_true f f1 p) in E as (? & _).
  - by apply Insert_false in E as ->.
  - unfold Insert in E. by destruct (byBlockId _ !! _).
Qed.

Lemma example_db_ok current : index_ok (example_db current).
Proof.
  apply insert_all_ok. split; try constructor; unfold Find, blocks; simpl; rewrite ?lookup_empty; try done. intros [? _]. set_solver.
Qed.

Lemma fork_remove_exact_witness :
  let f := example_db true in let id := example_id 3 in
  exists f' r, Remove id f = (f', r) /\ index_ok f' /\ heap f' = heap f /\
    (forall p, p ∈ blocks f' <-> p ∈ blocks f /\ ~ below f id (bsId (heap f p))) /\
    (r = Ok tt /\ (exists h, Head f' = Some h /\ best f' h) \/ r = Throw NilDereference /\ blocks f' = []).
Proof. intros f id. apply (fork_remove_exact f id). apply example_db_ok. Defined.

Lemma fork_prune_result_witness :
  let f := example_db true in let r := Prune 2%positive f in
  r.2 <> Throw OutOfFuel /\ index_ok r.1 /\ heap r.1 = heap f /\ (forall p, p ∈ blocks r.1 -> p ∈ blocks f) /\
  (r.2 = Ok tt -> forall q, q ∈ blocks r.1 -> bsNum (heap f 2%positive) < bsNum (heap r.1 q)) /\
  exists ems, Irreversible r.1 = Irreversible f ++ ems /\
    (forall p, p ∈ ems -> p ∈ blocks f /\ bsNum (heap f p) <= bsNum (heap f 2%positive)) /\
    StronglySorted (fun p q => bsNum (heap f p) < bsNum (heap f q)) ems.
Proof.
  intros f r. apply (fork_prune_result f r.1 r.2 2%positive); [apply example_db_ok|by_decide|apply surjective_pairing].
Defined.

Lemma fork_add_block_state_witness :
  AddBlockState 2%positive (example_db true) = (example_db true, Throw ForkDatabaseException) /\
  exists f' r h o, AddBlockState 6%positive (example_db true) = (f', r) /\ index_ok f' /\ h ∈ 6%positive :: blocks (example_db true) /\
    o ∈ 6%positive :: blocks (example_db true).
Proof.
  assert (Hd : forall b p, p = b \/ p ∈ blocks (example_db true) -> bsDpos (heap (example_db true) p) <= bsNum (heap (example_db true) p)).
  { intros b p _. change (heap (example_db true)) with (example_heap true). unfold example_heap. repeat case_match; vm_compute; discriminate. }
  split.
  - apply (fork_add_block_state (example_db true) 2%positive (example_db_ok true) (Hd _)). exists 2%positive. by_decide.
  - destruct (proj2 (fork_add_block_state (example_db true) 6%positive (example_db_ok true) (Hd _))) as (f' & r & h & o & E & Hok & _ & Hh & _ & Ho & _).
    { apply Forall_forall. by_decide. }
    exists f', r, h, o. split; [exact E|]. split; [exact Hok|]. split; [exact Hh|exact Ho].
Defined.

Lemma fork_current_chain_lookup_witness :
  let f := example_db true in let n := 2 in
  match GetBlockInCurrentChainByNum n f with
  | Some p => p ∈ blocks f /\ bsNum (heap f p) = n /\ InCurrentChain (heap f p) = true
  | None => forall p, p ∈ blocks f -> bsNum (heap f p) = n -> InCurrentChain (heap f p) = false
  end.
Proof. intros f n. apply (fork_current_chain_lookup f n). apply example_db_ok. Defined.

(** ** An iterator left on an erased block

    When the first block above the pruned number descends from a removed sibling,
    the loop of [Prune] reads through an iterator whose node is erased: with block 5
    outside of the current chain, block 4 comes first and is removed with its parent
    3, and pruning block 2 panics; with block 5 in the current chain it returns. *)
Theorem prune_dangling_iterator :
  (Prune 2%positive (example_db false)).2 = Throw NilDereference /\
  (Prune 2%positive (example_db true)).2 = Ok tt.
Proof. split; vm_compute; reflexivity. Qed.
