(* ===== verification/ForkBranches.v ===== *)
(** * ForkBranches: BFT irreversibility, branches and reachable states of the fork database

    The breadth-first traversal of [SetBftIrreversible], the search for a common
    ancestor of [FetchBranchFrom], and the invariant of the container along every
    sequence of operations. *)

From stdpp Require Import sorting relations.
From S2P Require Import Prelude Bytes Rlp Sha256 Merkle BlockHeader BlockHeaderState OrderedIndex ForkDatabase ForkPrune.
From S2P Require Ecc.

Section Branches.
Context {Receipt Trx : Type}.
Local Abbreviation ForkDatabase := (@ForkDatabase.ForkDatabase Receipt Trx).
Local Abbreviation BlockState := (@ForkDatabase.BlockState Receipt Trx).
Implicit Types (f : ForkDatabase) (p q h : ptr) (n : Z).

(** ** Raising the BFT number *)

(** Blocks whose BFT number is still below [n]. *)
Definition low n f : nat := length (filter (fun p => bsBft (heap f p) < n) (blocks f)).

(** The effect of a part of the traversal for the number [n]: blocks that satisfy
    [S] and were low are raised to [n] and nothing else is changed; [new] are the ids
    of the raised blocks. *)
Record raises n (S : ptr -> Prop) f f' (new : list BlockIdType) : Prop := {
  ra_ok : index_ok f';
  ra_blocks : blocks f' ≡ₚ blocks f;
  ra_heap : forall p, heap f' p = heap f p \/
    p ∈ blocks f /\ S p /\ bsBft (heap f p) < n /\ heap f' p = set_Bft n (heap f p);
  ra_new : forall x, x ∈ new <-> exists p, p ∈ blocks f /\ bsId (heap f p) = x /\ bsBft (heap f p) < n /\ n <= bsBft (heap f' p);
  ra_low : low n f = (low n f' + length new)%nat;
  ra_head : Head f' = Head f;
  ra_log : Irreversible f' = Irreversible f }.

Lemma raises_keeps n S f f' new p : raises n S f f' new ->
  bsId (heap f' p) = bsId (heap f p) /\ bsPrevious (heap f' p) = bsPrevious (heap f p) /\
  bsNum (heap f' p) = bsNum (heap f p) /\ bsBft (heap f p) <= bsBft (heap f' p) /\
  (bsBft (heap f' p) = bsBft (heap f p) \/ bsBft (heap f p) < n /\ bsBft (heap f' p) = n).
Proof. intros H. destruct (ra_heap _ _ _ _ _ H p) as [->|(_ & _ & ? & ->)]; cbn; split_and!; try done; try lia; auto. Qed.

Lemma raises_refl n S f : index_ok f -> raises n S f f [].
Proof.
  intros Hf. split; auto. intros x. split; [set_solver|]. intros (p & _ & _ & ? & ?). lia.
Qed.

Lemma raises_trans n S f1 f2 f3 new1 new2 :
  raises n S f1 f2 new1 -> raises n S f2 f3 new2 -> raises n S f1 f3 (new1 ++ new2).
Proof.
  intros H1 H2. split.
  - apply H2.
  - by rewrite (ra_blocks _ _ _ _ _ H2), (ra_blocks _ _ _ _ _ H1).
  - intros p. destruct (ra_heap _ _ _ _ _ H2 p) as [->|(Hb & HS & Hl & E)]; [apply H1|].
    destruct (ra_heap _ _ _ _ _ H1 p) as [E1|(_ & _ & _ & E1)]; rewrite E1 in *.
    + right. rewrite (ra_blocks _ _ _ _ _ H1) in Hb. by split_and!.
    + cbn in Hl. lia.
  - intros x. rewrite elem_of_app, (ra_new _ _ _ _ _ H1), (ra_new _ _ _ _ _ H2). split.
    + intros [(p & Hb & E & Hl & Hg)|(p & Hb & E & Hl & Hg)]; exists p;
        destruct (raises_keeps _ _ _ _ _ p H1) as (E1 & _ & _ & ? & _), (raises_keeps _ _ _ _ _ p H2) as (E2 & _ & _ & ? & _).
      * split_and!; try done; lia.
      * rewrite (ra_blocks _ _ _ _ _ H1) in Hb. rewrite E1 in E. split_and!; try done; lia.
    + intros (p & Hb & E & Hl & Hg). destruct (raises_keeps _ _ _ _ _ p H1) as (E1 & _ & _ & ? & _).
      destruct (decide (bsBft (heap f2 p) < n)); [right|left]; exists p; rewrite ?E1, ?(ra_blocks _ _ _ _ _ H1);
        split_and!; try done; lia.
  - rewrite length_app, (ra_low _ _ _ _ _ H1), (ra_low _ _ _ _ _ H2). lia.
  - rewrite (ra_head _ _ _ _ _ H2). apply H1.
  - rewrite (ra_log _ _ _ _ _ H2). apply H1.
Qed.

Lemma length_filter_ext (P Q : ptr -> Prop) `{!forall x, Decision (P x), !forall x, Decision (Q x)} (l : list ptr) :
  (forall x, x ∈ l -> P x <-> Q x) -> length (filter P l) = length (filter Q l).
Proof.
  induction l as [|x l IH]; intros Hl; [done|]. rewrite !filter_cons.
  assert (HPQ : P x <-> Q x) by (apply Hl; set_solver). assert (IH' : length (filter P l) = length (filter Q l))
    by (apply IH; intros y Hy; apply Hl; set_solver).
  repeat case_decide; simpl; [by rewrite IH'|tauto..|done].
Qed.

Lemma update_child_spec n (S : ptr -> Prop) f p up : index_ok f -> p ∈ blocks f -> S p ->
  exists f' new, update_child n p (f, up) = (f', up ++ new) /\ raises n S f f' new /\ n <= bsBft (heap f' p).
Proof.
  intros Hf Hp HS. unfold update_child.
  destruct (Z.ltb_spec (bsBft (heap f p)) n) as [Hlt|Hge].
  - destruct (Modify_ok f p (set_Bft n) Hf Hp eq_refl) as (Hok & Hb & Hh).
    exists (Modify p (set_Bft n) f), [bsId (heap f p)]. split; [done|].
    assert (Hne : forall q, q <> p -> heap (Modify p (set_Bft n) f) q = heap f q) by (intros q Hq; by rewrite Hh, heap_store, decide_False).
    assert (Hpe : heap (Modify p (set_Bft n) f) p = set_Bft n (heap f p)) by (by rewrite Hh, heap_store, decide_True).
    split; [|rewrite Hpe; cbn; lia]. split; try done.
    + intros q. destruct (decide (q = p)) as [->|]; [right; by split_and!|left; by apply Hne].
    + intros x. rewrite list_elem_of_singleton. split.
      * intros ->. exists p. rewrite Hpe. cbn. split_and!; try done; lia.
      * intros (q & Hq & <- & Hl & Hg). destruct (decide (q = p)) as [->|Hqp]; [done|]. rewrite Hne in Hg by done. lia.
    + unfold low. rewrite Hb. rewrite (remove_perm p (blocks f) (ix_nodup f Hf) Hp), !filter_cons.
      destruct (decide (bsBft (heap f p) < n)); [|lia].
      destruct (decide (bsBft (heap (Modify p (set_Bft n) f) p) < n)) as [D|_]; [rewrite Hpe in D; cbn in D; lia|]. cbn [length].
      rewrite Nat.add_1_r. f_equal. apply length_filter_ext. intros q [Hq _]%remove_elem. by rewrite Hne.
  - destruct (Modify_ok f p id Hf Hp eq_refl) as (Hok & Hb & Hh).
    assert (Hid : forall q, heap (Modify p id f) q = heap f q).
    { intros q. rewrite Hh, heap_store. case_decide; [by subst|done]. }
    exists (Modify p id f), []. rewrite app_nil_r, Hid. split_and!; [done| |done]. split; try done.
    + intros q. left. apply Hid.
    + intros x. split; [set_solver|]. intros (q & _ & _ & ? & ?). rewrite Hid in *. lia.
    + unfold low. rewrite Hb. cbn [length]. rewrite Nat.add_0_r. apply length_filter_ext. intros q _. by rewrite Hid.
Qed.

Lemma update_children_spec n (S : ptr -> Prop) l : forall f up, index_ok f ->
  (forall p, p ∈ l -> p ∈ blocks f /\ S p) ->
  exists f' new, foldl (fun st pitr => update_child n pitr st) (f, up) l = (f', up ++ new) /\
    raises n S f f' new /\ forall p, p ∈ l -> n <= bsBft (heap f' p).
Proof.
  induction l as [|p l IH]; intros f up Hf Hl.
  - exists f, []. rewrite app_nil_r. split_and!; [done|by apply raises_refl|set_solver].
  - destruct (Hl p ltac:(set_solver)) as [Hp HS].
    destruct (update_child_spec n S f p up Hf Hp HS) as (f1 & new1 & E1 & H1 & Hp1).
    destruct (IH f1 (up ++ new1)) as (f2 & new2 & E2 & H2 & Hl2); [apply H1| |].
    { intros q Hq. rewrite (ra_blocks _ _ _ _ _ H1). apply Hl. set_solver. }
    exists f2, (new1 ++ new2). cbn [foldl]. rewrite E1, E2, (assoc_L (++)). split_and!; [done|by eapply raises_trans|].
    intros q [->|Hq]%elem_of_cons; [|by apply Hl2].
    destruct (raises_keeps _ _ _ _ _ p H2) as (_ & _ & _ & ? & _). lia.
Qed.
Lemma EqualRange_prev f i p : index_ok f ->
  p ∈ EqualRange ByPrevCompare ByPrevFunc (heap f) i (byPrev (Index f)) <-> p ∈ blocks f /\ bsPrevious (heap f p) = i.
Proof.
  intros Hf. rewrite EqualRange_elem by (apply prev_respects || apply (ix_ord_prev f Hf)).
  rewrite (ix_prev f Hf). unfold ByPrevCompare, ByPrevFunc. rewrite Sha256Compare_eq. naive_solver.
Qed.

(** One layer: the children of the ids [in_] are at least at [n] afterwards. *)
Lemma update_layer_spec n (S : ptr -> Prop) f in_ : index_ok f ->
  (forall p, p ∈ blocks f -> bsPrevious (heap f p) ∈ in_ -> S p) ->
  exists f' new, update_layer n in_ f = (f', new) /\ raises n S f f' new /\
    forall p, p ∈ blocks f -> bsPrevious (heap f p) ∈ in_ -> n <= bsBft (heap f' p).
Proof.
  intros Hf HS. unfold update_layer.
  enough (Hg : forall l f1 up, incl l in_ -> raises n S f f1 up ->
    exists f' new, foldl (fun st i => foldl (fun st pitr => update_child n pitr st) st
        (EqualRange ByPrevCompare ByPrevFunc (heap st.1) i (byPrev (Index st.1)))) (f1, up) l = (f', new) /\
      raises n S f f' new /\ (forall p, bsBft (heap f1 p) <= bsBft (heap f' p)) /\
      forall p, p ∈ blocks f -> bsPrevious (heap f p) ∈ l -> n <= bsBft (heap f' p)).
  { destruct (Hg in_ f [] (incl_refl _) (raises_refl n S f Hf)) as (f' & new & E & Hr & _ & Hn). by exists f', new. }
  induction l as [|i l IH]; intros f1 up Hl H1.
  - exists f1, up. split_and!; [done|done|done|set_solver].
  - assert (Hi : i ∈ in_) by (apply list_elem_of_In, Hl; by left).
    destruct (update_children_spec n S (EqualRange ByPrevCompare ByPrevFunc (heap f1) i (byPrev (Index f1))) f1 up)
      as (f2 & new2 & E2 & H2 & Hn2); [apply H1| |].
    { intros p [Hp Hpr]%EqualRange_prev; [|apply H1]. split; [done|].
      rewrite (ra_blocks _ _ _ _ _ H1) in Hp. destruct (raises_keeps _ _ _ _ _ p H1) as (_ & E & _).
      apply HS; [done|]. by rewrite <- E, Hpr. }
    cbn [foldl fst]. rewrite E2.
    destruct (IH f2 (up ++ new2)) as (f' & new & E & H' & Hmono & Hn);
      [intros x Hx; apply Hl; by right|by eapply raises_trans|].
    exists f', new. split_and!; [done|done| |].
    + intros p. destruct (raises_keeps _ _ _ _ _ p H2) as (_ & _ & _ & ? & _). specialize (Hmono p). lia.
    + intros p Hp [Epr|Hpl]%elem_of_cons; [|by apply Hn]. specialize (Hmono p).
      assert (n <= bsBft (heap f2 p)); [|lia]. apply Hn2, EqualRange_prev; [apply H1|].
      rewrite (ra_blocks _ _ _ _ _ H1). destruct (raises_keeps _ _ _ _ _ p H1) as (_ & E1 & _). by rewrite E1.
Qed.

(** The state of the traversal started in [f0] from the ids [roots]: what is below a
    root or a raised block is at [n] at least, unless that block is in the queue. *)
Record traversal n (S : ptr -> Prop) f0 (roots queue : list BlockIdType) f (new : list BlockIdType) : Prop := {
  tr_raises : raises n S f0 f new;
  tr_queue : forall i, i ∈ queue -> i ∈ roots ++ new;
  tr_closed : forall p, p ∈ blocks f0 -> bsPrevious (heap f0 p) ∈ roots ++ new ->
    n <= bsBft (heap f p) \/ bsPrevious (heap f0 p) ∈ queue }.

Lemma update_loop_spec n (S : ptr -> Prop) f0 roots : index_ok f0 ->
  (forall p new, p ∈ blocks f0 -> bsPrevious (heap f0 p) ∈ roots ++ new ->
     (forall x, x ∈ new -> exists q, q ∈ blocks f0 /\ bsId (heap f0 q) = x /\ S q) -> S p) ->
  forall fuel queue f new, traversal n S f0 roots queue f new -> (queue = [] \/ (low n f < fuel)%nat) ->
  exists f' new', update_loop fuel n queue f = (f', Ok tt) /\ traversal n S f0 roots [] f' new'.
Proof.
  intros Hf0 HS. induction fuel as [|fuel IH]; intros [|i queue] f new Ht Hfuel; try (by exists f, new).
  { destruct Hfuel; [done|lia]. }
  destruct Hfuel as [|Hfuel]; [done|]. cbn [update_loop]. set (q := i :: queue) in *. destruct Ht as [Hr Hq Hc].
  assert (Hlayer : forall p, p ∈ blocks f -> bsPrevious (heap f p) ∈ q -> S p).
  { intros p Hp Hpr. rewrite (ra_blocks _ _ _ _ _ Hr) in Hp. destruct (raises_keeps _ _ _ _ _ p Hr) as (_ & E & _).
    rewrite E in Hpr. apply (HS p new Hp (Hq _ Hpr)). intros x (r & Hrb & Hid & Hl & Hg)%(ra_new _ _ _ _ _ Hr).
    exists r. split_and!; try done. destruct (ra_heap _ _ _ _ _ Hr r) as [Er|(_ & ? & _)]; [rewrite Er in Hg; lia|done]. }
  destruct (update_layer_spec n S f q (ra_ok _ _ _ _ _ Hr) Hlayer) as (f1 & up & -> & H1 & Hn1).
  apply (IH up f1 (new ++ up)).
  - assert (Hr1 : raises n S f0 f1 (new ++ up)) by (by eapply raises_trans). split; [done|set_solver|].
    intros p Hp Hpr. destruct (raises_keeps _ _ _ _ _ p Hr) as (_ & E & _), (raises_keeps _ _ _ _ _ p H1) as (_ & _ & _ & Hm & _).
    assert (Hpr' : bsPrevious (heap f0 p) ∈ roots ++ new \/ bsPrevious (heap f0 p) ∈ up) by set_solver.
    destruct Hpr' as [Hold|]; [|by right]. left. destruct (Hc p Hp Hold) as [|Hinq]; [lia|].
    apply Hn1; [by rewrite (ra_blocks _ _ _ _ _ Hr)|by rewrite E].
  - destruct up as [|x up]; [by left|]. right. pose proof (ra_low _ _ _ _ _ H1) as Hl. simpl in Hl. lia.
Qed.

(** A block's BFT number is at least that of the block it builds on, as blocks are
    created with the number of their parent. *)
Definition bft_monotone f : Prop := forall p q, p ∈ blocks f -> q ∈ blocks f ->
  bsPrevious (heap f p) = bsId (heap f q) -> bsBft (heap f q) <= bsBft (heap f p).

(** What [SetBftIrreversible] leaves. *)
Record bft_set (id : BlockIdType) p0 n f f' : Prop := {
  bs_ok : index_ok f';
  bs_blocks : blocks f' ≡ₚ blocks f;
  bs_root : heap f' p0 = set_Bft n (heap f p0);
  bs_others : forall p, p <> p0 -> heap f' p = heap f p \/
    p ∈ blocks f /\ below f id (bsId (heap f p)) /\ bsBft (heap f p) < n /\ heap f' p = set_Bft n (heap f p);
  bs_closed : forall p, p ∈ blocks f ->
    (bsPrevious (heap f p) = id \/ exists q, q ∈ blocks f /\ bsPrevious (heap f p) = bsId (heap f q) /\
       bsBft (heap f q) < n /\ n <= bsBft (heap f' q)) -> n <= bsBft (heap f' p);
  bs_head : Head f' = Head f }.

Lemma SetBftIrreversible_spec f id p0 : index_ok f -> Find id f = Some p0 ->
  exists f', SetBftIrreversible id f = (f', Ok tt) /\ bft_set id p0 (bsNum (heap f p0)) f f'.
Proof.
  intros Hf Hfind. unfold SetBftIrreversible, mbind, M_bind, get, modify. rewrite Hfind.
  apply (ix_id f Hf) in Hfind as [Hp0 Hid]. set (n := bsNum (heap f p0)).
  set (g := fun b : BlockState => set_Bft (bsNum b) b). destruct (Modify_ok f p0 g Hf Hp0 eq_refl) as (Hok1 & Hb1 & Hh1).
  set (f1 := Modify p0 g f) in *.
  assert (Hne : forall q, q <> p0 -> heap f1 q = heap f q) by (intros q Hq; by rewrite Hh1, heap_store, decide_False).
  assert (Hroot : heap f1 p0 = set_Bft n (heap f p0)) by (by rewrite Hh1, heap_store, decide_True).
  assert (Hkeep : forall q, bsId (heap f1 q) = bsId (heap f q) /\ bsPrevious (heap f1 q) = bsPrevious (heap f q)).
  { intros q. destruct (decide (q = p0)) as [->|]; [by rewrite Hroot|by rewrite Hne]. }
  set (S := fun p => below f id (bsId (heap f p))).
  destruct (update_loop_spec n S f1 [id] Hok1) with (fuel := Datatypes.S (Size f)) (queue := [id]) (f := f1) (new := @nil BlockIdType)
    as (f' & new & E & [Hr _ Hc]).
  - intros p new Hp Hpr Hnew. unfold S. destruct (Hkeep p) as [_ Epr]. rewrite Hb1 in Hp. rewrite Epr in Hpr.
    apply below_child; [done|]. apply elem_of_app in Hpr as [->%list_elem_of_singleton|Hpr]; [constructor|].
    destruct (Hnew _ Hpr) as (q & _ & <- & HSq). by rewrite (proj1 (Hkeep q)).
  - split; [by apply raises_refl|set_solver|]. intros p _ Hpr. right. set_solver.
  - right. unfold low. rewrite (size_blocks f Hf), <- Hb1. apply Nat.lt_succ_r, length_filter.
  - exists f'. split; [done|]. split.
    + apply Hr.
    + by rewrite (ra_blocks _ _ _ _ _ Hr).
    + destruct (ra_heap _ _ _ _ _ Hr p0) as [->|(_ & _ & Hl & _)]; [done|]. rewrite Hroot in Hl. cbn in Hl. lia.
    + intros p Hp. rewrite <- (Hne p Hp). destruct (ra_heap _ _ _ _ _ Hr p) as [->|(Hb & HSp & Hl & E')]; [by left|right].
      rewrite Hb1 in Hb. split_and!; try done. by rewrite Hne.
    + intros p Hp Hpr. destruct (Hkeep p) as [_ Epr]. rewrite <- Hb1 in Hp.
      assert (Hin : bsPrevious (heap f1 p) ∈ [id] ++ new).
      { rewrite Epr. destruct Hpr as [->|(q & Hq & -> & Hl & Hg)]; [set_solver|].
        destruct (decide (q = p0)) as [->|Hq0]; [rewrite Hid; set_solver|]. apply elem_of_app. right.
        apply (ra_new _ _ _ _ _ Hr). exists q. rewrite Hb1, Hne by done. by split_and!. }
      destruct (Hc p Hp Hin) as [|Hnil]; [done|set_solver].
    + apply Hr.
Qed.

(** With monotone numbers everything below the block is raised. *)
Lemma bft_set_below id p0 n f f' : index_ok f -> bft_set id p0 n f f' -> p0 ∈ blocks f -> bsId (heap f p0) = id ->
  bft_monotone f -> forall x, below f id x -> forall p, p ∈ blocks f -> bsId (heap f p) = x -> n <= bsBft (heap f' p).
Proof.
  intros Hf Hs Hp0 Hid Hm x. induction 1 as [|q Hq Hb IH]; intros p Hp Hx.
  - assert (p = p0) as -> by (by apply (ids_unique f); [..|congruence]). rewrite (bs_root _ _ _ _ _ Hs). cbn. lia.
  - assert (p = q) as -> by by apply (ids_unique f).
    destruct (decide (bsPrevious (heap f q) = id)) as [E|E]; [apply (bs_closed _ _ _ _ _ Hs); auto|].
    inversion Hb as [E'|r Hr Hbr E']; [congruence|].
    assert (Hrn : n <= bsBft (heap f' r)) by (by apply IH).
    destruct (decide (bsBft (heap f r) < n)).
    + apply (bs_closed _ _ _ _ _ Hs); [done|]. right. by exists r.
    + pose proof (Hm q r Hq Hr (eq_sym E')).
      destruct (decide (q = p0)) as [->|Hq0]; [rewrite (bs_root _ _ _ _ _ Hs); cbn; lia|].
      destruct (bs_others _ _ _ _ _ Hs q Hq0) as [->|(_ & _ & _ & ->)]; cbn; lia.
Qed.

(** ** Branches *)

(** From [a] to its ancestor [c] through parents: [l] lists the blocks passed, [c]
    not among them. *)
Fixpoint path f a (l : list ptr) c : Prop :=
  match l with
  | [] => a = c
  | x :: l' => x = a /\ exists b, parent a f = Some b /\ path f b l' c
  end.

(** Numbers count up by one along parents. *)
Definition linked f : Prop := forall p q, p ∈ blocks f -> parent p f = Some q -> bsNum (heap f p) = bsNum (heap f q) + 1.

Lemma parent_block f p q : index_ok f -> parent p f = Some q -> q ∈ blocks f /\ bsId (heap f q) = bsPrevious (heap f p).
Proof. intros Hf H. by apply (ix_id f Hf) in H. Qed.

Lemma path_app f a l1 b l2 c : path f a l1 b -> path f b l2 c -> path f a (l1 ++ l2) c.
Proof.
  revert a. induction l1 as [|x l1 IH]; simpl; intros a; [by intros ->|].
  intros [-> (d & Hd & H)] H2. split; [done|]. exists d. auto.
Qed.

Lemma path_block f a l c : index_ok f -> a ∈ blocks f -> path f a l c -> c ∈ blocks f.
Proof.
  intros Hf. revert a. induction l as [|x l IH]; simpl; intros a Ha; [by intros <-|].
  intros [_ (b & Hb & H)]. apply (IH b); [|done]. by apply parent_block in Hb as [? _].
Qed.

Lemma path_num f a l c : index_ok f -> linked f -> a ∈ blocks f -> path f a l c ->
  bsNum (heap f c) + len l = bsNum (heap f a) /\ forall x, x ∈ l -> bsNum (heap f c) < bsNum (heap f x) <= bsNum (heap f a).
Proof.
  intros Hf Hl. revert a. induction l as [|x l IH]; simpl; intros a Ha.
  - intros <-. unfold len. simpl. split; [lia|set_solver].
  - intros [-> (b & Hb & H)]. pose proof (Hl a b Ha Hb). apply parent_block in Hb as [Hb _]; [|done].
    destruct (IH b Hb H) as [E Hx]. unfold len in *. simpl length. split; [lia|].
    intros y [->|Hy]%elem_of_cons; [split; lia|]. specialize (Hx y Hy). lia.
Qed.

(** Blocks with a lower number: the measure of the climbs. *)
Definition lower f n : nat := length (filter (fun p => bsNum (heap f p) < n) (blocks f)).

Lemma lower_step f n m p : p ∈ blocks f -> bsNum (heap f p) = m -> m < n -> (S (lower f m) <= lower f n)%nat.
Proof.
  intros Hp Hm Hlt. unfold lower. apply list_elem_of_split in Hp as (l1 & l2 & ->).
  rewrite !filter_app, !length_app, !filter_cons, decide_False, decide_True by lia. cbn [length].
  assert (Hmono : forall l, (length (filter (fun p => (bsNum (heap f p) < m)%Z) l) <= length (filter (fun p => (bsNum (heap f p) < n)%Z) l))%nat).
  { induction l as [|x l IH]; [done|]. rewrite !filter_cons. repeat case_decide; cbn [length]; lia. }
  pose proof (Hmono l1). pose proof (Hmono l2). lia.
Qed.

Lemma lower_size f p : index_ok f -> p ∈ blocks f -> (lower f (bsNum (heap f p)) < Size f)%nat.
Proof. intros Hf Hp. rewrite (size_blocks f Hf). apply (length_filter_lt _ _ p Hp). lia. Qed.

Lemma climb_spec f b c fuel : index_ok f -> linked f -> b ∈ blocks f -> bsNum (heap f c) <= bsNum (heap f b) ->
  forall a la acc, a ∈ blocks f -> path f a la c -> (lower f (bsNum (heap f a)) <= fuel)%nat ->
  exists a' l la', climb fuel a b acc f = Ok (a', acc ++ l) /\ path f a l a' /\ path f a' la' c /\
    bsNum (heap f a') <= bsNum (heap f b) /\ (bsNum (heap f b) <= bsNum (heap f a) -> bsNum (heap f a') = bsNum (heap f b)) /\
    (bsNum (heap f a) <= bsNum (heap f b) -> a' = a).
Proof.
  intros Hf Hl Hb Hc. induction fuel as [|fuel IH]; intros a la acc Ha Hpath Hfuel; cbn [climb];
    destruct (Z.ltb_spec (bsNum (heap f b)) (bsNum (heap f a))) as [Hlt|Hge];
    try (exists a, [], la; rewrite app_nil_r; by split_and!; [..|lia|lia|]).
  - pose proof (lower_step f _ _ b Hb eq_refl Hlt). lia.
  - destruct la as [|x la]; [simpl in Hpath; subst; lia|]. destruct Hpath as [-> (d & Hd & Hpath)]. rewrite Hd.
    pose proof (Hl a d Ha Hd) as Hn. destruct (parent_block f a d Hf Hd) as [Hdb _].
    destruct (IH d la (acc ++ [a])) as (a' & l & la' & E & Hp & Hp' & Hle & Heq & Hsame); [done|done| |].
    { pose proof (lower_step f (bsNum (heap f a)) _ d Hdb eq_refl ltac:(lia)). lia. }
    exists a', (a :: l), la'. rewrite E, <- (assoc_L (++)). split_and!; try done; [by split; [|exists d]| |lia].
    intros _. apply Heq. lia.
Qed.

Lemma climb_both_spec f c fuel : index_ok f -> linked f -> forall a b la lb first second,
  a ∈ blocks f -> b ∈ blocks f -> bsNum (heap f a) = bsNum (heap f b) -> path f a la c -> path f b lb c ->
  (lower f (bsNum (heap f a)) < fuel)%nat ->
  exists l1 a' l2 b', climb_both fuel a b first second f = Ok (first ++ l1 ++ [a'], second ++ l2 ++ [b']) /\
    path f a l1 a' /\ path f b l2 b' /\ bsPrevious (heap f a') = bsPrevious (heap f b') /\
    bsNum (heap f a') = bsNum (heap f b') /\
    forall x y, x ∈ l1 -> y ∈ l2 -> bsNum (heap f x) = bsNum (heap f y) -> bsPrevious (heap f x) <> bsPrevious (heap f y).
Proof.
  intros Hf Hl. induction fuel as [|fuel IH]; intros a b la lb first second Ha Hb Hn Hpa Hpb Hfuel; [lia|].
  cbn [climb_both]. case_decide as Hprev.
  { exists [], a, [], b. split_and!; try done. set_solver. }
  destruct la as [|x la].
  { simpl in Hpa. subst c. destruct lb as [|y lb]; [simpl in Hpb; congruence|].
    destruct (path_num f b (y :: lb) a Hf Hl Hb Hpb) as [E _]. unfold len in E. simpl in E. lia. }
  destruct lb as [|y lb].
  { simpl in Hpb. subst c. destruct (path_num f a (x :: la) b Hf Hl Ha Hpa) as [E _]. unfold len in E. simpl in E. lia. }
  destruct Hpa as [-> (a1 & Ha1 & Hpa)], Hpb as [-> (b1 & Hb1 & Hpb)]. rewrite Ha1, Hb1.
  pose proof (Hl a a1 Ha Ha1). pose proof (Hl b b1 Hb Hb1).
  destruct (parent_block f a a1 Hf Ha1) as [Ha1b _], (parent_block f b b1 Hf Hb1) as [Hb1b _].
  destruct (IH a1 b1 la lb (first ++ [a]) (second ++ [b])) as (l1 & a' & l2 & b' & E & Hp1 & Hp2 & Hpr & Hnum & Hdiff);
    try done; [lia| |].
  { pose proof (lower_step f (bsNum (heap f a)) _ a1 Ha1b eq_refl ltac:(lia)). lia. }
  exists (a :: l1), a', (b :: l2), b'. rewrite E, <- !(assoc_L (++)).
  split_and!; [done|by split; [|exists a1]|by split; [|exists b1]|done|done|].
  intros x y Hx Hy Exy.
  destruct (path_num f a1 l1 a' Hf Hl Ha1b Hp1) as [_ H1], (path_num f b1 l2 b' Hf Hl Hb1b Hp2) as [_ H2].
  apply elem_of_cons in Hx as [->|Hx], Hy as [->|Hy]; [done| | |by apply Hdiff]; exfalso.
  - specialize (H2 y Hy). lia.
  - specialize (H1 x Hx). lia.
Qed.

(** ** Reachable states *)

Variable publicKey : Z -> bytes -> bytes -> result Ecc.PublicKey.

Definition empty_db (objects : ptr -> BlockState) : ForkDatabase := mkForkDatabase objects (mkMultiIndex ∅ [] [] []) None [].

Lemma empty_db_ok objects : index_ok (empty_db objects).
Proof.
  split; try constructor; unfold Find, blocks; simpl; rewrite ?lookup_empty; try done. intros [? _]. set_solver.
Qed.

(** One operation on the database, with whatever result, or a write of the callers
    through a pointer they hold, which for a block of the index leaves the fields
    the container reads. *)
Inductive step : ForkDatabase -> ForkDatabase -> Prop :=
| step_SetHead f f' s r : SetHead s f = (f', r) -> step f f'
| step_AddBlockState f f' b r : AddBlockState b f = (f', r) -> step f f'
| step_AddSignedBlock f f' new b trust r : new ∉ blocks f -> AddSignedBlock publicKey new b trust f = (f', r) -> step f f'
| step_AddConfirmation f f' c r : AddConfirmation publicKey c f = (f', r) -> step f f'
| step_Remove f f' id r : Remove id f = (f', r) -> step f f'
| step_SetValidity f f' h valid r : SetValidity h valid f = (f', r) -> step f f'
| step_MarkInCurrentChain f f' h b r : MarkInCurrentChain h b f = (f', r) -> step f f'
| step_Prune f f' h r : Prune h f = (f', r) -> step f f'
| step_SetBftIrreversible f f' id r : SetBftIrreversible id f = (f', r) -> step f f'
| step_write f p b : (p ∈ blocks f -> same_keys b (heap f p)) -> step f (store p b f).

Lemma AddBlockState_ok f f' b r : index_ok f -> AddBlockState b f = (f', r) -> index_ok f'.
Proof.
  intros Hf E. unfold AddBlockState, mbind, M_bind, assertM, lift in E.
  destruct (Insert b f) as [f1 [[]|e]] eqn:EI.
  - destruct (Insert_true f f1 b Hf EI) as (Hf1 & _). simpl in E. unfold get, modify in E.
    destruct (byLib (Index f1)) as [|h l]; simpl in E; [by injection E as <- <-|].
    destruct (byBlockNum (Index f1)) as [|o l']; simpl in E; [injection E as <- <-; by apply set_Head_ok|].
    destruct (_ <? _); [|injection E as <- <-; by apply set_Head_ok].
    destruct (Prune o _) as [f2 r2] eqn:EP. apply Prune_pruned in EP as [[Hok _ _] _]; [|by apply set_Head_ok].
    destruct r2; by injection E as <- <-.
  - apply Insert_false in EI as ->. by injection E as <- <-.
  - unfold Insert in EI. by destruct (byBlockId _ !! _).
Qed.

Lemma AddConfirmation_keys c (b : BlockHeaderState) b' r : BlockHeaderState.AddConfirmation publicKey c b = (b', r) ->
  BlockId b' = BlockId b /\ BlockNum b' = BlockNum b /\ Header b' = Header b /\
  DposIrreversibleBlocknum b' = DposIrreversibleBlocknum b /\ BftIrreversibleBlocknum b' = BftIrreversibleBlocknum b.
Proof.
  unfold BlockHeaderState.AddConfirmation, mbind, M_bind, get, lift, assertM, modify. intros E.
  destruct (not_confirmed_by _ _); [|by injection E as <- <-]. destruct (GetProducerKey _ _) as [key hasKey].
  destruct (EosAssert hasKey _); [|by injection E as <- <-]. destruct (SigDigest b); [|by injection E as <- <-].
  destruct (Ecc.recover_key _ _ _); [|by injection E as <- <-]. destruct (EosAssert _ _); by injection E as <- <-.
Qed.

Lemma SetBftIrreversible_ok f f' id r : index_ok f -> SetBftIrreversible id f = (f', r) -> index_ok f'.
Proof.
  intros Hf E. destruct (Find id f) as [p|] eqn:Hp.
  - destruct (SetBftIrreversible_spec f id p Hf Hp) as (f1 & E1 & Hs). rewrite E in E1. injection E1 as -> ->. apply Hs.
  - unfold SetBftIrreversible, mbind, M_bind, get, lift in E. rewrite Hp in E. by injection E as <- <-.
Qed.

Lemma SetHead_ok f f' s r : index_ok f -> SetHead s f = (f', r) -> index_ok f'.
Proof.
  intros Hf E. unfold SetHead, mbind, M_bind, get, lift, assertM in E.
  destruct (Insert s f) as [f1 [[]|e]] eqn:EI.
  3: { unfold Insert in EI. by destruct (byBlockId _ !! _). }
  2: apply Insert_false in EI as ->.
  1: apply (Insert_true f f1 s Hf) in EI as (Hf1 & _).
  all: destruct (BlockID _) as [id0|]; simpl in E; [|by injection E as <- <-].
  all: destruct (EosAssert _ _); [|by injection E as <- <-].
  all: simpl in E; unfold modify in E.
  1: destruct (Head f1); [destruct (_ <? _)|]; injection E as <- <-; by rewrite ?set_Head_ok.
  by injection E as <- <-.
Qed.

Lemma step_ok f f' : index_ok f -> step f f' -> index_ok f'.
Proof.
  intros Hf H. destruct H as [f f' s r E|f f' b r E|f f' new b trust r Hn E|f f' c r E|f f' id r E|f f' h v r E|f f' h v r E|f f' h r E|f f' id r E|f p b Hb].
  - by eapply SetHead_ok.
  - by eapply AddBlockState_ok.
  - unfold AddSignedBlock in E. destruct b as [b|]; [|by injection E as <- <-].
    unfold mbind, M_bind, get, lift, assertM, modify in E.
    destruct (EosAssert _ _); [|by injection E as <- <-]. destruct (BlockID _); [|by injection E as <- <-].
    destruct (EosAssert _ _); [|by injection E as <- <-]. destruct (Find _ f); [|by injection E as <- <-].
    destruct (NewBlockState3 _ _ _ _) as [bs|]; [|by injection E as <- <-].
    eapply AddBlockState_ok; [|exact E]. by apply store_ok.
  - unfold AddConfirmation, mbind, M_bind, get, lift, modify in E. destruct (GetBlock _ f) as [p|] eqn:Hp; [|by injection E as <- <-].
    destruct (BlockHeaderState.AddConfirmation _ _ _) as [h r1] eqn:EC. apply AddConfirmation_keys in EC as (E1 & E2 & E3 & E4 & E5).
    assert (Hok : index_ok (store p (set_bhs h (heap f p)) f)).
    { apply store_ok; [done|]. intros _. unfold same_keys, bsId, bsPrevious, bsNum, bsDpos, bsBft. cbn.
      rewrite E1, E2, E3, E4, E5. by split_and!. }
    destruct r1; [|by injection E as <- <-]. destruct (_ && _); [|by injection E as <- <-]. by eapply SetBftIrreversible_ok.
  - destruct (Remove_pruned _ _ _ _ Hf E) as ([? _ _] & _). done.
  - unfold SetValidity, mbind, M_bind, get, modify in E. destruct v; simpl in E.
    + injection E as <- <-. apply store_ok; [done|]. intros _. by split_and!.
    + destruct (Remove_pruned _ _ _ _ Hf E) as ([? _ _] & _). done.
  - unfold MarkInCurrentChain, mbind, M_bind, get, lift, modify in E. destruct (eqb _ _); [by injection E as <- <-|].
    destruct (Find _ f) as [p|] eqn:Hp; [|by injection E as <- <-]. injection E as <- <-.
    apply (ix_id f Hf) in Hp as [Hp _]. by apply (Modify_ok f p (set_InCurrentChain v)).
  - apply Prune_pruned in E as [[Hok _ _] _]; done.
  - by eapply SetBftIrreversible_ok.
  - by apply store_ok.
Qed.

(** ** Properties *)

(** C8. The container is consistent in every state the operations reach from an empty
    database: the four indices hold the same blocks, an id leads to the one block that
    has it, and the three ordered indices are sorted by their comparators on the
    current fields.  Operations that throw count, and so do writes of the callers
    through their pointers. *)
Theorem fork_index_invariant objects f : rtc step (empty_db objects) f -> index_ok f.
Proof.
  intros H. assert (Hg : forall f1 f2, rtc step f1 f2 -> index_ok f1 -> index_ok f2).
  { induction 1 as [|f1 f2 f3 Hs _ IH]; [done|]. intros Hf1. apply IH. by eapply step_ok. }
  eapply Hg; [done|]. apply empty_db_ok.
Qed.

(** C12. [SetBftIrreversible] of a known block terminates.  The block gets its own number;
    of the others, only blocks built on it with a lower BFT number change, to that
    number, and the traversal reaches every child of what it changed.  If BFT numbers
    do not decrease along the tree, then everything below the block ends at or above
    its number, and the numbers still do not decrease. *)
Theorem fork_bft_irreversible f id p0 : index_ok f -> Find id f = Some p0 ->
  exists f', SetBftIrreversible id f = (f', Ok tt) /\ bft_set id p0 (bsNum (heap f p0)) f f' /\
    (bft_monotone f -> bsBft (heap f p0) <= bsNum (heap f p0) ->
     (forall p, p ∈ blocks f -> below f id (bsId (heap f p)) -> bsNum (heap f p0) <= bsBft (heap f' p)) /\
     bft_monotone f').
Proof.
  intros Hf Hp. destruct (SetBftIrreversible_spec f id p0 Hf Hp) as (f' & E & Hs). exists f'. split_and!; [done|done|].
  apply (ix_id f Hf) in Hp as [Hp0 Hid]. intros Hm Hn. set (n := bsNum (heap f p0)) in *.
  assert (Hall : forall p, p ∈ blocks f -> below f id (bsId (heap f p)) -> n <= bsBft (heap f' p)).
  { intros p Hp Hb. by eapply (bft_set_below id p0 n f f'). }
  split; [done|].
  assert (Hval : forall p, bsId (heap f' p) = bsId (heap f p) /\ bsPrevious (heap f' p) = bsPrevious (heap f p) /\
    bsBft (heap f p) <= bsBft (heap f' p) /\
    (bsBft (heap f' p) = bsBft (heap f p) \/ bsBft (heap f' p) = n /\ below f id (bsId (heap f p)))).
  { intros p. destruct (decide (p = p0)) as [->|Hne].
    - rewrite (bs_root _ _ _ _ _ Hs). cbn. split_and!; try done. right. split; [done|]. rewrite Hid. constructor.
    - destruct (bs_others _ _ _ _ _ Hs p Hne) as [->|(_ & Hb & Hl & ->)]; cbn; split_and!; auto; lia. }
  intros p q Hp Hq Epq. rewrite (bs_blocks _ _ _ _ _ Hs) in Hp, Hq.
  destruct (Hval p) as (_ & Epp & Hlep & _), (Hval q) as (Eqq & _ & _ & Hcase). rewrite Epp, Eqq in Epq.
  pose proof (Hm p q Hp Hq Epq). destruct Hcase as [->|[-> Hb]]; [lia|].
  apply Hall; [done|]. apply below_child; [done|]. by rewrite Epq.
Qed.

(** C13. [FetchBranchFrom] of two known blocks with a common ancestor in the index, where
    numbers count up along parents: it returns the two chains down from the blocks to
    a pair of the same number with the same previous block, and no earlier pair has
    one; it terminates within as many steps as the index has blocks. *)
Theorem fork_fetch_branch f first second a b c la lb : index_ok f -> linked f ->
  GetBlock first f = Some a -> GetBlock second f = Some b -> path f a la c -> path f b lb c ->
  exists l1 a' l2 b', FetchBranchFrom first second f = Ok (l1 ++ [a'], l2 ++ [b']) /\
    path f a l1 a' /\ path f b l2 b' /\ bsPrevious (heap f a') = bsPrevious (heap f b') /\
    bsNum (heap f a') = bsNum (heap f b') /\
    forall x y, x ∈ l1 -> y ∈ l2 -> bsNum (heap f x) = bsNum (heap f y) -> bsPrevious (heap f x) <> bsPrevious (heap f y).
Proof.
  intros Hf Hl Ha Hb Hpa Hpb. unfold FetchBranchFrom. rewrite Ha, Hb.
  apply (ix_id f Hf) in Ha as [Ha _], Hb as [Hb _].
  assert (Hc : forall x lx, x ∈ blocks f -> path f x lx c -> bsNum (heap f c) <= bsNum (heap f x)).
  { intros x lx Hx Hp. destruct (path_num f x lx c Hf Hl Hx Hp) as [E _]. unfold len in E. lia. }
  destruct (climb_spec f b c (Size f) Hf Hl Hb (Hc b lb Hb Hpb) a la [] Ha Hpa) as (a1 & l1 & la1 & E1 & P1 & P1' & Hle1 & Heq1 & Hsame1).
  { pose proof (lower_size f a Hf Ha). lia. }
  pose proof (path_block f a l1 a1 Hf Ha P1) as Ha1.
  destruct (climb_spec f a1 c (Size f) Hf Hl Ha1 (Hc a1 la1 Ha1 P1') b lb [] Hb Hpb) as (b1 & l2 & lb1 & E2 & P2 & P2' & Hle2 & Heq2 & Hsame2).
  { pose proof (lower_size f b Hf Hb). lia. }
  pose proof (path_block f b l2 b1 Hf Hb P2) as Hb1.
  assert (Hn : bsNum (heap f a1) = bsNum (heap f b1)) by (rewrite Heq2; lia).
  destruct (climb_both_spec f c (Size f) Hf Hl a1 b1 la1 lb1 l1 l2 Ha1 Hb1 Hn P1' P2') as (k1 & a' & k2 & b' & E & Q1 & Q2 & Hpr & Hnum & Hd).
  { by apply lower_size. }
  exists (l1 ++ k1), a', (l2 ++ k2), b'. rewrite E1, Ok_bind. cbn beta iota. rewrite app_nil_l, E2, Ok_bind. cbn beta iota.
  rewrite app_nil_l, E, !(assoc_L (++)). split_and!; [done|by eapply path_app|by eapply path_app|done|done|].
  destruct (path_num f a l1 a1 Hf Hl Ha P1) as [La N1], (path_num f b l2 b1 Hf Hl Hb P2) as [Lb N2].
  destruct (path_num f a1 k1 a' Hf Hl Ha1 Q1) as [_ M1], (path_num f b1 k2 b' Hf Hl Hb1 Q2) as [_ M2].
  intros x y Hx Hy Exy. apply elem_of_app in Hx as [Hx|Hx], Hy as [Hy|Hy]; [| | |by apply Hd]; exfalso.
  - specialize (N1 x Hx). specialize (N2 y Hy). unfold len in *.
    destruct (Z.le_gt_cases (bsNum (heap f b)) (bsNum (heap f a))) as [Hba|Hab]; [specialize (Heq1 Hba); lia|].
    rewrite (Hsame1 ltac:(lia)) in N1. lia.
  - specialize (N1 x Hx). specialize (M2 y Hy). lia.
  - specialize (M1 x Hx). specialize (N2 y Hy). lia.
Qed.
End Branches.

(** ** Witnesses *)

Definition no_key (c : Z) (content hash : bytes) : result Ecc.PublicKey := Throw SignatureError.

Lemma fork_index_invariant_witness :
  index_ok (AddBlockState 2%positive (AddBlockState 1%positive (empty_db (example_heap true))).1).1.
Proof.
  apply (fork_index_invariant no_key (example_heap true)).
  eapply rtc_l; [eapply step_AddBlockState, surjective_pairing|].
  eapply rtc_l; [eapply step_AddBlockState, surjective_pairing|]. apply rtc_refl.
Defined.

Lemma fork_bft_irreversible_witness :
  let f := example_db true in let id := example_id 3 in let p0 := 3%positive in
  exists f', SetBftIrreversible id f = (f', Ok tt) /\ bft_set id p0 (bsNum (heap f p0)) f f' /\
    (bft_monotone f -> bsBft (heap f p0) <= bsNum (heap f p0) ->
     (forall p, p ∈ blocks f -> below f id (bsId (heap f p)) -> bsNum (heap f p0) <= bsBft (heap f' p)) /\
     bft_monotone f').
Proof. intros f id p0. apply (fork_bft_irreversible f id p0); [apply example_db_ok|vm_compute; reflexivity]. Defined.

Lemma linked_by_blocks {Receipt Trx} (f : @ForkDatabase Receipt Trx) :
  Forall (fun p => match parent p f with Some q => bsNum (heap f p) = bsNum (heap f q) + 1 | None => True end) (blocks f) ->
  linked f.
Proof. rewrite Forall_forall. intros H p q Hp Hq. specialize (H p Hp). by rewrite Hq in H. Qed.

Lemma fork_fetch_branch_witness :
  let f := example_db true in
  exists l1 a' l2 b', FetchBranchFrom (example_id 4) (example_id 5) f = Ok (l1 ++ [a'], l2 ++ [b']) /\
    path f 4%positive l1 a' /\ path f 5%positive l2 b' /\ bsPrevious (heap f a') = bsPrevious (heap f b') /\
    bsNum (heap f a') = bsNum (heap f b') /\
    forall x y, x ∈ l1 -> y ∈ l2 -> bsNum (heap f x) = bsNum (heap f y) -> bsPrevious (heap f x) <> bsPrevious (heap f y).
Proof.
  intros f. apply (fork_fetch_branch f (example_id 4) (example_id 5) 4%positive 5%positive 1%positive [4; 3]%positive [5; 2]%positive).
  - apply example_db_ok.
  - apply linked_by_blocks. vm_compute. repeat constructor.
  - vm_compute. reflexivity.
  - vm_compute. reflexivity.
  - split; [reflexivity|]. exists 3%positive. split; [vm_compute; reflexivity|].
    split; [reflexivity|]. exists 1%positive. split; [vm_compute; reflexivity|reflexivity].
  - split; [reflexivity|]. exists 2%positive. split; [vm_compute; reflexivity|].
    split; [reflexivity|]. exists 1%positive. split; [vm_compute; reflexivity|reflexivity].
Defined.

(** ** A missing ancestor

    The tests of [FetchBranchFrom] for a missing block print fields of the pointer
    that is nil: the panic replaces the exception. *)
Theorem fetch_branch_missing_ancestor :
  let f := insert_all [2; 4]%positive (empty_db (example_heap true)) in
  FetchBranchFrom (example_id 4) (example_id 2) f = Throw NilDereference /\
  FetchBranchFrom (example_id 4) (example_id 3) f = Throw NilDereference.
Proof. split; vm_compute; reflexivity. Qed.
