(* ===== verification/DbPack.v ===== *)
(** * DbPack: the value format of the state database

    [database/pack.go] and [database/unpack.go] turn the objects of the chain state
    into bytes and back, by reflection.  The same encoder writes the fields that make
    up an index key, which is why it is big-endian: the order of the keys in the
    store must be the order of the values.

    A [gvalue] is a Go value together with its type: slices, maps and pointers carry
    the zero value of their element type, so that the decoder, which fills a variable
    that exists already, is directed by the value that variable holds. *)

From S2P Require Import Prelude Bytes Rlp Ecc.

(** ** Go values as reflection sees them *)

Inductive ikind : Type :=
| KInt8 | KInt16 | KInt32 | KInt | KInt64 | KUint8 | KUint16 | KUint32 | KUint | KUint64.

#[global] Instance ikind_eq_dec : EqDecision ikind.
Proof. solve_decision. Defined.

(** The values of [field.Tag.Get("eos")] that either side looks at. *)
Inductive eosTag : Type :=
| EosNone | EosDash | EosArray | EosTag0 | EosTag1 | EosVuint32 | EosOptional | EosTrxID | EosSVTag.

(** A [reflect.StructField]: [exported] is an empty [PkgPath]; [multiIndex] is the text
    of the tag that declares the indices. *)
Record StructField : Type := mkField {
  fName : string; exported : bool; eos : eosTag; multiIndex : string }.

Inductive gvalue : Type :=
| GString (s : bytes) | GBool (b : bool) | GInteger (k : ikind) (z : Z)
| GFloat64 (bits : Z) | GFloat128 (low high : Z) | GUint128 (low high : Z)
| GPublicKey (p : PublicKey) | GSignature (s : Signature)
| GArray (l : list gvalue)
| GSlice (elem : gvalue) (l : list gvalue)
| GMap (key elem : gvalue) (l : list (gvalue * gvalue))
| GPtr (elem : gvalue) (p : option gvalue)
| GStruct (typeName : string) (fs : list (StructField * gvalue))
| GUnsupported.

Definition MAX_NUM_ARRAY_ELEMENT : Z := 1024 * 1024.
Definition MAX_SIZE_OF_BYTE_ARRAYS : Z := 20 * 1024 * 1024.

(** ** The encoder *)

(** The flags of an [encoder], which a tag sets and the next array or [uint32]
    consumes, and the package variable [trxIsID]. *)
Record encoder : Type := mkEncoder { eosArray : bool; vuint32 : bool; trxIsID : bool }.

Definition newEncoder (trxIsID : bool) : encoder := mkEncoder false false trxIsID.

Definition set_eosArray (b : bool) (e : encoder) : encoder := mkEncoder b (vuint32 e) (trxIsID e).
Definition set_vuint32 (b : bool) (e : encoder) : encoder := mkEncoder (eosArray e) b (trxIsID e).
Definition set_trxIsID (b : bool) (e : encoder) : encoder := mkEncoder (eosArray e) (vuint32 e) b.

(** The buffer of [writeUVarInt] has eight bytes: a longer number panics. *)
Definition writeUVarInt (v : Z) : result bytes :=
  let bs := PutUvarint (u64 v) in
  if len bs <=? 8 then Ok bs else Throw IndexOutOfRange.

Definition writeBool (b : bool) : bytes := [if b then 1 else 0].
Definition writeUint8 (i : Z) : bytes := [i].
Definition writeUint16 (i : Z) : bytes := be_bytes 2 i.
Definition writeUint32 (i : Z) : bytes := be_bytes 4 i.
Definition writeUint64 (i : Z) : bytes := be_bytes 8 i.
Definition writeInt16 (i : Z) : bytes := writeUint16 (u16 i).
Definition writeInt32 (i : Z) : bytes := writeUint32 (u32 i).
Definition writeInt64 (i : Z) : bytes := writeUint64 (u64 i).

Definition writeByteArray (b : bytes) : result bytes :=
  EosAssert (len b <=? MAX_SIZE_OF_BYTE_ARRAYS) AssertException ≫= fun _ =>
  writeUVarInt (len b) ≫= fun l => Ok (l ++ b).
Definition writeString (s : bytes) : result bytes := writeByteArray s.

Definition writePublicKey (pk : PublicKey) : bytes := Curve pk :: Content pk.
Definition writeSignature (s : Signature) : result bytes := SigPack s.

(** A float is written so that the byte order is the numeric one: the sign first, and
    the exponent and the fraction of a negative number complemented. *)
Definition writeFloat64 (f64 : Z) : bytes :=
  if negb (Z.shiftr f64 63 =? 0)
  then writeBool false
       ++ writeUint16 (u16 (0x8000 - Z.land (u16 (Z.shiftr f64 48)) 0x7FFF))
       ++ writeUint64 (u64 (0x0001000000000000 - Z.land f64 0x0000FFFFFFFFFFFF))
  else writeBool true
       ++ writeUint16 (Z.lor (u16 (Z.shiftr f64 48)) 0x8000)
       ++ writeUint64 (Z.lor (Z.land f64 0x0000FFFFFFFFFFFF) 0x0001000000000000).

Definition writeFloat128 (low high : Z) : bytes :=
  if negb (Z.shiftr high 63 =? 0)
  then writeBool false
       ++ writeUint16 (u16 (0x8000 - Z.land (u16 (Z.shiftr high 48)) 0x7FFF))
       ++ writeUint64 (u64 (0x00010000000000FE - Z.land high 0x0000FFFFFFFFFFFF))
       ++ writeUint64 (u64 (0xFFFFFFFFFFFFFFFF - low))
  else writeBool true
       ++ writeUint16 (Z.lor (u16 (Z.shiftr high 48)) 0x8000)
       ++ writeUint64 (Z.lor (Z.land high 0x0000FFFFFFFFFFFF) 0x0001000000000000)
       ++ writeUint64 low.

Definition writeUint128 (low high : Z) : bytes := writeUint64 high ++ writeUint64 low.

(** [case reflect.Int8] to [case reflect.Uint64] *)
Definition encode_integer (k : ikind) (z : Z) : M encoder bytes :=
  match k with
  | KInt8 => mret [u8 z]
  | KInt16 => mret (writeInt16 z)
  | KInt32 | KInt => mret (writeInt32 z)
  | KInt64 => mret (writeInt64 z)
  | KUint8 => mret (writeUint8 z)
  | KUint16 => mret (writeUint16 z)
  | KUint32 =>
      e ← get;
      if vuint32 e then _ ← modify (set_vuint32 false); lift (writeUVarInt z)
      else mret (writeUint32 z)
  | KUint => mret (writeUint32 (u32 z))
  | KUint64 => mret (writeUint64 z)
  end.

(** The length in front of an array, left out under the tag [array]. *)
Definition array_header (l : Z) : M encoder bytes :=
  _ ← assertM (l <=? MAX_NUM_ARRAY_ELEMENT) AssertException;
  e ← get;
  n ← (if negb (eosArray e) then lift (writeUVarInt l) else mret []);
  _ ← modify (set_eosArray false);
  mret n.

Definition slice_header (l : Z) : M encoder bytes :=
  _ ← assertM (l <=? MAX_NUM_ARRAY_ELEMENT) AssertException;
  lift (writeUVarInt l).

(** [rv.Field(i).IsNil()] of an optional field, which is a pointer in every struct of
    the source; the kinds without a nil panic. *)
Definition IsNil (v : gvalue) : result bool :=
  match v with GPtr _ None => Ok true | GPtr _ (Some _) => Ok false | _ => Throw NilDereference end.

(** A type with an encoding of its own loses it behind a pointer: the type switch looks
    at values, and what is written is the plain struct or integer. *)
Definition encode_pointee (encode : gvalue -> M encoder bytes) (x : gvalue) : M encoder bytes :=
  match x with
  | GPtr _ _ => lift (Throw RlpError)
  | GFloat64 bits => mret (writeUint64 bits)
  | GFloat128 low high | GUint128 low high => mret (writeUint64 low ++ writeUint64 high)
  | GPublicKey p => n ← array_header (len (Content p)); mret (Curve p :: n ++ Content p)
  | GSignature s => n ← slice_header (len (sContent s)); mret (sCurve s :: n ++ sContent s)
  | _ => encode x
  end.

Fixpoint encode (v : gvalue) {struct v} : M encoder bytes :=
  let encode_list :=
    fix encode_list (l : list gvalue) : M encoder bytes :=
      match l with
      | [] => mret []
      | x :: l' => b1 ← encode x; b2 ← encode_list l'; mret (b1 ++ b2)
      end in
  let encode_map :=
    fix encode_map (l : list (gvalue * gvalue)) : M encoder bytes :=
      match l with
      | [] => mret []
      | (k, x) :: l' =>
          b1 ← encode k; b2 ← encode x; b3 ← encode_map l'; mret (b1 ++ b2 ++ b3)
      end in
  let encode_fields :=
    fix encode_fields (fs : list (StructField * gvalue)) : M encoder bytes :=
      match fs with
      | [] => mret []
      | (f, x) :: fs' =>
          let field (pre : bytes) :=
            b1 ← (if negb (String.eqb (fName f) "_") && exported f then encode x else mret []);
            b2 ← encode_fields fs';
            mret (pre ++ b1 ++ b2) in
          let skip (pre : bytes) := b2 ← encode_fields fs'; mret (pre ++ b2) in
          match eos f with
          | EosDash => skip []
          | EosArray => _ ← modify (set_eosArray true); field []
          | EosTag0 =>
              isnil ← lift (IsNil x);
              if (isnil : bool) then _ ← modify (set_trxIsID true); skip (writeUint8 0)
              else field (writeUint8 1)
          | EosTag1 => e ← get; if negb (trxIsID e) then skip [] else field []
          | EosVuint32 => _ ← modify (set_vuint32 true); field []
          | EosOptional =>
              isnil ← lift (IsNil x);
              if (isnil : bool) then skip (writeBool false) else field (writeBool true)
          | _ => field []
          end
      end in
  match v with
  | GPublicKey p => mret (writePublicKey p)
  | GSignature s => lift (writeSignature s)
  | GFloat64 bits => mret (writeFloat64 bits)
  | GFloat128 low high => mret (writeFloat128 low high)
  | GUint128 low high => mret (writeUint128 low high)
  | GString s => lift (writeString s)
  | GBool b => mret (writeBool b)
  | GInteger k z => encode_integer k z
  | GArray l => n ← array_header (len l); bs ← encode_list l; mret (n ++ bs)
  | GSlice _ l => n ← slice_header (len l); bs ← encode_list l; mret (n ++ bs)
  | GMap _ _ l => n ← lift (writeUVarInt (len l)); bs ← encode_map l; mret (n ++ bs)
  | GPtr _ None => lift (Throw NilDereference)
  | GPtr _ (Some x) => encode_pointee encode x
  | GStruct _ fs => encode_fields fs
  | GUnsupported => lift (Throw RlpError)
  end.

Definition EncodeToBytes (v : gvalue) (trxIsID : bool) : result bytes :=
  (encode v (newEncoder trxIsID)).2.

Definition EncodeSize (v : gvalue) (trxIsID : bool) : result Z :=
  EncodeToBytes v trxIsID ≫= fun buffer => Ok (len buffer).

(** ** The decoder *)

(** A [decoder] with the package variables [vuint32], [eosArray] and
    [destaticVariantTag] of [unpack.go]. *)
Record decoder : Type := mkDec {
  ddata : bytes; dpos : Z; dvuint32 : bool; deosArray : bool; dvariant : Z }.

(** The flags are false between two decodings that succeed ([db_round_trip]). *)
Definition newDecoder (data : bytes) : decoder := mkDec data 0 false false 0.

Definition dset_vuint32 (b : bool) (d : decoder) : decoder :=
  mkDec (ddata d) (dpos d) b (deosArray d) (dvariant d).
Definition dset_eosArray (b : bool) (d : decoder) : decoder :=
  mkDec (ddata d) (dpos d) (dvuint32 d) b (dvariant d).
Definition dset_variant (z : Z) (d : decoder) : decoder :=
  mkDec (ddata d) (dpos d) (dvuint32 d) (deosArray d) z.
Definition dadvance (n : Z) (d : decoder) : decoder :=
  mkDec (ddata d) (dpos d + n) (dvuint32 d) (deosArray d) (dvariant d).

Definition dremaining (d : decoder) : Z := len (ddata d) - dpos d.
(** [d.data[d.pos:]] *)
Definition dunread (d : decoder) : bytes := drop (Z.to_nat (dpos d)) (ddata d).

Definition readUvarint : M decoder Z :=
  d ← get;
  let '(l, read) := Uvarint (dunread d) in
  if read <=? 0 then lift (Throw RlpError) else _ ← modify (dadvance read); mret l.

(** The additions of [d.pos + int(l)] are those of Go's 64-bit [int]. *)
Definition readByteArray : M decoder bytes :=
  l ← readUvarint;
  d ← get;
  let e := i64 (dpos d + i64 l) in
  if len (ddata d) <? e then lift (Throw RlpError)
  else if e <? dpos d then lift (Throw SliceOutOfRange)
  else _ ← modify (dadvance (i64 l)); mret (take (Z.to_nat (i64 l)) (dunread d)).
Definition readString : M decoder bytes := readByteArray.

(** The reads of a fixed number of bytes check what remains, then advance. *)
Definition read_raw (n : nat) : M decoder bytes :=
  d ← get;
  if dremaining d <? Z.of_nat n then lift (Throw RlpError)
  else _ ← modify (dadvance (Z.of_nat n)); mret (take n (dunread d)).

(** [binary.BigEndian.Uint16] and its wider forms *)
Definition be_val (l : bytes) : Z := le_val (reverse l).

Definition readByte : M decoder Z := b ← read_raw 1; mret (be_val b).
Definition readBool : M decoder bool := b ← readByte; mret (negb (b =? 0)).
Definition readUint8 : M decoder Z := b ← read_raw 1; mret (be_val b).
Definition readUint16 : M decoder Z := b ← read_raw 2; mret (be_val b).
Definition readUint32 : M decoder Z := b ← read_raw 4; mret (be_val b).
Definition readUint : M decoder Z := b ← read_raw 4; mret (be_val b).
Definition readUint64 : M decoder Z := b ← read_raw 8; mret (be_val b).
Definition readInt8 : M decoder Z := n ← readUint8; mret (swrap 8 n).
Definition readInt16 : M decoder Z := n ← readUint16; mret (swrap 16 n).
Definition readInt32 : M decoder Z := n ← readUint32; mret (swrap 32 n).
Definition readInt : M decoder Z := n ← readUint; mret (swrap 64 n).
Definition readInt64 : M decoder Z := n ← readUint64; mret (swrap 64 n).

Definition ReadPublicKey : M decoder PublicKey :=
  keyContent ← read_raw 34; lift (NewPublicKeyFromData keyContent).
Definition ReadSignature : M decoder Signature :=
  sigContent ← read_raw 66; lift (NewSignatureFromData sigContent).

Definition readFloat64 : M decoder Z :=
  plus ← readBool;
  exp ← readUint16;
  frac ← readUint64;
  mret (if (plus : bool)
        then Z.lor (Z.shiftl (Z.land exp 0x7FFF) 48) (Z.land frac 0xFFFEFFFFFFFFFFFF)
        else Z.lor (u64 (Z.shiftl (Z.lor (u16 (0x8000 - exp)) 0x8000) 48))
                   (u64 (0x0001000000000000 - frac))).

Definition readFloat128 : M decoder (Z * Z) :=
  plus ← readBool;
  exp ← readUint16;
  sig64 ← readUint64;
  sig0 ← readUint64;
  mret (if (plus : bool)
        then (sig0, Z.lor (Z.shiftl (Z.land exp 0x7FFF) 48) (Z.land sig64 0xFFFEFFFFFFFFFFFF))
        else (u64 (0xFFFFFFFFFFFFFFFF - sig0),
              Z.lor (u64 (Z.shiftl (Z.lor (u16 (0x8000 - exp)) 0x8000) 48))
                    (u64 (0x00010000000000FE - sig64)))).

(** [x, _ := d.readByte()]: the error of an exhausted buffer is dropped. *)
Definition readByte_ignore : M decoder Z :=
  fun d => match readByte d with (d', Ok b) => (d', Ok b) | (d', Throw _) => (d', Ok 0) end.
(** [r, _ = d.readUvarint()], which returns zero with its error *)
Definition readUvarint_ignore : M decoder Z :=
  fun d => match readUvarint d with (d', Ok r) => (d', Ok r) | (d', Throw _) => (d', Ok 0) end.

Definition decode_integer (k : ikind) : M decoder Z :=
  match k with
  | KInt8 => readInt8 | KInt16 => readInt16 | KInt32 => readInt32 | KInt => readInt
  | KInt64 => readInt64 | KUint8 => readUint8 | KUint16 => readUint16 | KUint => readUint
  | KUint32 =>
      d ← get;
      if dvuint32 d then _ ← modify (dset_vuint32 false); r ← readUvarint_ignore; mret (u32 r)
      else readUint32
  | KUint64 => readUint64
  end.

(** The zero value of the type of a value. *)
Fixpoint zero (v : gvalue) : gvalue :=
  match v with
  | GString _ => GString [] | GBool _ => GBool false | GInteger k _ => GInteger k 0
  | GFloat64 _ => GFloat64 0 | GFloat128 _ _ => GFloat128 0 0 | GUint128 _ _ => GUint128 0 0
  | GPublicKey _ => GPublicKey PublicKey_zero | GSignature _ => GSignature Signature_zero
  | GArray l => GArray (map zero l)
  | GSlice e _ => GSlice e []
  | GMap k e _ => GMap k e []
  | GPtr e _ => GPtr e None
  | GStruct n fs => GStruct n (map (fun '(f, x) => (f, zero x)) fs)
  | GUnsupported => GUnsupported
  end.

(** Equality of the keys of a map, which are strings or integers in the source. *)
Definition key_eqb (a b : gvalue) : bool :=
  match a, b with
  | GString s, GString s' => bool_decide (s = s')
  | GInteger k z, GInteger k' z' => bool_decide (k = k' /\ z = z')
  | _, _ => false
  end.

(** [rv.SetMapIndex(kv, vv)] *)
Fixpoint SetMapIndex (k x : gvalue) (l : list (gvalue * gvalue)) : list (gvalue * gvalue) :=
  match l with
  | [] => [(k, x)]
  | (k', x') :: l' => if key_eqb k k' then (k', x) :: l' else (k', x') :: SetMapIndex k x l'
  end.

(** What a fresh pointer is filled with: the types with a decoding of their own lose
    it behind a pointer, as in the encoder. *)
Definition decode_pointee (decode : gvalue -> M decoder gvalue) (e : gvalue) : M decoder gvalue :=
  match e with
  | GPtr _ _ => lift (Throw RlpError)
  | GFloat64 _ => n ← readUint64; mret (GFloat64 n)
  | GFloat128 _ _ => low ← readUint64; high ← readUint64; mret (GFloat128 low high)
  | GUint128 _ _ => low ← readUint64; high ← readUint64; mret (GUint128 low high)
  | GPublicKey _ =>
      c ← readUint8;
      d ← get;
      _ ← (if negb (deosArray d) then readUvarint else mret 0);
      _ ← modify (dset_eosArray false);
      bs ← read_raw 33;
      mret (GPublicKey (mkPublicKey c bs))
  | GSignature _ =>
      c ← readUint8;
      l ← readUvarint;
      if i64 l <? 0 then lift (Throw SliceOutOfRange)
      else bs ← read_raw (Z.to_nat (i64 l)); mret (GSignature (mkSignature c bs None))
  | _ => decode e
  end.

Fixpoint decode (v : gvalue) {struct v} : M decoder gvalue :=
  let decode_list :=
    fix decode_list (l : list gvalue) : M decoder (list gvalue) :=
      match l with
      | [] => mret []
      | x :: l' => y ← decode x; ys ← decode_list l'; mret (y :: ys)
      end in
  let decode_n :=
    fix decode_n (m : M decoder gvalue) (n : nat) : M decoder (list gvalue) :=
      match n with
      | O => mret []
      | S n' => x ← m; xs ← decode_n m n'; mret (x :: xs)
      end in
  let decode_map :=
    fix decode_map (mk mv : M decoder gvalue) (n : nat) (acc : list (gvalue * gvalue))
        : M decoder (list (gvalue * gvalue)) :=
      match n with
      | O => mret acc
      | S n' => k ← mk; x ← mv; decode_map mk mv n' (SetMapIndex k x acc)
      end in
  let decodeStruct :=
    fix decodeStruct (fs : list (StructField * gvalue)) : M decoder (list (StructField * gvalue)) :=
      match fs with
      | [] => mret []
      | (f, x) :: fs' =>
          let field :=
            y ← (if exported f && negb (String.eqb (fName f) "_") then decode x else mret x);
            ys ← decodeStruct fs';
            mret ((f, y) :: ys) in
          let skip := ys ← decodeStruct fs'; mret ((f, x) :: ys) in
          match eos f with
          | EosDash | EosSVTag => skip
          | EosOptional => isPresent ← readByte_ignore; if isPresent =? 0 then skip else field
          | EosVuint32 => _ ← modify (dset_vuint32 true); field
          | EosArray => _ ← modify (dset_eosArray true); field
          | EosTrxID => b ← readByte_ignore; _ ← modify (dset_variant b); field
          | EosTag0 => d ← get; if negb (dvariant d =? 1) then skip else field
          | EosTag1 => d ← get; if negb (dvariant d =? 0) then skip else field
          | EosNone => field
          end
      end in
  match v with
  | GPublicKey _ => p ← ReadPublicKey; mret (GPublicKey p)
  | GSignature _ => s ← ReadSignature; mret (GSignature s)
  | GFloat64 _ => uZ ← readFloat64; mret (GFloat64 uZ)
  | GFloat128 _ _ => '(low, high) ← readFloat128; mret (GFloat128 low high)
  | GUint128 _ _ => high ← readUint64; low ← readUint64; mret (GUint128 low high)
  | GString _ => s ← readString; mret (GString s)
  | GBool _ => r ← readBool; mret (GBool r)
  | GInteger k _ => n ← decode_integer k; mret (GInteger k n)
  | GArray l =>
      d ← get;
      _ ← (if negb (deosArray d) then readUvarint else mret 0);
      _ ← modify (dset_eosArray false);
      ys ← decode_list l;
      mret (GArray ys)
  | GSlice e old =>
      l ← readUvarint;
      if l =? 0 then mret (GSlice e old)
      else if i64 l <? 0 then lift (Throw SliceOutOfRange)
      else xs ← decode_n (decode e) (Z.to_nat (i64 l)); mret (GSlice e xs)
  | GMap k e _ =>
      l ← readUvarint;
      kvs ← decode_map (decode k) (decode e) (Z.to_nat (i64 l)) [];
      mret (GMap k e kvs)
  | GPtr e _ => x ← decode_pointee decode e; mret (GPtr e (Some x))
  | GStruct n fs => ys ← decodeStruct fs; mret (GStruct n ys)
  | GUnsupported => lift (Throw RlpError)
  end.

(** [DecodeBytes(b, &to)]: the variable [to] is filled in place. *)
Definition DecodeBytes (b : bytes) (to_ : gvalue) : result gvalue := (decode to_ (newDecoder b)).2.

(** ** Values the format carries

    [fits v]: every part of [v] is within the range the format can represent, and the
    elements of slices, maps and pointers have the element type announced.  The fields
    nobody writes hold their zero value; the variant tags are left out. *)

Definition in_kind (k : ikind) (z : Z) : Prop :=
  match k with
  | KInt8 => in_s 8 z | KInt16 => in_s 16 z | KInt32 => in_s 32 z | KInt64 => in_s 64 z
  | KUint8 => in_u 8 z | KUint16 => in_u 16 z | KUint32 => in_u 32 z | KUint64 => in_u 64 z
  | KInt | KUint => in_u 32 z
  end.

Definition sig_wf (s : Signature) : Prop :=
  (sCurve s = CurveK1 \/ sCurve s = CurveR1) /\ length (sContent s) = 65%nat /\ inner s = Some (sCurve s).

Definition visible (f : StructField) : bool := negb (String.eqb (fName f) "_") && exported f.

Definition is_key (v : gvalue) : bool :=
  match v with GString _ | GInteger _ _ => true | _ => false end.
Definition is_array (v : gvalue) : bool := match v with GArray _ => true | _ => false end.
Definition is_uint32 (v : gvalue) : bool := match v with GInteger KUint32 _ => true | _ => false end.
Definition plain_pointee (v : gvalue) : bool :=
  match v with
  | GPtr _ _ | GFloat64 _ | GFloat128 _ _ | GUint128 _ _ | GPublicKey _ | GSignature _ => false
  | _ => true
  end.

Definition fits_field (fits : gvalue -> Prop) (f : StructField) (x : gvalue) : Prop :=
  match eos f with
  | EosNone => if visible f then fits x else x = zero x
  | EosDash => x = zero x
  | EosArray => visible f = true /\ fits x /\ is_array x = true
  | EosVuint32 => visible f = true /\ fits x /\ is_uint32 x = true
  | EosOptional =>
      match x with
      | GPtr _ None => True
      | GPtr _ (Some _) => visible f = true /\ fits x
      | _ => False
      end
  | _ => False
  end.

Fixpoint fits (v : gvalue) : Prop :=
  match v with
  | GString s => len s <= MAX_SIZE_OF_BYTE_ARRAYS
  | GBool _ => True
  | GInteger k z => in_kind k z
  | GFloat64 b => in_u 64 b
  | GFloat128 low high | GUint128 low high => in_u 64 low /\ in_u 64 high
  | GPublicKey p => Ecc.wf p
  | GSignature s => sig_wf s
  | GArray l => len l <= MAX_NUM_ARRAY_ELEMENT /\ foldr (fun x P => fits x /\ P) True l
  | GSlice e l =>
      len l <= MAX_NUM_ARRAY_ELEMENT /\ foldr (fun x P => (zero x = e /\ fits x) /\ P) True l
  | GMap k e l =>
      len l <= MAX_NUM_ARRAY_ELEMENT /\ NoDup (map fst l) /\
      foldr (fun '(a, x) P => (zero a = k /\ is_key a = true /\ zero x = e /\ fits a /\ fits x) /\ P) True l
  | GPtr e (Some x) => zero x = e /\ plain_pointee x = true /\ fits x
  | GStruct _ fs => foldr (fun '(f, x) P => fits_field fits f x /\ P) True fs
  | _ => False
  end.

(** Induction over values, with the hypothesis for every element. *)
Definition gvalue_rect' (P : gvalue -> Prop)
    (Hbase : forall v, match v with
       | GArray _ | GSlice _ _ | GMap _ _ _ | GPtr _ _ | GStruct _ _ => True | _ => P v end)
    (Harray : forall l, Forall P l -> P (GArray l))
    (Hslice : forall e l, Forall P l -> P (GSlice e l))
    (Hmap : forall k e l, Forall (fun a => P a.1 /\ P a.2) l -> P (GMap k e l))
    (Hnil : forall e, P (GPtr e None))
    (Hptr : forall e x, P x -> P (GPtr e (Some x)))
    (Hstruct : forall n fs, Forall (fun f => P f.2) fs -> P (GStruct n fs)) : forall v, P v :=
  fix go (v : gvalue) : P v :=
    let gos := fix gos (l : list gvalue) : Forall P l :=
      match l with
      | [] => List.Forall_nil _
      | x :: l' => List.Forall_cons _ x l' (go x) (gos l')
      end in
    match v return P v with
    | GArray l => Harray l (gos l)
    | GSlice e l => Hslice e l (gos l)
    | GMap k e l =>
        Hmap k e l ((fix gom (l : list (gvalue * gvalue)) : Forall (fun a => P a.1 /\ P a.2) l :=
          match l with
          | [] => List.Forall_nil _
          | a :: l' => List.Forall_cons _ a l' (conj (go a.1) (go a.2)) (gom l')
          end) l)
    | GPtr e None => Hnil e
    | GPtr e (Some x) => Hptr e x (go x)
    | GStruct n fs =>
        Hstruct n fs ((fix gof (fs : list (StructField * gvalue)) : Forall (fun f => P f.2) fs :=
          match fs with
          | [] => List.Forall_nil _
          | f :: fs' => List.Forall_cons _ f fs' (go f.2) (gof fs')
          end) fs)
    | v => Hbase v
    end.

(** ** Big-endian words *)

Lemma length_be_bytes n z : length (be_bytes n z) = n.
Proof. unfold be_bytes. by rewrite length_reverse, length_le_bytes. Qed.

Lemma be_val_be_bytes n z : in_u (8 * Z.of_nat n) z -> be_val (be_bytes n z) = z.
Proof. intros. unfold be_val, be_bytes. rewrite reverse_involutive. by apply le_val_le_bytes_small. Qed.

Lemma be_bytes_S n z : be_bytes (S n) z = u8 (Z.shiftr z (8 * Z.of_nat n)) :: be_bytes n z.
Proof.
  revert z. induction n as [|n IH]; intros z.
  - unfold be_bytes. simpl. by rewrite Z.shiftr_0_r.
  - unfold be_bytes in *. cbn [le_bytes] in *. rewrite reverse_cons, IH, Z.shiftr_shiftr by lia.
    rewrite <- app_comm_cons, <- reverse_cons.
    replace (8 + 8 * Z.of_nat n) with (8 * Z.of_nat (S n)) by lia. done.
Qed.

Lemma be_bytes_1 z : in_u 8 z -> be_bytes 1 z = [z].
Proof. intros. unfold be_bytes. simpl. by rewrite uwrap_id. Qed.

(** The byte order of the big-endian forms is the order of the numbers. *)
Lemma be_bytes_compare n : forall x y,
  in_u (8 * Z.of_nat n) x -> in_u (8 * Z.of_nat n) y ->
  bytes_Compare (be_bytes n x) (be_bytes n y) = Z.sgn (x - y).
Proof.
  intros x y Hx Hy.
  enough (H : forall m, (m <= n)%nat -> bytes_Compare (be_bytes m x) (be_bytes m y)
    = Z.sgn (x mod 2 ^ (8 * Z.of_nat m) - y mod 2 ^ (8 * Z.of_nat m))).
  { rewrite H by lia. by rewrite !Z.mod_small. }
  induction m as [|m IH]; intros Hm; [by rewrite !Z.mod_1_r|].
  rewrite !be_bytes_S. cbn [bytes_Compare]. rewrite IH by lia. unfold uwrap.
  replace (8 * Z.of_nat (S m)) with (8 * Z.of_nat m + 8) by lia.
  rewrite Z.pow_add_r, !Z.rem_mul_r, !Z.shiftr_div_pow2 by lia.
  assert (0 < 2 ^ (8 * Z.of_nat m)) by (apply Z.pow_pos_nonneg; lia).
  set (p := 2 ^ (8 * Z.of_nat m)) in *. set (a := (x / p) mod 2 ^ 8). set (b := (y / p) mod 2 ^ 8).
  pose proof (Z.mod_pos_bound x p ltac:(lia)). pose proof (Z.mod_pos_bound y p ltac:(lia)).
  destruct (Z.ltb_spec a b); [symmetry; apply Z.sgn_neg; nia|].
  destruct (Z.ltb_spec b a); [symmetry; apply Z.sgn_pos; nia|].
  f_equal. assert (a = b) by lia. nia.
Qed.

(** Equal lengths in front: a comparison is decided by the first part that differs. *)
Lemma bytes_Compare_app a : forall b c d, length a = length b ->
  bytes_Compare (a ++ c) (b ++ d) = if bytes_Compare a b =? 0 then bytes_Compare c d else bytes_Compare a b.
Proof.
  induction a as [|x a IH]; intros [|y b] c d Hl; simplify_eq/=; [done|].
  destruct (x <? y); [done|]. destruct (y <? x); [done|]. by apply IH.
Qed.

(** ** Readers

    [ready d ea vu l]: what is left to read is [l], and the two flags are [ea] and
    [vu].  [reads ea vu m bs a]: started on the bytes [bs], the reader [m] returns [a],
    consumes exactly [bs] and leaves the flags cleared. *)

Definition at_bytes (d : decoder) (ea vu : bool) (l : bytes) : Prop :=
  0 <= dpos d /\ dpos d + len l = len (ddata d) /\ len (ddata d) < 2 ^ 62 /\ dunread d = l /\
  deosArray d = ea /\ dvuint32 d = vu.

Definition reads {A} (ea vu : bool) (m : M decoder A) (bs : bytes) (a : A) : Prop :=
  forall d post, at_bytes d ea vu (bs ++ post) ->
  exists d', m d = (d', Ok a) /\ at_bytes d' false false post /\ dpos d' = dpos d + len bs /\ ddata d' = ddata d.

Lemma at_bytes_advance d ea vu bs post :
  at_bytes d ea vu (bs ++ post) -> at_bytes (dadvance (len bs) d) ea vu post.
Proof.
  unfold at_bytes, dunread. simpl. intros (? & Hl & ? & Hu & ? & ?). rewrite len_app in Hl. unfold len in *.
  split_and!; try lia; try done. rewrite Z2Nat.inj_add, Nat2Z.id, <- drop_drop, Hu by lia.
  apply drop_app_length.
Qed.

Lemma reads_ret {A} (a : A) : reads false false (mret a) [] a.
Proof. intros d post H. exists d. unfold len. simpl. split_and!; try done. lia. Qed.

Lemma reads_bind {A B} ea vu (m : M decoder A) (k : A -> M decoder B) b1 b2 a b :
  reads ea vu m b1 a -> reads false false (k a) b2 b -> reads ea vu (m ≫= k) (b1 ++ b2) b.
Proof.
  intros Hm Hk d post Hd. rewrite <- app_assoc in Hd.
  destruct (Hm d _ Hd) as (d1 & E1 & Hd1 & Hp1 & Ht1).
  destruct (Hk d1 _ Hd1) as (d2 & E2 & Hd2 & Hp2 & Ht2).
  exists d2. unfold mbind, M_bind. rewrite E1, len_app. split_and!; [done..|lia|congruence].
Qed.

Lemma reads_map {A B} ea vu (m : M decoder A) (f : A -> B) bs a b :
  reads ea vu m bs a -> f a = b -> reads ea vu (x ← m; mret (f x)) bs b.
Proof.
  intros ? <-. rewrite <- (app_nil_r bs). eapply reads_bind; [done|]. apply reads_ret.
Qed.

(** A flag that is set before the reader runs. *)
Lemma reads_modify {A} ea vu f (m : M decoder A) bs a :
  (forall d l, at_bytes d false false l -> at_bytes (f d) ea vu l /\ dpos (f d) = dpos d /\ ddata (f d) = ddata d) ->
  reads ea vu m bs a -> reads false false (_ ← modify f; m) bs a.
Proof.
  intros Hf Hm d post Hd. destruct (Hf d _ Hd) as (Hd' & Hp & He).
  destruct (Hm _ _ Hd') as (d2 & E & ? & ? & ?). exists d2.
  unfold mbind, M_bind, modify. rewrite E. split_and!; congruence.
Qed.

Lemma reads_raw n bs : length bs = n -> reads false false (read_raw n) bs bs.
Proof.
  intros <- d post Hd. pose proof (at_bytes_advance _ _ _ _ _ Hd). exists (dadvance (len bs) d).
  destruct Hd as (? & Hl & ? & Hu & _). rewrite len_app in Hl.
  unfold read_raw, mbind, M_bind, get.
  rewrite (proj2 (Z.ltb_ge _ _)) by (unfold dremaining, len in *; lia).
  unfold modify, mret, M_ret. rewrite Hu, take_app_length. done.
Qed.

Lemma reads_word n z : in_u (8 * Z.of_nat n) z ->
  reads false false (b ← read_raw n; mret (be_val b)) (be_bytes n z) z.
Proof. intros. eapply reads_map; [apply reads_raw, length_be_bytes|]. by apply be_val_be_bytes. Qed.

Lemma reads_byte z : in_u 8 z -> reads false false readByte [z] z.
Proof. intros Hz. rewrite <- (be_bytes_1 z Hz). exact (reads_word 1 z Hz). Qed.

Lemma reads_bool b : reads false false readBool (writeBool b) b.
Proof. eapply reads_map; [apply reads_byte; by destruct b|by destruct b]. Qed.

Lemma reads_byte_ignore z : in_u 8 z -> reads false false readByte_ignore [z] z.
Proof.
  intros Hz d post Hd. destruct (reads_byte z Hz d post Hd) as (d' & E & ?).
  exists d'. unfold readByte_ignore. by rewrite E.
Qed.

(** A word that was written by its wrapped value and is read back as signed. *)
Lemma reads_signed n w z : w = 8 * Z.of_nat n -> 0 < w -> in_s w z ->
  reads false false (x ← (b ← read_raw n; mret (be_val b)); mret (swrap w x)) (be_bytes n (uwrap w z)) z.
Proof.
  intros -> Hw Hz. eapply reads_map; [apply reads_word; apply uwrap_range; lia|].
  rewrite swrap_uwrap. by apply swrap_id.
Qed.

Lemma PutUvarint_nonempty v : 0 < len (PutUvarint v).
Proof.
  unfold PutUvarint, len. rewrite put_uvarint_step.
  destruct (v <? 128); cbn [length]; lia.
Qed.

Lemma reads_uvarint v : in_u 64 v -> reads false false readUvarint (PutUvarint v) v.
Proof.
  intros Hv d post Hd. pose proof (at_bytes_advance _ _ _ _ _ Hd). exists (dadvance (len (PutUvarint v)) d).
  destruct Hd as (? & ? & ? & Hu & _). unfold readUvarint, mbind, M_bind, get.
  rewrite Hu, Uvarint_PutUvarint by done. fold (len (PutUvarint v)).
  rewrite (proj2 (Z.leb_gt _ _)) by apply PutUvarint_nonempty. done.
Qed.

Lemma writeUVarInt_small v : 0 <= v < 2 ^ 56 -> writeUVarInt v = Ok (PutUvarint v) /\ in_u 64 v.
Proof.
  intros Hv. assert (in_u 64 v) by word_lia. split; [|done].
  unfold writeUVarInt. rewrite uwrap_id by done.
  pose proof (put_uvarint_short 8 10 v ltac:(lia) Hv). unfold PutUvarint in *.
  rewrite (proj2 (Z.leb_le _ _)) by (unfold len; lia). done.
Qed.

Lemma reads_byte_array bs : len bs <= MAX_SIZE_OF_BYTE_ARRAYS ->
  exists p, writeByteArray bs = Ok p /\ reads false false readByteArray p bs.
Proof.
  intros Hl. unfold MAX_SIZE_OF_BYTE_ARRAYS in Hl. assert (0 <= len bs) by (unfold len; lia).
  destruct (writeUVarInt_small (len bs)) as [E Hu]; [norm_pow; lia|].
  exists (PutUvarint (len bs) ++ bs). split.
  { unfold writeByteArray. rewrite (proj2 (Z.leb_le _ _)) by (unfold MAX_SIZE_OF_BYTE_ARRAYS; lia).
    simpl. by rewrite E. }
  eapply reads_bind; [by apply reads_uvarint|]. intros d post Hd.
  pose proof (at_bytes_advance _ _ _ _ _ Hd). exists (dadvance (len bs) d).
  destruct Hd as (? & Hlen & Hmax & Hun & _). rewrite len_app in Hlen. assert (0 <= len post) by (unfold len; lia).
  assert (Hi : i64 (len bs) = len bs) by (apply swrap_id; [lia|]; unfold in_s; norm_pow; lia).
  unfold mbind, M_bind, get. rewrite Hi.
  rewrite (swrap_id 64 (dpos d + len bs)) by (try lia; unfold in_s; norm_pow; lia).
  rewrite (proj2 (Z.ltb_ge _ _)), (proj2 (Z.ltb_ge _ _)) by lia.
  unfold modify, mret, M_ret. rewrite Hun. replace (Z.to_nat (len bs)) with (length bs) by (unfold len; lia). rewrite take_app_length. done.
Qed.

(** ** Floats: the sign, the exponent with the upper fraction bits, and 48 bits *)

Definition f_exp (b : Z) : Z := (b / 2 ^ 48) mod 2 ^ 15.
Definition f_frac (b : Z) : Z := b mod 2 ^ 48.

Lemma f_exp_range b : in_u 15 (f_exp b).
Proof. apply Z.mod_pos_bound. done. Qed.
Lemma f_frac_range b : in_u 48 (f_frac b).
Proof. apply Z.mod_pos_bound. done. Qed.

Lemma float_join b : in_u 64 b ->
  b = (if 2 ^ 63 <=? b then 2 ^ 63 else 0) + 2 ^ 48 * f_exp b + f_frac b.
Proof. intros. unfold f_exp, f_frac. destruct (Z.leb_spec (2 ^ 63) b); word_lia. Qed.

(** A mask that keeps the low bits and clears the marker bit above them. *)
Lemma land_marker w f m : 0 <= w -> in_u w f -> Z.land (Z.ones w) m = Z.ones w -> Z.testbit m w = false ->
  Z.land (2 ^ w + f) m = f.
Proof.
  intros Hw Hf Hm Hb. rewrite Z.add_comm. replace (f + 2 ^ w) with (f + 2 ^ w * 1) by lia.
  rewrite <- lor_shiftl_add by done. rewrite Z.land_lor_distr_l.
  assert (Z.land f m = f) as ->.
  { rewrite <- (Z.mod_small f (2 ^ w)) at 1 by done. rewrite <- Z.land_ones, <- Z.land_assoc, Hm by lia.
    rewrite Z.land_ones by lia. by apply Z.mod_small. }
  assert (Z.land (Z.shiftl 1 w) m = 0) as ->; [|apply Z.lor_0_r].
  apply Z.bits_inj'. intros i Hi. rewrite Z.land_spec, testbit_shiftl_1, Z.bits_0 by lia.
  destruct (Z.eqb_spec w i); subst; [by rewrite Hb|done].
Qed.

Lemma lor_marker w f : 0 <= w -> in_u w f -> Z.lor f (2 ^ w) = 2 ^ w + f.
Proof.
  intros. rewrite <- Z.shiftl_1_l. rewrite lor_shiftl_add by done. rewrite Z.shiftl_1_l. lia.
Qed.

Lemma u16_high b : in_u 64 b -> u16 (Z.shiftr b 48) = Z.shiftr b 48.
Proof. intros. rewrite Z.shiftr_div_pow2 by lia. word_lia. Qed.

Lemma float_exp_land b : in_u 64 b -> Z.land (u16 (Z.shiftr b 48)) 0x7FFF = f_exp b.
Proof.
  intros. rewrite u16_high by done. change 0x7FFF with (Z.ones 15).
  rewrite Z.land_ones, Z.shiftr_div_pow2 by lia. done.
Qed.

Lemma float_frac_land b : Z.land b 0x0000FFFFFFFFFFFF = f_frac b.
Proof. change 0x0000FFFFFFFFFFFF with (Z.ones 48). by rewrite Z.land_ones by lia. Qed.

Lemma float_sign b : in_u 64 b -> negb (Z.shiftr b 63 =? 0) = (2 ^ 63 <=? b).
Proof.
  intros. rewrite Z.shiftr_div_pow2 by lia.
  destruct (Z.eqb_spec (b / 2 ^ 63) 0), (Z.leb_spec (2 ^ 63) b); simpl; try done; exfalso; word_lia.
Qed.

(** The head of a float: sign and exponent. *)
Lemma float_exp_or b : in_u 64 b -> b < 2 ^ 63 -> Z.lor (u16 (Z.shiftr b 48)) 0x8000 = 2 ^ 15 + f_exp b.
Proof.
  intros. assert (Z.shiftr b 48 = f_exp b) as E
    by (rewrite Z.shiftr_div_pow2 by lia; unfold f_exp; word_lia).
  rewrite u16_high, E by done. change 0x8000 with (2 ^ 15). apply lor_marker; [lia|apply f_exp_range].
Qed.

(** [writeFloat64] and [writeFloat128] as arithmetic on the parts. *)
Lemma writeFloat64_parts b : in_u 64 b ->
  writeFloat64 b =
    if 2 ^ 63 <=? b then [0] ++ be_bytes 2 (2 ^ 15 - f_exp b) ++ be_bytes 8 (2 ^ 48 - f_frac b)
    else [1] ++ be_bytes 2 (2 ^ 15 + f_exp b) ++ be_bytes 8 (2 ^ 48 + f_frac b).
Proof.
  intros Hb. pose proof (f_exp_range b) as He. pose proof (f_frac_range b) as Hf.
  unfold writeFloat64. rewrite float_sign, float_exp_land, float_frac_land by done.
  destruct (Z.leb_spec (2 ^ 63) b).
  - rewrite (uwrap_id 16), (uwrap_id 64) by word_lia. done.
  - rewrite float_exp_or by done. change 0x0001000000000000 with (2 ^ 48).
    rewrite lor_marker by (done || lia). done.
Qed.

Lemma writeFloat128_parts low b : in_u 64 low -> in_u 64 b ->
  writeFloat128 low b =
    if 2 ^ 63 <=? b
    then [0] ++ be_bytes 2 (2 ^ 15 - f_exp b) ++ be_bytes 8 (2 ^ 48 + 0xFE - f_frac b) ++ be_bytes 8 (2 ^ 64 - 1 - low)
    else [1] ++ be_bytes 2 (2 ^ 15 + f_exp b) ++ be_bytes 8 (2 ^ 48 + f_frac b) ++ be_bytes 8 low.
Proof.
  intros Hl Hb. pose proof (f_exp_range b) as He. pose proof (f_frac_range b) as Hf.
  unfold writeFloat128. rewrite float_sign, float_exp_land, float_frac_land by done.
  destruct (Z.leb_spec (2 ^ 63) b).
  - rewrite (uwrap_id 16), !(uwrap_id 64) by word_lia. done.
  - rewrite float_exp_or by done. change 0x0001000000000000 with (2 ^ 48).
    rewrite lor_marker by (done || lia). done.
Qed.

(** The upper word of a float back from its written parts. *)
Definition join_plus (exp frac : Z) : Z :=
  Z.lor (Z.shiftl (Z.land exp 0x7FFF) 48) (Z.land frac 0xFFFEFFFFFFFFFFFF).
Definition join_minus (bias exp frac : Z) : Z :=
  Z.lor (u64 (Z.shiftl (Z.lor (u16 (0x8000 - exp)) 0x8000) 48)) (u64 (bias - frac)).

Lemma join_plus_parts b : in_u 64 b -> b < 2 ^ 63 -> join_plus (2 ^ 15 + f_exp b) (2 ^ 48 + f_frac b) = b.
Proof.
  intros Hb Hp. unfold join_plus.
  rewrite (land_marker 15) by (done || lia || apply f_exp_range || reflexivity).
  rewrite (land_marker 48) by (done || lia || apply f_frac_range || reflexivity).
  rewrite Z.lor_comm, lor_shiftl_add by (lia || apply f_frac_range).
  pose proof (float_join b Hb) as Hj. rewrite (proj2 (Z.leb_gt _ _)) in Hj by lia. lia.
Qed.

Lemma join_minus_parts bias b : in_u 64 b -> 2 ^ 63 <= b ->
  join_minus bias (2 ^ 15 - f_exp b) (bias - f_frac b) = b.
Proof.
  intros Hb Hp. unfold join_minus. pose proof (f_exp_range b) as He. pose proof (f_frac_range b) as Hf.
  assert (u16 (0x8000 - (2 ^ 15 - f_exp b)) = f_exp b) as -> by word_lia.
  change 0x8000 with (2 ^ 15). rewrite lor_marker by (done || lia).
  assert (u64 (bias - (bias - f_frac b)) = f_frac b) as -> by (rewrite Z.sub_sub_distr, Z.sub_diag; word_lia).
  rewrite (uwrap_id 64) by (rewrite Z.shiftl_mul_pow2 by lia; word_lia).
  rewrite Z.lor_comm, lor_shiftl_add by (lia || done).
  pose proof (float_join b Hb) as Hj. rewrite (proj2 (Z.leb_le _ _)) in Hj by lia. norm_pow; lia.
Qed.

Lemma reads_float64 b : in_u 64 b -> reads false false readFloat64 (writeFloat64 b) b.
Proof.
  intros Hb. rewrite writeFloat64_parts by done.
  pose proof (f_exp_range b) as He. pose proof (f_frac_range b) as Hf.
  destruct (Z.leb_spec (2 ^ 63) b).
  - apply (reads_bind _ _ _ _ _ _ _ _ (reads_bool false)).
    eapply reads_bind; [apply (reads_word 2); word_lia|].
    eapply reads_map; [apply (reads_word 8); word_lia|]. by apply (join_minus_parts (2 ^ 48)).
  - apply (reads_bind _ _ _ _ _ _ _ _ (reads_bool true)).
    eapply reads_bind; [apply (reads_word 2); word_lia|].
    eapply reads_map; [apply (reads_word 8); word_lia|]. by apply join_plus_parts.
Qed.

Lemma reads_float128 low b : in_u 64 low -> in_u 64 b ->
  reads false false readFloat128 (writeFloat128 low b) (low, b).
Proof.
  intros Hl Hb. rewrite writeFloat128_parts by done.
  pose proof (f_exp_range b) as He. pose proof (f_frac_range b) as Hf.
  destruct (Z.leb_spec (2 ^ 63) b).
  - apply (reads_bind _ _ _ _ _ _ _ _ (reads_bool false)).
    eapply reads_bind; [apply (reads_word 2); word_lia|].
    eapply reads_bind; [apply (reads_word 8); word_lia|].
    eapply reads_map; [apply (reads_word 8); word_lia|]. cbv iota beta. f_equal; [word_lia|].
    by apply (join_minus_parts (2 ^ 48 + 0xFE)).
  - apply (reads_bind _ _ _ _ _ _ _ _ (reads_bool true)).
    eapply reads_bind; [apply (reads_word 2); word_lia|].
    eapply reads_bind; [apply (reads_word 8); word_lia|].
    eapply reads_map; [apply (reads_word 8); word_lia|]. cbv iota beta. f_equal. by apply join_plus_parts.
Qed.

(** ** The loops of the encoder and the decoder by themselves *)

Fixpoint encode_list (l : list gvalue) : M encoder bytes :=
  match l with
  | [] => mret []
  | x :: l' => b1 ← encode x; b2 ← encode_list l'; mret (b1 ++ b2)
  end.

Fixpoint encode_map (l : list (gvalue * gvalue)) : M encoder bytes :=
  match l with
  | [] => mret []
  | (k, x) :: l' => b1 ← encode k; b2 ← encode x; b3 ← encode_map l'; mret (b1 ++ b2 ++ b3)
  end.

Fixpoint encode_fields (fs : list (StructField * gvalue)) : M encoder bytes :=
  match fs with
  | [] => mret []
  | (f, x) :: fs' =>
      let field (pre : bytes) :=
        b1 ← (if visible f then encode x else mret []);
        b2 ← encode_fields fs'; mret (pre ++ b1 ++ b2) in
      let skip (pre : bytes) := b2 ← encode_fields fs'; mret (pre ++ b2) in
      match eos f with
      | EosDash => skip []
      | EosArray => _ ← modify (set_eosArray true); field []
      | EosTag0 =>
          isnil ← lift (IsNil x);
          if (isnil : bool) then _ ← modify (set_trxIsID true); skip (writeUint8 0) else field (writeUint8 1)
      | EosTag1 => e ← get; if negb (trxIsID e) then skip [] else field []
      | EosVuint32 => _ ← modify (set_vuint32 true); field []
      | EosOptional =>
          isnil ← lift (IsNil x);
          if (isnil : bool) then skip (writeBool false) else field (writeBool true)
      | _ => field []
      end
  end.

Fixpoint decode_list (l : list gvalue) : M decoder (list gvalue) :=
  match l with
  | [] => mret []
  | x :: l' => y ← decode x; ys ← decode_list l'; mret (y :: ys)
  end.

Fixpoint decode_n (m : M decoder gvalue) (n : nat) : M decoder (list gvalue) :=
  match n with
  | O => mret []
  | S n' => x ← m; xs ← decode_n m n'; mret (x :: xs)
  end.

Fixpoint decode_map (mk mv : M decoder gvalue) (n : nat) (acc : list (gvalue * gvalue))
    : M decoder (list (gvalue * gvalue)) :=
  match n with
  | O => mret acc
  | S n' => k ← mk; x ← mv; decode_map mk mv n' (SetMapIndex k x acc)
  end.

Fixpoint decodeStruct (fs : list (StructField * gvalue)) : M decoder (list (StructField * gvalue)) :=
  match fs with
  | [] => mret []
  | (f, x) :: fs' =>
      let field :=
        y ← (if exported f && negb (String.eqb (fName f) "_") then decode x else mret x);
        ys ← decodeStruct fs'; mret ((f, y) :: ys) in
      let skip := ys ← decodeStruct fs'; mret ((f, x) :: ys) in
      match eos f with
      | EosDash | EosSVTag => skip
      | EosOptional => isPresent ← readByte_ignore; if isPresent =? 0 then skip else field
      | EosVuint32 => _ ← modify (dset_vuint32 true); field
      | EosArray => _ ← modify (dset_eosArray true); field
      | EosTrxID => b ← readByte_ignore; _ ← modify (dset_variant b); field
      | EosTag0 => d ← get; if negb (dvariant d =? 1) then skip else field
      | EosTag1 => d ← get; if negb (dvariant d =? 0) then skip else field
      | EosNone => field
      end
  end.

Lemma encode_GArray l : encode (GArray l) = (n ← array_header (len l); bs ← encode_list l; mret (n ++ bs)).
Proof. reflexivity. Qed.
Lemma encode_GSlice e l : encode (GSlice e l) = (n ← slice_header (len l); bs ← encode_list l; mret (n ++ bs)).
Proof. reflexivity. Qed.
Lemma encode_GMap k e l : encode (GMap k e l) = (n ← lift (writeUVarInt (len l)); bs ← encode_map l; mret (n ++ bs)).
Proof. reflexivity. Qed.
Lemma encode_GStruct n fs : encode (GStruct n fs) = encode_fields fs.
Proof. reflexivity. Qed.
Lemma decode_GArray l :
  decode (GArray l) =
    (d ← get; _ ← (if negb (deosArray d) then readUvarint else mret 0);
     _ ← modify (dset_eosArray false); ys ← decode_list l; mret (GArray ys)).
Proof. reflexivity. Qed.
Lemma decode_GSlice e old :
  decode (GSlice e old) =
    (l ← readUvarint;
     if l =? 0 then mret (GSlice e old)
     else if i64 l <? 0 then lift (Throw SliceOutOfRange)
     else xs ← decode_n (decode e) (Z.to_nat (i64 l)); mret (GSlice e xs)).
Proof. reflexivity. Qed.
Lemma decode_GMap k e old :
  decode (GMap k e old) =
    (l ← readUvarint; kvs ← decode_map (decode k) (decode e) (Z.to_nat (i64 l)) []; mret (GMap k e kvs)).
Proof. reflexivity. Qed.
Lemma decode_GStruct n fs : decode (GStruct n fs) = (ys ← decodeStruct fs; mret (GStruct n ys)).
Proof. reflexivity. Qed.

(** ** The round trip *)

(** The encoder [m] writes [bs] from the flags [ea] and [vu], which it consumes. *)
Definition writes (ea vu : bool) (m : M encoder bytes) (bs : bytes) : Prop :=
  forall t, m (mkEncoder ea vu t) = (mkEncoder false false t, Ok bs).

Definition carries (ea vu : bool) (v : gvalue) (bs : bytes) : Prop :=
  writes ea vu (encode v) bs /\ reads ea vu (decode (zero v)) bs v.

Definition round_trip_ok (v : gvalue) : Prop :=
  fits v ->
  (exists bs, carries false false v bs) /\
  (is_array v = true -> exists bs, carries true false v bs) /\
  (is_uint32 v = true -> exists bs, carries false true v bs).

Lemma writes_ret bs : writes false false (mret bs) bs.
Proof. by intros t. Qed.

Lemma writes_bind ea vu m k b1 b : writes ea vu m b1 -> writes false false (k b1) b -> writes ea vu (m ≫= k) b.
Proof. intros Hm Hk t. unfold mbind, M_bind. rewrite Hm. apply Hk. Qed.

Lemma writes_lift r bs : r = Ok bs -> writes false false (lift r) bs.
Proof. by intros -> t. Qed.

Lemma carries_pure v bs : encode v = mret bs -> reads false false (decode (zero v)) bs v -> carries false false v bs.
Proof. intros E ?. split; [|done]. rewrite E. apply writes_ret. Qed.

Lemma carries_integer k z : in_kind k z -> exists bs, carries false false (GInteger k z) bs.
Proof.
  intros Hz. unfold carries. cbn [zero]. destruct k; cbn [in_kind] in Hz; eexists.
  8: { split; [intros t; reflexivity|]. intros d post Hd.
       destruct (reads_word 4 z Hz d post Hd) as (d' & E & ?). exists d'. split; [|done].
       destruct Hd as (_ & _ & _ & _ & _ & Hv). cbn [decode decode_integer]. unfold mbind, M_bind, get in *.
       rewrite Hv. unfold readUint32, mbind, M_bind. unfold mret, M_ret in *. by rewrite E. }
  all: split; [by apply writes_ret|]; eapply reads_map; [|reflexivity].
  - rewrite <- be_bytes_1 by auto with word. apply (reads_signed 1 8); [done|lia|done].
  - apply (reads_signed 2 16); [done|lia|done].
  - apply (reads_signed 4 32); [done|lia|done].
  - unfold writeInt32. rewrite uwrap_id by done. eapply reads_map; [by apply (reads_word 4)|].
    apply swrap_id; [lia|]. word_lia.
  - apply (reads_signed 8 64); [done|lia|done].
  - by apply reads_byte.
  - by apply (reads_word 2).
  - rewrite uwrap_id by done. by apply (reads_word 4).
  - by apply (reads_word 8).
Qed.

(** A [uint32] under the tag [vuint32]. *)
Lemma carries_vuint32 z : in_u 32 z -> exists bs, carries false true (GInteger KUint32 z) bs.
Proof.
  intros Hz. destruct (writeUVarInt_small z) as [E Hu]; [word_lia|]. exists (PutUvarint z). split.
  - intros t. cbn [encode encode_integer]. unfold mbind, M_bind, get, modify, lift. simpl vuint32. cbv iota. by rewrite E.
  - intros d post Hd. destruct (reads_uvarint z Hu (dset_vuint32 false d) post) as (d' & Er & Hd' & Hp & Hdd).
    { unfold at_bytes in *. simpl. naive_solver. }
    exists d'. split; [|done]. destruct Hd as (_ & _ & _ & _ & _ & Hv).
    cbn [zero decode decode_integer]. unfold mbind, M_bind, get, modify. rewrite Hv.
    unfold readUvarint_ignore. rewrite Er. unfold mret, M_ret. by rewrite uwrap_id.
Qed.

Lemma round_trip_base v :
  match v with
  | GArray _ | GSlice _ _ | GMap _ _ _ | GPtr _ _ | GStruct _ _ => True | _ => round_trip_ok v end.
Proof.
  destruct v as [s|b|k z|bits|low high|low high|p|s| | | | | |]; try done; intros Hf; cbn [fits] in Hf.
  all: split; [|split; try (intros; discriminate)].
  - destruct (reads_byte_array s Hf) as (p & E & Hd). exists p. split; [by apply writes_lift|].
    by eapply reads_map.
  - eexists. apply carries_pure; [reflexivity|]. eapply reads_map; [apply reads_bool|done].
  - by apply carries_integer.
  - intros Hu. destruct k; try done. by apply carries_vuint32.
  - eexists. apply carries_pure; [reflexivity|]. eapply reads_map; [by apply reads_float64|done].
  - destruct Hf. eexists. apply carries_pure; [reflexivity|].
    rewrite <- (app_nil_r (writeFloat128 low high)).
    eapply reads_bind; [by apply reads_float128|apply reads_ret].
  - destruct Hf. eexists. apply carries_pure; [reflexivity|].
    eapply reads_bind; [by apply (reads_word 8)|]. eapply reads_map; [by apply (reads_word 8)|done].
  - destruct p as [c l], Hf as [Hc Hl]. cbn [Curve Content] in Hc, Hl. eexists.
    apply carries_pure; [reflexivity|]. cbn [zero decode]. unfold writePublicKey. cbn [Curve Content].
    eapply reads_map; [|reflexivity]. rewrite <- (app_nil_r (c :: l)).
    eapply reads_bind; [apply reads_raw; simpl; lia|].
    assert (NewPublicKeyFromData (c :: l) = Ok (mkPublicKey c l)) as ->; [|apply reads_ret].
    unfold NewPublicKeyFromData, len. cbn [length]. rewrite Hl. by destruct Hc as [-> | ->].
  - destruct s as [c l i], Hf as (Hc & Hl & Hi). cbn [sCurve sContent inner] in Hc, Hl, Hi. subst i.
    exists (c :: l). split.
    { apply writes_lift. unfold writeSignature, SigPack, len. cbn [sContent]. rewrite Hl. cbn [sContent].
      change (Z.of_nat 65 =? 0) with false. cbv iota. cbn [sContent]. by rewrite Hl. }
    cbn [zero decode]. eapply reads_map; [|reflexivity]. rewrite <- (app_nil_r (c :: l)).
    eapply reads_bind; [apply reads_raw; simpl; lia|].
    assert (NewSignatureFromData (c :: l) = Ok (mkSignature c l (Some c))) as ->; [|apply reads_ret].
    unfold NewSignatureFromData, len. cbn [length]. rewrite Hl. by destruct Hc as [-> | ->].
Qed.

Lemma carries_list l : Forall (fun x => exists bs, carries false false x bs) l ->
  exists bs, writes false false (encode_list l) bs /\ reads false false (decode_list (map zero l)) bs l.
Proof.
  induction 1 as [|x l (b1 & He & Hd) _ (b2 & He2 & Hd2)].
  - exists []. split; [apply writes_ret|apply reads_ret].
  - exists (b1 ++ b2). split; cbn [encode_list map decode_list].
    + eapply writes_bind; [done|]. eapply writes_bind; [done|apply writes_ret].
    + eapply reads_bind; [done|]. by eapply reads_map.
Qed.

(** Elements of one type: the reader of the element type runs once per element. *)
Lemma carries_same e l : Forall (fun x => zero x = e /\ exists bs, carries false false x bs) l ->
  exists bs, writes false false (encode_list l) bs /\ reads false false (decode_n (decode e) (length l)) bs l.
Proof.
  induction 1 as [|x l (<- & b1 & He & Hd) _ (b2 & He2 & Hd2)].
  - exists []. split; [apply writes_ret|apply reads_ret].
  - exists (b1 ++ b2). split; cbn [encode_list length decode_n].
    + eapply writes_bind; [done|]. eapply writes_bind; [done|apply writes_ret].
    + eapply reads_bind; [done|]. by eapply reads_map.
Qed.

Lemma key_eqb_spec a b : is_key a = true -> key_eqb a b = true <-> a = b.
Proof.
  destruct a, b; simpl; intros; try naive_solver; rewrite bool_decide_eq_true; naive_solver.
Qed.

Lemma SetMapIndex_fresh k x l :
  is_key k = true -> k ∉ map fst l -> SetMapIndex k x l = l ++ [(k, x)].
Proof.
  intros Hk. induction l as [|[k' x'] l IH]; [done|]. cbn [map fst SetMapIndex app]. intros Hn.
  rewrite not_elem_of_cons in Hn. destruct Hn as [Hne Hn].
  destruct (key_eqb k k') eqn:E; [by apply key_eqb_spec in E|]. by rewrite IH.
Qed.

Lemma carries_map k e l : forall acc,
  NoDup (map fst (acc ++ l)) ->
  Forall (fun a => zero a.1 = k /\ is_key a.1 = true /\ zero a.2 = e /\
    (exists bs, carries false false a.1 bs) /\ exists bs, carries false false a.2 bs) l ->
  exists bs, writes false false (encode_map l) bs /\
    reads false false (decode_map (decode k) (decode e) (length l) acc) bs (acc ++ l).
Proof.
  induction l as [|[a x] l IH]; intros acc Hnd Hall.
  - exists []. split; [apply writes_ret|]. rewrite app_nil_r. apply reads_ret.
  - apply Forall_cons in Hall as [(Hk & Hkey & He & (b1 & W1 & R1) & (b2 & W2 & R2)) Hall].
    simpl in Hk, Hkey, He, W1, R1, W2, R2. subst k e.
    assert (Ha : a ∉ map fst acc).
    { rewrite map_app in Hnd. apply NoDup_app in Hnd as (_ & Hnd & _). intros Hin.
      apply (Hnd a Hin). simpl. set_solver. }
    destruct (IH (acc ++ [(a, x)])) as (b3 & W3 & R3); [by rewrite <- app_assoc|done|].
    exists (b1 ++ b2 ++ b3). split; cbn [encode_map length decode_map].
    + eapply writes_bind; [done|]. eapply writes_bind; [done|]. eapply writes_bind; [done|apply writes_ret].
    + eapply reads_bind; [done|]. eapply reads_bind; [done|]. rewrite SetMapIndex_fresh by done.
      by rewrite <- app_assoc in R3.
Qed.

Lemma foldr_Forall {A} (P : A -> Prop) (Q : A -> Prop -> Prop) (l : list A) :
  (forall x R, Q x R <-> P x /\ R) -> foldr Q True l -> Forall P l.
Proof.
  intros HQ. induction l as [|x l IH]; simpl; [constructor|]. rewrite HQ. intros [??]. constructor; auto.
Qed.

Lemma Forall_mp {A} (P Q : A -> Prop) (l : list A) :
  Forall (fun x => P x -> Q x) l -> Forall P l -> Forall Q l.
Proof. induction 1; intros Hp; inversion Hp; constructor; auto. Qed.

Lemma small_len {A} (l : list A) : len l <= MAX_NUM_ARRAY_ELEMENT ->
  writeUVarInt (len l) = Ok (PutUvarint (len l)) /\ in_u 64 (len l) /\ i64 (len l) = len l /\
  Z.to_nat (len l) = length l.
Proof.
  unfold MAX_NUM_ARRAY_ELEMENT. intros Hl. assert (0 <= len l) by (unfold len; lia).
  destruct (writeUVarInt_small (len l)) as [E Hu]; [norm_pow; lia|].
  split_and!; [done..| |unfold len; lia]. apply swrap_id; [lia|]. unfold in_s. norm_pow. lia.
Qed.

Lemma round_trip_array l : Forall round_trip_ok l -> round_trip_ok (GArray l).
Proof.
  intros IH [Hl Hf]. destruct (small_len l Hl) as (E & Hu & _).
  destruct (carries_list l) as (bs & W & R).
  { apply (foldr_Forall fits) in Hf; [|done].
    eapply Forall_mp; [|exact Hf]. eapply Forall_impl; [exact IH|]. intros x Hx Hfx. apply (Hx Hfx). }
  assert (Hmax : (len l <=? MAX_NUM_ARRAY_ELEMENT) = true) by lia.
  split; [|split; [intros _|done]].
  - exists (PutUvarint (len l) ++ bs). split.
    + intros t. rewrite encode_GArray. unfold array_header, assertM, mbind, M_bind, lift, get, modify.
      rewrite Hmax. simpl. rewrite E. unfold set_eosArray. simpl. by rewrite W.
    + intros d post Hd. cbn [zero]. rewrite decode_GArray. unfold mbind, M_bind, get, modify.
      rewrite <- app_assoc in Hd.
      destruct (reads_uvarint _ Hu d _ Hd) as (d1 & E1 & Hd1 & Hp1 & Ht1).
      destruct Hd as (_ & _ & _ & _ & Ha & _). rewrite Ha. cbn [negb]. rewrite E1.
      destruct (R (dset_eosArray false d1) post) as (d2 & E2 & Hd2 & Hp2 & Ht2).
      { unfold at_bytes in *. simpl. naive_solver. }
      rewrite E2. exists d2. rewrite len_app. simpl in Hp2, Ht2. split_and!; [done..|lia|congruence].
  - exists bs. split.
    + intros t. rewrite encode_GArray. unfold array_header, assertM, mbind, M_bind, lift, get, modify.
      rewrite Hmax. simpl. unfold set_eosArray. simpl. by rewrite W.
    + intros d post Hd. cbn [zero]. rewrite decode_GArray. unfold mbind, M_bind, get, modify.
      destruct (R (dset_eosArray false d) post) as (d2 & E2 & Hd2 & Hp2 & Ht2).
      { unfold at_bytes in *. simpl. naive_solver. }
      destruct Hd as (_ & _ & _ & _ & Ha & _). rewrite Ha. cbn [negb].
      unfold mret, M_ret. rewrite E2. exists d2. split_and!; done.
Qed.

Lemma round_trip_slice e l : Forall round_trip_ok l -> round_trip_ok (GSlice e l).
Proof.
  intros IH [Hl Hf]. destruct (small_len l Hl) as (E & Hu & Hi & Hn).
  destruct (carries_same e l) as (bs & W & R).
  { apply (foldr_Forall (fun x => zero x = e /\ fits x)) in Hf; [|done]. eapply Forall_mp; [|exact Hf].
    eapply Forall_impl; [exact IH|]. intros x Hx [Hz Hfx]. split; [done|apply (Hx Hfx)]. }
  assert (Hmax : (len l <=? MAX_NUM_ARRAY_ELEMENT) = true) by lia.
  split; [|done]. exists (PutUvarint (len l) ++ bs). split.
  - intros t. rewrite encode_GSlice. unfold slice_header, assertM, mbind, M_bind, lift.
    rewrite Hmax. simpl. rewrite E. by rewrite W.
  - cbn [zero]. rewrite decode_GSlice. eapply reads_bind; [by apply reads_uvarint|]. cbv beta.
    rewrite Hi, Hn, (proj2 (Z.ltb_ge _ _)) by (unfold len; lia).
    destruct (Z.eqb_spec (len l) 0) as [E0|_]; [|by eapply reads_map].
    destruct l; [|unfold len in E0; simpl in E0; lia].
    assert (bs = []) as ->; [|apply reads_ret]. specialize (W false). cbn in W. by injection W.
Qed.

Lemma round_trip_map k e l : Forall (fun a => round_trip_ok a.1 /\ round_trip_ok a.2) l -> round_trip_ok (GMap k e l).
Proof.
  intros IH (Hl & Hnd & Hf). destruct (small_len l Hl) as (E & Hu & Hi & Hn).
  destruct (carries_map k e l []) as (bs & W & R); [done| |].
  { apply (foldr_Forall (fun a => zero a.1 = k /\ is_key a.1 = true /\ zero a.2 = e /\ fits a.1 /\ fits a.2)) in Hf;
      [|by intros [] ?]. eapply Forall_mp; [|exact Hf].
    eapply Forall_impl; [exact IH|]. intros x [Hx1 Hx2] (Hz & Hk & He & Hf1 & Hf2).
    split_and!; [done..|apply (Hx1 Hf1)|apply (Hx2 Hf2)]. }
  split; [|done]. exists (PutUvarint (len l) ++ bs). split.
  - rewrite encode_GMap. eapply writes_bind; [by apply writes_lift|].
    eapply writes_bind; [done|apply writes_ret].
  - cbn [zero]. rewrite decode_GMap. eapply reads_bind; [by apply reads_uvarint|]. cbv beta.
    rewrite Hi, Hn. by eapply reads_map.
Qed.

Lemma round_trip_ptr e x : round_trip_ok x -> round_trip_ok (GPtr e (Some x)).
Proof.
  intros IH (<- & Hp & Hf). destruct (IH Hf) as [(bs & W & R) _]. split; [|done]. exists bs.
  assert (encode_pointee encode x = encode x) as E by (by destruct x).
  assert (decode_pointee decode (zero x) = decode (zero x)) as D by (by destruct x).
  split; cbn [zero encode decode]; [by rewrite E|]. rewrite D. by eapply reads_map.
Qed.

(** A field both sides process, the bytes [pre] announcing it. *)
Lemma field_carried ea vu f x fs pre b1 b2 :
  visible f = true -> carries ea vu x b1 ->
  writes false false (encode_fields fs) b2 ->
  reads false false (decodeStruct (map (fun '(f, x) => (f, zero x)) fs)) b2 fs ->
  writes ea vu (b1 ← (if visible f then encode x else mret []); b2 ← encode_fields fs; mret (pre ++ b1 ++ b2))
    (pre ++ b1 ++ b2) /\
  reads ea vu (y ← (if exported f && negb (String.eqb (fName f) "_") then decode (zero x) else mret (zero x));
    ys ← decodeStruct (map (fun '(f, x) => (f, zero x)) fs); mret ((f, y) :: ys)) (b1 ++ b2) ((f, x) :: fs).
Proof.
  intros Hv [W R] W2 R2. rewrite Hv. unfold visible in Hv. rewrite andb_comm, Hv. split.
  - eapply writes_bind; [done|]. eapply writes_bind; [done|apply writes_ret].
  - eapply reads_bind; [done|]. by eapply reads_map.
Qed.

Lemma round_trip_fields fs :
  Forall (fun f => round_trip_ok f.2) fs ->
  foldr (fun '(f, x) P => fits_field fits f x /\ P) True fs ->
  exists bs, writes false false (encode_fields fs) bs /\
    reads false false (decodeStruct (map (fun '(f, x) => (f, zero x)) fs)) bs fs.
Proof.
  induction fs as [|[f x] fs IH]; intros Hall Hf.
  - exists []. split; [apply writes_ret|apply reads_ret].
  - apply Forall_cons in Hall as [Hx Hall]. destruct Hf as [Hf Hrest]. simpl in Hx.
    destruct (IH Hall Hrest) as (b2 & W2 & R2). clear IH. unfold fits_field in Hf.
    cbn [encode_fields map decodeStruct]. destruct (eos f); try done.
    + destruct (visible f) eqn:Hv.
      * destruct (Hx Hf) as [(b1 & C) _].
        destruct (field_carried _ _ f x fs [] b1 b2 Hv C W2 R2) as [W R]. rewrite Hv in W. by exists (b1 ++ b2).
      * exists b2. unfold visible in Hv. rewrite andb_comm, Hv. split.
        -- eapply writes_bind; [apply writes_ret|]. by eapply writes_bind; [|apply writes_ret].
        -- change b2 with ([] ++ b2). eapply reads_bind; [apply reads_ret|]. rewrite <- Hf. by eapply reads_map.
    + exists b2. split; [eapply writes_bind; [done|apply writes_ret]|]. rewrite <- Hf. by eapply reads_map.
    + destruct Hf as (Hv & Hf & Ha). destruct (Hx Hf) as (_ & C & _). destruct (C Ha) as (b1 & C1).
      destruct (field_carried _ _ f x fs [] b1 b2 Hv C1 W2 R2) as [W R]. exists (b1 ++ b2). split.
      * intros t. apply W.
      * eapply reads_modify; [|exact R]. unfold at_bytes. simpl. naive_solver.
    + destruct Hf as (Hv & Hf & Ha). destruct (Hx Hf) as (_ & _ & C). destruct (C Ha) as (b1 & C1).
      destruct (field_carried _ _ f x fs [] b1 b2 Hv C1 W2 R2) as [W R]. exists (b1 ++ b2). split.
      * intros t. apply W.
      * eapply reads_modify; [|exact R]. unfold at_bytes. simpl. naive_solver.
    + destruct x as [| | | | | | | | | | |e [y|]| |]; try done.
      * destruct Hf as (Hv & Hf). destruct (Hx Hf) as [(b1 & C) _].
        destruct (field_carried _ _ f _ fs [1] b1 b2 Hv C W2 R2) as [W R]. exists ([1] ++ b1 ++ b2). split.
        -- intros t. apply W.
        -- eapply reads_bind; [by apply reads_byte_ignore|]. exact R.
      * exists ([0] ++ b2). split.
        -- intros t. unfold mbind, M_bind, lift. simpl. by rewrite W2.
        -- eapply reads_bind; [by apply reads_byte_ignore|]. by eapply reads_map.
Qed.

Lemma round_trip_any v : round_trip_ok v.
Proof.
  revert v. apply gvalue_rect'.
  - apply round_trip_base.
  - apply round_trip_array.
  - apply round_trip_slice.
  - apply round_trip_map.
  - by intros e [].
  - apply round_trip_ptr.
  - intros n fs Hall Hf. destruct (round_trip_fields fs Hall Hf) as (bs & W & R).
    split; [|done]. exists bs. split; [exact W|]. cbn [zero]. rewrite decode_GStruct. by eapply reads_map.
Qed.

(** ** Properties *)

(** C38. State objects round trip: a value within the ranges of the format is encoded
    without an error, whatever [trxIsID] holds, and a decoder that fills a zero variable
    of the same type from these bytes, wherever they are in a buffer below 2^62
    bytes, returns the value, consumes exactly them and leaves the tag flags cleared. *)
Theorem db_round_trip v :
  fits v ->
  exists bs, (forall trxIsID, EncodeToBytes v trxIsID = Ok bs) /\
    forall d post, at_bytes d false false (bs ++ post) ->
      exists d', decode (zero v) d = (d', Ok v) /\ dpos d' = dpos d + len bs /\
        at_bytes d' false false post.
Proof.
  intros Hf. destruct (round_trip_any v Hf) as [(bs & W & R) _]. exists bs. split.
  - intros t. unfold EncodeToBytes, newEncoder. by rewrite W.
  - intros d post Hd. destruct (R d post Hd) as (d' & E & ? & ? & ?). by exists d'.
Qed.

(** An account with a name, an optional list, an array without a length, a compact
    number, a map and a negative float. *)
Definition example_object : gvalue :=
  GStruct "ExampleObject"
    [(mkField "ID" true EosNone "id,increment", GInteger KInt64 7);
     (mkField "Name" true EosNone "byName,orderedUnique", GInteger KUint64 6138663577826885632);
     (mkField "Keys" true EosOptional "",
        GPtr (GSlice (GString []) []) (Some (GSlice (GString []) [GString [104; 105]])));
     (mkField "Hash" true EosArray "", GArray [GInteger KUint64 1; GInteger KUint64 2]);
     (mkField "Weight" true EosVuint32 "", GInteger KUint32 300);
     (mkField "Counts" true EosNone "",
        GMap (GString []) (GInteger KInt64 0) [(GString [97], GInteger KInt64 (-1)); (GString [98], GInteger KInt64 2)]);
     (mkField "Rate" true EosNone "", GFloat64 0xC004000000000001);
     (mkField "cache" false EosNone "", GBool false)].

Lemma db_round_trip_witness :
  exists bs, (forall trxIsID, EncodeToBytes example_object trxIsID = Ok bs) /\
    forall d post, at_bytes d false false (bs ++ post) ->
      exists d', decode (zero example_object) d = (d', Ok example_object) /\ dpos d' = dpos d + len bs /\
        at_bytes d' false false post.
Proof.
  apply (db_round_trip example_object). simpl. unfold fits_field. simpl.
  unfold len, MAX_NUM_ARRAY_ELEMENT, MAX_SIZE_OF_BYTE_ARRAYS, in_u, in_s. norm_pow. simpl.
  split_and!; try done; try lia. repeat constructor; set_solver.
Defined.

(** The number an index field stands for: the unsigned kinds by their value, the floats
    in the total order of their bit patterns, negative ones first. *)
Definition rank (v : gvalue) : Z :=
  match v with
  | GBool b => Z.b2z b
  | GInteger _ z => z
  | GUint128 low high => 2 ^ 64 * high + low
  | GFloat64 b => if 2 ^ 63 <=? b then 2 ^ 63 - 1 - b else b
  | GFloat128 low high => let b := 2 ^ 64 * high + low in if 2 ^ 127 <=? b then 2 ^ 127 - 1 - b else b
  | _ => 0
  end.

Definition unsigned (k : ikind) : bool :=
  match k with KUint8 | KUint16 | KUint32 | KUint64 => true | _ => false end.

Definition comparable (v w : gvalue) : Prop :=
  match v, w with
  | GBool _, GBool _ | GUint128 _ _, GUint128 _ _ | GFloat64 _, GFloat64 _ | GFloat128 _ _, GFloat128 _ _ => True
  | GInteger k _, GInteger k' _ => k = k' /\ unsigned k = true
  | _, _ => False
  end.

(** A word in front of two strings: it decides, unless it is the same. *)
Lemma be_bytes_lex n x y a b :
  in_u (8 * Z.of_nat n) x -> in_u (8 * Z.of_nat n) y ->
  bytes_Compare (be_bytes n x ++ a) (be_bytes n y ++ b) = if x =? y then bytes_Compare a b else Z.sgn (x - y).
Proof.
  intros. rewrite bytes_Compare_app by (by rewrite !length_be_bytes). rewrite be_bytes_compare by done.
  destruct (Z.eqb_spec x y) as [->|]; [by rewrite Z.sub_diag|].
  destruct (Z.eqb_spec (Z.sgn (x - y)) 0); lia.
Qed.

Lemma sgn_eq a b : (0 < a <-> 0 < b) -> (a < 0 <-> b < 0) -> Z.sgn a = Z.sgn b.
Proof. destruct (Z.sgn_spec a), (Z.sgn_spec b); lia. Qed.

Lemma float64_order a b : in_u 64 a -> in_u 64 b ->
  bytes_Compare (writeFloat64 a) (writeFloat64 b) = Z.sgn (rank (GFloat64 a) - rank (GFloat64 b)).
Proof.
  intros Ha Hb. rewrite !writeFloat64_parts by done. cbn [rank].
  pose proof (float_join a Ha). pose proof (float_join b Hb).
  pose proof (f_exp_range a). pose proof (f_frac_range a). pose proof (f_exp_range b). pose proof (f_frac_range b).
  destruct (Z.leb_spec (2 ^ 63) a), (Z.leb_spec (2 ^ 63) b); cbn [app bytes_Compare Z.ltb Z.compare Pos.compare Pos.compare_cont].
  2: symmetry; apply Z.sgn_neg; unfold in_u in *; lia.
  2: symmetry; apply Z.sgn_pos; unfold in_u in *; lia.
  all: rewrite be_bytes_lex by word_lia; rewrite be_bytes_compare by word_lia;
    match goal with |- context [?x =? ?y] => destruct (Z.eqb_spec x y) end;
    apply sgn_eq; unfold in_u in *; norm_pow; lia.
Qed.

Lemma float128_order al ah bl bh : in_u 64 al -> in_u 64 ah -> in_u 64 bl -> in_u 64 bh ->
  bytes_Compare (writeFloat128 al ah) (writeFloat128 bl bh) = Z.sgn (rank (GFloat128 al ah) - rank (GFloat128 bl bh)).
Proof.
  intros Hal Ha Hbl Hb. rewrite !writeFloat128_parts by done. cbn [rank].
  pose proof (float_join ah Ha). pose proof (float_join bh Hb).
  pose proof (f_exp_range ah). pose proof (f_frac_range ah). pose proof (f_exp_range bh). pose proof (f_frac_range bh).
  assert (Hs : forall l h, in_u 64 l -> in_u 64 h -> (2 ^ 127 <=? 2 ^ 64 * h + l) = (2 ^ 63 <=? h)).
  { intros l h ? ?. destruct (Z.leb_spec (2 ^ 63) h), (Z.leb_spec (2 ^ 127) (2 ^ 64 * h + l)); try done;
      exfalso; unfold in_u in *; norm_pow; lia. }
  rewrite !Hs by done.
  destruct (Z.leb_spec (2 ^ 63) ah), (Z.leb_spec (2 ^ 63) bh); cbn [app bytes_Compare Z.ltb Z.compare Pos.compare Pos.compare_cont].
  2: symmetry; apply Z.sgn_neg; unfold in_u in *; norm_pow; lia.
  2: symmetry; apply Z.sgn_pos; unfold in_u in *; norm_pow; lia.
  all: rewrite !be_bytes_lex by word_lia; rewrite be_bytes_compare by word_lia;
    repeat match goal with |- context [?x =? ?y] => destruct (Z.eqb_spec x y) end;
    apply sgn_eq; unfold in_u in *; norm_pow; lia.
Qed.

(** Index order: two index fields of the same orderable kind (a boolean, an unsigned
    integer, a 128-bit integer, a float of either width) are encoded to byte strings
    of the same length whose byte order is the order of the numbers, so that the
    store, which is sorted by bytes, is sorted by value. *)
Theorem db_key_order v w :
  comparable v w -> fits v -> fits w ->
  exists bv bw, EncodeToBytes v false = Ok bv /\ EncodeToBytes w false = Ok bw /\
    length bv = length bw /\ bytes_Compare bv bw = Z.sgn (rank v - rank w).
Proof.
  intros Hc Hv Hw.
  destruct v as [|b|k z|a|low high|low high| | | | | | | |], w as [|b'|k' z'|a'|low' high'|low' high'| | | | | | | |];
    try done; cbn [fits] in Hv, Hw.
  - eexists _, _. split_and!; [reflexivity..|]. by destruct b, b'.
  - destruct Hc as [<- Hk]. destruct k; try done; cbn [in_kind] in *;
      (eexists _, _; split_and!; [reflexivity..|by rewrite ?length_be_bytes|]).
    + unfold writeUint8. rewrite <- (be_bytes_1 z), <- (be_bytes_1 z') by done. by apply be_bytes_compare.
    + by apply be_bytes_compare.
    + by apply be_bytes_compare.
    + by apply be_bytes_compare.
  - eexists _, _. split_and!; [reflexivity..| |by apply float64_order].
    rewrite !writeFloat64_parts by done. repeat case_match; by rewrite !length_app, !length_be_bytes.
  - destruct Hv, Hw. eexists _, _. split_and!; [reflexivity..| |by apply float128_order].
    rewrite !writeFloat128_parts by done. repeat case_match; by rewrite !length_app, !length_be_bytes.
  - destruct Hv, Hw. eexists _, _. split_and!; [reflexivity..| |].
    + unfold writeUint128, writeUint64. by rewrite !length_app, !length_be_bytes.
    + unfold writeUint128, writeUint64. rewrite be_bytes_lex, be_bytes_compare by done. cbn [rank].
      destruct (Z.eqb_spec high high'); apply sgn_eq; unfold in_u in *; norm_pow; lia.
Qed.

(** Decoding into a variable that is not fresh does not replace a slice by an empty
    one: the length zero leaves the old elements in place. *)
Theorem decode_keeps_old_slice e old :
  exists bs, EncodeToBytes (GSlice e []) false = Ok bs /\ DecodeBytes bs (GSlice e old) = Ok (GSlice e old).
Proof. exists [0]. done. Qed.
