(* ===== verification/DbSchema.v ===== *)
(** * DbSchema: what the struct tags of an object say, and the keys made from them

    [database/extract.go] and [database/keys.go].  The tag [multiIndex] of a struct's
    fields declares its indices; for every stored object the database writes one entry
    with the object's bytes under its id and one entry per index that leads to the id.

    The source keeps [reflect.Value] pointers into the object, and reads them after the
    id has been assigned.  Such a pointer is a [path] here: the positions of the nested
    fields that lead to the value. *)

From Stdlib Require Import Ascii.
From S2P Require Import Prelude Bytes Rlp Ecc DbPack.

(** ** Strings *)

Fixpoint string_bytes (s : string) : bytes :=
  match s with
  | EmptyString => []
  | String c s' => Z.of_N (Ascii.N_of_ascii c) :: string_bytes s'
  end.

(** [strings.Split] for a separator of one character *)
Fixpoint Split (s : string) (sep : Ascii.ascii) : list string :=
  match s with
  | EmptyString => [EmptyString]
  | String c s' =>
      if Ascii.eqb c sep then EmptyString :: Split s' sep
      else match Split s' sep with
           | w :: ws => String c w :: ws
           | [] => [String c EmptyString]
           end
  end.

Definition tagID : string := "id".
Definition tagUniqueIdx : string := "orderedUnique".
Definition tagIncrement : string := "increment".
Definition tagLess : string := "less".
Definition tagGreater : string := "greater".
Definition tagInline : string := "inline".

(** ** Reflection on an object *)

Abbreviation path := (list nat).

(** [s.Elem()] of a pointer; what is not a pointer is itself. *)
Definition Elem (v : gvalue) : option gvalue :=
  match v with GPtr _ p => p | _ => Some v end.

Fixpoint read_path (v : gvalue) (p : path) : result gvalue :=
  match p with
  | [] => Ok v
  | i :: p' =>
      match Elem v with
      | Some (GStruct _ fs) =>
          match fs !! i with Some (_, x) => read_path x p' | None => Throw NilDereference end
      | _ => Throw NilDereference
      end
  end.

Fixpoint write_path (v : gvalue) (p : path) (x : gvalue) : gvalue :=
  match p with
  | [] => x
  | i :: p' =>
      let in_struct v :=
        match v with
        | GStruct n fs =>
            match fs !! i with
            | Some (f, y) => GStruct n (<[i := (f, write_path y p' x)]> fs)
            | None => v
            end
        | _ => v
        end in
      match v with
      | GPtr e (Some y) => GPtr e (Some (in_struct y))
      | _ => in_struct v
      end
  end.

(** ** The configuration of a struct *)

Record fieldInfo : Type := mkFieldInfo {
  unique : bool; greater : bool; typeName : string; fieldName : list string; fieldValue : list path }.

(** [Fields] is a Go map; it is kept as the list of its entries in the order of their
    insertion, which stands for the order a [range] visits them in. *)
Record structInfo : Type := mkStructInfo {
  Name : string; rId : option path; Fields : list (string * fieldInfo); id_ : Z }.

Definition set_Fields (fs : list (string * fieldInfo)) (m : structInfo) : structInfo :=
  mkStructInfo (Name m) (rId m) fs (id_ m).
Definition set_rId (p : path) (m : structInfo) : structInfo :=
  mkStructInfo (Name m) (Some p) (Fields m) (id_ m).
Definition set_id (z : Z) (m : structInfo) : structInfo :=
  mkStructInfo (Name m) (rId m) (Fields m) z.

(** [m.Fields[tag]] *)
Fixpoint lookup_field (tag : string) (fs : list (string * fieldInfo)) : option fieldInfo :=
  match fs with
  | [] => None
  | (t, f) :: fs' => if String.eqb t tag then Some f else lookup_field tag fs'
  end.

Fixpoint update_field (tag : string) (g : fieldInfo -> fieldInfo) (fs : list (string * fieldInfo)) :=
  match fs with
  | [] => []
  | (t, f) :: fs' => if String.eqb t tag then (t, g f) :: fs' else (t, f) :: update_field tag g fs'
  end.

(** [f] carries the sort order that was read from the tag. *)
Definition addFieldInfo (tag fName : string) (value : path) (f : bool) (m : structInfo) : structInfo :=
  match lookup_field tag (Fields m) with
  | Some _ =>
      set_Fields (update_field tag (fun v =>
        mkFieldInfo (unique v) (greater v) (typeName v) (fieldName v ++ [fName]) (fieldValue v ++ [value]))
        (Fields m)) m
  | None => set_Fields (Fields m ++ [(tag, mkFieldInfo false f (Name m) [fName] [value])]) m
  end.

Fixpoint extractIdTag (tags : list string) (value : path) (m : structInfo) : result structInfo :=
  match tags with
  | [] => Ok m
  | subTag :: tags' =>
      if String.eqb subTag tagGreater || String.eqb subTag tagLess then Throw ErrIdNoSort
      else if String.eqb subTag tagIncrement then extractIdTag tags' value m
      else extractIdTag tags' value (addFieldInfo subTag tagID value false (set_rId value m))
  end.

Definition extractUniqueTag (fName : string) (tags : list string) (value : path) (m : structInfo) : result structInfo :=
  match tags !! 1%nat with
  | Some sor =>
      if negb (String.eqb sor tagGreater) && negb (String.eqb sor tagLess) then Throw ErrTagInvalid
      else Ok (addFieldInfo fName fName value (String.eqb sor tagGreater) m)
  | None => Ok (addFieldInfo fName fName value false m)
  end.

Definition extractOtherTag (tagPre fName : string) (tags : list string) (value : path) (m : structInfo) : result structInfo :=
  match tags !! 1%nat with
  | None => Throw ErrTagInvalid
  | Some tagIdx =>
      let add (g : bool) :=
        if negb (String.eqb tagIdx tagUniqueIdx) then Throw ErrTagInvalid
        else Ok (addFieldInfo tagPre fName value g m) in
      match tags !! 2%nat with
      | Some sor =>
          if negb (String.eqb sor tagGreater) && negb (String.eqb sor tagLess) then Throw ErrTagInvalid
          else add (String.eqb sor tagGreater)
      | None => add false
      end
  end.

(** [inline] is the recursive call for the fields of a nested struct. *)
Definition splitSubTag (fName : string) (value : path) (inline : structInfo -> result structInfo)
    (tag : string) (m : structInfo) : result structInfo :=
  let tags := Split tag ","%char in
  match tags with
  | [] => Throw IndexOutOfRange
  | tagPre :: _ =>
      if String.eqb tagPre tagID then extractIdTag tags value m
      else if String.eqb tagPre tagUniqueIdx then extractUniqueTag fName tags value m
      else if String.eqb tagPre tagInline then inline m
      else extractOtherTag tagPre fName tags value m
  end.

Fixpoint sub_tags (fName : string) (value : path) (inline : structInfo -> result structInfo)
    (tags : list string) (m : structInfo) : result structInfo :=
  match tags with
  | [] => Ok m
  | tag :: tags' => splitSubTag fName value inline tag m ≫= sub_tags fName value inline tags'
  end.

Definition extractObjectFieldTag (field : StructField) (value : path)
    (inline : structInfo -> result structInfo) (m : structInfo) : result structInfo :=
  if String.eqb (multiIndex field) "" then Ok m
  else sub_tags (fName field) value inline (Split (multiIndex field) ":"%char) m.

(** The end of [extractObjectTagInfo]: tags of one field are unique. *)
Definition mark_unique (m : structInfo) : structInfo :=
  mkStructInfo (Name m) (rId m)
    (map (fun '(t, v) =>
       (t, if Nat.eqb (length (fieldValue v)) 1
           then mkFieldInfo true (greater v) (typeName v) (fieldName v) (fieldValue v) else v)) (Fields m)) 0.

(** [at_] is the path of the struct itself. *)
Fixpoint extract_struct (s : gvalue) (at_ : path) (m : structInfo) {struct s} : result structInfo :=
  let fields :=
    fix fields (fs : list (StructField * gvalue)) (i : nat) (m : structInfo) : result structInfo :=
      match fs with
      | [] => Ok m
      | (field, x) :: fs' =>
          (if negb (exported field) then Ok m
           else extractObjectFieldTag field (at_ ++ [i]) (extract_struct x (at_ ++ [i])) m)
          ≫= fields fs' (S i)
      end in
  let struct (name : string) (fs : list (StructField * gvalue)) :=
    let m := if String.eqb (Name m) "" then mkStructInfo name (rId m) (Fields m) (id_ m) else m in
    fields fs O m ≫= fun m => Ok (mark_unique m) in
  match s with
  | GStruct name fs => struct name fs
  | GPtr _ (Some (GStruct name fs)) => struct name fs
  | _ => Throw ErrBadType
  end.

Definition extractObjectTagInfo (s : gvalue) : result structInfo :=
  extract_struct s [] (mkStructInfo "" None [] 0).

Definition parseObjectToCfg (in_ : gvalue) : result structInfo :=
  match in_ with
  | GPtr _ (Some (GStruct _ _)) =>
      extractObjectTagInfo in_ ≫= fun cfg =>
      match lookup_field tagID (Fields cfg) with Some _ => Ok cfg | None => Throw ErrNoID end
  | _ => Throw ErrStructPtrNeeded
  end.

(** ** Keys *)

Definition getFieldInfo (fieldName : string) (value : gvalue) : result fieldInfo :=
  match Elem value with
  | Some (GStruct _ _ as ref) =>
      extractObjectTagInfo ref ≫= fun cfg =>
      match lookup_field fieldName (Fields cfg) with Some f => Ok f | None => Throw ErrNotFound end
  | _ => Throw ErrBadType
  end.

Definition underscore : Z := 95.

Definition splicingString (k v : bytes) : bytes := k ++ [underscore; underscore] ++ v.

(** The last byte is incremented modulo 256; an empty key panics. *)
Definition keyEnd (key : bytes) : result bytes :=
  match last key with
  | None => Throw IndexOutOfRange
  | Some b => Ok (take (length key - 1) key ++ [u8 (b + 1)])
  end.

(** The objects of the chain state hold no variant tag, so that the package variable
    [trxIsID] does not matter to their encoding ([db_round_trip]). *)
Definition Marshal (v : gvalue) : result bytes := EncodeToBytes v false.

Fixpoint field_values (obj : gvalue) (ps : list path) : result bytes :=
  match ps with
  | [] => Ok []
  | p :: ps' =>
      read_path obj p ≫= fun v =>
      Marshal v ≫= fun value =>
      field_values obj ps' ≫= fun rest =>
      Ok ([underscore; underscore] ++ value ++ rest)
  end.

(** [skip] is the number of trailing fields to leave out. *)
Definition fieldValueToByte (obj : gvalue) (info : fieldInfo) (skip : nat) : result bytes :=
  field_values obj (take (length (fieldValue info) - skip) (fieldValue info)).

Record kv : Type := mkKv { key : bytes; value : bytes }.
Record dbKeyValue : Type := mkDbKeyValue {
  idk : kv; index : list kv; kvTypeName : bytes; kvId : Z }.

#[global] Instance kv_eq_dec : EqDecision kv.
Proof. solve_decision. Defined.
#[global] Instance dbKeyValue_eq_dec : EqDecision dbKeyValue.
Proof. solve_decision. Defined.

(** [&dbKeyValue{}] *)
Definition emptyKV : dbKeyValue := mkDbKeyValue (mkKv [] []) [] [] 0.

Definition set_kvId (z : Z) (k : dbKeyValue) : dbKeyValue :=
  mkDbKeyValue (idk k) (index k) (kvTypeName k) z.

Definition index_key (obj : gvalue) (name : string) (objId : bytes) (tag : string) (fieldCfg : fieldInfo) : result bytes :=
  fieldValueToByte obj fieldCfg 0 ≫= fun suffix =>
  Ok (string_bytes name ++ [underscore; underscore] ++ string_bytes tag ++ suffix
      ++ (if negb (unique fieldCfg) && Nat.eqb (length (fieldValue fieldCfg)) 1 then objId else [])
      ++ [underscore]).

(** The entries written before an error stay in [dbKV]. *)
Fixpoint cfgToKV (obj : gvalue) (name : string) (objId : bytes) (fs : list (string * fieldInfo)) : M dbKeyValue unit :=
  match fs with
  | [] => mret tt
  | (tag, fieldCfg) :: fs' =>
      key ← lift (index_key obj name objId tag fieldCfg);
      _ ← modify (fun d => mkDbKeyValue (idk d) (index d ++ [mkKv key objId]) (kvTypeName d) (kvId d));
      cfgToKV obj name objId fs'
  end.

(** [structKV(in, dbKV, cfg)], where [cfg] points into [obj]: the entries of the object
    and the id, which is also stored in [cfg]. *)
Definition structKV (in_ obj : gvalue) (cfg : structInfo) : dbKeyValue * Z * result unit :=
  let '(objValue, rv) :=
    (Marshal in_, match rId cfg with Some p => read_path obj p | None => Throw NilDereference end) in
  match objValue with
  | Throw e => (emptyKV, id_ cfg, Throw e)
  | Ok objValue =>
      match rv ≫= Marshal with
      | Throw e => (emptyKV, id_ cfg, Throw e)
      | Ok objId =>
          match DecodeBytes objId (GInteger KInt64 (id_ cfg)) with
          | Ok (GInteger _ id) =>
              let dbKV := mkDbKeyValue (mkKv (splicingString (string_bytes (Name cfg)) objId) objValue) []
                            (string_bytes (Name cfg)) 0 in
              let '(dbKV, r) := cfgToKV obj (Name cfg) objId (Fields cfg) dbKV in
              (dbKV, id, r)
          | Ok _ => (emptyKV, id_ cfg, Throw ErrBadType)
          | Throw e => (emptyKV, 0, Throw e)
          end
      end
  end.
