(* ===== verification/Database.v ===== *)
(** * Database: the state database and its undo sessions

    [database/database.go], [undo_state.go], [session.go] and [deque.go].  Every
    object of the chain state lives in a key-value store; while an undo session is
    open, each change is recorded in the container on top of a stack, so that the
    session can be undone, merged into the one below (squashed) or committed.

    The store is LevelDB, a third-party library: it is the class [LevelDB], with what
    its documentation promises in [LevelDBLaws].  The order in which Go's [range] visits
    a map is unspecified: it is the class [RangeOrder].  Both have an instance, with
    which the definitions run. *)

From stdpp Require Import sorting.
From S2P Require Import Prelude Bytes Rlp Ecc DbPack DbSchema.

(** ** The store *)

Inductive batchOp : Type := Put (k v : bytes) | Delete (k : bytes).

Class LevelDB (T : Type) : Type := {
  Get : T -> bytes -> option bytes;
  (** [db.Write(batch)], atomic *)
  Write : T -> list batchOp -> T;
  (** what an iterator over the whole store yields, in its order *)
  Entries : T -> list (bytes * bytes) }.

(** The effect of a batch on what is stored under a key: its operations in order. *)
Definition batch_at (k : bytes) (b : list batchOp) (v : option bytes) : option bytes :=
  fold_left (fun v op =>
    match op with
    | Put k' v' => if bool_decide (k' = k) then Some v' else v
    | Delete k' => if bool_decide (k' = k) then None else v
    end) b v.

Class LevelDBLaws (T : Type) `{LevelDB T} : Prop := {
  Get_Write d b k : Get (Write d b) k = batch_at k b (Get d k);
  Entries_Get d k v : (k, v) ∈ Entries d <-> Get d k = Some v;
  Entries_sorted d : StronglySorted (fun a b => bytes_Compare a.1 b.1 = -1) (Entries d) }.

(** ** Undo containers *)

Record modifyValue : Type := mkModifyValue { Id : Z; OldKv : dbKeyValue; NewKv : dbKeyValue }.

Record undoState : Type := mkUndoState {
  NewValue : gmap Z modifyValue; RemoveValue : gmap Z modifyValue; OldValue : gmap Z modifyValue }.

(** [OldIds] is a reference to a map of next ids: see [LDataBase]. *)
Record undoContainer : Type := mkUndoContainer {
  Undo : gmap string undoState; OldIds : nat; Reversion : Z }.

Definition newUndoState : undoState := mkUndoState ∅ ∅ ∅.

Class RangeOrder : Type := {
  range_ids : gmap Z modifyValue -> list (Z * modifyValue);
  range_types : gmap string undoState -> list (string * undoState);
  range_ids_perm m : range_ids m ≡ₚ map_to_list m;
  range_types_perm m : range_types m ≡ₚ map_to_list m }.

#[global, refine] Instance range_sorted : RangeOrder := {
  range_ids m := map_to_list m; range_types m := map_to_list m }.
Proof. all: done. Defined.

Definition undoStackInsert (stack : undoState) (value : modifyValue) : undoState :=
  mkUndoState (<[Id value := value]> (NewValue stack)) (RemoveValue stack) (OldValue stack).

Definition undoStackRemove (stack : undoState) (value : modifyValue) : undoState :=
  let id := Id value in
  match NewValue stack !! id with
  | Some _ => mkUndoState (delete id (NewValue stack)) (RemoveValue stack) (OldValue stack)
  | None =>
      let stack :=
        match OldValue stack !! id with
        | Some _ => mkUndoState (NewValue stack) (<[id := value]> (RemoveValue stack)) (delete id (OldValue stack))
        | None => stack
        end in
      match RemoveValue stack !! id with
      | Some _ => stack
      | None => mkUndoState (NewValue stack) (<[id := value]> (RemoveValue stack)) (OldValue stack)
      end
  end.

Definition undoStackModify (stack : undoState) (value : modifyValue) : undoState :=
  let id := Id value in
  match NewValue stack !! id with
  | Some _ => stack
  | None =>
      match OldValue stack !! id with
      | Some _ => stack
      | None => mkUndoState (NewValue stack) (RemoveValue stack) (<[id := value]> (OldValue stack))
      end
  end.

Inductive undoOperatorType : Type := INSERT | REMOVE | MODIFY.

(** [undoContainerInsert], [undoContainerRemove] and [undoContainerModify], after
    [checkType] has made sure that the type has an undo state. *)
Definition checkType (c : undoContainer) (typeName : string) : undoContainer :=
  match Undo c !! typeName with
  | Some _ => c
  | None => mkUndoContainer (<[typeName := newUndoState]> (Undo c)) (OldIds c) (Reversion c)
  end.

Definition undoContainerRecord (c : undoContainer) (typeName : string) (value : modifyValue)
    (oT : undoOperatorType) : result undoContainer :=
  let c := checkType c typeName in
  match Undo c !! typeName with
  | None => Throw GoPanic
  | Some u =>
      let u := match oT with
        | INSERT => undoStackInsert u value
        | REMOVE => undoStackRemove u value
        | MODIFY => undoStackModify u value
        end in
      Ok (mkUndoContainer (<[typeName := u]> (Undo c)) (OldIds c) (Reversion c))
  end.

(** ** The double-ended queue; an item is an interface value, so it may be nil *)

Record deque (A : Type) : Type := mkDeque { items : list (option A); capacity : Z }.
Arguments mkDeque {A}. Arguments items {A}. Arguments capacity {A}.

Definition newCappedDeque {A} (capacity : Z) : deque A := mkDeque [] capacity.
Definition newDeque {A} : deque A := newCappedDeque (-1).

Definition Size {A} (s : deque A) : Z := len (items s).
Definition Empty {A} (s : deque A) : bool := Size s =? 0.

Definition Append {A} (s : deque A) (item : option A) : deque A :=
  if (capacity s <? 0) || (Size s <? capacity s) then mkDeque (items s ++ [item]) (capacity s) else s.

Definition PopFront {A} (s : deque A) : deque A * option A :=
  match items s with
  | [] => (s, None)
  | item :: l => (mkDeque l (capacity s), item)
  end.

Definition First {A} (s : deque A) : option A :=
  match items s with [] => None | item :: _ => item end.
Definition Last {A} (s : deque A) : option A :=
  match last (items s) with None => None | Some item => item end.

Definition Pop {A} (s : deque A) : deque A * option A :=
  match items s with
  | [] => (s, None)
  | l => (mkDeque (take (length l - 1) l) (capacity s), Last s)
  end.

Definition LastSecond {A} (s : deque A) : deque A * option A :=
  let '(s, last) := Pop s in
  let '(s, second) := Pop s in
  let s := Append s second in
  let s := Append s last in
  (s, second).

(** [undoStateSquash(stack, preStack)] *)
Definition squash_old (pre : undoState) (e : Z * modifyValue) : undoState :=
  let '(key, value) := e in
  match NewValue pre !! key with
  | Some _ => pre
  | None =>
      match OldValue pre !! key with
      | Some _ => pre
      | None => mkUndoState (NewValue pre) (RemoveValue pre) (<[key := value]> (OldValue pre))
      end
  end.
Definition squash_new (pre : undoState) (e : Z * modifyValue) : undoState :=
  let '(key, value) := e in
  mkUndoState (<[key := value]> (NewValue pre)) (RemoveValue pre) (OldValue pre).
Definition squash_removed (pre : undoState) (e : Z * modifyValue) : undoState :=
  let '(key, value) := e in
  match NewValue pre !! key with
  | Some _ => mkUndoState (delete key (NewValue pre)) (RemoveValue pre) (OldValue pre)
  | None =>
      match OldValue pre !! key with
      | Some _ => mkUndoState (NewValue pre) (<[key := value]> (RemoveValue pre)) (delete key (OldValue pre))
      | None => mkUndoState (NewValue pre) (<[key := value]> (RemoveValue pre)) (OldValue pre)
      end
  end.

Definition undoStateSquash `{RangeOrder} (stack preStack : undoState) : undoState :=
  let pre := fold_left squash_old (range_ids (OldValue stack)) preStack in
  let pre := fold_left squash_new (range_ids (NewValue stack)) pre in
  fold_left squash_removed (range_ids (RemoveValue stack)) pre.

(** ** The database

    [nextId] points to a map: [newUndoContainer] copies the map but stores the pointer it
    was given, so that the containers and the database share one map.  [ids] is the
    store of these maps and [nextId] and [OldIds] are positions in it.  The log, the
    path and a counter nobody reads are left out; the batch is empty between calls. *)

Record LDataBase (T : Type) : Type := mkLDataBase {
  db : T; stack : deque undoContainer; reversion : Z;
  ids : list (gmap string Z); nextId : nat; isClosed : bool }.
Arguments mkLDataBase {T}. Arguments db {T}. Arguments stack {T}. Arguments reversion {T}.
Arguments ids {T}. Arguments nextId {T}. Arguments isClosed {T}.

Section Database.
Context {T : Type} `{LevelDB T} `{RangeOrder}.
Implicit Types ldb : LDataBase T.

Definition set_db (d : T) ldb := mkLDataBase d (stack ldb) (reversion ldb) (ids ldb) (nextId ldb) (isClosed ldb).
Definition set_stack (s : deque undoContainer) ldb := mkLDataBase (db ldb) s (reversion ldb) (ids ldb) (nextId ldb) (isClosed ldb).
Definition set_reversion (r : Z) ldb := mkLDataBase (db ldb) (stack ldb) r (ids ldb) (nextId ldb) (isClosed ldb).
Definition set_nextId (n : nat) ldb := mkLDataBase (db ldb) (stack ldb) (reversion ldb) (ids ldb) n (isClosed ldb).
Definition set_ids (l : list (gmap string Z)) ldb := mkLDataBase (db ldb) (stack ldb) (reversion ldb) l (nextId ldb) (isClosed ldb).

Definition getStack ldb : option undoContainer := Last (stack ldb).
Definition getFirstStack ldb : option undoContainer := First (stack ldb).
Definition enable ldb : bool := negb (Size (stack ldb) =? 0).

(** The container on top of the stack, changed through its pointer. *)
Definition set_top (c : undoContainer) ldb : LDataBase T :=
  set_stack (mkDeque (take (length (items (stack ldb)) - 1) (items (stack ldb)) ++ [Some c]) (capacity (stack ldb))) ldb.

(** *** Batches *)

Definition putBatch (k : dbKeyValue) : list batchOp :=
  map (fun v => Put (key v) (value v)) (index k) ++ [Put (key (idk k)) (value (idk k))].
Definition deleteBatch (k : dbKeyValue) : list batchOp :=
  map (fun v => Delete (key v)) (index k) ++ [Delete (key (idk k))].

(** An empty batch is not written. *)
Definition writeBatch (b : list batchOp) : M (LDataBase T) unit :=
  modify (fun ldb => if 0 <? len b then set_db (Write (db ldb) b) ldb else ldb).

Definition insertKvToDb (k : dbKeyValue) : M (LDataBase T) unit := writeBatch (putBatch k).
Definition removeKvToDb (k : dbKeyValue) : M (LDataBase T) unit := writeBatch (deleteBatch k).
Definition modifyKvToDb (oldKV newKV : dbKeyValue) : M (LDataBase T) unit :=
  writeBatch (deleteBatch oldKV ++ putBatch newKV).

Definition insertUndoState (typeName : string) (value : modifyValue) (oT : undoOperatorType) : M (LDataBase T) unit :=
  ldb ← get;
  if negb (enable ldb) then mret tt
  else match getStack ldb with
  | None => mret tt
  | Some c => c ← lift (undoContainerRecord c typeName value oT); modify (set_top c)
  end.

(** *** Insert, Modify, Remove *)

(** The error of [structKV] is dropped by its callers; a panic is not. *)
Definition is_error (e : exn) : bool :=
  match e with
  | AssertException | OutOfFuel | IndexOutOfRange | DivideByZero | NilDereference | SliceOutOfRange | InterfaceConversion | GoPanic => false
  | _ => true
  end.
Definition ignore_error {A} (a : A) (r : result unit) : result A :=
  match r with
  | Ok _ => Ok a
  | Throw e => if is_error e then Ok a else Throw e
  end.

(** [reflect.ValueOf(id).Convert(t)] for the integer type of the id field *)
Definition Convert (id : Z) (t : gvalue) : result gvalue :=
  match t with
  | GInteger k _ =>
      Ok (GInteger k (match k with
        | KInt8 => swrap 8 id | KInt16 => swrap 16 id | KInt32 => swrap 32 id | KInt | KInt64 => swrap 64 id
        | KUint8 => uwrap 8 id | KUint16 => uwrap 16 id | KUint32 => uwrap 32 id | KUint | KUint64 => uwrap 64 id
        end))
  | _ => Throw GoPanic
  end.

Definition next_ids ldb : gmap string Z := default ∅ (ids ldb !! nextId ldb).

(** Returns the object with its id set and the configuration with [id_]. *)
Definition setIncrement (in_ : gvalue) (cfg : structInfo) : M (LDataBase T) (gvalue * structInfo) :=
  ldb ← get;
  let id := default (id_ cfg) (next_ids ldb !! Name cfg) in
  match rId cfg with
  | None => lift (Throw NilDereference)
  | Some p =>
      old ← lift (read_path in_ p);
      x ← lift (Convert id old);
      _ ← modify (set_ids (<[nextId ldb := <[Name cfg := i64 (id + 1)]> (next_ids ldb)]> (ids ldb)));
      mret (write_path in_ p x, set_id id cfg)
  end.

(** [Insert] returns the object it was given, with the id assigned. *)
Definition insert (in_ : gvalue) (undoFlag : bool) : M (LDataBase T) gvalue :=
  cfg ← lift (parseObjectToCfg in_);
  '(in_, cfg) ← (if negb undoFlag then setIncrement in_ cfg else mret (in_, cfg));
  let '(dbKV, id, r) := structKV in_ in_ cfg in
  _ ← lift (ignore_error tt r);
  _ ← insertKvToDb dbKV;
  let dbKV := set_kvId id dbKV in
  _ ← insertUndoState (Name cfg) (mkModifyValue id dbKV dbKV) INSERT;
  mret in_.

Definition Insert (in_ : gvalue) : M (LDataBase T) gvalue := insert in_ false.

(** [DecodeBytes(v, to)] fills what [to] points to. *)
Definition decode_to (v : bytes) (to_ : gvalue) : result gvalue :=
  match to_ with
  | GPtr e (Some x) => DecodeBytes v x ≫= fun y => Ok (GPtr e (Some y))
  | _ => Throw ErrUnPointer
  end.

Definition findFields ldb (key typeName : bytes) (to_ : gvalue) : result gvalue :=
  match Get (db ldb) (splicingString typeName key) with
  | None => Throw ErrNotFound
  | Some v => decode_to v to_
  end.

(** [util.BytesPrefix(key)]: the entries whose key starts with [key] *)
Definition has_prefix (p k : bytes) : bool := bool_decide (take (length p) k = p).
Definition prefix_entries ldb (p : bytes) : list (bytes * bytes) :=
  filter (fun e => has_prefix p e.1 = true) (Entries (db ldb)).

Definition find ldb (tagName : string) (value to_ : gvalue) (skip : nat) : result gvalue :=
  getFieldInfo tagName value ≫= fun fields =>
  fieldValueToByte value fields skip ≫= fun suffix =>
  if len suffix =? 0 then Throw NilDereference          (* [err.Error()] of a nil error *)
  else
    let key := splicingString (string_bytes (typeName fields)) (string_bytes tagName) ++ suffix in
    match prefix_entries ldb key with
    | [] => Throw ErrNotFound
    | (_, v) :: _ => findFields ldb v (string_bytes (typeName fields)) to_
    end.
Definition Find := find.

(** [cloneInterface]: a pointer to a copy of the struct *)
Definition cloneInterface (data : gvalue) : result gvalue :=
  match Elem data with
  | Some (GStruct _ _ as s) => Ok (GPtr (zero s) (Some s))
  | _ => Throw NilDereference
  end.

Definition remove (in_ : gvalue) : M (LDataBase T) unit :=
  out ← lift (cloneInterface in_);
  ldb ← get;
  match find ldb "id" in_ out 0 with
  | Throw e => lift (if is_error e then Throw ErrNotFound else Throw e)
  | Ok out =>
      cfg ← lift (parseObjectToCfg out);
      let '(dbKV, id, r) := structKV in_ out cfg in
      _ ← lift (ignore_error tt r);
      let dbKV := set_kvId id dbKV in
      _ ← removeKvToDb dbKV;
      insertUndoState (Name cfg) (mkModifyValue id dbKV dbKV) REMOVE
  end.
Definition Remove := remove.

Definition modifyRefToKv (old new : gvalue) : M (LDataBase T) unit :=
  oldCfg ← lift (extractObjectTagInfo old);
  newCfg ← lift (extractObjectTagInfo new);
  if negb (id_ oldCfg =? id_ newCfg) then lift (Throw ErrTypeMismatch)
  else if negb (String.eqb (Name oldCfg) (Name newCfg)) then lift (Throw ErrTypeMismatch)
  else
    let '(oldKV, oldId, r) := structKV old old oldCfg in
    _ ← lift (ignore_error tt r);
    let '(newKV, _, r) := structKV new new newCfg in
    _ ← lift (ignore_error tt r);
    _ ← modifyKvToDb oldKV newKV;
    insertUndoState (Name oldCfg) (mkModifyValue oldId oldKV newKV) MODIFY.

(** [fn] changes what [data] points to; that it takes one argument of that type is what
    the reflective checks of the source establish.  Returns the changed object. *)
Definition Modify (data : gvalue) (fn : gvalue -> gvalue) : M (LDataBase T) gvalue :=
  match data with
  | GPtr e (Some x) =>
      old ← lift (cloneInterface data);
      let data := GPtr e (Some (fn x)) in
      _ ← modifyRefToKv old data;
      mret data
  | GPtr _ None => lift (Throw NilDereference)
  | _ => lift (Throw ErrPtrNeeded)
  end.

(** *** Sessions *)

Definition newUndoContainer (reversion : Z) (oldIds : nat) : undoContainer := mkUndoContainer ∅ oldIds reversion.

Record Session : Type := mkSession { sdb : bool; apply : bool; sreversion : Z }.

Definition StartSession : M (LDataBase T) Session :=
  ldb ← get;
  let r := i64 (reversion ldb + 1) in
  _ ← modify (fun ldb => set_stack (Append (stack ldb) (Some (newUndoContainer r (nextId ldb)))) (set_reversion r ldb));
  mret (mkSession true true r).

Fixpoint each {A} (f : A -> M (LDataBase T) unit) (l : list A) : M (LDataBase T) unit :=
  match l with [] => mret tt | x :: l' => _ ← f x; each f l' end.

(** The body of the loop of [Undo] over the types. *)
Definition undo_type (u : undoState) : M (LDataBase T) unit :=
  _ ← each (fun e => modifyKvToDb (NewKv e.2) (OldKv e.2)) (range_ids (OldValue u));
  _ ← each (fun e => removeKvToDb (NewKv e.2)) (range_ids (NewValue u));
  each (fun e => insertKvToDb (NewKv e.2)) (range_ids (RemoveValue u)).

Definition pop_container : M (LDataBase T) unit :=
  modify (fun ldb => set_stack (Pop (stack ldb)).1 (set_reversion (i64 (reversion ldb - 1)) ldb)).

Definition Undo_ : M (LDataBase T) unit :=
  ldb ← get;
  match getStack ldb with
  | None => mret tt
  | Some c =>
      _ ← modify (set_nextId (OldIds c));
      _ ← each (fun e => undo_type e.2) (range_types (Undo c));
      pop_container
  end.

Fixpoint undo_all (fuel : nat) : M (LDataBase T) unit :=
  match fuel with
  | O => ldb ← get; if enable ldb then lift (Throw OutOfFuel) else mret tt
  | S n => ldb ← get; if enable ldb then _ ← Undo_; undo_all n else mret tt
  end.
Definition UndoAll : M (LDataBase T) unit := ldb ← get; undo_all (length (items (stack ldb))).

Definition squash_type (pre : gmap string undoState) (e : string * undoState) : gmap string undoState :=
  let '(typeName, u) := e in
  <[typeName := undoStateSquash u (default newUndoState (pre !! typeName))]> pre.

(** On an empty stack [getSecond] pushes two nil items before the nil container is
    dereferenced. *)
Definition Squash : M (LDataBase T) unit :=
  ldb ← get;
  if Size (stack ldb) =? 1 then pop_container
  else
    let c := getStack ldb in
    let '(s, second) := LastSecond (stack ldb) in
    _ ← modify (set_stack s);
    match c with
    | None => lift (Throw NilDereference)
    | Some c =>
        match second with
        | None => if decide (Undo c = ∅) then pop_container else lift (Throw NilDereference)
        | Some pre =>
            let pre := mkUndoContainer (fold_left squash_type (range_types (Undo c)) (Undo pre)) (OldIds pre) (Reversion pre) in
            _ ← modify (fun ldb => set_stack
                  (mkDeque (<[(length (items (stack ldb)) - 2)%nat := Some pre]> (items (stack ldb))) (capacity (stack ldb))) ldb);
            pop_container
        end
    end.

Fixpoint commit_loop (fuel : nat) (reversion : Z) ldb : LDataBase T * result unit :=
  if Size (stack ldb) =? 0 then (ldb, Ok tt)
  else match getFirstStack ldb with
  | None => (ldb, Ok tt)
  | Some c =>
      if reversion <? Reversion c then (ldb, Ok tt)
      else match fuel with
      | O => (ldb, Throw OutOfFuel)
      | S n => commit_loop n reversion (set_stack (PopFront (stack ldb)).1 ldb)
      end
  end.
Definition Commit (reversion : Z) : M (LDataBase T) unit :=
  fun ldb => commit_loop (length (items (stack ldb))) reversion ldb.

Definition SetRevision (reversion : Z) : M (LDataBase T) unit :=
  ldb ← get;
  if negb (Size (stack ldb) =? 0) then lift (Throw GoPanic)
  else if 2 ^ 63 - 1 <? reversion then lift (Throw GoPanic)
  else modify (set_reversion reversion).

Definition Revision ldb : Z := reversion ldb.

Definition session_Push (s : Session) : Session :=
  if negb (sdb s) then s else mkSession false false (sreversion s).
Definition session_Squash (s : Session) : M (LDataBase T) Session :=
  if negb (sdb s) || negb (apply s) then mret s
  else _ ← Squash; mret (mkSession false false (sreversion s)).
Definition session_Undo (s : Session) : M (LDataBase T) Session :=
  if negb (sdb s) || negb (apply s) then mret s
  else _ ← Undo_; mret (mkSession false false (sreversion s)).

End Database.

(** ** The instance of the store: a finite map, listed in the order of its keys *)

Definition entry_le (a b : bytes * bytes) : Prop := bytes_Compare a.1 b.1 <> 1.

#[global] Instance entry_le_dec a b : Decision (entry_le a b).
Proof. unfold entry_le. apply _. Defined.

#[global] Instance map_store : LevelDB (gmap bytes bytes) := {
  Get d k := d !! k;
  Write d b := fold_left (fun d op => match op with Put k v => <[k := v]> d | Delete k => delete k d end) b d;
  Entries d := merge_sort entry_le (map_to_list d) }.

Lemma entry_le_trans a b c : entry_le a b -> entry_le b c -> entry_le a c.
Proof.
  unfold entry_le. intros Hab Hbc Hac.
  assert (Hca : bytes_Compare c.1 a.1 = -1) by (rewrite bytes_Compare_antisym, Hac; done).
  destruct (bytes_Compare_cases a.1 b.1) as [E|[E|E]]; [|apply bytes_Compare_eq in E; congruence|done].
  destruct (bytes_Compare_cases b.1 c.1) as [E'|[E'|E']]; [|apply bytes_Compare_eq in E'; congruence|done].
  rewrite (bytes_Compare_trans _ _ _ E E') in Hac. done.
Qed.

#[global] Instance entry_le_Transitive : Transitive entry_le := entry_le_trans.
#[global] Instance entry_le_Total : Total entry_le.
Proof.
  intros a b. unfold entry_le. rewrite (bytes_Compare_antisym b.1 a.1).
  destruct (bytes_Compare_cases b.1 a.1) as [E|[E|E]]; rewrite E; lia.
Qed.

Lemma strictly_sorted (l : list (bytes * bytes)) :
  StronglySorted entry_le l -> NoDup l.*1 -> StronglySorted (fun a b => bytes_Compare a.1 b.1 = -1) l.
Proof.
  induction 1 as [|a l Hs IH Hall]; intros Hnd; constructor; cbn [fmap list_fmap] in Hnd; apply NoDup_cons in Hnd as [Hn Hnd].
  - by apply IH.
  - rewrite Forall_forall in *. intros b Hb. specialize (Hall b Hb). unfold entry_le in Hall.
    destruct (bytes_Compare_cases a.1 b.1) as [E|[E|E]]; [done| |done].
    apply bytes_Compare_eq in E. exfalso. apply Hn. rewrite E. by apply list_elem_of_fmap_2.
Qed.

#[global] Instance map_store_laws : LevelDBLaws (gmap bytes bytes).
Proof.
  constructor.
  - intros d b k. cbn. unfold batch_at. revert d. induction b as [|op b IH]; intros d; [done|].
    cbn [fold_left]. rewrite IH. f_equal. destruct op as [k' v|k']; case_bool_decide; subst.
    + by rewrite lookup_insert_eq.
    + by rewrite lookup_insert_ne.
    + by rewrite lookup_delete_eq.
    + by rewrite lookup_delete_ne.
  - intros d k v. cbn. rewrite merge_sort_Permutation. apply elem_of_map_to_list.
  - intros d. apply strictly_sorted; [apply StronglySorted_merge_sort; apply _|].
    cbn. rewrite merge_sort_Permutation. apply NoDup_fst_map_to_list.
Qed.
