(* ===== verification/DbTable.v ===== *)
(** * DbTable: the state database as a table of objects

    The abstract state behind the key-value store: a table that maps a type and an id
    to the entries of the object.  [represents] says that a store holds exactly the
    entries of a table, each key owned by one object; the operations of the database
    are then insertions, updates and deletions in the table. *)

From S2P Require Import Prelude Bytes Rlp Ecc DbPack DbSchema Database.

(** ** The entries of an object as a finite map *)

Definition entries (k : dbKeyValue) : list (bytes * bytes) :=
  map (fun e => (key e, value e)) (index k ++ [idk k]).

(** The last entry for a key is the one that stays in the store. *)
Definition kvmap (k : dbKeyValue) : gmap bytes bytes := list_to_map (reverse (entries k)).

(** What writing or deleting the entries [m] does to the value [v] stored under [k]. *)
Definition put_at (m : gmap bytes bytes) (k : bytes) (v : option bytes) : option bytes :=
  match m !! k with Some x => Some x | None => v end.
Definition del_at (m : gmap bytes bytes) (k : bytes) (v : option bytes) : option bytes :=
  match m !! k with Some _ => None | None => v end.

Lemma batch_at_app k b1 b2 v : batch_at k (b1 ++ b2) v = batch_at k b2 (batch_at k b1 v).
Proof. apply fold_left_app. Qed.

Lemma kvmap_fold_put k (l : list (bytes * bytes)) : forall v,
  batch_at k (map (fun e => Put e.1 e.2) l) v = put_at (list_to_map (reverse l)) k v.
Proof.
  induction l as [|[a b] l IH]; intros v; [done|].
  cbn [map fst snd]. change (Put a b :: ?l') with ([Put a b] ++ l'). rewrite batch_at_app, IH. cbn [batch_at fold_left]. rewrite reverse_cons, list_to_map_app. unfold put_at.
  destruct (list_to_map (reverse l) !! k) as [x|] eqn:E.
  - erewrite lookup_union_Some_l by exact E. done.
  - rewrite lookup_union_r by exact E. cbn [list_to_map fst snd foldr].
    case_bool_decide; subst; [by rewrite lookup_insert_eq|by rewrite lookup_insert_ne].
Qed.

Lemma kvmap_fold_del k (l : list (bytes * bytes)) : forall v,
  batch_at k (map (fun e => Delete e.1) l) v = del_at (list_to_map (reverse l)) k v.
Proof.
  induction l as [|[a b] l IH]; intros v; [done|].
  cbn [map fst snd]. change (Delete a :: ?l') with ([Delete a] ++ l'). rewrite batch_at_app, IH. cbn [batch_at fold_left]. rewrite reverse_cons, list_to_map_app. unfold del_at.
  destruct (list_to_map (reverse l) !! k) as [x|] eqn:E.
  - erewrite lookup_union_Some_l by exact E. done.
  - rewrite lookup_union_r by exact E. cbn [list_to_map fst snd foldr].
    case_bool_decide; subst; [by rewrite lookup_insert_eq|by rewrite lookup_insert_ne].
Qed.

Lemma putBatch_at k kv v : batch_at k (putBatch kv) v = put_at (kvmap kv) k v.
Proof.
  unfold kvmap. rewrite <- kvmap_fold_put. f_equal. unfold putBatch, entries.
  by rewrite map_map, map_app.
Qed.

Lemma deleteBatch_at k kv v : batch_at k (deleteBatch kv) v = del_at (kvmap kv) k v.
Proof.
  unfold kvmap. rewrite <- kvmap_fold_del. f_equal. unfold deleteBatch, entries.
  by rewrite map_map, map_app.
Qed.

(** ** The type a key belongs to: what stands before the first two underscores *)

Fixpoint before_underscore (k : bytes) : bytes :=
  match k with [] => [] | b :: k' => if b =? underscore then [] else b :: before_underscore k' end.

Definition type_of (k : bytes) : option bytes :=
  let t := before_underscore k in
  if bool_decide (take 2 (drop (length t) k) = [underscore; underscore]) then Some t else None.

Definition no_underscore (t : string) : bool := forallb (fun b => negb (b =? underscore)) (string_bytes t).

Lemma before_underscore_app t k : forallb (fun b => negb (b =? underscore)) t = true ->
  before_underscore (t ++ underscore :: k) = t.
Proof.
  induction t as [|b t IH]; [done|]. simpl. intros [Hb Ht]%andb_true_iff.
  destruct (b =? underscore); [done|]. by rewrite IH.
Qed.

Lemma type_of_key t k : no_underscore t = true ->
  type_of (string_bytes t ++ underscore :: underscore :: k) = Some (string_bytes t).
Proof.
  intros Ht. unfold type_of. rewrite before_underscore_app by done. rewrite drop_app_length. done.
Qed.

Lemma string_bytes_inj s s' : string_bytes s = string_bytes s' -> s = s'.
Proof.
  revert s'. induction s as [|c s IH]; intros [|c' s']; simpl; try done.
  intros [= Hc Hs]. f_equal; [|by apply IH].
  apply (f_equal Z.to_N) in Hc. rewrite !N2Z.id in Hc. apply (f_equal Ascii.ascii_of_N) in Hc.
  by rewrite !Ascii.ascii_N_embedding in Hc.
Qed.

(** ** Tables *)

Abbreviation oid := (string * Z)%type.
Abbreviation table := (gmap oid (gmap bytes bytes)).

(** The keys of an object name its type. *)
Definition typed (i : oid) (x : gmap bytes bytes) : Prop :=
  forall k, is_Some (x !! k) -> type_of k = Some (string_bytes i.1).

(** The entries [x] take no key of another object. *)
Definition unused (tbl : table) (i : oid) (x : gmap bytes bytes) : Prop :=
  forall j y k, tbl !! j = Some y -> j <> i -> is_Some (x !! k) -> y !! k = None.

Record table_ok (tbl : table) : Prop := {
  ok_typed i x : tbl !! i = Some x -> typed i x;
  ok_disjoint i x : tbl !! i = Some x -> unused tbl i x }.

Record represents (f : bytes -> option bytes) (tbl : table) : Prop := {
  rep_ok : table_ok tbl;
  rep_owned i x k v : tbl !! i = Some x -> x !! k = Some v -> f k = Some v;
  rep_owner k v : is_Some (type_of k) -> f k = Some v -> exists i x, tbl !! i = Some x /\ x !! k = Some v }.

Lemma table_ok_insert tbl i x : table_ok tbl -> typed i x -> unused tbl i x -> table_ok (<[i := x]> tbl).
Proof.
  intros [Ht Hd] Hx Hu. split.
  - intros j y. rewrite lookup_insert_Some. intros [[<- <-]|[Hne Hy]]; eauto.
  - intros j y. rewrite lookup_insert_Some. intros [[<- <-]|[Hne Hy]] j' y' k.
    + rewrite lookup_insert_Some. intros [[<- <-]|[Hne' Hy']] Hj Hk; [done|]. by eapply Hu.
    + rewrite lookup_insert_Some. intros [[<- <-]|[Hne' Hy']] Hj Hk; [|by eapply (Hd j y Hy j' y' k)].
      destruct (x !! k) eqn:E; [|done]. rewrite (Hu j y k Hy ltac:(congruence)) in Hk; [by destruct Hk|done].
Qed.

Lemma table_ok_delete tbl i : table_ok tbl -> table_ok (delete i tbl).
Proof.
  intros [Ht Hd]. split.
  - intros j y. rewrite lookup_delete_Some. intros [_ Hy]. eauto.
  - intros j y [_ Hy]%lookup_delete_Some j' y' k [_ Hy']%lookup_delete_Some. by eapply Hd.
Qed.

(** Writing the entries of a new object. *)
Lemma represents_put f g tbl i x :
  represents f tbl -> tbl !! i = None -> typed i x -> unused tbl i x ->
  (forall k, g k = put_at x k (f k)) -> represents g (<[i := x]> tbl).
Proof.
  intros [Hok Ho Hw] Hi Ht Hu Hg. split; [by apply table_ok_insert| |].
  - intros j y k v. rewrite Hg. unfold put_at. rewrite lookup_insert_Some.
    intros [[<- <-]|[Hne Hy]] Hk; [by rewrite Hk|].
    destruct (x !! k) eqn:E; [|by eapply Ho].
    rewrite (Hu j y k Hy ltac:(congruence)) in Hk; [done|by rewrite E].
  - intros k v Hk. rewrite Hg. unfold put_at. destruct (x !! k) as [w|] eqn:E.
    + intros [= ->]. exists i, x. split; [apply lookup_insert_eq|done].
    + intros Hf. destruct (Hw k v Hk Hf) as (j & y & Hy & Hyk). exists j, y. split; [|done].
      rewrite lookup_insert_ne; [done|]. intros ->. congruence.
Qed.

(** Deleting the keys of an object. *)
Lemma represents_del f g tbl i x y :
  represents f tbl -> tbl !! i = Some x -> dom y = dom x ->
  (forall k, g k = del_at y k (f k)) -> represents g (delete i tbl).
Proof.
  intros [Hok Ho Hw] Hi Hdom Hg.
  assert (Hxy : forall k, y !! k = None <-> x !! k = None).
  { intros k. rewrite <- !not_elem_of_dom, Hdom. done. }
  split; [by apply table_ok_delete| |].
  - intros j z k v [Hne Hz]%lookup_delete_Some Hk. rewrite Hg. unfold del_at.
    destruct (y !! k) eqn:E; [|by eapply Ho].
    destruct (x !! k) eqn:Ex; [|by apply Hxy in Ex; congruence].
    rewrite (ok_disjoint _ Hok i x Hi j z k Hz ltac:(congruence)) in Hk; [done|by rewrite Ex].
  - intros k v Hk. rewrite Hg. unfold del_at. destruct (y !! k) eqn:E; [done|]. intros Hf.
    destruct (Hw k v Hk Hf) as (j & z & Hz & Hzk). exists j, z. split; [|done].
    apply lookup_delete_Some. split; [|done]. intros ->. apply Hxy in E. congruence.
Qed.

(** Replacing the entries of an object: the old keys first, then the new ones. *)
Lemma represents_modify f g tbl i x y z :
  represents f tbl -> tbl !! i = Some x -> dom y = dom x -> typed i z -> unused tbl i z ->
  (forall k, g k = put_at z k (del_at y k (f k))) -> represents g (<[i := z]> tbl).
Proof.
  intros Hr Hi Hdom Ht Hu Hg. rewrite <- insert_delete_eq.
  eapply (represents_put (fun k => del_at y k (f k))); [|apply lookup_delete_eq|done| |exact Hg].
  - by eapply represents_del.
  - intros j w k [_ Hw]%lookup_delete_Some. by eapply Hu.
Qed.

(** A store is determined by its table, up to the keys that belong to no type. *)
Lemma represents_unique f g tbl k :
  represents f tbl -> represents g tbl -> is_Some (type_of k) -> f k = g k.
Proof.
  intros [_ Ho Hw] [_ Ho' Hw'] Hk. destruct (f k) as [v|] eqn:E.
  - destruct (Hw k v Hk E) as (i & x & Hi & Hx). symmetry. by eapply Ho'.
  - destruct (g k) as [v|] eqn:E'; [|done]. destruct (Hw' k v Hk E') as (i & x & Hi & Hx).
    rewrite (Ho i x k v Hi Hx) in E. done.
Qed.

(** ** The configuration depends on the tags only *)

(** [v'] and [v] differ in integers: same tags, same structs. *)
Definition same_tags (v v' : gvalue) : Prop := forall p m, extract_struct v p m = extract_struct v' p m.

(** The loop of [extractObjectTagInfo] over the fields. *)
Section ExtractFields.
Variable at_ : path.

Fixpoint extract_fields (fs : list (StructField * gvalue)) (i : nat) (m : structInfo) : result structInfo :=
  match fs with
  | [] => Ok m
  | (field, x) :: fs' =>
      (if negb (exported field) then Ok m
       else extractObjectFieldTag field (at_ ++ [i]) (extract_struct x (at_ ++ [i])) m)
      ≫= extract_fields fs' (S i)
  end.

End ExtractFields.

Definition extract_named (name : string) (fs : list (StructField * gvalue)) (p : path) (m : structInfo) : result structInfo :=
  let m := if String.eqb (Name m) "" then mkStructInfo name (rId m) (Fields m) (id_ m) else m in
  extract_fields p fs 0 m ≫= fun m => Ok (mark_unique m).

Lemma extract_GStruct n fs p m : extract_struct (GStruct n fs) p m = extract_named n fs p m.
Proof. reflexivity. Qed.
Lemma extract_GPtr e n fs p m : extract_struct (GPtr e (Some (GStruct n fs))) p m = extract_named n fs p m.
Proof. reflexivity. Qed.

Lemma sub_tags_ext f p g g' tags : (forall m, g m = g' m) -> forall m, sub_tags f p g tags m = sub_tags f p g' tags m.
Proof.
  intros Hg. induction tags as [|t tags IH]; [done|]. intros m. cbn [sub_tags].
  assert (splitSubTag f p g t m = splitSubTag f p g' t m) as ->.
  { unfold splitSubTag. destruct (Split t _); [done|]. by rewrite Hg. }
  destruct (splitSubTag f p g' t m); simpl; [apply IH|done].
Qed.

Lemma extract_fields_ext p fs : forall i f y y' j m,
  fs !! j = Some (f, y) -> same_tags y y' ->
  extract_fields p (<[j := (f, y')]> fs) i m = extract_fields p fs i m.
Proof.
  induction fs as [|[g x] fs IH]; intros i f y y' [|j] m Hj Hs; try done; cbn [lookup list_lookup] in Hj.
  - injection Hj as -> ->. change (<[0%nat := ?a]> (?b :: ?l)) with (a :: l). cbn [extract_fields].
    assert (extractObjectFieldTag f (p ++ [i]) (extract_struct y' (p ++ [i])) m
      = extractObjectFieldTag f (p ++ [i]) (extract_struct y (p ++ [i])) m) as ->; [|done].
    unfold extractObjectFieldTag. destruct (String.eqb (multiIndex f) _); [done|].
    apply sub_tags_ext. intros m'. symmetry. apply Hs.
  - change (<[S j := ?a]> (?b :: ?l)) with (b :: <[j := a]> l). cbn [extract_fields]. destruct (if negb (exported g) then _ else _) as [m'|e]; [|done].
    cbn. by eapply IH.
Qed.

Lemma same_tags_write v : forall p x k z z',
  read_path v p = Ok (GInteger k z) -> x = GInteger k z' -> same_tags (write_path v p x) v.
Proof.
  intros p. revert v. induction p as [|i p IH]; intros v x k z z' Hr ->; cbn [read_path write_path] in *.
  - injection Hr as ->. by intros q m.
  - assert (Hst : forall n fs, match fs !! i with Some (_, y) => read_path y p | None => Throw NilDereference end = Ok (GInteger k z) ->
      exists f y, fs !! i = Some (f, y) /\ same_tags (write_path y p (GInteger k z')) y /\
        forall q m, extract_named n (<[i := (f, write_path y p (GInteger k z'))]> fs) q m = extract_named n fs q m).
    { intros n fs Hfs. destruct (fs !! i) as [[f y]|] eqn:E; [|done]. exists f, y. split; [done|].
      assert (Hs : same_tags (write_path y p (GInteger k z')) y) by (by eapply IH). split; [done|].
      intros q m. unfold extract_named. erewrite extract_fields_ext; [done|done|]. intros q' m'. symmetry. apply Hs. }
    destruct v as [| | | | | | | | | | |e [v|]|n fs|]; try done; cbn [Elem] in Hr.
    + destruct v as [| | | | | | | | | | | |n fs|]; try done.
      destruct (Hst n fs Hr) as (f & y & E & Hs & Hext). rewrite E. intros q m. rewrite !extract_GPtr. apply Hext.
    + destruct (Hst n fs Hr) as (f & y & E & Hs & Hext). rewrite E. intros q m. rewrite !extract_GStruct. apply Hext.
Qed.

Lemma read_write_path v : forall p x y, read_path v p = Ok y -> read_path (write_path v p x) p = Ok x.
Proof.
  intros p. revert v. induction p as [|i p IH]; intros v x y Hr; cbn [read_path write_path] in *; [done|].
  destruct v as [| | | | | | | | | | |e [v|]|n fs|]; try done; cbn [Elem] in *.
  - destruct v as [| | | | | | | | | | | |n fs|]; try done.
    destruct (fs !! i) as [[f z]|] eqn:E; [|done]. cbn [Elem]. rewrite list_lookup_insert_eq by (by eapply lookup_lt_Some).
    by eapply IH.
  - destruct (fs !! i) as [[f z]|] eqn:E; [|done]. cbn [Elem]. rewrite list_lookup_insert_eq by (by eapply lookup_lt_Some).
    by eapply IH.
Qed.

Lemma write_path_shape v p x :
  match v with
  | GPtr e (Some (GStruct n fs)) => p <> [] -> exists fs', write_path v p x = GPtr e (Some (GStruct n fs'))
  | _ => True
  end.
Proof.
  destruct v as [| | | | | | | | | | |e [[]|]| |]; try done. destruct p as [|i p]; [done|]. intros _.
  cbn [write_path]. destruct (fs !! i) as [[f z]|]; eauto.
Qed.

Lemma parse_write o p k z z' cfg : p <> [] ->
  parseObjectToCfg o = Ok cfg -> read_path o p = Ok (GInteger k z) ->
  parseObjectToCfg (write_path o p (GInteger k z')) = Ok cfg.
Proof.
  intros Hp Hc Hr. pose proof (same_tags_write o p (GInteger k z') k z z' Hr eq_refl) as Hs.
  pose proof (write_path_shape o p (GInteger k z')) as Hw.
  destruct o as [| | | | | | | | | | |e [o|]| |]; try done. destruct o as [| | | | | | | | | | | |n fs|]; try done.
  destruct (Hw Hp) as [fs' E]. rewrite E in *. unfold parseObjectToCfg in *. unfold extractObjectTagInfo in *.
  by rewrite Hs.
Qed.

(** ** The entries of an object *)

(** A pointer to the struct [s], as the callers pass it. *)
Definition ref (s : gvalue) : gvalue := GPtr (zero s) (Some s).

(** The type and the entries of an object that can be stored. *)
Definition object_kv (o : gvalue) : option (string * dbKeyValue) :=
  match parseObjectToCfg o with
  | Ok cfg =>
      match structKV o o cfg with
      | (kv, id, Ok _) => Some (Name cfg, set_kvId id kv)
      | _ => None
      end
  | Throw _ => None
  end.

Lemma kvmap_set_kvId z kv : kvmap (set_kvId z kv) = kvmap kv.
Proof. reflexivity. Qed.

Lemma kvmap_lookup kv k : is_Some (kvmap kv !! k) <-> exists e, e ∈ index kv ++ [idk kv] /\ key e = k.
Proof.
  unfold kvmap. rewrite <- elem_of_dom, dom_list_to_map, elem_of_list_to_set, fmap_reverse, elem_of_reverse.
  unfold entries. rewrite list_elem_of_fmap. split.
  - intros (x & -> & (e & -> & He)%list_elem_of_fmap). eauto.
  - intros (e & He & <-). exists (key e, value e). split; [done|].
    exact (list_elem_of_fmap_2 (fun e => (key e, value e)) _ _ He).
Qed.

Lemma kvmap_nonempty kv : is_Some (kvmap kv !! key (idk kv)).
Proof. apply kvmap_lookup. exists (idk kv). set_solver. Qed.

Lemma structKV_id in_ obj cfg z kv id r :
  structKV in_ obj (set_id z cfg) = (kv, id, Ok r) -> structKV in_ obj cfg = (kv, id, Ok r).
Proof.
  unfold structKV. cbn [set_id rId Name Fields]. destruct (Marshal in_); [|done].
  destruct (match rId cfg with Some p => read_path obj p | None => Throw NilDereference end ≫= Marshal) as [b|]; [|done].
  change (DecodeBytes b (GInteger KInt64 (id_ (set_id z cfg)))) with (DecodeBytes b (GInteger KInt64 (id_ cfg))).
  destruct (DecodeBytes b (GInteger KInt64 (id_ cfg))) as [[]|]; done.
Qed.

(** Every entry that [cfgToKV] adds is a key of the type. *)
Lemma cfgToKV_keys obj name objId fs : forall kv kv' r,
  cfgToKV obj name objId fs kv = (kv', r) ->
  idk kv' = idk kv /\
  forall e, e ∈ index kv' -> e ∈ index kv \/ exists x, key e = string_bytes name ++ underscore :: underscore :: x.
Proof.
  induction fs as [|[tag f] fs IH]; intros kv kv' r; cbn [cfgToKV].
  - intros [= <- <-]. auto.
  - unfold mbind, M_bind, lift, modify. destruct (index_key obj name objId tag f) as [k|] eqn:Ek.
    + intros E. apply IH in E as [-> H]. split; [done|]. intros e He. destruct (H e He) as [He'|?]; [|auto].
      cbn [index] in He'. apply elem_of_app in He' as [?|He']; [auto|]. right.
      apply list_elem_of_singleton in He' as ->. unfold index_key in Ek. inv_ok. cbn [key]. eauto.
    + intros [= <- <-]. auto.
Qed.

Lemma object_kv_typed o t kv i : object_kv o = Some (t, kv) -> no_underscore t = true -> typed (t, i) (kvmap kv).
Proof.
  unfold object_kv. destruct (parseObjectToCfg o) as [cfg|]; [|done].
  destruct (structKV o o cfg) as [[kv' id] [r|]] eqn:E; [|done]. intros [= <- <-] Ht k Hk.
  rewrite kvmap_set_kvId in Hk. apply kvmap_lookup in Hk as (e & He & <-). cbn [fst].
  assert (exists x, key e = string_bytes (Name cfg) ++ underscore :: underscore :: x) as [x ->];
    [|by apply type_of_key].
  unfold structKV in E. destruct (Marshal o); [|done].
  destruct (_ ≫= Marshal) as [b|]; [|done]. destruct (DecodeBytes b _) as [[]|]; try done.
  destruct (cfgToKV o _ _ _ _) as [kv2 r2] eqn:Ec. injection E as <- _ _.
  apply cfgToKV_keys in Ec as [Hidk Hi]. cbn [idk index] in *.
  apply elem_of_app in He as [He|He].
  - destruct (Hi e He) as [Hn|?]; [by apply not_elem_of_nil in Hn|done].
  - apply list_elem_of_singleton in He as ->. rewrite Hidk. cbn [key]. unfold splicingString. eauto.
Qed.

Lemma parse_extract o cfg : parseObjectToCfg o = Ok cfg -> extractObjectTagInfo o = Ok cfg /\ id_ cfg = 0.
Proof.
  unfold parseObjectToCfg. destruct o as [| | | | | | | | | | |e [[]|]| |]; try done.
  unfold extractObjectTagInfo. rewrite extract_GPtr. intros Hp. apply bind_Ok in Hp as (c & Hc & Hl).
  assert (id_ c = 0) by (unfold extract_named in Hc; inv_ok; done).
  rewrite Hc. by destruct (lookup_field _ _); simplify_eq.
Qed.

(** ** What the operations do *)

Section Operations.
Context {T : Type} `{LevelDB T} `{!LevelDBLaws T} `{RangeOrder}.
Implicit Types ldb : LDataBase T.

(** The contents of the store *)
Definition view ldb (k : bytes) : option bytes := Get (db ldb) k.

Definition record_state (u : undoState) (m : modifyValue) (oT : undoOperatorType) : undoState :=
  match oT with
  | INSERT => undoStackInsert u m | REMOVE => undoStackRemove u m | MODIFY => undoStackModify u m
  end.
Definition record_container (c : undoContainer) (t : string) (m : modifyValue) (oT : undoOperatorType) : undoContainer :=
  mkUndoContainer (<[t := record_state (default newUndoState (Undo c !! t)) m oT]> (Undo c)) (OldIds c) (Reversion c).

(** The database after a change has been recorded in the top container, if any. *)
Definition recorded (t : string) (m : modifyValue) (oT : undoOperatorType) ldb : LDataBase T :=
  match getStack ldb with
  | Some c => set_top (record_container c t m oT) ldb
  | None => ldb
  end.

Lemma insertUndoState_recorded t m oT ldb : insertUndoState t m oT ldb = (recorded t m oT ldb, Ok tt).
Proof.
  unfold insertUndoState, recorded, mbind, M_bind, get. destruct (enable ldb) eqn:He; cbn [negb].
  - destruct (getStack ldb) as [c|]; [|done]. unfold undoContainerRecord, checkType.
    destruct (Undo c !! t) as [u|] eqn:E; cbn [Undo].
    + rewrite E. unfold record_container, record_state. rewrite E. done.
    + rewrite lookup_insert_eq. unfold lift, modify, record_container, record_state.
      rewrite E, insert_insert_eq. done.
  - unfold getStack, Last. unfold enable, Size in He. apply negb_false_iff, Z.eqb_eq in He.
    destruct (items (stack ldb)); [done|unfold len in He; simpl in He; lia].
Qed.

Lemma view_recorded t m oT ldb : view (recorded t m oT ldb) = view ldb.
Proof. unfold recorded. by destruct (getStack ldb). Qed.

Lemma writeBatch_eq b ldb : exists d, writeBatch b ldb = (set_db d ldb, Ok tt) /\
  forall k, Get d k = batch_at k b (view ldb k).
Proof.
  unfold writeBatch, modify. destruct (Z.ltb_spec 0 (len b)).
  - eexists. split; [reflexivity|]. intros k. apply Get_Write.
  - exists (db ldb). split; [by destruct ldb|]. destruct b; [done|unfold len in *; simpl in *; lia].
Qed.

(** The state after [Insert], [Modify] and [Remove]: one batch and one record. *)
Definition changed (b : list batchOp) (t : string) (m : modifyValue) (oT : undoOperatorType) ldb ldb' : Prop :=
  exists d, (forall k, Get d k = batch_at k b (view ldb k)) /\ ldb' = recorded t m oT (set_db d ldb).

Lemma view_changed b t m oT ldb ldb' k : changed b t m oT ldb ldb' -> view ldb' k = batch_at k b (view ldb k).
Proof. intros (d & Hd & ->). rewrite view_recorded. apply Hd. Qed.

Lemma Insert_spec o o' ldb ldb' t kv :
  Insert o ldb = (ldb', Ok o') -> object_kv o' = Some (t, kv) ->
  exists l id, changed (putBatch kv) t (mkModifyValue (kvId kv) kv kv) INSERT (set_ids l ldb) ldb' /\
    id = default 0 (next_ids ldb !! t) /\ l = <[nextId ldb := <[t := i64 (id + 1)]> (next_ids ldb)]> (ids ldb).
Proof.
  unfold Insert, insert, mbind at 1, M_bind at 1, lift at 1. destruct (parseObjectToCfg o) as [cfg|] eqn:Hp; [|done].
  cbn [negb]. unfold mbind at 1, M_bind at 1, setIncrement, mbind at 1, M_bind at 1, get at 1.
  destruct (parse_extract o cfg Hp) as [_ Hid].
  rewrite Hid. set (id := default 0 _). destruct (rId cfg) as [p|] eqn:Hr; [|done].
  unfold mbind, M_bind, lift. destruct (read_path o p) as [old|] eqn:Ho; [|done].
  destruct (Convert id old) as [x|] eqn:Hx; [|done]. cbn [mret M_ret]. unfold modify.
  destruct old as [| |k z| | | | | | | | | | |]; try done. unfold Convert in Hx. injection Hx as Hx.
  match type of Hx with GInteger _ ?z' = _ => set (nz := z') in Hx end. subst x.
  assert (Hne : p <> []).
  { intros ->. cbn in Ho. unfold parseObjectToCfg in Hp. injection Ho as ->. done. }
  pose proof (parse_write o p k z nz cfg Hne Hp Ho) as Hp'.
  set (o1 := write_path o p (GInteger k nz)) in *.
  destruct (structKV o1 o1 (set_id id cfg)) as [[kv1 id1] r1] eqn:Es.
  unfold mret, M_ret. cbv beta iota. rewrite Es. cbv beta iota.
  destruct (ignore_error tt r1) as [[]|]; [|done]. unfold insertKvToDb.
  match goal with |- context [writeBatch ?b ?l] => destruct (writeBatch_eq b l) as (d & Ew & Hd) end.
  rewrite Ew, insertUndoState_recorded. intros [= <- <-] Hkv.
  unfold object_kv in Hkv. rewrite Hp' in Hkv.
  destruct (structKV o1 o1 cfg) as [[kv2 id2] [[]|]] eqn:Es2; [|done]. injection Hkv as <- <-.
  assert (kv1 = kv2 /\ id1 = id2) as [-> ->].
  { pose proof (structKV_id o1 o1 (set_id id cfg) 0) as Hi.
    assert (Hc : set_id 0 (set_id id cfg) = cfg) by (clear -Hid; destruct cfg; cbn in *; by subst).
    rewrite Hc in Hi.
    apply Hi in Es2. rewrite Es in Es2. by injection Es2 as -> -> _. }
  eexists _, id. split; [|done]. exists d. split; [exact Hd|]. reflexivity.
Qed.


Lemma Modify_spec s fn o' ldb ldb' t t' kvo kvn :
  Modify (ref s) fn ldb = (ldb', Ok o') ->
  object_kv (ref s) = Some (t, kvo) -> object_kv o' = Some (t', kvn) ->
  t' = t /\ exists m, Id m = kvId kvo /\ kvmap (OldKv m) = kvmap kvo /\ kvmap (NewKv m) = kvmap kvn /\
    changed (deleteBatch kvo ++ putBatch kvn) t m MODIFY ldb ldb'.
Proof.
  unfold object_kv. destruct (parseObjectToCfg (ref s)) as [cfg|] eqn:Hp; [|done].
  destruct (parse_extract _ _ Hp) as [He Hid].
  destruct (structKV (ref s) (ref s) cfg) as [[kv1 id1] [[]|]] eqn:Es; [|done].
  intros HM [= <- <-]. destruct (parseObjectToCfg o') as [cfg'|] eqn:Hp'; [|done].
  destruct (parse_extract _ _ Hp') as [He' Hid'].
  destruct (structKV o' o' cfg') as [[kv2 id2] [[]|]] eqn:Es'; [|done]. intros [= <- <-].
  revert HM. unfold Modify, ref. unfold mbind at 1, M_bind at 1, lift at 1.
  assert (Hc : cloneInterface (GPtr (zero s) (Some s)) = Ok (ref s)).
  { unfold parseObjectToCfg, ref in Hp. by destruct s. }
  rewrite Hc. unfold mbind at 1, M_bind at 1.
  destruct (modifyRefToKv _ _ ldb) as [ldb1 [[]|]] eqn:Em; [|done]. intros [= <- <-].
  revert Em. unfold modifyRefToKv, mbind, M_bind, lift. rewrite He, He', Hid, Hid'. cbn [negb Z.eqb].
  destruct (String.eqb_spec (Name cfg) (Name cfg')) as [Hn|]; [|done]. cbn [negb].
  rewrite Es, Es'. cbn [ignore_error]. unfold modifyKvToDb.
  match goal with |- context [writeBatch ?b ?l] => destruct (writeBatch_eq b l) as (d & Ew & Hd) end.
  rewrite Ew, insertUndoState_recorded. intros [= <-]. split; [done|].
  eexists. split_and!; [| | |exists d; split; [exact Hd|reflexivity]]; reflexivity.
Qed.

Lemma Db_Remove_spec s ldb ldb' t kv :
  Remove (ref s) ldb = (ldb', Ok tt) -> find ldb "id" (ref s) (ref s) 0 = Ok (ref s) ->
  object_kv (ref s) = Some (t, kv) ->
  changed (deleteBatch kv) t (mkModifyValue (kvId kv) kv kv) REMOVE ldb ldb'.
Proof.
  unfold object_kv. destruct (parseObjectToCfg (ref s)) as [cfg|] eqn:Hp; [|done].
  destruct (structKV (ref s) (ref s) cfg) as [[kv1 id1] [[]|]] eqn:Es; [|done].
  intros HR Hf [= <- <-]. revert HR. unfold Remove, remove, mbind, M_bind, lift, get.
  assert (Hc : cloneInterface (ref s) = Ok (ref s)).
  { unfold parseObjectToCfg, ref in Hp. by destruct s. }
  rewrite Hc, Hf, Hp, Es. cbn [ignore_error]. unfold removeKvToDb.
  match goal with |- context [writeBatch ?b ?l] => destruct (writeBatch_eq b l) as (d & Ew & Hd) end.
  rewrite Ew, insertUndoState_recorded. intros [= <-]. exists d. split; [exact Hd|reflexivity].
Qed.

(** ** The operations on the table *)

(** The steps of a table; the guards are what the unique indices promise. *)
Inductive table_step : table -> table -> Prop :=
| step_insert tbl i x : tbl !! i = None -> typed i x -> unused tbl i x -> table_step tbl (<[i := x]> tbl)
| step_update tbl i x z : tbl !! i = Some x -> typed i z -> unused tbl i z -> table_step tbl (<[i := z]> tbl)
| step_delete tbl i x : tbl !! i = Some x -> table_step tbl (delete i tbl).

Lemma Insert_represents o o' ldb ldb' t kv tbl :
  represents (view ldb) tbl -> Insert o ldb = (ldb', Ok o') -> object_kv o' = Some (t, kv) ->
  no_underscore t = true -> tbl !! (t, kvId kv) = None -> unused tbl (t, kvId kv) (kvmap kv) ->
  represents (view ldb') (<[(t, kvId kv) := kvmap kv]> tbl).
Proof.
  intros Hr Hi Hkv Ht Hn Hu. destruct (Insert_spec _ _ _ _ _ _ Hi Hkv) as (l & id & Hc & _).
  eapply represents_put; [exact Hr|done|by eapply object_kv_typed|done|].
  intros k. rewrite (view_changed _ _ _ _ _ _ k Hc). apply putBatch_at.
Qed.

Lemma Modify_represents s fn o' ldb ldb' t t' kvo kvn tbl :
  represents (view ldb) tbl -> Modify (ref s) fn ldb = (ldb', Ok o') ->
  object_kv (ref s) = Some (t, kvo) -> object_kv o' = Some (t', kvn) ->
  no_underscore t = true -> tbl !! (t, kvId kvo) = Some (kvmap kvo) -> unused tbl (t, kvId kvo) (kvmap kvn) ->
  represents (view ldb') (<[(t, kvId kvo) := kvmap kvn]> tbl).
Proof.
  intros Hr Hm Ho Hn Ht Hi Hu. destruct (Modify_spec _ _ _ _ _ _ _ _ _ Hm Ho Hn) as (-> & m & _ & _ & _ & Hc).
  eapply represents_modify; [exact Hr|exact Hi|reflexivity|by eapply object_kv_typed|done|].
  intros k. rewrite (view_changed _ _ _ _ _ _ k Hc), batch_at_app, putBatch_at, deleteBatch_at. done.
Qed.

Lemma Remove_represents s ldb ldb' t kv tbl :
  represents (view ldb) tbl -> Remove (ref s) ldb = (ldb', Ok tt) ->
  find ldb "id" (ref s) (ref s) 0 = Ok (ref s) -> object_kv (ref s) = Some (t, kv) ->
  tbl !! (t, kvId kv) = Some (kvmap kv) ->
  represents (view ldb') (delete (t, kvId kv) tbl).
Proof.
  intros Hr Hm Hf Ho Hi. pose proof (Db_Remove_spec _ _ _ _ _ Hm Hf Ho) as Hc.
  eapply represents_del; [exact Hr|exact Hi|reflexivity|].
  intros k. rewrite (view_changed _ _ _ _ _ _ k Hc). apply deleteBatch_at.
Qed.


(** ** Finding an object by its id *)

(** What the tags of a storable type satisfy: plain names, every tag once, and the
    index [id] over the id field alone. *)
Record schema_ok (cfg : structInfo) : Prop := {
  schema_type : no_underscore (Name cfg) = true;
  schema_tags : Forall (fun tf => no_underscore tf.1 = true /\ typeName tf.2 = Name cfg) (Fields cfg);
  schema_once : NoDup (Fields cfg).*1;
  schema_id : exists f p, lookup_field tagID (Fields cfg) = Some f /\ unique f = true /\
    fieldValue f = [p] /\ rId cfg = Some p }.

Definition id_bytes (z : Z) : bytes := be_bytes 8 (u64 z).
Definition object_key (t : string) (z : Z) : bytes := splicingString (string_bytes t) (id_bytes z).
Definition id_prefix (t : string) (z : Z) : bytes :=
  splicingString (string_bytes t) (string_bytes tagID) ++ [underscore; underscore] ++ id_bytes z.

(** The object [o] of type [t] has the 64-bit id [z]. *)
Definition has_id (o : gvalue) (t : string) (z : Z) : Prop :=
  exists cfg p, parseObjectToCfg o = Ok cfg /\ schema_ok cfg /\ Name cfg = t /\
    rId cfg = Some p /\ read_path o p = Ok (GInteger KInt64 z) /\ in_s 64 z.

(** The table holds stored objects. *)
Definition objects_of (tbl : table) : Prop :=
  forall t z y, tbl !! (t, z) = Some y -> exists o kv, has_id o t z /\ object_kv o = Some (t, kv) /\ y = kvmap kv.

Lemma decode_id z z' : in_s 64 z -> DecodeBytes (id_bytes z) (GInteger KInt64 z') = Ok (GInteger KInt64 z).
Proof.
  intros Hz. destruct (reads_signed 8 64 z eq_refl ltac:(lia) Hz (newDecoder (id_bytes z)) []) as (d & E & _).
  { rewrite app_nil_r. unfold at_bytes, newDecoder, dunread, len. cbn [dpos ddata deosArray dvuint32].
    rewrite length_be_bytes. done. }
  unfold DecodeBytes. cbn [decode decode_integer]. unfold readInt64, readUint64.
  unfold mbind, M_bind in *. destruct (read_raw 8 (newDecoder (id_bytes z))) as [d1 [b|]]; [|done].
  cbn in *. by injection E as _ ->.
Qed.

Lemma id_bytes_inj z z' : in_s 64 z -> in_s 64 z' -> id_bytes z = id_bytes z' -> z = z'.
Proof.
  intros Hz Hz' E. pose proof (decode_id z 0 Hz) as D. rewrite E, decode_id in D by done. by injection D.
Qed.

Lemma length_id_bytes z : length (id_bytes z) = 8%nat.
Proof. apply length_be_bytes. Qed.

Lemma cfgToKV_ok obj name objId fs : forall kv kv' r,
  cfgToKV obj name objId fs kv = (kv', Ok r) ->
  idk kv' = idk kv /\ exists ks, Forall2 (fun tf k => index_key obj name objId tf.1 tf.2 = Ok k) fs ks /\
    index kv' = index kv ++ map (fun k => mkKv k objId) ks.
Proof.
  induction fs as [|[tag f] fs IH]; intros kv kv' r; cbn [cfgToKV].
  - intros [= <- _]. split; [done|]. exists []. split; [constructor|]. cbn. by rewrite app_nil_r.
  - unfold mbind, M_bind, lift, modify. destruct (index_key obj name objId tag f) as [k|] eqn:Ek; [|done].
    intros E. apply IH in E as [-> (ks & Hks & Hi)]. split; [done|]. exists (k :: ks). split; [by constructor|].
    rewrite Hi. cbn. by rewrite <- app_assoc.
Qed.

Lemma lookup_field_elem tag fs f : lookup_field tag fs = Some f -> (tag, f) ∈ fs.
Proof.
  induction fs as [|[t g] fs IH]; [done|]. cbn [lookup_field].
  destruct (String.eqb_spec t tag) as [->|]; [intros [= ->]; left|right; auto].
Qed.

Lemma field_entry_unique (fs : list (string * fieldInfo)) tag f g :
  NoDup fs.*1 -> (tag, f) ∈ fs -> (tag, g) ∈ fs -> f = g.
Proof.
  induction fs as [|[t h] fs IH]; [by intros _ ?%not_elem_of_nil|]. cbn. rewrite NoDup_cons, !elem_of_cons.
  intros [Hn Hnd] [E1|Hf] [E2|Hg]; simplify_eq; auto.
  - exfalso. apply Hn. exact (list_elem_of_fmap_2 fst _ _ Hg).
  - exfalso. apply Hn. exact (list_elem_of_fmap_2 fst _ _ Hf).
Qed.

Lemma field_values_head obj ps b : field_values obj ps = Ok b -> ps <> [] -> exists r, b = underscore :: underscore :: r.
Proof. destruct ps; [done|]. cbn [field_values]. intros Hb _. inv_ok. eauto. Qed.

(** The entries of a stored object: under its id, and the keys of its indices. *)
Record entries_of (t : string) (z : Z) (kv : dbKeyValue) : Prop := {
  en_id : kvId kv = z;
  en_range : in_s 64 z;
  en_idk : key (idk kv) = object_key t z;
  en_has : mkKv (id_prefix t z ++ [underscore]) (id_bytes z) ∈ index kv;
  en_index e : e ∈ index kv -> value e = id_bytes z /\ exists tag r,
    no_underscore tag = true /\ key e = splicingString (string_bytes t) (string_bytes tag ++ underscore :: r) /\
    (tag = tagID -> key e = id_prefix t z ++ [underscore]) }.

(** Every index key starts with its type and tag. *)
Lemma index_key_shape o t i tag f k : index_key o t i tag f = Ok k ->
  exists r, k = splicingString (string_bytes t) (string_bytes tag ++ underscore :: r).
Proof.
  unfold index_key. intros (suffix & Hs & [= <-])%bind_Ok.
  assert (exists r, suffix ++ (if negb (unique f) && (length (fieldValue f) =? 1)%nat then i else [])
    ++ [underscore] = underscore :: r) as [r ->]; [|by exists r].
  unfold fieldValueToByte in Hs. rewrite Nat.sub_0_r, firstn_all in Hs. destruct (fieldValue f) as [|q qs].
  - cbn in Hs. injection Hs as <-. cbn. rewrite andb_false_r. eauto.
  - destruct (field_values_head _ _ _ Hs ltac:(done)) as [r ->]. cbn. eauto.
Qed.

(** What [structKV] writes for an object with an id: one key per tag. *)
Lemma object_kv_fields o cfg p z kv t :
  parseObjectToCfg o = Ok cfg -> rId cfg = Some p -> read_path o p = Ok (GInteger KInt64 z) -> in_s 64 z ->
  object_kv o = Some (t, kv) ->
  t = Name cfg /\ kvId kv = z /\ key (idk kv) = object_key t z /\
  exists ks, Forall2 (fun tf k => index_key o t (id_bytes z) tf.1 tf.2 = Ok k) (Fields cfg) ks /\
    index kv = map (fun k => mkKv k (id_bytes z)) ks.
Proof.
  intros Hp Hr Hread Hz. unfold object_kv. rewrite Hp. unfold structKV. rewrite Hr.
  destruct (Marshal o) as [ov|]; [|done]. rewrite Hread. cbn [mbind result_bind].
  change (Marshal (GInteger KInt64 z)) with (Ok (id_bytes z)). cbv iota. rewrite decode_id by done.
  destruct (cfgToKV _ _ _ _ _) as [kv' [u|]] eqn:Ec; [|done]. intros [= <- <-].
  apply cfgToKV_ok in Ec as [Hidk (ks & Hks & Hidx)]. cbn [index idk] in *.
  split_and!; [done..|by cbn; rewrite Hidk|]. by exists ks.
Qed.

Lemma object_entries o t z kv : has_id o t z -> object_kv o = Some (t, kv) -> entries_of t z kv.
Proof.
  intros (cfg & p & Hp & [Ht Htags Honce (f & p' & Hf & Hu & Hfv & Hp')] & <- & Hr & Hread & Hz) Ho.
  rewrite Hr in Hp'. injection Hp' as <-.
  destruct (object_kv_fields _ _ _ _ _ _ Hp Hr Hread Hz Ho) as (_ & Hid & Hidk & ks & Hks & Hidx).
  assert (Hidkey : index_key o (Name cfg) (id_bytes z) tagID f = Ok (id_prefix (Name cfg) z ++ [underscore])).
  { unfold index_key, fieldValueToByte. rewrite Hfv. cbn [length Nat.sub take field_values]. rewrite Hread.
    cbn [mbind result_bind]. change (Marshal (GInteger KInt64 z)) with (Ok (id_bytes z)). cbn [mbind result_bind].
    rewrite Hu, app_nil_r. cbn [negb andb]. unfold id_prefix, splicingString. by rewrite <- !app_assoc. }
  split; [done|done|done| |].
  - rewrite Hidx. apply lookup_field_elem, list_elem_of_lookup in Hf as [n Hn].
    destruct (Forall2_lookup_l _ _ _ _ _ Hks Hn) as (k & Hk & Ek). cbn [fst snd] in Ek. rewrite Hidkey in Ek.
    injection Ek as <-. apply list_elem_of_lookup_2 in Hk.
    exact (list_elem_of_fmap_2 (fun k => mkKv k (id_bytes z)) _ _ Hk).
  - intros e. rewrite Hidx. intros (k & -> & Hk)%list_elem_of_fmap. split; [done|]. cbn [key].
    apply list_elem_of_lookup in Hk as [n Hn]. destruct (Forall2_lookup_r _ _ _ _ _ Hks Hn) as ([tag g] & Hg & Ek).
    apply list_elem_of_lookup_2 in Hg. rewrite Forall_forall in Htags. destruct (Htags _ Hg) as [Hnu _].
    cbn [fst snd] in *. exists tag. destruct (index_key_shape _ _ _ _ _ _ Ek) as [r Hshape].
    exists r. split_and!; [done|done|]. intros ->.
    assert (f = g) as -> by (eapply field_entry_unique; [exact Honce|by apply lookup_field_elem|done]).
    congruence.
Qed.

Lemma app_prefix_inj {A} (a b c d : list A) : length a = length b -> a ++ c = b ++ d -> a = b /\ c = d.
Proof. intros. by apply app_inj_1. Qed.

(** A key of the table that starts like the id index of [t] and [z] is that entry. *)
Lemma id_prefix_only tbl t z j y k v :
  objects_of tbl -> table_ok tbl -> no_underscore t = true -> in_s 64 z ->
  tbl !! j = Some y -> y !! k = Some v -> has_prefix (id_prefix t z) k = true ->
  j = (t, z) /\ k = id_prefix t z ++ [underscore].
Proof.
  intros Hobj Hok Ht Hz Hj Hk Hpre. destruct j as [t' z']. destruct (Hobj t' z' y Hj) as (o & kv & Hid & Hkv & ->).
  pose proof (object_entries o t' z' kv Hid Hkv) as [_ Hz' Hidk _ Hidx].
  apply bool_decide_eq_true in Hpre.
  assert (exists r, k = id_prefix t z ++ r) as [r ->].
  { exists (drop (length (id_prefix t z)) k). rewrite <- Hpre at 1. by rewrite take_drop. }
  assert (Htype : type_of (id_prefix t z ++ r) = Some (string_bytes t)).
  { unfold id_prefix, splicingString. rewrite <- !app_assoc. by apply type_of_key. }
  assert (t' = t) as ->.
  { pose proof (ok_typed _ Hok _ _ Hj (id_prefix t z ++ r) ltac:(by rewrite Hk)) as H1. cbn in H1.
    rewrite Htype in H1. apply string_bytes_inj. congruence. }
  assert (Hin : is_Some (kvmap kv !! (id_prefix t z ++ r))) by (by rewrite Hk).
  apply kvmap_lookup in Hin as (e & He & Hke). apply elem_of_app in He as [He|He].
  - destruct (Hidx e He) as (_ & tag & r' & Hnu & Hshape & Htag). rewrite Hke in Hshape, Htag.
    assert (tag = tagID) as ->.
    { unfold id_prefix, splicingString in Hshape. rewrite <- !app_assoc in Hshape.
      apply app_inv_head in Hshape. apply app_inv_head in Hshape. cbn [app] in Hshape.
      apply (f_equal before_underscore) in Hshape.
      rewrite !before_underscore_app in Hshape by done. symmetry. by apply string_bytes_inj. }
    specialize (Htag eq_refl). unfold id_prefix in Htag. rewrite <- !app_assoc in Htag.
    do 2 apply app_inv_head in Htag.
    apply app_prefix_inj in Htag as [Hzz ->]; [|by rewrite !length_id_bytes].
    apply id_bytes_inj in Hzz as ->; done.
  - apply list_elem_of_singleton in He as ->. rewrite Hidk in Hke. exfalso.
    apply (f_equal length) in Hke. unfold object_key, id_prefix, splicingString in Hke.
    rewrite !length_app, !length_id_bytes in Hke. cbn in Hke. lia.
Qed.

Lemma getFieldInfo_id o t z : has_id o t z -> exists f p,
  getFieldInfo tagID o = Ok f /\ fieldValue f = [p] /\ typeName f = t /\ read_path o p = Ok (GInteger KInt64 z).
Proof.
  intros (cfg & p & Hp & [Ht Htags Honce (f & p' & Hf & Hu & Hfv & Hp')] & <- & Hr & Hread & Hz).
  rewrite Hr in Hp'. injection Hp' as <-. exists f, p.
  assert (typeName f = Name cfg).
  { apply lookup_field_elem in Hf. rewrite Forall_forall in Htags. apply (Htags _ Hf). }
  split_and!; try done. destruct (parse_extract _ _ Hp) as [He _].
  unfold parseObjectToCfg in Hp. destruct o as [| | | | | | | | | | |e [[]|]| |]; try done.
  unfold extractObjectTagInfo in He. rewrite extract_GPtr in He.
  unfold getFieldInfo. cbn [Elem]. unfold extractObjectTagInfo. rewrite extract_GStruct, He. cbn. by rewrite Hf.
Qed.

Lemma id_key_lengths t z r : object_key t z <> id_prefix t z ++ r.
Proof.
  intros E%(f_equal length). unfold object_key, id_prefix, splicingString in E.
  rewrite !length_app, !length_id_bytes in E. cbn in E. lia.
Qed.

Lemma entries_lookup t z kv : entries_of t z kv ->
  kvmap kv !! (id_prefix t z ++ [underscore]) = Some (id_bytes z) /\ is_Some (kvmap kv !! object_key t z).
Proof.
  intros [_ _ Hidk Hhas Hidx]. split; [|rewrite <- Hidk; apply kvmap_nonempty].
  destruct (kvmap kv !! (id_prefix t z ++ [underscore])) as [v|] eqn:E.
  - unfold kvmap in E. apply elem_of_list_to_map_2 in E. rewrite elem_of_reverse in E.
    unfold entries in E. apply list_elem_of_fmap in E as (e & [= Hke ->] & He).
    apply elem_of_app in He as [He|He]; [by destruct (Hidx e He) as [-> _]|].
    apply list_elem_of_singleton in He as ->. rewrite Hidk in Hke. by apply symmetry, id_key_lengths in Hke.
  - exfalso. assert (is_Some (kvmap kv !! (id_prefix t z ++ [underscore]))) as [? E']; [|by rewrite E in E'].
    apply kvmap_lookup. exists (mkKv (id_prefix t z ++ [underscore]) (id_bytes z)). set_solver.
Qed.

Lemma type_of_prefix t z k : no_underscore t = true -> has_prefix (id_prefix t z) k = true -> is_Some (type_of k).
Proof.
  intros Ht Hpre%bool_decide_eq_true.
  assert (k = id_prefix t z ++ drop (length (id_prefix t z)) k) as -> by (rewrite <- Hpre at 1; by rewrite take_drop).
  unfold id_prefix, splicingString. rewrite <- !app_assoc. cbn [app]. by rewrite type_of_key.
Qed.

(** The first entry that starts like the id index of [t] and [z]. *)
Lemma id_prefix_entries ldb tbl t z :
  represents (view ldb) tbl -> objects_of tbl -> no_underscore t = true -> in_s 64 z ->
  match prefix_entries ldb (id_prefix t z) with
  | [] => tbl !! (t, z) = None
  | (k, v) :: _ => v = id_bytes z /\ exists y, tbl !! (t, z) = Some y /\ is_Some (y !! object_key t z)
  end.
Proof.
  intros Hr Hobj Ht Hz.
  assert (Hhas : forall y, tbl !! (t, z) = Some y ->
    y !! (id_prefix t z ++ [underscore]) = Some (id_bytes z) /\ is_Some (y !! object_key t z)).
  { intros y Hy. destruct (Hobj t z y Hy) as (o & kv & Hid & Hkv & ->).
    by apply entries_lookup, (object_entries o). }
  destruct (prefix_entries ldb (id_prefix t z)) as [|[k v] l] eqn:Ef.
  - destruct (tbl !! (t, z)) as [y|] eqn:Ey; [|done]. destruct (Hhas y eq_refl) as [Hv _].
    exfalso. apply (not_elem_of_nil (id_prefix t z ++ [underscore], id_bytes z)). rewrite <- Ef.
    apply list_elem_of_filter. split; [|by apply Entries_Get, (rep_owned _ _ Hr _ _ _ _ Ey)].
    apply bool_decide_eq_true. cbn. by rewrite take_app_length.
  - assert (Hin : (k, v) ∈ prefix_entries ldb (id_prefix t z)) by (rewrite Ef; left).
    apply list_elem_of_filter in Hin as [Hpre Hg]. apply Entries_Get in Hg. cbn in Hpre.
    destruct (rep_owner _ _ Hr k v (type_of_prefix t z k Ht Hpre) Hg) as (j & y & Hj & Hy).
    destruct (id_prefix_only tbl t z j y k v Hobj (rep_ok _ _ Hr) Ht Hz Hj Hy Hpre) as [-> ->].
    destruct (Hhas y Hj) as [Hv Ho]. rewrite Hv in Hy. injection Hy as <-. eauto.
Qed.

(** [find] by the index [id], as a lookup in the table. *)
Lemma find_id ldb tbl o t z to_ :
  represents (view ldb) tbl -> objects_of tbl -> has_id o t z ->
  find ldb tagID o to_ 0 =
    match tbl !! (t, z) ≫= (fun y => y !! object_key t z) with
    | Some v => decode_to v to_
    | None => Throw ErrNotFound
    end.
Proof.
  intros Hr Hobj Hid. destruct (getFieldInfo_id o t z Hid) as (f & p & Hgf & Hfv & Htn & Hread).
  destruct Hid as (cfg & _ & _ & [Ht _ _ _] & <- & _ & _ & Hz).
  unfold find. rewrite Hgf. cbn [mbind result_bind]. unfold fieldValueToByte. rewrite Hfv.
  cbn [length Nat.sub take field_values]. rewrite Hread. cbn [mbind result_bind].
  change (Marshal (GInteger KInt64 z)) with (Ok (id_bytes z)). cbn [mbind result_bind]. rewrite app_nil_r.
  rewrite (proj2 (Z.eqb_neq _ _)) by (unfold len; cbn; lia). rewrite Htn.
  change (splicingString (string_bytes (Name cfg)) (string_bytes tagID) ++ [underscore; underscore] ++ id_bytes z)
    with (id_prefix (Name cfg) z).
  pose proof (id_prefix_entries ldb tbl (Name cfg) z Hr Hobj Ht Hz) as Hp.
  destruct (prefix_entries ldb (id_prefix (Name cfg) z)) as [|[k v] l].
  - by rewrite Hp.
  - destruct Hp as (-> & y & Hy & ov & Ho). rewrite Hy. cbn. rewrite Ho. unfold findFields.
    change (Get (db ldb) _) with (view ldb (object_key (Name cfg) z)).
    by rewrite (rep_owned _ _ Hr _ _ _ _ Hy Ho).
Qed.

End Operations.
