(* ===== verification/DbUndo.v ===== *)
(** * DbUndo: what an undo container stands for, and what undoing it does

    A container on the undo stack describes the difference between two tables: the one
    at the start of its session and the current one.  [tracks] is that relation; the
    changes keep it under the conditions spelled out at [change_ok], and [Undo] leads
    from the current table back to the one at the start. *)

From S2P Require Import Prelude Bytes Rlp Ecc DbPack DbSchema Database DbTable.

(** ** Containers and tables *)

Section Lookups.
Variable c : undoContainer.

Definition New (i : oid) : option modifyValue := Undo c !! i.1 ≫= (fun u => NewValue u !! i.2).
Definition Removed (i : oid) : option modifyValue := Undo c !! i.1 ≫= (fun u => RemoveValue u !! i.2).
Definition Old (i : oid) : option modifyValue := Undo c !! i.1 ≫= (fun u => OldValue u !! i.2).

End Lookups.

(** The container [c] leads from the table [tbl] back to [tbl0].  A new object is
    deleted by the keys it was inserted with and a modified one by the keys of its first
    modification, so the current version must have these keys; and the keys a
    modified object had at the start must not be in use by another object. *)
Record tracks (c : undoContainer) (tbl0 tbl : table) : Prop := {
  tr_new i m : New c i = Some m ->
    tbl0 !! i = None /\ exists x, tbl !! i = Some x /\ dom x = dom (kvmap (NewKv m));
  tr_removed i m : Removed c i = Some m -> tbl0 !! i = Some (kvmap (NewKv m)) /\ tbl !! i = None;
  tr_old i m : Old c i = Some m ->
    tbl0 !! i = Some (kvmap (OldKv m)) /\ exists x, tbl !! i = Some x /\ dom x = dom (kvmap (NewKv m));
  tr_same i : New c i = None -> Removed c i = None -> Old c i = None -> tbl0 !! i = tbl !! i;
  tr_reserved i m j y k : Old c i = Some m -> j <> i -> tbl !! j = Some y ->
    is_Some (kvmap (OldKv m) !! k) -> y !! k = None }.

(** ** Folds in which at most one element acts *)

Lemma fold_none {A B} (h : A -> B -> B) (l : list A) : forall v,
  (forall y w, y ∈ l -> h y w = w) -> fold_left (fun w y => h y w) l v = v.
Proof.
  induction l as [|a l IH]; intros v Hl; [done|]. cbn [fold_left]. rewrite (Hl a v) by left.
  apply IH. intros y w Hy. apply Hl. by right.
Qed.

Lemma fold_one {A B} (h : A -> B -> B) (l : list A) x : forall v,
  NoDup l -> x ∈ l -> (forall y w, y ∈ l -> y <> x -> h y w = w) -> fold_left (fun w y => h y w) l v = h x v.
Proof.
  induction l as [|a l IH]; intros v Hnd Hx Hl; [by apply not_elem_of_nil in Hx|].
  apply NoDup_cons in Hnd as [Ha Hnd]. cbn [fold_left]. apply elem_of_cons in Hx as [->|Hx].
  - apply fold_none. intros y w Hy. apply Hl; [by right|]. by intros ->.
  - assert (a <> x) by (by intros ->). rewrite (Hl a v) by (done || left).
    apply IH; [done..|]. intros y w Hy. apply Hl. by right.
Qed.

Section Ranges.
Context `{RangeOrder}.

Lemma elem_of_range_ids m z x : (z, x) ∈ range_ids m <-> m !! z = Some x.
Proof. rewrite range_ids_perm. apply elem_of_map_to_list. Qed.
Lemma NoDup_range_ids m : NoDup (range_ids m).
Proof. rewrite range_ids_perm. apply NoDup_map_to_list. Qed.
Lemma elem_of_range_types m t x : (t, x) ∈ range_types m <-> m !! t = Some x.
Proof. rewrite range_types_perm. apply elem_of_map_to_list. Qed.
Lemma NoDup_range_types m : NoDup (range_types m).
Proof. rewrite range_types_perm. apply NoDup_map_to_list. Qed.

(** ** The value under one key while [Undo] runs *)

Definition undo_old_at (k : bytes) (e : Z * modifyValue) (v : option bytes) : option bytes :=
  put_at (kvmap (OldKv e.2)) k (del_at (kvmap (NewKv e.2)) k v).
Definition undo_new_at (k : bytes) (e : Z * modifyValue) (v : option bytes) : option bytes :=
  del_at (kvmap (NewKv e.2)) k v.
Definition undo_removed_at (k : bytes) (e : Z * modifyValue) (v : option bytes) : option bytes :=
  put_at (kvmap (NewKv e.2)) k v.

Definition undo_type_at (k : bytes) (u : undoState) (v : option bytes) : option bytes :=
  let v := fold_left (fun v e => undo_old_at k e v) (range_ids (OldValue u)) v in
  let v := fold_left (fun v e => undo_new_at k e v) (range_ids (NewValue u)) v in
  fold_left (fun v e => undo_removed_at k e v) (range_ids (RemoveValue u)) v.

Definition undo_at (k : bytes) (c : undoContainer) (v : option bytes) : option bytes :=
  fold_left (fun v e => undo_type_at k e.2 v) (range_types (Undo c)) v.

(** The three loops for a key that belongs to the type [t]. *)
Section Steps.
Variables (c : undoContainer) (tbl0 tbl : table) (t : string) (u : undoState) (k : bytes).
Hypothesis Htr : tracks c tbl0 tbl.
Hypothesis Hok0 : table_ok tbl0.
Hypothesis Hok : table_ok tbl.
Hypothesis Hu : Undo c !! t = Some u.

Lemma New_at z m : NewValue u !! z = Some m <-> New c (t, z) = Some m.
Proof using Hu. unfold New. cbn. by rewrite Hu. Qed.
Lemma Removed_at z m : RemoveValue u !! z = Some m <-> Removed c (t, z) = Some m.
Proof using Hu. unfold Removed. cbn. by rewrite Hu. Qed.
Lemma Old_at z m : OldValue u !! z = Some m <-> Old c (t, z) = Some m.
Proof using Hu. unfold Old. cbn. by rewrite Hu. Qed.

(** Two objects of one table do not share the key. *)
Lemma owner_unique (tb : table) i j x y : table_ok tb -> tb !! i = Some x -> tb !! j = Some y ->
  is_Some (x !! k) -> is_Some (y !! k) -> i = j.
Proof using.
  intros Hokt Hi Hj Hx [v Hy]. destruct (decide (i = j)) as [|Hne]; [done|].
  rewrite (ok_disjoint _ Hokt i x Hi j y k Hj ltac:(congruence) Hx) in Hy. done.
Qed.

Lemma same_dom {x y : gmap bytes bytes} : dom x = dom y -> is_Some (y !! k) -> is_Some (x !! k).
Proof using. rewrite <- !elem_of_dom. by intros ->. Qed.

Lemma removed_step z m w v : Removed c (t, z) = Some m -> kvmap (NewKv m) !! k = Some w ->
  fold_left (fun v e => undo_removed_at k e v) (range_ids (RemoveValue u)) v = Some w.
Proof using Htr Hok0 Hu.
  intros Hr Hk. rewrite (fold_one (undo_removed_at k) _ (z, m)).
  - unfold undo_removed_at, put_at. cbn. by rewrite Hk.
  - apply NoDup_range_ids.
  - by apply elem_of_range_ids, Removed_at.
  - intros [z' m'] w' Hin Hne. unfold undo_removed_at, put_at. cbn. apply elem_of_range_ids, Removed_at in Hin.
    destruct (kvmap (NewKv m') !! k) eqn:E; [|done]. exfalso. apply Hne.
    assert ((t, z') = (t, z)) as [= ->]; [|congruence].
    eapply owner_unique; [exact Hok0|apply (tr_removed _ _ _ Htr _ _ Hin)|apply (tr_removed _ _ _ Htr _ _ Hr)|by rewrite E|by rewrite Hk].
Qed.

Lemma removed_idle v : (forall z m, Removed c (t, z) = Some m -> kvmap (NewKv m) !! k = None) ->
  fold_left (fun v e => undo_removed_at k e v) (range_ids (RemoveValue u)) v = v.
Proof using Hu.
  intros Hn. apply (fold_none (undo_removed_at k)). intros [z m] w Hin%elem_of_range_ids%Removed_at.
  unfold undo_removed_at, put_at. cbn. by rewrite (Hn z m Hin).
Qed.

Lemma new_idle v : (forall z m, New c (t, z) = Some m -> kvmap (NewKv m) !! k = None) ->
  fold_left (fun v e => undo_new_at k e v) (range_ids (NewValue u)) v = v.
Proof using Hu.
  intros Hn. apply (fold_none (undo_new_at k)). intros [z m] w Hin%elem_of_range_ids%New_at.
  unfold undo_new_at, del_at. cbn. by rewrite (Hn z m Hin).
Qed.

(** Deleting keeps a key absent, and the keys of a new object become absent. *)
Lemma new_absent (l : list (Z * modifyValue)) : fold_left (fun v e => undo_new_at k e v) l None = None.
Proof using. induction l as [|e l IH]; [done|]. cbn [fold_left]. unfold undo_new_at at 2, del_at. by case_match. Qed.

Lemma new_step z m v : New c (t, z) = Some m -> is_Some (kvmap (NewKv m) !! k) ->
  fold_left (fun v e => undo_new_at k e v) (range_ids (NewValue u)) v = None.
Proof using Hu Htr Hok.
  intros Hr Hk. rewrite (fold_one (undo_new_at k) _ (z, m)).
  - unfold undo_new_at, del_at. cbn. by destruct Hk as [? ->].
  - apply NoDup_range_ids.
  - by apply elem_of_range_ids, New_at.
  - intros [z' m'] w' Hin Hne. unfold undo_new_at, del_at. cbn. apply elem_of_range_ids, New_at in Hin.
    destruct (kvmap (NewKv m') !! k) eqn:E; [|done]. exfalso. apply Hne.
    destruct (tr_new _ _ _ Htr _ _ Hin) as (_ & x & Hx & Hdx). destruct (tr_new _ _ _ Htr _ _ Hr) as (_ & y & Hy & Hdy).
    assert ((t, z') = (t, z)) as [= ->]; [|congruence].
    eapply (owner_unique tbl); [done|done|done|apply (same_dom Hdx); by rewrite E|by apply (same_dom Hdy)].
Qed.

Lemma old_idle v :
  (forall z m, Old c (t, z) = Some m -> kvmap (OldKv m) !! k = None /\ kvmap (NewKv m) !! k = None) ->
  fold_left (fun v e => undo_old_at k e v) (range_ids (OldValue u)) v = v.
Proof using Hu.
  intros Hn. apply (fold_none (undo_old_at k)). intros [z m] w Hin%elem_of_range_ids%Old_at.
  unfold undo_old_at, put_at, del_at. cbn. destruct (Hn z m Hin) as [-> ->]. done.
Qed.

(** The modified object that had the key at the start gets it back. *)
Lemma old_step z m w v : Old c (t, z) = Some m -> kvmap (OldKv m) !! k = Some w ->
  fold_left (fun v e => undo_old_at k e v) (range_ids (OldValue u)) v = Some w.
Proof using Htr Hok0 Hu.
  intros Hr Hk. rewrite (fold_one (undo_old_at k) _ (z, m)).
  - unfold undo_old_at, put_at. cbn. by rewrite Hk.
  - apply NoDup_range_ids.
  - by apply elem_of_range_ids, Old_at.
  - intros [z' m'] w' Hin Hne. apply elem_of_range_ids, Old_at in Hin.
    destruct (tr_old _ _ _ Htr _ _ Hin) as (H0 & x & Hx & Hdx). destruct (tr_old _ _ _ Htr _ _ Hr) as (H0' & _).
    assert (Hzz : (t, z') <> (t, z)) by (intros [= ->]; congruence).
    unfold undo_old_at, put_at, del_at. cbn.
    destruct (kvmap (OldKv m') !! k) eqn:E.
    { exfalso. apply Hzz. eapply (owner_unique tbl0); [done|done|done|by rewrite E|by rewrite Hk]. }
    destruct (kvmap (NewKv m') !! k) eqn:E'; [|done]. exfalso.
    assert (is_Some (x !! k)) as [? Hxk] by (apply (same_dom Hdx); by rewrite E').
    rewrite (tr_reserved _ _ _ Htr _ _ _ _ k Hr Hzz Hx) in Hxk; [done|by rewrite Hk].
Qed.

(** A key nobody had at the start: deleted with the modified object that has it now. *)
Lemma old_absent v :
  (forall z m, Old c (t, z) = Some m -> kvmap (OldKv m) !! k = None) ->
  (v <> None -> exists z m, Old c (t, z) = Some m /\ is_Some (kvmap (NewKv m) !! k)) ->
  fold_left (fun v e => undo_old_at k e v) (range_ids (OldValue u)) v = None.
Proof using Hu.
  clear Htr Hok0 Hok tbl0 tbl. intros Hn Hv.
  assert (Hkeep : forall l : list (Z * modifyValue), (forall e, e ∈ l -> Old c (t, e.1) = Some e.2) ->
    fold_left (fun v e => undo_old_at k e v) l None = None).
  { induction l as [|e l IH]; intros Hl; [done|]. cbn [fold_left]. unfold undo_old_at at 2, put_at, del_at.
    rewrite (Hn e.1 e.2) by (apply Hl; left). destruct (kvmap (NewKv e.2) !! k); (apply IH; intros e' He'; apply Hl; by right). }
  assert (Hall : forall e, e ∈ range_ids (OldValue u) -> Old c (t, e.1) = Some e.2)
    by (intros [z m]; rewrite elem_of_range_ids, Old_at; done).
  destruct v as [v|]; [|by apply Hkeep]. destruct (Hv ltac:(done)) as (z & m & Ho & Hk).
  apply Old_at, elem_of_range_ids, list_elem_of_split in Ho as (l1 & l2 & El). rewrite El in *.
  rewrite fold_left_app. cbn [fold_left].
  assert (undo_old_at k (z, m) (fold_left (fun v e => undo_old_at k e v) l1 (Some v)) = None) as ->.
  { unfold undo_old_at at 1, put_at, del_at. cbn [snd].
    rewrite (Hn z m) by (apply (Hall (z, m)); set_solver). by destruct Hk as [? ->]. }
  apply Hkeep. intros e He. apply Hall. set_solver.
Qed.

(** A key of another type is left alone. *)
Lemma other_type v : type_of k <> Some (string_bytes t) -> undo_type_at k u v = v.
Proof using Htr Hok0 Hok Hu.
  intros Ht. unfold undo_type_at.
  assert (Hty : forall (tb : table) z x (y : gmap bytes bytes), table_ok tb -> tb !! (t, z) = Some x -> dom x = dom y -> y !! k = None).
  { intros tb z x y Ht' Hx Hd. destruct (y !! k) eqn:E; [|done]. exfalso. apply Ht.
    apply (ok_typed _ Ht' _ _ Hx). apply (same_dom Hd). by rewrite E. }
  rewrite old_idle, new_idle, removed_idle; [done| | |].
  - intros z m Hr. by eapply Hty; [exact Hok0|apply (tr_removed _ _ _ Htr _ _ Hr)|].
  - intros z m Hr. destruct (tr_new _ _ _ Htr _ _ Hr) as (_ & x & Hx & Hd). by eapply Hty; [exact Hok|exact Hx|].
  - intros z m Hr. destruct (tr_old _ _ _ Htr _ _ Hr) as (H0 & x & Hx & Hd).
    split; [by eapply Hty; [exact Hok0|exact H0|]|by eapply Hty; [exact Hok|exact Hx|]].
Qed.

(** The key belonged to an object at the start. *)
Lemma undo_type_owned z x w v : tbl0 !! (t, z) = Some x -> x !! k = Some w ->
  (forall j y, tbl !! j = Some y -> is_Some (y !! k) -> v = y !! k) -> undo_type_at k u v = Some w.
Proof using Htr Hok0 Hok Hu.
  intros Hx Hk Hv. unfold undo_type_at.
  assert (Hone : forall z' (y : gmap bytes bytes), z' <> z -> tbl0 !! (t, z') = Some y -> y !! k = None).
  { intros z' y Hne Hy. destruct (y !! k) eqn:E; [|done]. exfalso. apply Hne.
    assert ((t, z') = (t, z)) as [= ->]; [|done].
    eapply owner_unique; [exact Hok0|done|done|by rewrite E|by rewrite Hk]. }
  destruct (Removed c (t, z)) as [m|] eqn:Er.
  { eapply removed_step; [done|]. destruct (tr_removed _ _ _ Htr _ _ Er) as [H0 _]. congruence. }
  rewrite removed_idle.
  2: { intros z' m Hr. destruct (decide (z' = z)) as [->|Hne]; [congruence|].
       by eapply (Hone z'); [|apply (tr_removed _ _ _ Htr _ _ Hr)]. }
  destruct (New c (t, z)) as [m|] eqn:En.
  { destruct (tr_new _ _ _ Htr _ _ En) as [H0 _]. congruence. }
  destruct (Old c (t, z)) as [m|] eqn:Eo.
  - destruct (tr_old _ _ _ Htr _ _ Eo) as (H0 & _). assert (Hm : kvmap (OldKv m) !! k = Some w) by congruence.
    rewrite new_idle; [by eapply old_step|]. intros z' m' Hn. destruct (tr_new _ _ _ Htr _ _ Hn) as (H0' & y & Hy & Hd).
    assert (Hne : (t, z') <> (t, z)) by (intros [= ->]; congruence).
    pose proof (tr_reserved _ _ _ Htr _ _ _ _ k Eo Hne Hy ltac:(by rewrite Hm)) as Hyk.
    destruct (kvmap (NewKv m') !! k) eqn:E; [|done].
    assert (is_Some (y !! k)) as [? ?] by (apply (same_dom Hd); by rewrite E). congruence.
  - pose proof (tr_same _ _ _ Htr _ En Er Eo) as Hs. rewrite Hx in Hs. symmetry in Hs.
    assert (Hcur : forall z' y (x' : gmap bytes bytes), (t, z') <> (t, z) -> tbl !! (t, z') = Some y -> dom y = dom x' -> x' !! k = None).
    { intros z' y x' Hne Hy Hd. destruct (x' !! k) eqn:E; [|done]. exfalso. apply Hne.
      eapply (owner_unique tbl); [exact Hok|done|done| |by rewrite Hk]. apply (same_dom Hd). by rewrite E. }
    rewrite new_idle, old_idle.
    + rewrite (Hv _ _ Hs); [done|by rewrite Hk].
    + intros z' m Ho. destruct (tr_old _ _ _ Htr _ _ Ho) as (H0 & y & Hy & Hd).
      assert (z' <> z) by (intros ->; congruence). split; [by eapply Hone|]. eapply (Hcur z'); [by intros [= ->]|done|done].
    + intros z' m Hn. destruct (tr_new _ _ _ Htr _ _ Hn) as (_ & y & Hy & Hd).
      eapply Hcur; [|done|done]. intros [= ->]. congruence.
Qed.

(** Nobody had the key at the start. *)
Lemma undo_type_free v : (forall z x, tbl0 !! (t, z) = Some x -> x !! k = None) ->
  (v <> None -> exists z y, tbl !! (t, z) = Some y /\ is_Some (y !! k)) -> undo_type_at k u v = None.
Proof using Htr Hok0 Hok Hu.
  intros Hfree Hv. unfold undo_type_at.
  rewrite removed_idle by (intros z m Hr; apply (Hfree z), (tr_removed _ _ _ Htr _ _ Hr)).
  destruct (decide (v = None)) as [->|Hne].
  { rewrite old_absent; [apply new_absent| |done].
    intros z m Ho. apply (Hfree z), (tr_old _ _ _ Htr _ _ Ho). }
  destruct (Hv Hne) as (z & y & Hy & Hk).
  destruct (New c (t, z)) as [m|] eqn:En.
  { destruct (tr_new _ _ _ Htr _ _ En) as (_ & y' & Hy' & Hd). assert (y' = y) as -> by congruence.
    eapply new_step; [done|]. symmetry in Hd. by apply (same_dom Hd). }
  destruct (Old c (t, z)) as [m|] eqn:Eo.
  - rewrite old_absent; [apply new_absent| |].
    + intros z' m' Ho. apply (Hfree z'), (tr_old _ _ _ Htr _ _ Ho).
    + intros _. exists z, m. split; [done|]. destruct (tr_old _ _ _ Htr _ _ Eo) as (_ & y' & Hy' & Hd).
      assert (y' = y) as -> by congruence. symmetry in Hd. by apply (same_dom Hd).
  - destruct (Removed c (t, z)) as [m|] eqn:Er; [destruct (tr_removed _ _ _ Htr _ _ Er); congruence|].
    pose proof (tr_same _ _ _ Htr _ En Er Eo) as Hs. rewrite Hy in Hs.
    destruct Hk as [? Hk]. by rewrite (Hfree z y Hs) in Hk.
Qed.

End Steps.

(** ** Undoing a container *)

Section UndoAt.
Variables (c : undoContainer) (tbl0 tbl : table).
Hypothesis Htr : tracks c tbl0 tbl.
Hypothesis Hok0 : table_ok tbl0.
Hypothesis Hok : table_ok tbl.

Lemma undo_at_type t u k v : Undo c !! t = Some u -> type_of k = Some (string_bytes t) ->
  undo_at k c v = undo_type_at k u v.
Proof using Htr Hok0 Hok.
  intros Hu Hk. unfold undo_at.
  rewrite (fold_one (fun e v => undo_type_at k e.2 v) _ (t, u)); [done|apply NoDup_range_types|by apply elem_of_range_types|].
  intros [t' u'] w Hin Hne. apply elem_of_range_types in Hin. eapply other_type; [done..|].
  intros E. rewrite Hk in E. injection E as E. apply string_bytes_inj in E as <-. congruence.
Qed.

Lemma undo_at_idle k v : (forall t u, Undo c !! t = Some u -> type_of k <> Some (string_bytes t)) -> undo_at k c v = v.
Proof using Htr Hok0 Hok.
  intros Hn. apply (fold_none (fun e v => undo_type_at k e.2 v)). intros [t u] w Hin%elem_of_range_types.
  eapply other_type; [done..|]. by eapply Hn.
Qed.

(** An object whose type has no undo state has not changed. *)
Lemma untouched_type t z : Undo c !! t = None -> tbl0 !! (t, z) = tbl !! (t, z).
Proof using Htr. intros Hu. apply (tr_same _ _ _ Htr); unfold New, Removed, Old; cbn; by rewrite Hu. Qed.

Lemma undo_at_represents f g : represents f tbl -> (forall k, g k = undo_at k c (f k)) -> represents g tbl0.
Proof using Htr Hok0 Hok.
  intros Hr Hg.
  assert (Hown : forall i x k w, tbl0 !! i = Some x -> x !! k = Some w -> g k = Some w).
  { intros [t z] x k w Hx Hk. rewrite Hg.
    pose proof (ok_typed _ Hok0 _ _ Hx k ltac:(by rewrite Hk)) as Hty. cbn in Hty.
    destruct (Undo c !! t) as [u|] eqn:Hu.
    + rewrite (undo_at_type t u) by done. eapply undo_type_owned; [done..|].
      intros j y Hj [v Hy]. rewrite Hy. by eapply (rep_owned _ _ Hr).
    + rewrite undo_at_idle.
      * eapply (rep_owned _ _ Hr _ x); [by rewrite <- untouched_type|done].
      * intros t' u' Hu' E. rewrite Hty in E. injection E as E. apply string_bytes_inj in E as <-. congruence. }
  split; [done|exact Hown|]. intros k v Hty Hv.
  destruct (decide (map_Exists (fun _ x => is_Some (x !! k)) tbl0)) as [(i & x & Hx & [w Hw])|Hn].
  { exists i, x. split; [done|]. rewrite <- Hv, Hw. symmetry. by eapply Hown. }
  exfalso. assert (Hfree : forall i x, tbl0 !! i = Some x -> x !! k = None).
  { intros i x Hx. destruct (x !! k) eqn:E; [|done]. destruct Hn. exists i, x. split; [done|]. by rewrite E. }
  rewrite Hg in Hv. destruct (f k) as [v'|] eqn:Ef.
  - destruct (rep_owner _ _ Hr k v' Hty Ef) as ([t z] & y & Hy & Hyk).
    pose proof (ok_typed _ Hok _ _ Hy k ltac:(by rewrite Hyk)) as Htk. cbn in Htk.
    destruct (Undo c !! t) as [u|] eqn:Hu.
    + rewrite (undo_at_type t u) in Hv by done.
      rewrite (undo_type_free c tbl0 tbl t u k Htr Hok0 Hok Hu) in Hv; [done|intros z' x; apply Hfree|].
      intros _. exists z, y. split; [done|]. by rewrite Hyk.
    + rewrite <- (untouched_type t z Hu) in Hy. by rewrite (Hfree _ _ Hy) in Hyk.
  - enough (undo_at k c None = None) by congruence.
    destruct (decide (map_Exists (fun t _ => type_of k = Some (string_bytes t)) (Undo c))) as [(t & u & Hu & Htk)|Hno].
    + rewrite (undo_at_type t u) by done. eapply undo_type_free; [done..| |done]. intros z x. apply Hfree.
    + apply undo_at_idle. intros t u Hu E. apply Hno. by exists t, u.
Qed.

End UndoAt.
End Ranges.

(** ** The relation object by object *)

Abbreviation triple := (option modifyValue * option modifyValue * option modifyValue)%type.

Definition triple_at (u : undoState) (z : Z) : triple := (NewValue u !! z, RemoveValue u !! z, OldValue u !! z).
Definition triple_of (c : undoContainer) (i : oid) : triple := (New c i, Removed c i, Old c i).

(** What a container says about one object. *)
Definition tracks_at (p : triple) (o0 o : option (gmap bytes bytes)) : Prop :=
  match p with
  | (Some m, None, None) => o0 = None /\ exists x, o = Some x /\ dom x = dom (kvmap (NewKv m))
  | (None, Some m, None) => o0 = Some (kvmap (NewKv m)) /\ o = None
  | (None, None, Some m) => o0 = Some (kvmap (OldKv m)) /\ exists x, o = Some x /\ dom x = dom (kvmap (NewKv m))
  | (None, None, None) => o0 = o
  | _ => False
  end.

Lemma tracks_iff c tbl0 tbl :
  tracks c tbl0 tbl <->
  (forall i, tracks_at (triple_of c i) (tbl0 !! i) (tbl !! i)) /\
  (forall i m j y k, Old c i = Some m -> j <> i -> tbl !! j = Some y -> is_Some (kvmap (OldKv m) !! k) -> y !! k = None).
Proof.
  split.
  - intros Htr. split; [|apply (tr_reserved _ _ _ Htr)]. intros i. unfold triple_of, tracks_at.
    destruct (New c i) as [n|] eqn:En, (Removed c i) as [r|] eqn:Er, (Old c i) as [o|] eqn:Eo;
      try (pose proof (tr_new _ _ _ Htr _ _ En) as (? & ? & ? & ?));
      try (pose proof (tr_removed _ _ _ Htr _ _ Er) as (? & ?));
      try (pose proof (tr_old _ _ _ Htr _ _ Eo) as (? & ? & ? & ?)); try congruence; eauto.
    by apply (tr_same _ _ _ Htr).
  - intros [Hat Hres]. split; [| | | |exact Hres].
    + intros i m Hi. specialize (Hat i). unfold triple_of, tracks_at in Hat. rewrite Hi in Hat. by repeat case_match.
    + intros i m Hi. specialize (Hat i). unfold triple_of, tracks_at in Hat. rewrite Hi in Hat. by repeat case_match.
    + intros i m Hi. specialize (Hat i). unfold triple_of, tracks_at in Hat. rewrite Hi in Hat. by repeat case_match.
    + intros i Hn Hr Ho. specialize (Hat i). unfold triple_of, tracks_at in Hat. by rewrite Hn, Hr, Ho in Hat.
Qed.

(** ** Recording a change *)

Definition record_at (oT : undoOperatorType) (m : modifyValue) (p : triple) : triple :=
  let '(n, r, o) := p in
  match oT with
  | INSERT => (Some m, r, o)
  | REMOVE =>
      match n, o, r with
      | Some _, _, _ => (None, r, o)
      | None, Some _, _ => (None, Some m, None)
      | None, None, Some _ => p
      | None, None, None => (None, Some m, None)
      end
  | MODIFY => match n, o with None, None => (n, r, Some m) | _, _ => p end
  end.

Lemma record_triple_at u m oT z :
  triple_at (record_state u m oT) z = if decide (z = Id m) then record_at oT m (triple_at u z) else triple_at u z.
Proof.
  unfold triple_at, record_at. destruct (decide (z = Id m)) as [->|Hne]; destruct oT; cbn;
    unfold undoStackInsert, undoStackRemove, undoStackModify.
  - cbn. by rewrite lookup_insert_eq.
  - destruct (NewValue u !! Id m) eqn:En; cbn; [by rewrite lookup_delete_eq|].
    destruct (OldValue u !! Id m) eqn:Eo; cbn; [by rewrite !lookup_insert_eq; cbn; rewrite lookup_insert_eq, lookup_delete_eq, En|].
    destruct (RemoveValue u !! Id m) eqn:Er; cbn; rewrite ?lookup_insert_eq, ?En, ?Eo, ?Er; done.
  - destruct (NewValue u !! Id m) eqn:En; cbn; [by rewrite En|].
    destruct (OldValue u !! Id m) eqn:Eo; cbn; rewrite ?lookup_insert_eq, ?En, ?Eo; done.
  - cbn. by rewrite lookup_insert_ne.
  - destruct (NewValue u !! Id m) eqn:En; cbn; [by rewrite lookup_delete_ne|].
    destruct (OldValue u !! Id m) eqn:Eo; cbn; [rewrite !lookup_insert_eq; cbn; by rewrite lookup_insert_ne, lookup_delete_ne|].
    destruct (RemoveValue u !! Id m) eqn:Er; cbn; rewrite ?lookup_insert_ne by done; done.
  - destruct (NewValue u !! Id m) eqn:En; cbn; [done|].
    destruct (OldValue u !! Id m) eqn:Eo; cbn; rewrite ?lookup_insert_ne by done; done.
Qed.

Lemma triple_default c t z : triple_of c (t, z) = triple_at (default newUndoState (Undo c !! t)) z.
Proof. unfold triple_of, triple_at, New, Removed, Old. cbn. by destruct (Undo c !! t). Qed.

Lemma record_triple c t m oT j :
  triple_of (record_container c t m oT) j =
    if decide (j = (t, Id m)) then record_at oT m (triple_of c j) else triple_of c j.
Proof.
  destruct j as [t' z]. destruct (decide (t' = t)) as [->|Hne].
  - rewrite !triple_default. cbn [record_container Undo]. rewrite lookup_insert_eq.
    cbn [from_option]. unfold id. rewrite record_triple_at. destruct (decide (z = Id m)) as [->|]; [by rewrite decide_True|].
    by rewrite decide_False by congruence.
  - rewrite decide_False by congruence. rewrite !triple_default. cbn [record_container Undo].
    by rewrite lookup_insert_ne.
Qed.

(** ** The relation along the changes of a session *)

(** The entries [x] of the object [i] take no key that another object, modified in the
    session, had at its start. *)
Definition unreserved (c : undoContainer) (i : oid) (x : gmap bytes bytes) : Prop :=
  forall j m k, Old c j = Some m -> j <> i -> is_Some (kvmap (OldKv m) !! k) -> x !! k = None.

(** What a change must respect for the session to be undone: *)
Inductive change_ok (c : undoContainer) (tbl : table) (t : string) (m : modifyValue) : undoOperatorType -> Prop :=
(** a new object has a fresh id and takes no reserved key; *)
| insert_ok : tbl !! (t, Id m) = None -> Removed c (t, Id m) = None ->
    unreserved c (t, Id m) (kvmap (NewKv m)) -> change_ok c tbl t m INSERT
(** a modification after the first change of the object keeps its keys, the first one
    takes no reserved key; *)
| modify_ok : tbl !! (t, Id m) = Some (kvmap (OldKv m)) ->
    (dom (kvmap (NewKv m)) = dom (kvmap (OldKv m)) \/
     New c (t, Id m) = None /\ Old c (t, Id m) = None /\ unreserved c (t, Id m) (kvmap (NewKv m))) ->
    change_ok c tbl t m MODIFY
(** an object that was modified in the session is not removed in it. *)
| remove_ok : tbl !! (t, Id m) = Some (kvmap (NewKv m)) -> Old c (t, Id m) = None -> change_ok c tbl t m REMOVE.

Definition change_table (tbl : table) (t : string) (m : modifyValue) (oT : undoOperatorType) : table :=
  match oT with
  | INSERT | MODIFY => <[(t, Id m) := kvmap (NewKv m)]> tbl
  | REMOVE => delete (t, Id m) tbl
  end.

Lemma change_table_ne tbl t m oT j : j <> (t, Id m) -> change_table tbl t m oT !! j = tbl !! j.
Proof. intros. destruct oT; cbn; [by rewrite lookup_insert_ne|by rewrite lookup_delete_ne|by rewrite lookup_insert_ne]. Qed.

(** The changed object itself. *)
Lemma change_tracks_at c tbl t m oT o0 : change_ok c tbl t m oT ->
  tracks_at (triple_of c (t, Id m)) o0 (tbl !! (t, Id m)) ->
  tracks_at (record_at oT m (triple_of c (t, Id m))) o0 (change_table tbl t m oT !! (t, Id m)).
Proof.
  intros Hc. unfold triple_of, tracks_at, record_at. destruct Hc as [Hi Hr _|Hi Hcase|Hi Ho]; cbn [change_table];
    rewrite ?lookup_insert_eq, ?lookup_delete_eq, Hi.
  - rewrite Hr. destruct (New c (t, Id m)), (Old c (t, Id m)); try done; naive_solver.
  - destruct (New c (t, Id m)), (Removed c (t, Id m)), (Old c (t, Id m)); try done; naive_solver congruence.
  - rewrite Ho. destruct (New c (t, Id m)), (Removed c (t, Id m)); try done; naive_solver.
Qed.

(** The keys reserved after a change. *)
Lemma change_reserved c tbl0 tbl t m oT : table_ok tbl -> tracks c tbl0 tbl -> change_ok c tbl t m oT ->
  forall i m' j y k, Old (record_container c t m oT) i = Some m' -> j <> i ->
    change_table tbl t m oT !! j = Some y -> is_Some (kvmap (OldKv m') !! k) -> y !! k = None.
Proof.
  intros Hok Htr Hc i m' j y k Hi Hne Hy Hk.
  assert (Hold : Old c i = Some m' \/ i = (t, Id m) /\ m' = m /\ oT = MODIFY).
  { pose proof (record_triple c t m oT i) as E. unfold triple_of in E. rewrite Hi in E.
    destruct (decide (i = (t, Id m))) as [->|]; [|left; congruence].
    unfold record_at in E. destruct oT; repeat case_match; simplify_eq; auto. }
  destruct Hold as [Hold|(-> & -> & ->)].
  - destruct (decide (j = (t, Id m))) as [->|Hj];
      [|rewrite change_table_ne in Hy by done; by eapply (tr_reserved _ _ _ Htr i m' j)].
    destruct Hc as [Hn Hr Hu|Hn Hcase|Hn Ho]; cbn [change_table] in Hy;
      rewrite ?lookup_insert_eq, ?lookup_delete_eq in Hy; simplify_eq.
    + eapply Hu; [exact Hold|congruence|done].
    + destruct Hcase as [Hd|(_ & _ & Hu)]; [|eapply Hu; [exact Hold|congruence|done]].
      apply not_elem_of_dom. rewrite Hd. apply not_elem_of_dom. by eapply (tr_reserved _ _ _ Htr i m' (t, Id m)).
  - rewrite change_table_ne in Hy by done. inversion Hc as [|Hi'|]. by eapply (ok_disjoint _ Hok _ _ Hi').
Qed.

Lemma tracks_change c tbl0 tbl t m oT :
  table_ok tbl -> tracks c tbl0 tbl -> change_ok c tbl t m oT ->
  tracks (record_container c t m oT) tbl0 (change_table tbl t m oT).
Proof.
  intros Hok Htr Hc. apply tracks_iff. split; [|by eapply change_reserved].
  apply tracks_iff in Htr as [Hat _]. intros j. rewrite record_triple. destruct (decide (j = (t, Id m))) as [->|Hne].
  - by apply change_tracks_at.
  - rewrite change_table_ne by done. apply Hat.
Qed.

(** ** Squashing two containers *)

(** The three loops of [undoStateSquash] for one id. *)
Definition squash_old_at (p : triple) (v : modifyValue) : triple :=
  let '(n, r, o) := p in
  match n with Some _ => p | None => match o with Some _ => p | None => (n, r, Some v) end end.
Definition squash_new_at (p : triple) (v : modifyValue) : triple := let '(n, r, o) := p in (Some v, r, o).
Definition squash_removed_at (p : triple) (v : modifyValue) : triple :=
  let '(n, r, o) := p in
  match n with Some _ => (None, r, o) | None => (n, Some v, None) end.

Definition on_some (f : triple -> modifyValue -> triple) (v : option modifyValue) (p : triple) : triple :=
  match v with Some v => f p v | None => p end.

(** [above] is what the upper container holds, [below] the lower one. *)
Definition squash_at (above below : triple) : triple :=
  let '(n, r, o) := above in
  on_some squash_removed_at r (on_some squash_new_at n (on_some squash_old_at o below)).

Lemma fold_squash F G (l : list (Z * modifyValue)) (m : gmap Z modifyValue) z : forall u,
  (forall u e z', triple_at (F u e) z' = if decide (z' = e.1) then G (triple_at u z') e.2 else triple_at u z') ->
  NoDup l.*1 -> (forall z v, (z, v) ∈ l <-> m !! z = Some v) ->
  triple_at (fold_left F l u) z = on_some G (m !! z) (triple_at u z).
Proof.
  intros u HF. revert m u. induction l as [|[a v] l IH]; intros m u Hnd Hm.
  - destruct (m !! z) eqn:E; [|done]. apply Hm, not_elem_of_nil in E. done.
  - cbn [fold_left]. cbn in Hnd. apply NoDup_cons in Hnd as [Ha Hnd].
    rewrite (IH (delete a m)); [|done|].
    + rewrite HF. cbn. destruct (decide (z = a)) as [->|Hne].
      * rewrite lookup_delete_eq. assert (m !! a = Some v) as -> by (apply Hm; left). done.
      * by rewrite lookup_delete_ne.
    + intros z' v'. rewrite lookup_delete_Some, <- Hm, elem_of_cons. split.
      * intros Hin. split; [|by right]. intros <-. apply Ha. exact (list_elem_of_fmap_2 fst _ _ Hin).
      * intros [Hne [[= -> ->]|?]]; done.
Qed.

Section Squash.
Context `{RangeOrder}.

Lemma NoDup_range_keys m : NoDup (range_ids m).*1.
Proof. rewrite range_ids_perm. apply NoDup_fst_map_to_list. Qed.

Lemma triple_squash u2 u1 z : triple_at (undoStateSquash u2 u1) z = squash_at (triple_at u2 z) (triple_at u1 z).
Proof.
  unfold undoStateSquash. rewrite (fold_squash squash_removed squash_removed_at _ (RemoveValue u2));
    [|clear|apply NoDup_range_keys|apply elem_of_range_ids].
  2: { intros u [a v] z'. unfold triple_at, squash_removed. cbn [fst snd].
       destruct (decide (z' = a)) as [->|Hne].
       - unfold squash_removed_at. destruct (NewValue u !! a) eqn:E; cbn; [by rewrite lookup_delete_eq|].
         destruct (OldValue u !! a) eqn:E'; cbn; rewrite ?lookup_insert_eq, ?lookup_delete_eq, ?E, ?E'; done.
       - destruct (NewValue u !! a) eqn:E; cbn; [by rewrite lookup_delete_ne|].
         destruct (OldValue u !! a) eqn:E'; cbn; rewrite ?lookup_insert_ne, ?lookup_delete_ne by done; done. }
  rewrite (fold_squash squash_new squash_new_at _ (NewValue u2)); [|clear|apply NoDup_range_keys|apply elem_of_range_ids].
  2: { intros u [a v] z'. unfold triple_at, squash_new. cbn. destruct (decide (z' = a)) as [->|Hne];
       [by rewrite lookup_insert_eq|by rewrite lookup_insert_ne]. }
  rewrite (fold_squash squash_old squash_old_at _ (OldValue u2)); [done|clear|apply NoDup_range_keys|apply elem_of_range_ids].
  intros u [a v] z'. unfold triple_at, squash_old. cbn [fst snd]. destruct (decide (z' = a)) as [->|Hne].
  - unfold squash_old_at. destruct (NewValue u !! a) eqn:E; cbn; [by rewrite E|].
    destruct (OldValue u !! a) eqn:E'; cbn; rewrite ?lookup_insert_eq, ?E, ?E'; done.
  - destruct (NewValue u !! a) eqn:E; cbn; [done|].
    destruct (OldValue u !! a) eqn:E'; cbn; rewrite ?lookup_insert_ne by done; done.
Qed.

(** The container below after [Squash]. *)
Definition squash_container (c2 c1 : undoContainer) : undoContainer :=
  mkUndoContainer (fold_left squash_type (range_types (Undo c2)) (Undo c1)) (OldIds c1) (Reversion c1).

Lemma squash_types (l : list (string * undoState)) t : forall pre (m : gmap string undoState),
  NoDup l.*1 -> (forall t u, (t, u) ∈ l <-> m !! t = Some u) ->
  fold_left squash_type l pre !! t =
    match m !! t with Some u => Some (undoStateSquash u (default newUndoState (pre !! t))) | None => pre !! t end.
Proof.
  induction l as [|[a v] l IH]; intros pre m Hnd Hm.
  - destruct (m !! t) eqn:E; [|done]. apply Hm, not_elem_of_nil in E. done.
  - cbn [fold_left]. cbn in Hnd. apply NoDup_cons in Hnd as [Ha Hnd]. rewrite (IH _ (delete a m)); [|done|].
    + cbn [squash_type]. destruct (decide (t = a)) as [->|Hne].
      * rewrite lookup_delete_eq, lookup_insert_eq. assert (m !! a = Some v) as -> by (apply Hm; left). done.
      * rewrite lookup_delete_ne, lookup_insert_ne by done. done.
    + intros t' v'. rewrite lookup_delete_Some, <- Hm, elem_of_cons. split.
      * intros Hin. split; [|by right]. intros <-. apply Ha. exact (list_elem_of_fmap_2 fst _ _ Hin).
      * intros [Hne [[= -> ->]|?]]; done.
Qed.

Lemma triple_squash_container c2 c1 i :
  triple_of (squash_container c2 c1) i = squash_at (triple_of c2 i) (triple_of c1 i).
Proof.
  destruct i as [t z]. unfold triple_of, New, Removed, Old, squash_container. cbn [Undo fst snd].
  rewrite (squash_types _ t _ (Undo c2)); [|rewrite range_types_perm; apply NoDup_fst_map_to_list|apply elem_of_range_types].
  destruct (Undo c2 !! t) as [u2|]; cbn; [|done].
  pose proof (triple_squash u2 (default newUndoState (Undo c1 !! t)) z) as E. unfold triple_at in E. rewrite E.
  by destruct (Undo c1 !! t).
Qed.

(** What makes two nested sessions one: the keys of objects changed in the lower one are
    kept, an object modified below is not removed above, ids are not reused and the keys
    reserved below are still free. *)
Record squashable (c2 c1 : undoContainer) (tbl : table) : Prop := {
  sq_keys i m : Old c2 i = Some m -> is_Some (New c1 i) \/ is_Some (Old c1 i) ->
    dom (kvmap (NewKv m)) = dom (kvmap (OldKv m));
  sq_removed i m : Removed c2 i = Some m -> Old c1 i = None;
  sq_new i m : New c2 i = Some m -> Removed c1 i = None;
  sq_reserved i m j y k : Old c1 i = Some m -> j <> i -> tbl !! j = Some y ->
    is_Some (kvmap (OldKv m) !! k) -> y !! k = None }.

Lemma squash_tracks_at c2 c1 tbl i o0 o1 o : squashable c2 c1 tbl ->
  tracks_at (triple_of c1 i) o0 o1 -> tracks_at (triple_of c2 i) o1 o ->
  tracks_at (triple_of (squash_container c2 c1) i) o0 o.
Proof.
  intros [Hk Hr Hn _]. rewrite triple_squash_container. unfold triple_of.
  specialize (Hk i). specialize (Hr i). specialize (Hn i). unfold tracks_at, squash_at.
  destruct (New c1 i) as [n1|], (Removed c1 i) as [r1|], (Old c1 i) as [o1'|]; try done;
    destruct (New c2 i) as [n2|], (Removed c2 i) as [r2|], (Old c2 i) as [o2|]; try done;
    cbn; intros H1 H2;
    repeat match goal with H : _ /\ _ |- _ => destruct H | H : exists _, _ |- _ => destruct H end; simplify_eq; try done; eauto.
  all: try (specialize (Hk _ eq_refl ltac:(eauto)); split; [done|]; eexists; split; [done|]; congruence).
  all: try (specialize (Hn _ eq_refl); done).
  all: try (specialize (Hr _ eq_refl); done).
Qed.

Lemma tracks_squash c2 c1 tbl0 tbl1 tbl :
  tracks c1 tbl0 tbl1 -> tracks c2 tbl1 tbl -> squashable c2 c1 tbl -> tracks (squash_container c2 c1) tbl0 tbl.
Proof.
  intros H1 H2 Hsq. pose proof (sq_reserved _ _ _ Hsq) as Hres1. pose proof (tr_reserved _ _ _ H2) as Hres2.
  apply tracks_iff in H1 as [H1 _], H2 as [H2 _]. apply tracks_iff. split.
  - intros i. by eapply squash_tracks_at.
  - intros i m j y k Hi Hne Hy Hm.
    assert (Old c1 i = Some m \/ Old c2 i = Some m) as [Ho|Ho].
    { pose proof (triple_squash_container c2 c1 i) as E. unfold triple_of, squash_at in E. rewrite Hi in E.
      unfold on_some, squash_removed_at, squash_new_at, squash_old_at in E. repeat case_match; simplify_eq; auto. }
    + by eapply Hres1.
    + by eapply Hres2.
Qed.

End Squash.
