(* ===== verification/DbSession.v ===== *)
(** * DbSession: sessions of the database, end to end

    The theorems about [StartSession], [Undo], [Squash] and [Commit] on a database that
    represents a table, for every behaviour of LevelDB and every order of Go's maps,
    and the runs that show where the source departs from them. *)

From S2P Require Import Prelude Bytes Rlp Ecc DbPack DbSchema Database DbTable DbUndo.

Section Sessions.
Context {T : Type} `{LevelDB T} `{!LevelDBLaws T} `{RangeOrder}.
Implicit Types ldb : LDataBase T.

(** ** Undoing runs on the store alone *)

Lemma each_view {A} (f : A -> M (LDataBase T) unit) (h : bytes -> A -> option bytes -> option bytes) :
  (forall x ldb, exists d, f x ldb = (set_db d ldb, Ok tt) /\ forall k, Get d k = h k x (view ldb k)) ->
  forall l ldb, exists d, each f l ldb = (set_db d ldb, Ok tt) /\
    forall k, Get d k = fold_left (fun v x => h k x v) l (view ldb k).
Proof.
  intros Hf. induction l as [|x l IH]; intros ldb.
  - exists (db ldb). split; [by destruct ldb|done].
  - destruct (Hf x ldb) as (d & E & Hd). destruct (IH (set_db d ldb)) as (d' & E' & Hd').
    exists d'. cbn [each]. unfold mbind, M_bind. rewrite E, E'. split; [by destruct ldb|].
    intros k. rewrite Hd'. cbn [fold_left]. unfold view at 1. cbn [db set_db]. by rewrite Hd.
Qed.

Lemma undo_type_view u ldb : exists d, undo_type u ldb = (set_db d ldb, Ok tt) /\
  forall k, Get d k = undo_type_at k u (view ldb k).
Proof.
  unfold undo_type.
  destruct (each_view (fun e : Z * modifyValue => modifyKvToDb (NewKv e.2) (OldKv e.2)) undo_old_at) with (l := range_ids (OldValue u)) (ldb := ldb) as (d1 & E1 & H1).
  { intros e ldb'. destruct (writeBatch_eq (deleteBatch (NewKv e.2) ++ putBatch (OldKv e.2)) ldb') as (d & E & Hd).
    exists d. split; [exact E|]. intros k. rewrite Hd, batch_at_app, putBatch_at, deleteBatch_at. done. }
  destruct (each_view (fun e : Z * modifyValue => removeKvToDb (NewKv e.2)) undo_new_at) with (l := range_ids (NewValue u)) (ldb := set_db d1 ldb) as (d2 & E2 & H2).
  { intros e ldb'. destruct (writeBatch_eq (deleteBatch (NewKv e.2)) ldb') as (d & E & Hd).
    exists d. split; [exact E|]. intros k. by rewrite Hd, deleteBatch_at. }
  destruct (each_view (fun e : Z * modifyValue => insertKvToDb (NewKv e.2)) undo_removed_at) with (l := range_ids (RemoveValue u)) (ldb := set_db d2 (set_db d1 ldb)) as (d3 & E3 & H3).
  { intros e ldb'. destruct (writeBatch_eq (putBatch (NewKv e.2)) ldb') as (d & E & Hd).
    exists d. split; [exact E|]. intros k. by rewrite Hd, putBatch_at. }
  exists d3. unfold mbind, M_bind. rewrite E1, E2, E3. split; [done|].
  intros k. rewrite H3. unfold view at 1. cbn [db set_db]. rewrite H2. unfold view at 1. cbn [db set_db].
  by rewrite H1.
Qed.

(** The stack as the list of its containers, the top one last. *)
Definition containers ldb (l : list undoContainer) : Prop :=
  stack ldb = mkDeque (map Some l) (-1).

Lemma Last_snoc {A} (l : list (option A)) x c : Last (mkDeque (l ++ [x]) c) = x.
Proof. unfold Last. cbn. by rewrite last_snoc. Qed.

Lemma Pop_snoc {A} (l : list (option A)) x c : Pop (mkDeque (l ++ [x]) c) = (mkDeque l c, x).
Proof.
  unfold Pop. cbn [items capacity]. destruct (l ++ [x]) as [|a l'] eqn:E; [by destruct l|].
  rewrite <- E, Last_snoc, length_app. cbn [length]. rewrite Nat.add_sub, take_app_length. done.
Qed.

Lemma getStack_top ldb l c : containers ldb (l ++ [c]) -> getStack ldb = Some c.
Proof. intros Hc. unfold getStack. rewrite Hc, map_app. apply Last_snoc. Qed.

Lemma Undo_exec ldb l c : containers ldb (l ++ [c]) ->
  exists d, Undo_ ldb = (mkLDataBase d (mkDeque (map Some l) (-1)) (i64 (reversion ldb - 1)) (ids ldb) (OldIds c) (isClosed ldb), Ok tt) /\
    forall k, Get d k = undo_at k c (view ldb k).
Proof.
  intros Hc. unfold Undo_, mbind, M_bind, get. rewrite (getStack_top _ _ _ Hc). unfold modify at 1.
  destruct (each_view (fun e : string * undoState => undo_type e.2) (fun k e v => undo_type_at k e.2 v)) with
    (l := range_types (Undo c)) (ldb := set_nextId (OldIds c) ldb) as (d & E & Hd).
  { intros e ldb'. apply undo_type_view. }
  exists d. rewrite E. split; [|exact Hd]. unfold pop_container, modify. cbn [stack set_db set_nextId]. rewrite Hc, map_app.
  cbn [map]. rewrite Pop_snoc. done.
Qed.

(** ** The changes of a session *)

(** The top container, if there is one, can record the change. *)
Definition top_ok ldb (tbl : table) (t : string) (m : modifyValue) (oT : undoOperatorType) : Prop :=
  forall c, getStack ldb = Some c -> change_ok c tbl t m oT.

(** The calls of the program, with what the unique indices promise and the discipline of
    [change_ok]; the second component is the table. *)
Inductive change_step : LDataBase T * table -> LDataBase T * table -> Prop :=
| api_insert o o' ldb ldb' tbl t kv :
    Insert o ldb = (ldb', Ok o') -> object_kv o' = Some (t, kv) -> no_underscore t = true ->
    tbl !! (t, kvId kv) = None -> unused tbl (t, kvId kv) (kvmap kv) ->
    top_ok ldb tbl t (mkModifyValue (kvId kv) kv kv) INSERT ->
    change_step (ldb, tbl) (ldb', <[(t, kvId kv) := kvmap kv]> tbl)
| api_modify s fn o' ldb ldb' tbl t kvo kvn :
    Modify (ref s) fn ldb = (ldb', Ok o') -> object_kv (ref s) = Some (t, kvo) -> object_kv o' = Some (t, kvn) ->
    no_underscore t = true -> tbl !! (t, kvId kvo) = Some (kvmap kvo) -> unused tbl (t, kvId kvo) (kvmap kvn) ->
    top_ok ldb tbl t (mkModifyValue (kvId kvo) kvo kvn) MODIFY ->
    change_step (ldb, tbl) (ldb', <[(t, kvId kvo) := kvmap kvn]> tbl)
| api_remove s ldb ldb' tbl t kv :
    Remove (ref s) ldb = (ldb', Ok tt) -> find ldb "id" (ref s) (ref s) 0 = Ok (ref s) ->
    object_kv (ref s) = Some (t, kv) -> no_underscore t = true -> tbl !! (t, kvId kv) = Some (kvmap kv) ->
    top_ok ldb tbl t (mkModifyValue (kvId kv) kv kv) REMOVE ->
    change_step (ldb, tbl) (ldb', delete (t, kvId kv) tbl).

(** What a change leaves alone. *)
Definition same_frame ldb ldb' : Prop :=
  reversion ldb' = reversion ldb /\ nextId ldb' = nextId ldb /\ isClosed ldb' = isClosed ldb /\
  forall k, type_of k = None -> view ldb' k = view ldb k.

Lemma same_frame_refl ldb : same_frame ldb ldb.
Proof. done. Qed.
Lemma same_frame_trans a b c : same_frame a b -> same_frame b c -> same_frame a c.
Proof. intros (? & ? & ? & Hk) (? & ? & ? & Hk'). split_and!; try congruence. intros k Hn. by rewrite Hk', Hk. Qed.

Lemma change_ok_ext c tbl t m m' oT : Id m = Id m' -> kvmap (OldKv m) = kvmap (OldKv m') ->
  kvmap (NewKv m) = kvmap (NewKv m') -> change_ok c tbl t m oT -> change_ok c tbl t m' oT.
Proof. intros Hi Ho Hn []; constructor; rewrite <- ?Hi, <- ?Ho, <- ?Hn; done. Qed.

Lemma change_table_ext tbl t m m' oT : Id m = Id m' -> kvmap (NewKv m) = kvmap (NewKv m') ->
  change_table tbl t m oT = change_table tbl t m' oT.
Proof. intros Hi Hn. unfold change_table. by rewrite Hi, Hn. Qed.

Lemma typed_none i x k : typed i x -> type_of k = None -> x !! k = None.
Proof. intros Ht Hk. destruct (x !! k) eqn:E; [|done]. rewrite (Ht k) in Hk by (by rewrite E). done. Qed.

(** A change is one batch on typed keys and one record in the top container. *)
Lemma change_step_inv ldb tbl ldb' tbl' : change_step (ldb, tbl) (ldb', tbl') ->
  represents (view ldb) tbl ->
  represents (view ldb') tbl' /\ same_frame ldb ldb' /\
  exists ldb1 t m oT, stack ldb1 = stack ldb /\ stack ldb' = stack (recorded t m oT ldb1) /\
    tbl' = change_table tbl t m oT /\ top_ok ldb tbl t m oT.
Proof.
  intros Hs Hr. inversion Hs as [o o' ? ? ? t kv HI Hkv Ht Hn Hu Hc|s fn o' ? ? ? t kvo kvn HM Ho Hkn Ht Hi Hu Hc|s ? ? ? t kv HR Hf Hkv Ht Hi Hc]; subst.
  - split; [by eapply Insert_represents|]. destruct (Insert_spec _ _ _ _ _ _ HI Hkv) as (l & id & Hch & _).
    split; [|destruct Hch as (d & _ & ->); eexists _, t, _, INSERT; split_and!; [|reflexivity|reflexivity|exact Hc]; done].
    pose proof (fun k => view_changed _ _ _ _ _ _ k Hch) as Hv. destruct Hch as (d & _ & ->).
    split_and!; [by unfold recorded; case_match..|]. intros k Hk. rewrite Hv, putBatch_at. unfold put_at.
    by rewrite (typed_none (t, kvId kv) _ k (object_kv_typed _ _ _ _ Hkv Ht) Hk).
  - split; [by eapply Modify_represents|].
    destruct (Modify_spec _ _ _ _ _ _ _ _ _ HM Ho Hkn) as (_ & m & Hid & Hmo & Hmn & Hch). split.
    + pose proof (fun k => view_changed _ _ _ _ _ _ k Hch) as Hv. destruct Hch as (d & _ & ->).
      split_and!; [by unfold recorded; case_match..|]. intros k Hk. rewrite Hv, batch_at_app, putBatch_at, deleteBatch_at.
      unfold put_at, del_at. rewrite (typed_none (t, 0) _ k (object_kv_typed _ _ _ _ Hkn Ht) Hk).
      by rewrite (typed_none (t, 0) _ k (object_kv_typed _ _ _ _ Ho Ht) Hk).
    + destruct Hch as (d & _ & ->). eexists _, t, m, MODIFY. split_and!; [|reflexivity| |].
      * done.
      * cbn. by rewrite Hid, Hmn.
      * intros c Htop. by eapply change_ok_ext; [| | |apply (Hc c Htop)].
  - split; [by eapply Remove_represents|]. pose proof (Db_Remove_spec _ _ _ _ _ HR Hf Hkv) as Hch.
    split; [|destruct Hch as (d & _ & ->); eexists _, t, _, REMOVE; split_and!; [|reflexivity|reflexivity|exact Hc]; done].
    pose proof (fun k => view_changed _ _ _ _ _ _ k Hch) as Hv. destruct Hch as (d & _ & ->).
    split_and!; [by unfold recorded; case_match..|]. intros k Hk. rewrite Hv, deleteBatch_at. unfold del_at.
    by rewrite (typed_none (t, kvId kv) _ k (object_kv_typed _ _ _ _ Hkv Ht) Hk).
Qed.

Lemma set_top_containers ldb l c c' : containers ldb (l ++ [c]) -> containers (set_top c' ldb) (l ++ [c']).
Proof.
  unfold containers, set_top. intros Hc. cbn [stack set_stack]. rewrite Hc. cbn [items capacity].
  rewrite !map_app, length_app. cbn [map length]. by rewrite Nat.add_sub, take_app_length.
Qed.

Lemma change_step_session ldb tbl ldb' tbl' tbl0 l c :
  change_step (ldb, tbl) (ldb', tbl') -> represents (view ldb) tbl ->
  containers ldb (l ++ [c]) -> tracks c tbl0 tbl ->
  exists c', containers ldb' (l ++ [c']) /\ OldIds c' = OldIds c /\ Reversion c' = Reversion c /\ tracks c' tbl0 tbl'.
Proof.
  intros Hs Hr Hl Htr. destruct (change_step_inv _ _ _ _ Hs Hr) as (_ & _ & ldb1 & t & m & oT & Hst1 & Hst & -> & Hok).
  pose proof (getStack_top _ _ _ Hl) as Htop. assert (Hl1 : containers ldb1 (l ++ [c])) by (unfold containers; congruence).
  exists (record_container c t m oT). split_and!; [|done..|].
  - unfold containers. rewrite Hst. unfold recorded. rewrite (getStack_top _ _ _ Hl1).
    apply (set_top_containers _ _ _ _ Hl1).
  - apply tracks_change; [apply (rep_ok _ _ Hr)|done|by apply Hok].
Qed.

Lemma changes_session p p' : rtc change_step p p' -> forall tbl0 l c,
  represents (view p.1) p.2 -> containers p.1 (l ++ [c]) -> tracks c tbl0 p.2 ->
  exists c', containers p'.1 (l ++ [c']) /\ OldIds c' = OldIds c /\ Reversion c' = Reversion c /\
    tracks c' tbl0 p'.2 /\ represents (view p'.1) p'.2 /\ same_frame p.1 p'.1.
Proof.
  induction 1 as [p|[ldb tbl] [ldb' tbl'] p' Hs _ IH]; intros tbl0 l c Hr Hl Htr.
  - exists c. split_and!; auto using same_frame_refl.
  - destruct (change_step_inv _ _ _ _ Hs Hr) as (Hr' & Hf & _).
    destruct (change_step_session _ _ _ _ _ _ _ Hs Hr Hl Htr) as (c1 & Hl1 & Ho1 & Hv1 & Htr1).
    destruct (IH tbl0 l c1 Hr' Hl1 Htr1) as (c2 & ? & ? & ? & ? & ? & Hf2). exists c2.
    split_and!; try done; try congruence. cbn in *. by eapply same_frame_trans.
Qed.

Lemma tracks_empty n r tbl : tracks (newUndoContainer r n) tbl tbl.
Proof. apply tracks_iff. split; [done|]. intros i m j y k Hi. unfold Old in Hi. cbn in Hi. by rewrite lookup_empty in Hi. Qed.

Lemma StartSession_exec ldb l : containers ldb l ->
  exists ldb', StartSession ldb = (ldb', Ok (mkSession true true (i64 (reversion ldb + 1)))) /\
    containers ldb' (l ++ [newUndoContainer (i64 (reversion ldb + 1)) (nextId ldb)]) /\
    db ldb' = db ldb /\ reversion ldb' = i64 (reversion ldb + 1) /\ nextId ldb' = nextId ldb /\ ids ldb' = ids ldb.
Proof.
  intros Hc. eexists. unfold StartSession, mbind, M_bind, get, modify. split; [reflexivity|].
  split_and!; try done. unfold containers. cbn [stack set_stack set_reversion nextId]. rewrite Hc.
  unfold Append. cbn [capacity items Z.ltb Z.compare orb]. by rewrite map_app.
Qed.

Lemma view_db ldb ldb' : db ldb = db ldb' -> view ldb = view ldb'.
Proof. unfold view. by intros ->. Qed.

(** Undoing the session whose container leads from the table [tbl] back to [tbl0]. *)
Lemma Undo_tracks ldb l c tbl0 tbl f0 :
  containers ldb (l ++ [c]) -> represents (view ldb) tbl -> tracks c tbl0 tbl -> represents f0 tbl0 ->
  (forall k, type_of k = None -> view ldb k = f0 k) ->
  exists ldb', Undo_ ldb = (ldb', Ok tt) /\ (forall k, view ldb' k = f0 k) /\
    containers ldb' l /\ reversion ldb' = i64 (reversion ldb - 1) /\ nextId ldb' = OldIds c /\ ids ldb' = ids ldb.
Proof.
  intros Hl Hr Htr Hf0 Hn. destruct (Undo_exec _ _ _ Hl) as (d & E & Hd). eexists. split; [exact E|].
  split_and!; [|done..]. intros k. unfold view at 1. cbn [db]. rewrite Hd.
  destruct (type_of k) as [t|] eqn:Hk.
  - eapply (represents_unique (fun k => undo_at k c (view ldb k)) f0 tbl0); [|done|by rewrite Hk].
    eapply undo_at_represents; [exact Htr|apply (rep_ok _ _ Hf0)|apply (rep_ok _ _ Hr)|exact Hr|done].
  - rewrite (undo_at_idle c tbl0 tbl); [by apply Hn|done|apply (rep_ok _ _ Hf0)|apply (rep_ok _ _ Hr)|].
    intros t u _. by rewrite Hk.
Qed.

(** C33. A session can be undone: whatever disciplined sequence of insertions, modifications
    and removals follows [StartSession], [Undo] succeeds and restores every key
    of the store, the stack and the revision, for every order in which Go visits
    its maps.  The table of next ids is the exception: the ids handed out in the
    session are not taken back. *)
Theorem undo_restores_session ldb0 l tbl0 ldb1 s ldb2 tbl2 :
  containers ldb0 l -> represents (view ldb0) tbl0 -> - 2 ^ 63 <= reversion ldb0 < 2 ^ 63 - 1 ->
  StartSession ldb0 = (ldb1, Ok s) -> rtc change_step (ldb1, tbl0) (ldb2, tbl2) ->
  exists ldb3, Undo_ ldb2 = (ldb3, Ok tt) /\ (forall k, view ldb3 k = view ldb0 k) /\
    stack ldb3 = stack ldb0 /\ reversion ldb3 = reversion ldb0 /\ nextId ldb3 = nextId ldb0 /\
    ids ldb3 = ids ldb2.
Proof.
  intros Hl Hr Hrev Hstart Hrun. destruct (StartSession_exec _ _ Hl) as (ldb1' & E & Hl1 & Hdb & Hrev1 & Hn1 & _).
  rewrite Hstart in E. injection E as <- _. assert (Hv : view ldb1 = view ldb0) by (by apply view_db).
  assert (Hi : i64 (reversion ldb0 + 1) = reversion ldb0 + 1) by (apply i64_small; lia).
  destruct (changes_session _ _ Hrun tbl0 l _ ltac:(cbn; by rewrite Hv) Hl1 (tracks_empty _ _ _))
    as (c & Hl2 & Hold & _ & Htr & Hr2 & (Hrev2 & Hn2 & _ & Hu)). cbn in *.
  destruct (Undo_tracks ldb2 l c tbl0 tbl2 (view ldb0) Hl2 Hr2 Htr Hr) as (ldb3 & E3 & Hv3 & Hl3 & Hr3 & Hn3 & Hids).
  { intros k Hk. rewrite Hu by done. by rewrite Hv. }
  exists ldb3. split_and!; [done..|unfold containers in *; congruence| |congruence|done].
  rewrite Hr3, Hrev2, Hrev1, Hi, Z.add_simpl_r. apply i64_small. lia.
Qed.

(** ** Squash *)

Lemma LastSecond_snoc {A} (l : list (option A)) x y : LastSecond (mkDeque (l ++ [x; y]) (-1)) = (mkDeque (l ++ [x; y]) (-1), x).
Proof.
  unfold LastSecond. change [x; y] with ([x] ++ [y]). rewrite app_assoc, Pop_snoc, Pop_snoc.
  unfold Append. cbn. by rewrite <- app_assoc.
Qed.

Lemma Squash_exec ldb l c1 c2 : containers ldb (l ++ [c1; c2]) ->
  exists ldb', Squash ldb = (ldb', Ok tt) /\ containers ldb' (l ++ [squash_container c2 c1]) /\
    db ldb' = db ldb /\ reversion ldb' = i64 (reversion ldb - 1) /\ nextId ldb' = nextId ldb /\ ids ldb' = ids ldb.
Proof.
  intros Hc. assert (Hs : stack ldb = mkDeque (map Some l ++ [Some c1; Some c2]) (-1)) by (rewrite Hc, map_app; done).
  unfold Squash, mbind, M_bind, get, getStack. rewrite Hs.
  rewrite (proj2 (Z.eqb_neq _ _)) by (unfold Size, len; cbn [items]; rewrite length_app; cbn; lia).
  rewrite LastSecond_snoc. change [Some c1; Some c2] with ([Some c1] ++ [Some c2]). rewrite app_assoc, Last_snoc.
  unfold modify. eexists. split; [reflexivity|]. cbn [stack set_stack set_reversion reversion db nextId ids].
  split_and!; try done. unfold containers. cbn [stack set_stack]. cbn [items capacity].
  rewrite !length_app. cbn [length]. replace (length (map Some l) + 1 + 1 - 2)%nat with (length (map Some l)) by lia.
  rewrite <- app_assoc. cbn [app]. rewrite insert_middle.
  change (Some ?a :: [Some c2]) with ([Some a] ++ [Some c2]). rewrite app_assoc, Pop_snoc. cbn [fst]. by rewrite map_app.
Qed.

(** C35. Squash joins two sessions: after a session inside a session, [Squash] changes no
    key of the store, and one [Undo] then restores the state before the outer one,
    provided the two sessions can be joined ([squashable]). *)
Theorem squash_then_undo ldb0 l tbl0 ldb1 s ldb2 tbl2 ldb3 s' ldb4 tbl4 :
  containers ldb0 l -> represents (view ldb0) tbl0 -> - 2 ^ 63 <= reversion ldb0 < 2 ^ 63 - 2 ->
  StartSession ldb0 = (ldb1, Ok s) -> rtc change_step (ldb1, tbl0) (ldb2, tbl2) ->
  StartSession ldb2 = (ldb3, Ok s') -> rtc change_step (ldb3, tbl2) (ldb4, tbl4) ->
  (forall c1 c2, containers ldb4 (l ++ [c1; c2]) -> squashable c2 c1 tbl4) ->
  exists ldb5 ldb6, Squash ldb4 = (ldb5, Ok tt) /\ view ldb5 = view ldb4 /\
    Undo_ ldb5 = (ldb6, Ok tt) /\ (forall k, view ldb6 k = view ldb0 k) /\
    stack ldb6 = stack ldb0 /\ reversion ldb6 = reversion ldb0 /\ nextId ldb6 = nextId ldb0.
Proof.
  intros Hl Hr Hrev Hs1 Hrun1 Hs2 Hrun2 Hsq.
  destruct (StartSession_exec _ _ Hl) as (ldb1' & E & Hl1 & Hdb1 & Hrev1 & Hn1 & _).
  rewrite Hs1 in E. injection E as <- _. assert (Hv1 : view ldb1 = view ldb0) by (by apply view_db).
  destruct (changes_session _ _ Hrun1 tbl0 l _ ltac:(cbn; by rewrite Hv1) Hl1 (tracks_empty _ _ _))
    as (c1 & Hl2 & Hold1 & _ & Htr1 & Hr2 & (Hrev2 & Hn2 & _ & Hu2)).
  destruct (StartSession_exec _ _ Hl2) as (ldb3' & E & Hl3 & Hdb3 & Hrev3 & Hn3 & _). cbn [fst] in *.
  rewrite Hs2 in E. injection E as <- _. assert (Hv3 : view ldb3 = view ldb2) by (by apply view_db).
  destruct (changes_session _ _ Hrun2 tbl2 (l ++ [c1]) _ ltac:(cbn; by rewrite Hv3) Hl3 (tracks_empty _ _ _))
    as (c2 & Hl4 & _ & _ & Htr2 & Hr4 & (Hrev4 & Hn4 & _ & Hu4)). cbn in *.
  rewrite <- app_assoc in Hl4. pose proof (tracks_squash _ _ _ _ _ Htr1 Htr2 (Hsq c1 c2 Hl4)) as Htr.
  destruct (Squash_exec _ _ _ _ Hl4) as (ldb5 & E5 & Hl5 & Hdb5 & Hrev5 & Hn5 & _).
  assert (Hv5 : view ldb5 = view ldb4) by (by apply view_db).
  destruct (Undo_tracks ldb5 l _ tbl0 tbl4 (view ldb0) Hl5 ltac:(by rewrite Hv5) Htr Hr) as (ldb6 & E6 & Hv6 & Hl6 & Hr6 & Hn6 & _).
  { intros k Hk. rewrite Hv5, Hu4, Hv3, Hu2, Hv1 by done. done. }
  exists ldb5, ldb6. split_and!; try done; [unfold containers in *; congruence| |].
  - rewrite Hr6, Hrev5, Hrev4, Hrev3, Hrev2, Hrev1.
    rewrite (i64_small (reversion ldb0 + 1)), (i64_small (reversion ldb0 + 1 + 1)) by lia.
    rewrite Z.add_simpl_r, (i64_small (reversion ldb0 + 1)), Z.add_simpl_r by lia. apply i64_small. lia.
  - rewrite Hn6. cbn. rewrite Hold1. done.
Qed.

(** ** Revisions *)

(** The containers are numbered without a gap, the top one by the revision. *)
Definition revisions_ok ldb (l : list undoContainer) : Prop :=
  containers ldb l /\ in_s 64 (reversion ldb) /\ in_s 64 (reversion ldb - len l) /\
  forall i c, l !! i = Some c -> Reversion c = reversion ldb - len l + 1 + Z.of_nat i.

(** The part of the stack above a revision. *)
Definition above (r : Z) (l : list undoContainer) : list undoContainer := filter (fun c => r < Reversion c) l.

Lemma above_all r l : Forall (fun c => r < Reversion c) l -> above r l = l.
Proof.
  unfold above. induction 1 as [|c l Hc _ IH]; [done|]. by rewrite filter_cons_True, IH by done.
Qed.

Lemma commit_loop_exact l : forall fuel r ldb, (length l <= fuel)%nat -> revisions_ok ldb l ->
  exists ldb', commit_loop fuel r ldb = (ldb', Ok tt) /\ revisions_ok ldb' (above r l) /\
    ldb' = set_stack (stack ldb') ldb.
Proof.
  induction l as [|c l IH]; intros fuel r ldb Hf (Hc & Hin & Hlow & Hrev).
  - exists ldb. split_and!; [|exact (conj Hc (conj Hin (conj Hlow Hrev)))|by destruct ldb].
    destruct fuel; unfold commit_loop; by rewrite Hc.
  - assert (Hhd : Reversion c = reversion ldb - len l).
    { rewrite (Hrev O c eq_refl). unfold len. cbn [length]. lia. }
    assert (Hall : Forall (fun c' => reversion ldb - len l <= Reversion c') l).
    { apply Forall_lookup. intros i c' Hi. rewrite (Hrev (S i) c' Hi). unfold len. cbn [length]. lia. }
    assert (Hstep : forall fuel, commit_loop fuel r ldb =
      if r <? Reversion c then (ldb, Ok tt)
      else match fuel with O => (ldb, Throw OutOfFuel) | S n => commit_loop n r (set_stack (mkDeque (map Some l) (-1)) ldb) end).
    { unfold containers in Hc. intros n. destruct n; cbn [commit_loop]; unfold getFirstStack; rewrite !Hc;
        rewrite (proj2 (Z.eqb_neq _ _)) by (unfold Size, len; cbn; lia); reflexivity. }
    rewrite Hstep. destruct (Z.ltb_spec r (Reversion c)) as [Hlt|Hge].
    + exists ldb. rewrite above_all.
      * split_and!; [done|exact (conj Hc (conj Hin (conj Hlow Hrev)))|by destruct ldb].
      * constructor; [done|]. eapply Forall_impl; [exact Hall|]. cbn. intros c' ?. lia.
    + unfold above. rewrite filter_cons_False by lia. fold (above r l). destruct fuel as [|fuel]; [cbn in Hf; lia|].
      destruct (IH fuel r (set_stack (mkDeque (map Some l) (-1)) ldb)) as (ldb' & E & Hok & Hfr).
      * cbn in Hf. lia.
      * split_and!; [done|done| |].
        -- cbn. unfold in_s, len in *. cbn [length] in *. lia.
        -- intros i c' Hi. cbn. rewrite (Hrev (S i) c' Hi). unfold len. cbn [length]. lia.
      * exists ldb'. split_and!; [done|done|]. rewrite Hfr. done.
Qed.

(** C37. Commit is exact: it returns for every revision, drops exactly the containers up to
    that revision, and changes neither the store nor the revision; the containers above
    it keep their numbers and can still be undone. *)
Theorem commit_exact ldb l r :
  revisions_ok ldb l ->
  exists ldb', Commit r ldb = (ldb', Ok tt) /\ revisions_ok ldb' (above r l) /\
    view ldb' = view ldb /\ reversion ldb' = reversion ldb /\ ids ldb' = ids ldb /\ nextId ldb' = nextId ldb /\
    Forall (fun c => r < Reversion c) (above r l).
Proof.
  intros Hok. pose proof Hok as (Hc & _). unfold Commit.
  destruct (commit_loop_exact l (length (items (stack ldb))) r ldb) as (ldb' & E & Hok' & Hf); [|done|].
  { rewrite Hc. cbn. by rewrite length_map. }
  exists ldb'. split_and!; [done|done|by rewrite Hf..|].
  apply Forall_forall. intros c. unfold above. rewrite list_elem_of_filter. tauto.
Qed.

(** The numbering is kept by every session operation. *)
Lemma revisions_StartSession ldb l ldb' s : revisions_ok ldb l -> reversion ldb < 2 ^ 63 - 1 ->
  StartSession ldb = (ldb', Ok s) ->
  revisions_ok ldb' (l ++ [newUndoContainer (reversion ldb + 1) (nextId ldb)]) /\ sreversion s = reversion ldb'.
Proof.
  intros (Hc & Hin & Hlow & Hrev) Hmax Hs. destruct (StartSession_exec _ _ Hc) as (ldb1 & E & Hl & _ & Hr & _ & _).
  rewrite Hs in E. injection E as <- ->. unfold in_s in *. cbn [Z.sub Z.pow_pos] in *.
  rewrite (i64_small (reversion ldb + 1)) in Hl, Hr |- * by (norm_pow; lia). split; [|done].
  unfold revisions_ok. rewrite len_app, Hr. unfold len at 2. cbn [length].
  split_and!; [done|unfold in_s; norm_pow; lia..| |].
  { unfold in_s, len. cbn [length]. norm_pow. unfold len in *. lia. }
  intros i c Hi. apply lookup_app_Some in Hi as [Hi|[Hlen Hi]].
  - rewrite (Hrev i c Hi). unfold len. cbn [length]. lia.
  - apply list_lookup_singleton_Some in Hi as [Hi <-]. cbn. unfold len. cbn [length]. lia.
Qed.

Lemma revisions_pop ldb l c ldb' : revisions_ok ldb (l ++ [c]) ->
  containers ldb' l -> reversion ldb' = i64 (reversion ldb - 1) -> revisions_ok ldb' l.
Proof.
  intros (_ & Hin & Hlow & Hrev) Hl Hr. rewrite len_app in *. unfold len at 2 in Hlow. cbn [length] in Hlow.
  unfold in_s in *. assert (0 <= len l) by (unfold len; lia). rewrite i64_small in Hr by (norm_pow; lia).
  unfold revisions_ok. rewrite Hr. split_and!; [done|unfold in_s; norm_pow; lia..|].
  intros i c' Hi. rewrite (Hrev i c') by (by apply lookup_app_l_Some). unfold len; cbn [length]; lia.
Qed.

(** The sessions below the top one stay as they are, and the top one keeps its number and
    the ids it goes back to. *)
Inductive top_step : list undoContainer -> list undoContainer -> Prop :=
| top_none : top_step [] []
| top_some l c c' : Reversion c' = Reversion c -> OldIds c' = OldIds c -> top_step (l ++ [c]) (l ++ [c']).

#[export] Instance top_step_preorder : PreOrder top_step.
Proof.
  split.
  - intros l. destruct l as [|c l _] using rev_ind; by constructor.
  - intros l1 l2 l3 H12 H23. destruct H12 as [|l c c' Hr Ho]; [done|].
    inversion H23 as [E|l' d d' Hr' Ho' E1 E2]; [by destruct l|]. apply app_inj_tail in E1 as [-> ->]. constructor; congruence.
Qed.

Lemma top_step_snoc l c l' : top_step (l ++ [c]) l' -> exists c', l' = l ++ [c'] /\ Reversion c' = Reversion c /\ OldIds c' = OldIds c.
Proof.
  inversion 1 as [E|l0 d d' Hr Ho E1 E2]; [by destruct l|]. apply app_inj_tail in E1 as [-> ->]. by exists d'.
Qed.

Lemma top_step_revisions l l' : top_step l l' -> map Reversion l' = map Reversion l.
Proof. destruct 1 as [|l c c' Hr Ho]; [done|]. rewrite !map_app. cbn. by rewrite Hr. Qed.

(** What an operation on objects does to the stack: only the top container changes. *)
Definition keeps {A} (m : M (LDataBase T) A) : Prop :=
  forall ldb l, containers ldb l -> exists l', containers (m ldb).1 l' /\
    top_step l l' /\ reversion (m ldb).1 = reversion ldb /\ nextId (m ldb).1 = nextId ldb.

Lemma keeps_ret {A} (a : A) : keeps (mret a).
Proof. intros ldb l Hl. by exists l. Qed.
Lemma keeps_lift {A} (r : result A) : keeps (lift r).
Proof. intros ldb l Hl. by exists l. Qed.
Lemma keeps_get : keeps get.
Proof. intros ldb l Hl. by exists l. Qed.
Lemma keeps_bind {A B} (m : M (LDataBase T) A) (k : A -> M (LDataBase T) B) :
  keeps m -> (forall a, keeps (k a)) -> keeps (m ≫= k).
Proof.
  intros Hm Hk ldb l Hl. destruct (Hm ldb l Hl) as (l1 & Hl1 & Ht1 & Hr1 & Hn1). unfold mbind, M_bind.
  destruct (m ldb) as [ldb1 [a|e]]; [|by exists l1]. cbn in *.
  destruct (Hk a ldb1 l1 Hl1) as (l2 & ? & ? & ? & ?). exists l2. split_and!; [done|by etrans|congruence..].
Qed.
Lemma keeps_modify f :
  (forall ldb, stack (f ldb) = stack ldb /\ reversion (f ldb) = reversion ldb /\ nextId (f ldb) = nextId ldb) -> keeps (modify f).
Proof.
  intros Hf ldb l Hl. exists l. cbn. destruct (Hf ldb) as (Hs & Hr & Hn). split_and!; [|done..].
  unfold containers. by rewrite Hs.
Qed.
Lemma keeps_writeBatch b : keeps (writeBatch b).
Proof. apply keeps_modify. intros ldb. by destruct (0 <? len b). Qed.

Lemma keeps_insertUndoState t m oT : keeps (insertUndoState t m oT).
Proof.
  intros ldb l Hl. rewrite insertUndoState_recorded. cbn [fst]. unfold recorded.
  destruct (getStack ldb) as [c|] eqn:E; [|by exists l].
  destruct l as [|c' l _] using rev_ind; [by unfold getStack in E; rewrite Hl in E|].
  rewrite (getStack_top _ _ _ Hl) in E. injection E as ->.
  eexists (l ++ [_]). split_and!; [by eapply set_top_containers|by constructor|done..].
Qed.

Create HintDb keeps.
#[local] Hint Resolve keeps_ret keeps_lift keeps_get keeps_bind keeps_writeBatch keeps_insertUndoState : keeps.
#[local] Hint Extern 1 (keeps (modify _)) => apply keeps_modify; done : keeps.
#[local] Hint Extern 1 (keeps (match ?x with _ => _ end)) => destruct x : keeps.
#[local] Hint Extern 1 (keeps (let _ := _ in _)) => cbv zeta : keeps.
#[local] Hint Extern 2 (keeps (insertKvToDb _)) => apply keeps_writeBatch : keeps.
#[local] Hint Extern 2 (keeps (removeKvToDb _)) => apply keeps_writeBatch : keeps.
#[local] Hint Extern 2 (keeps (modifyKvToDb _ _)) => apply keeps_writeBatch : keeps.

Lemma keeps_Insert o : keeps (Insert o).
Proof. unfold Insert, insert, setIncrement. auto 20 with keeps. Qed.
Lemma keeps_Modify o fn : keeps (Modify o fn).
Proof. unfold Modify, modifyRefToKv. auto 30 with keeps. Qed.
Lemma keeps_Remove o : keeps (Remove o).
Proof. unfold Remove, remove. auto 30 with keeps. Qed.

(** A call that writes, with any outcome. *)
Inductive db_write : LDataBase T -> LDataBase T -> Prop :=
| write_insert o ldb : db_write ldb (Insert o ldb).1
| write_modify o fn ldb : db_write ldb (Modify o fn ldb).1
| write_remove o ldb : db_write ldb (Remove o ldb).1.

Lemma db_writes_top ldb ldb' l : rtc db_write ldb ldb' -> containers ldb l -> exists l', containers ldb' l' /\
  top_step l l' /\ reversion ldb' = reversion ldb /\ nextId ldb' = nextId ldb.
Proof.
  intros Hw. revert l. induction Hw as [ldb|ldb1 ldb2 ldb3 Hw _ IH]; intros l Hl; [by exists l|].
  assert (exists l', containers ldb2 l' /\ top_step l l' /\ reversion ldb2 = reversion ldb1 /\ nextId ldb2 = nextId ldb1)
    as (l2 & Hl2 & Ht2 & Hr2 & Hn2).
  { destruct Hw; [by apply keeps_Insert|by apply keeps_Modify|by apply keeps_Remove]. }
  destruct (IH l2 Hl2) as (l3 & ? & ? & ? & ?). exists l3. split_and!; [done|by etrans|congruence..].
Qed.

Lemma revisions_keeps {A} (m : M (LDataBase T) A) ldb l : keeps m -> revisions_ok ldb l ->
  exists l', revisions_ok (m ldb).1 l'.
Proof.
  intros Hm (Hc & Hin & Hlow & Hrev). destruct (Hm ldb l Hc) as (l' & Hc' & Hmap%top_step_revisions & Hr & _). exists l'.
  assert (Hlen : len l' = len l) by (unfold len; rewrite <- !(length_map Reversion), Hmap; done).
  unfold revisions_ok. rewrite Hr, Hlen. split_and!; try done. intros i c Hi.
  assert (Hm' : map Reversion l !! i = Some (Reversion c)).
  { rewrite <- Hmap. change (map Reversion l') with (Reversion <$> l'). rewrite list_lookup_fmap, Hi. done. }
  change (map Reversion l) with (Reversion <$> l) in Hm'. rewrite list_lookup_fmap in Hm'.
  destruct (l !! i) as [c'|] eqn:E; [|done]. injection Hm' as <-. by apply Hrev.
Qed.

(** The operations of the database, with any outcome. *)
Inductive db_op : LDataBase T -> LDataBase T -> Prop :=
| op_insert o ldb : db_op ldb (Insert o ldb).1
| op_modify o fn ldb : db_op ldb (Modify o fn ldb).1
| op_remove o ldb : db_op ldb (Remove o ldb).1
| op_start ldb : reversion ldb < 2 ^ 63 - 1 -> db_op ldb (StartSession ldb).1
| op_undo ldb : db_op ldb (Undo_ ldb).1
| op_squash ldb : is_Some (getStack ldb) -> db_op ldb (Squash ldb).1
| op_commit r ldb : db_op ldb (Commit r ldb).1
| op_set_revision r ldb : in_s 64 r -> db_op ldb (SetRevision r ldb).1.

Lemma db_op_revisions ldb ldb' l : db_op ldb ldb' -> revisions_ok ldb l -> exists l', revisions_ok ldb' l'.
Proof.
  intros Hop Hok. pose proof Hok as (Hc & Hin & Hlow & Hrev).
  destruct Hop as [o ldb|o fn ldb|o ldb|ldb Hmax|ldb|ldb Htop|r ldb|r ldb Hr].
  - by eapply revisions_keeps; [apply keeps_Insert|].
  - by eapply revisions_keeps; [apply keeps_Modify|].
  - by eapply revisions_keeps; [apply keeps_Remove|].
  - destruct (StartSession ldb) as [ldb' [s|e]] eqn:E; [|by destruct (StartSession_exec _ _ Hc) as (? & E' & _); congruence].
    destruct (revisions_StartSession _ _ _ _ Hok Hmax E) as [? _]. eauto.
  - destruct l as [|c l _] using rev_ind.
    + exists []. assert (Undo_ ldb = (ldb, Ok tt)) as ->; [|done].
      unfold Undo_, mbind, M_bind, get, getStack. by rewrite Hc.
    + destruct (Undo_exec _ _ _ Hc) as (d & -> & _). exists l. by eapply revisions_pop.
  - destruct l as [|c2 l _] using rev_ind; [unfold getStack in Htop; rewrite Hc in Htop; by destruct Htop|].
    destruct l as [|c1 l _] using rev_ind.
    + assert (Squash ldb = pop_container ldb) as ->; [unfold Squash, mbind, M_bind, get; by rewrite Hc|].
      exists []. eapply (revisions_pop ldb [] c2); [done|unfold containers; cbn; by rewrite Hc|done].
    + rewrite <- app_assoc in Hc. destruct (Squash_exec _ _ _ _ Hc) as (ldb' & -> & Hl' & _ & Hr' & _).
      cbn [fst]. exists (l ++ [squash_container c2 c1]).
      assert (Hok1 : revisions_ok (set_stack (mkDeque (map Some ((l ++ [squash_container c2 c1]) ++ [c2])) (-1)) ldb)
        ((l ++ [squash_container c2 c1]) ++ [c2])); [|by eapply revisions_pop].
      rewrite !len_app in Hlow. split_and!; [done|done|by rewrite !len_app|].
      intros i c Hi. cbn. destruct (decide (i = length l)) as [->|Hne].
      * rewrite <- app_assoc in Hi. cbn [app] in Hi. rewrite list_lookup_middle in Hi by done. injection Hi as <-. cbn [Reversion squash_container].
        rewrite (Hrev (length l) c1), !len_app; [done|]. rewrite <- app_assoc. cbn [app]. by apply list_lookup_middle.
      * rewrite (Hrev i c), !len_app; [done|]. rewrite <- app_assoc in Hi |- *. cbn [app] in Hi |- *.
        destruct (decide (i < length l)%nat).
        -- rewrite lookup_app_l in Hi by done. by rewrite lookup_app_l by done.
        -- rewrite lookup_app_r in Hi by lia. rewrite lookup_app_r by lia. destruct (i - length l)%nat eqn:E; [lia|done].
  - destruct (commit_loop_exact l (length (items (stack ldb))) r ldb) as (ldb' & E & Hok' & _); [by rewrite Hc; cbn; rewrite length_map|done|].
    unfold Commit. rewrite E. eauto.
  - unfold SetRevision, mbind, M_bind, get. rewrite Hc. destruct l as [|c l].
    + cbn. assert ((2 ^ 63 - 1 <? r) = false) as ->; [apply Z.ltb_ge; unfold in_s in Hr; norm_pow; lia|].
      exists []. split_and!; [done|done| |done]. cbn. by rewrite Z.sub_0_r.
    + rewrite (proj2 (Z.eqb_neq _ _)) by (unfold Size, len; cbn; lia). eauto.
Qed.

(** C36. The undo stack along every run: from a database without open sessions, whatever
    operations follow (with any outcome, [Squash] being called only with an open
    session), the stack holds containers numbered without a gap up to the current
    revision, and [UndoAll] returns and closes all of them. *)
Theorem undo_stack_invariant ldb0 ldb :
  containers ldb0 [] -> in_s 64 (reversion ldb0) -> rtc db_op ldb0 ldb ->
  exists l, revisions_ok ldb l /\
    exists ldb', UndoAll ldb = (ldb', Ok tt) /\ containers ldb' [] /\ reversion ldb' = reversion ldb - len l.
Proof.
  intros Hc Hin Hrun.
  assert (Hok : exists l, revisions_ok ldb l).
  { assert (H1 : exists l, revisions_ok ldb0 l)
      by (exists []; split_and!; [done..| |done]; cbn; by rewrite Z.sub_0_r).
    clear Hc Hin. induction Hrun as [|a b c Hop _ IH]; [done|]. apply IH.
    destruct H1 as [l Hl]. by eapply db_op_revisions. }
  destruct Hok as [l Hok]. exists l. split; [done|]. pose proof Hok as (Hl & _).
  unfold UndoAll, mbind, M_bind, get. rewrite Hl. cbn [items]. rewrite length_map. clear Hrun Hl Hc Hin.
  revert ldb Hok. induction l as [|c l IH] using rev_ind; intros ldb Hok; pose proof Hok as (Hl & Hin & Hlow & _).
  - exists ldb. cbn. unfold mbind, M_bind, get, enable. rewrite Hl. cbn. unfold len. cbn. by rewrite Z.sub_0_r.
  - rewrite length_app, Nat.add_1_r. cbn [undo_all]. unfold mbind, M_bind, get, enable. rewrite Hl.
    rewrite (proj2 (Z.eqb_neq _ _)) by (unfold Size, len; cbn [items]; rewrite length_map, length_app; cbn; lia).
    cbn [negb]. destruct (Undo_exec _ _ _ Hl) as (d & -> & _).
    match goal with |- context [undo_all _ ?x] => destruct (IH x) as (ldb' & E & Hl' & Hr'); [by eapply revisions_pop|] end.
    exists ldb'. split_and!; [exact E|done|]. rewrite Hr'. cbn [reversion]. rewrite len_app in *.
    unfold in_s in *. assert (0 <= len l) by (unfold len; lia). unfold len at 2 in Hlow. cbn [length] in Hlow.
    rewrite i64_small by (norm_pow; lia). unfold len. cbn [length]. lia.
Qed.

Lemma objects_of_insert tbl o t kv z : objects_of tbl -> has_id o t z -> object_kv o = Some (t, kv) ->
  objects_of (<[(t, z) := kvmap kv]> tbl).
Proof.
  intros Hobj Hid Hkv t' z' y. rewrite lookup_insert_Some. intros [[[= <- <-] <-]|[_ Hy]]; [eauto|by apply Hobj].
Qed.

Lemma has_id_type o t z : has_id o t z -> no_underscore t = true.
Proof. intros (cfg & p & _ & [Ht _ _ _] & <- & _). done. Qed.

(** C34. The key-value store implements a table of objects: as long as the unique indices are
    respected, [Insert], [Modify] and [Remove] of objects are the insertion, update and
    deletion of their entries under their type and id, every key in the store belonging
    to one object, and [find] by the index [id] is a lookup: it decodes the
    object stored under that id, or reports that there is none. *)
Theorem database_refines_table ldb tbl :
  represents (view ldb) tbl -> objects_of tbl ->
  (forall o o' ldb' t kv, Insert o ldb = (ldb', Ok o') -> object_kv o' = Some (t, kv) -> has_id o' t (kvId kv) ->
     tbl !! (t, kvId kv) = None -> unused tbl (t, kvId kv) (kvmap kv) ->
     represents (view ldb') (<[(t, kvId kv) := kvmap kv]> tbl) /\ objects_of (<[(t, kvId kv) := kvmap kv]> tbl)) /\
  (forall s fn o' ldb' t t' kvo kvn, Modify (ref s) fn ldb = (ldb', Ok o') ->
     object_kv (ref s) = Some (t, kvo) -> object_kv o' = Some (t', kvn) -> has_id o' t (kvId kvo) ->
     tbl !! (t, kvId kvo) = Some (kvmap kvo) -> unused tbl (t, kvId kvo) (kvmap kvn) ->
     represents (view ldb') (<[(t, kvId kvo) := kvmap kvn]> tbl) /\ objects_of (<[(t, kvId kvo) := kvmap kvn]> tbl)) /\
  (forall s ldb' t kv, Remove (ref s) ldb = (ldb', Ok tt) -> find ldb tagID (ref s) (ref s) 0 = Ok (ref s) ->
     object_kv (ref s) = Some (t, kv) -> tbl !! (t, kvId kv) = Some (kvmap kv) ->
     represents (view ldb') (delete (t, kvId kv) tbl) /\ objects_of (delete (t, kvId kv) tbl)) /\
  (forall o t z to_, has_id o t z ->
     find ldb tagID o to_ 0 =
       match tbl !! (t, z) ≫= (fun y => y !! object_key t z) with
       | Some v => decode_to v to_
       | None => Throw ErrNotFound
       end).
Proof.
  intros Hr Hobj. split_and!.
  - intros o o' ldb' t kv HI Hkv Hid Hn Hu. split; [|by eapply objects_of_insert].
    eapply Insert_represents; eauto using has_id_type.
  - intros s fn o' ldb' t t' kvo kvn HM Ho Hkn Hid Hi Hu.
    destruct (Modify_spec _ _ _ _ _ _ _ _ _ HM Ho Hkn) as (-> & _).
    split; [|by eapply objects_of_insert]. eapply Modify_represents; eauto using has_id_type.
  - intros s ldb' t kv HR Hf Hkv Hi. split; [by eapply Remove_represents|].
    intros t' z y [_ Hy]%lookup_delete_Some. by apply Hobj.
  - intros o t z to_ Hid. by apply find_id.
Qed.

End Sessions.

(** ** A concrete database *)

(** An account with a unique index over its name. *)
Definition account (id name data : Z) : gvalue :=
  GStruct "AccountObject"
    [(mkField "ID" true EosNone "id,increment", GInteger KInt64 id);
     (mkField "Name" true EosNone "byName,orderedUnique", GInteger KUint64 name);
     (mkField "Data" true EosNone "", GInteger KUint64 data)].

Definition set_field (i : nat) (z : Z) (v : gvalue) : gvalue := write_path v [i] (GInteger KUint64 z).

Abbreviation store := (gmap bytes bytes).

Definition empty_db : LDataBase store := mkLDataBase ∅ newDeque 0 [∅] 0 false.

Definition run {A} (m : M (LDataBase store) A) (ldb : LDataBase store) : LDataBase store := (m ldb).1.

Definition account_kv (id name data : Z) : dbKeyValue :=
  match object_kv (ref (account id name data)) with Some (_, kv) => kv | None => emptyKV end.

(** The session: an account is inserted and its data changed. *)
Definition session_db : LDataBase store := run StartSession empty_db.
Definition inserted_db : LDataBase store := run (Insert (ref (account 0 7 1))) session_db.
Definition modified_db : LDataBase store := run (Modify (ref (account 0 7 1)) (set_field 2 5)) inserted_db.
Definition inserted_table : table := <[("AccountObject", 0) := kvmap (account_kv 0 7 1)]> ∅.
Definition modified_table : table := <[("AccountObject", 0) := kvmap (account_kv 0 7 5)]> inserted_table.

Lemma represents_empty (f : bytes -> option bytes) : (forall k, f k = None) -> represents f ∅.
Proof.
  intros Hf. split; [split|..]; intros *; rewrite ?lookup_empty, ?Hf; try done.
Qed.

Lemma unused_empty i x : unused ∅ i x.
Proof. intros j y k. by rewrite lookup_empty. Qed.

Lemma unused_single i x y : unused (<[i := y]> ∅) i x.
Proof. intros j z k. rewrite lookup_insert_Some, lookup_empty. naive_solver. Qed.

Lemma insert_account_step : change_step (session_db, ∅) (inserted_db, inserted_table).
Proof.
  apply (api_insert (ref (account 0 7 1)) (ref (account 0 7 1)) session_db inserted_db ∅ "AccountObject" (account_kv 0 7 1));
    [by_eval..|apply unused_empty|].
  intros c Hc. assert (c = newUndoContainer 1 0) as -> by (vm_compute in Hc; injection Hc as <-; reflexivity).
  constructor; [done|by_eval|]. intros j m k Hj. unfold Old in Hj. cbn in Hj. by rewrite lookup_empty in Hj.
Qed.

Lemma modify_account_step : change_step (inserted_db, inserted_table) (modified_db, modified_table).
Proof.
  apply (api_modify (account 0 7 1) (set_field 2 5) (ref (account 0 7 5)) inserted_db modified_db inserted_table
    "AccountObject" (account_kv 0 7 1) (account_kv 0 7 5)).
  1-5: by_eval.
  - apply unused_single.
  - intros c _. constructor; [by_eval|]. left. by_decide.
Qed.

Lemma undo_restores_session_witness :
  exists ldb3, Undo_ modified_db = (ldb3, Ok tt) /\ (forall k, view ldb3 k = view empty_db k) /\
    stack ldb3 = stack empty_db /\ reversion ldb3 = reversion empty_db /\ nextId ldb3 = nextId empty_db /\
    ids ldb3 = ids modified_db.
Proof.
  apply (undo_restores_session empty_db [] ∅ session_db (mkSession true true 1) modified_db modified_table).
  - reflexivity.
  - by apply represents_empty.
  - cbn. lia.
  - by_eval.
  - eapply rtc_l; [apply insert_account_step|]. eapply rtc_l; [apply modify_account_step|]. apply rtc_refl.
Defined.

Lemma account_has_id id name data : in_s 64 id -> has_id (ref (account id name data)) "AccountObject" id.
Proof.
  intros Hz. destruct (parseObjectToCfg (ref (account id name data))) as [cfg|] eqn:E; [|vm_compute in E; done].
  exists cfg, [0%nat]. vm_compute in E. injection E as <-. split_and!; try done. split; [done| | |].
  - repeat constructor.
  - by_decide.
  - eexists _, _. split_and!; reflexivity.
Qed.

Lemma inserted_objects : objects_of inserted_table.
Proof.
  apply (objects_of_insert ∅ (ref (account 0 7 1))); [|by apply account_has_id|by_eval].
  intros t z y. by rewrite lookup_empty.
Qed.

Lemma inserted_represents : represents (view inserted_db) inserted_table.
Proof.
  apply (Insert_represents (ref (account 0 7 1)) (ref (account 0 7 1)) session_db inserted_db "AccountObject" (account_kv 0 7 1));
    [|by_eval..|apply unused_empty]. by apply represents_empty.
Qed.

(** In the store with the account of id 0, it is found by its id and no other is. *)
Lemma database_refines_table_witness :
  find inserted_db tagID (ref (account 0 0 0)) (ref (account 0 0 0)) 0 = Ok (ref (account 0 7 1)) /\
  find inserted_db tagID (ref (account 1 0 0)) (ref (account 0 0 0)) 0 = Throw ErrNotFound.
Proof.
  destruct (database_refines_table inserted_db inserted_table inserted_represents inserted_objects) as (_ & _ & _ & Hf).
  split.
  - rewrite (Hf _ "AccountObject" 0); [by_eval|by apply account_has_id].
  - rewrite (Hf _ "AccountObject" 1); [by_eval|by apply account_has_id].
Defined.

(** The container of the session, with the new account. *)
Definition session_container : undoContainer :=
  let m := mkModifyValue 0 (account_kv 0 7 1) (account_kv 0 7 1) in
  mkUndoContainer {["AccountObject" := mkUndoState {[0 := m]} ∅ ∅]} 0 1.

Lemma session_container_old i : Old session_container i = None.
Proof.
  unfold Old, session_container. cbn [Undo]. destruct (decide (i.1 = "AccountObject"%string)) as [->|Hne].
  - by rewrite lookup_singleton_eq.
  - by rewrite lookup_singleton_ne.
Qed.

(** A session inside the session of the inserted account: it changes the data of that
    account and inserts a second one. *)
Definition inner_db : LDataBase store := run StartSession inserted_db.
Definition inner_modified : LDataBase store := run (Modify (ref (account 0 7 1)) (set_field 2 5)) inner_db.
Definition inner_both : LDataBase store := run (Insert (ref (account 0 9 3))) inner_modified.
Definition both_table : table := <[("AccountObject", 1) := kvmap (account_kv 1 9 3)]> modified_table.

Definition inner_container : undoContainer :=
  mkUndoContainer {["AccountObject" :=
    mkUndoState {[1 := mkModifyValue 1 (account_kv 1 9 3) (account_kv 1 9 3)]} ∅
      {[0 := mkModifyValue 0 (account_kv 0 7 1) (account_kv 0 7 5)]}]} 0 2.

(** Before the insertion. *)
Definition modified_container : undoContainer :=
  mkUndoContainer {["AccountObject" :=
    mkUndoState ∅ ∅ {[0 := mkModifyValue 0 (account_kv 0 7 1) (account_kv 0 7 5)]}]} 0 2.

Lemma inner_both_stack : items (stack inner_both) = [Some session_container; Some inner_container].
Proof. by_eval. Qed.

(** The second account shares no key with the first one in either version. *)
Lemma second_account_keys (m : gmap bytes bytes) :
  m = kvmap (account_kv 0 7 1) \/ m = kvmap (account_kv 0 7 5) ->
  forall k, is_Some (kvmap (account_kv 1 9 3) !! k) -> m !! k = None.
Proof.
  intros Hm k Hk. assert (Hd : map_Forall (fun k _ => m !! k = None) (kvmap (account_kv 1 9 3))).
  { destruct Hm as [->| ->]; by_decide. }
  destruct Hk as [x Hx]. exact (Hd k x Hx).
Qed.

Lemma inner_modify_step : change_step (inner_db, inserted_table) (inner_modified, modified_table).
Proof.
  apply (api_modify (account 0 7 1) (set_field 2 5) (ref (account 0 7 5)) inner_db inner_modified inserted_table
    "AccountObject" (account_kv 0 7 1) (account_kv 0 7 5)).
  1-5: by_eval.
  - apply unused_single.
  - intros c _. constructor; [by_eval|]. left. by_decide.
Qed.

Lemma old_single nv rv z m n r i m' :
  Old (mkUndoContainer {["AccountObject" := mkUndoState nv rv {[z := m]}]} n r) i = Some m' ->
  i = ("AccountObject"%string, z) /\ m' = m.
Proof.
  unfold Old. cbn [Undo]. destruct i as [t y]. cbn [fst snd].
  intros (u & (<- & <-)%lookup_singleton_Some & Hu)%bind_Some. cbn [OldValue] in Hu.
  by apply lookup_singleton_Some in Hu as [<- <-].
Qed.

Lemma inner_insert_step : change_step (inner_modified, modified_table) (inner_both, both_table).
Proof.
  apply (api_insert (ref (account 0 9 3)) (ref (account 1 9 3)) inner_modified inner_both modified_table
    "AccountObject" (account_kv 1 9 3)); [by_eval..| |].
  - intros j y k Hj _ Hk. apply second_account_keys; [|done]. unfold modified_table, inserted_table in Hj.
    rewrite insert_insert_eq in Hj. apply lookup_insert_Some in Hj as [[_ <-]|[_ Hj]]; [by right|by rewrite lookup_empty in Hj].
  - intros c Hc. assert (c = modified_container) as -> by (vm_compute in Hc; injection Hc as <-; reflexivity).
    constructor; [by_eval|by_eval|]. intros j m k [_ ->]%old_single _ Hk. cbn [OldKv NewKv] in *.
    apply eq_None_not_Some. intros Hn. pose proof (second_account_keys _ (or_introl eq_refl) k Hn) as E.
    rewrite E in Hk. by destruct Hk.
Qed.

Lemma squash_then_undo_witness :
  exists ldb5 ldb6, Squash inner_both = (ldb5, Ok tt) /\ view ldb5 = view inner_both /\
    Undo_ ldb5 = (ldb6, Ok tt) /\ (forall k, view ldb6 k = view empty_db k) /\
    stack ldb6 = stack empty_db /\ reversion ldb6 = reversion empty_db /\ nextId ldb6 = nextId empty_db.
Proof.
  apply (squash_then_undo empty_db [] ∅ session_db (mkSession true true 1) inserted_db inserted_table
    inner_db (mkSession true true 2) inner_both both_table).
  - reflexivity.
  - by apply represents_empty.
  - cbn. lia.
  - by_eval.
  - apply rtc_once, insert_account_step.
  - by_eval.
  - eapply rtc_l; [apply inner_modify_step|]. apply rtc_once, inner_insert_step.
  - intros c1 c2 Hc. apply (f_equal items) in Hc. cbn [items map app] in Hc. rewrite inner_both_stack in Hc.
    injection Hc as <- <-. split.
    + intros i m [_ ->]%old_single _. by_decide.
    + intros i m _. apply session_container_old.
    + intros i m _. unfold Removed, session_container. cbn [Undo]. destruct (decide (i.1 = "AccountObject"%string)) as [->|Hne];
        [by rewrite lookup_singleton_eq|by rewrite lookup_singleton_ne].
    + intros i m j y k Hi. by rewrite session_container_old in Hi.
Defined.

Lemma commit_exact_witness :
  exists ldb', Commit 1 (run StartSession session_db) = (ldb', Ok tt) /\
    revisions_ok ldb' (above 1 [newUndoContainer 1 0; newUndoContainer 2 0]) /\
    view ldb' = view (run StartSession session_db) /\ reversion ldb' = reversion (run StartSession session_db) /\
    ids ldb' = ids (run StartSession session_db) /\ nextId ldb' = nextId (run StartSession session_db) /\
    Forall (fun c => 1 < Reversion c) (above 1 [newUndoContainer 1 0; newUndoContainer 2 0]).
Proof.
  apply (commit_exact (run StartSession session_db) [newUndoContainer 1 0; newUndoContainer 2 0] 1).
  split_and!; [unfold containers; by_eval|by_decide..|].
  intros [|[|i]] c Hi; cbn in Hi; [injection Hi as <-; by_eval..|done].
Defined.

Lemma undo_stack_invariant_witness :
  exists l, revisions_ok modified_db l /\
    exists ldb', UndoAll modified_db = (ldb', Ok tt) /\ containers ldb' [] /\ reversion ldb' = reversion modified_db - len l.
Proof.
  apply (undo_stack_invariant empty_db modified_db); [reflexivity|by_decide|].
  apply (rtc_l _ _ session_db); [exact (op_start empty_db eq_refl)|].
  apply (rtc_l _ _ inserted_db); [exact (op_insert (ref (account 0 7 1)) session_db)|].
  apply rtc_once. exact (op_modify (ref (account 0 7 1)) (set_field 2 5) inserted_db).
Defined.

(** ** Where the source departs: runs outside the discipline *)

Definition name_key (name : Z) : bytes :=
  splicingString (string_bytes "AccountObject") (string_bytes "byName" ++ [underscore; underscore] ++ be_bytes 8 name ++ [underscore]).

(** The store before the session: one account, named 7. *)
Definition one_account : LDataBase store := run (Insert (ref (account 0 7 1))) empty_db.
Definition open_session : LDataBase store := run StartSession one_account.

Definition rename (from to_ : Z) (ldb : LDataBase store) : LDataBase store :=
  run (Modify (ref (account 0 from 1)) (set_field 1 to_)) ldb.

(** An object that is renamed twice in a session leaves an index entry of its last name
    behind: only the first modification was recorded. *)
Theorem undo_stale_index :
  view one_account (name_key 9) = None /\
  view (run Undo_ (rename 8 9 (rename 7 8 open_session))) (name_key 9) = Some (id_bytes 0).
Proof. split; by_eval. Qed.

(** An object that is modified and then removed in a session comes back in its modified
    version. *)
Theorem undo_modify_remove :
  let ldb := run (Remove (ref (account 0 7 5))) (run (Modify (ref (account 0 7 1)) (set_field 2 5)) open_session) in
  find one_account "id" (ref (account 0 0 0)) (ref (account 0 0 0)) 0 = Ok (ref (account 0 7 1)) /\
  find (run Undo_ ldb) "id" (ref (account 0 0 0)) (ref (account 0 0 0)) 0 = Ok (GPtr (account 0 0 0) (Some (account 0 7 5))).
Proof. split; by_eval. Qed.

(** The key given up by a renamed object and taken by a new one is lost. *)
Theorem undo_reused_key :
  view one_account (name_key 7) = Some (id_bytes 0) /\
  view (run Undo_ (run (Insert (ref (account 0 7 2))) (rename 7 8 open_session))) (name_key 7) = None.
Proof. split; by_eval. Qed.

(** Undo does not take back the ids: the container holds the very map the database goes
    on writing to. *)
Theorem undo_ids_not_restored :
  next_ids open_session !! "AccountObject"%string = Some 1 /\
  next_ids (run Undo_ (run (Insert (ref (account 0 8 1))) open_session)) !! "AccountObject"%string = Some 2.
Proof. split; by_eval. Qed.

(** [Modify] compares the ids of the old and the new object before they are read, so it
    accepts a change of the id. *)
Theorem modify_accepts_new_id :
  exists ldb, Modify (ref (account 0 7 1)) (fun v => write_path v [0%nat] (GInteger KInt64 4)) one_account
    = (ldb, Ok (GPtr (account 0 0 0) (Some (account 4 7 1)))).
Proof.
  exists (run (Modify (ref (account 0 7 1)) (fun v => write_path v [0%nat] (GInteger KInt64 4))) one_account). by_eval.
Qed.

(** A unique index is not checked on insertion: a second account of the same name takes
    the index entry over, and removing it leaves the first one without. *)
Theorem duplicate_key_accepted :
  let two := run (Insert (ref (account 0 7 2))) one_account in
  view two (name_key 7) = Some (id_bytes 1) /\
  view (run (Remove (ref (account 1 7 2))) two) (name_key 7) = None /\
  view (run (Remove (ref (account 1 7 2))) two) (object_key "AccountObject" 0) = Some (value (idk (account_kv 0 7 1))).
Proof. split_and!; by_eval. Qed.
