(* ===== verification/DbIndex.v ===== *)
(** * DbIndex: the indices of the state database

    [database/iterator.go], [multi_index.go] and the part of [database.go] that opens
    iterators.  An index is the range of the keys that start with the name of a type
    and of a tag; its values are ids, and an iterator reads the object of the id under
    its cursor from the database.

    The iterators of LevelDB are third-party code: a [cursor] is what their
    documentation promises, a position in the entries of a key range that were in the
    store when the iterator was opened. *)

From stdpp Require Import sorting.
From S2P Require Import Prelude Bytes Rlp Ecc DbPack DbSchema Database DbTable DbSession.

(** ** LevelDB cursors *)

Inductive position : Type := SOI | At (i : nat) | EOI.

Record cursor : Type := mkCursor { slice : list (bytes * bytes); pos : position }.

Definition at_cursor (c : cursor) : option (bytes * bytes) :=
  match pos c with At i => slice c !! i | _ => None end.

(** A move to index [i]: off the end when there is no such entry. *)
Definition go_to (c : cursor) (i : nat) : cursor * bool :=
  if (i <? length (slice c))%nat then (mkCursor (slice c) (At i), true) else (mkCursor (slice c) EOI, false).

(** Go's nil slice, the key and value of an invalid cursor, is the empty string. *)
Definition cValue (c : cursor) : bytes := match at_cursor c with Some e => e.2 | None => [] end.
Definition cNext (c : cursor) : cursor * bool :=
  match pos c with
  | SOI => go_to c 0
  | At i => go_to c (S i)
  | EOI => (c, false)
  end.
Definition cLast (c : cursor) : cursor * bool :=
  match length (slice c) with
  | O => (mkCursor (slice c) SOI, false)
  | S n => (mkCursor (slice c) (At n), true)
  end.
Definition cPrev (c : cursor) : cursor * bool :=
  match pos c with
  | SOI | At O => (mkCursor (slice c) SOI, false)
  | At (S i) => (mkCursor (slice c) (At i), true)
  | EOI => cLast c
  end.
(** The first entry that is not below the key. *)
Definition below (k : bytes) (e : bytes * bytes) : bool := bytes_Compare e.1 k =? -1.
Fixpoint count_below (k : bytes) (l : list (bytes * bytes)) : nat :=
  match l with [] => O | e :: l' => if below k e then S (count_below k l') else O end.
Definition cSeek (c : cursor) (k : bytes) : cursor * bool := go_to c (count_below k (slice c)).

Definition in_range (start limit k : bytes) : Prop := bytes_Compare k start <> -1 /\ bytes_Compare k limit = -1.
#[global] Instance in_range_dec start limit k : Decision (in_range start limit k).
Proof. unfold in_range. apply _. Defined.

(** ** Iterators over an index *)

Inductive status : Type := itNONE | itBEGIN | itCURRENT | itEND.
#[global] Instance status_eq_dec : EqDecision status.
Proof. solve_decision. Defined.

(** [it] may be nil; [db] never is, and the fields [begin] and [first] are not used. *)
Record DbIterator : Type := mkDbIterator {
  itKey : bytes; itValue : bytes; currentStatus : status; itTypeName : bytes; it : option cursor }.

Definition set_it (c : cursor) (x : DbIterator) : DbIterator :=
  mkDbIterator (itKey x) (itValue x) (currentStatus x) (itTypeName x) (Some c).
Definition set_status (s : status) (x : DbIterator) : DbIterator :=
  mkDbIterator (itKey x) (itValue x) s (itTypeName x) (it x).
Definition setKV (k v : bytes) (x : DbIterator) : DbIterator :=
  mkDbIterator k v (currentStatus x) (itTypeName x) (it x).

Definition newDbIterator (typeName : bytes) (c : cursor) : DbIterator := mkDbIterator [] [] itNONE typeName (Some c).

(** [index.it], dereferenced *)
Definition deref : M DbIterator cursor :=
  x ← get; match it x with Some c => mret c | None => lift (Throw NilDereference) end.

Definition End_ (x : DbIterator) : bool := bool_decide (currentStatus x = itEND).
Definition Begin_ (x : DbIterator) : bool :=
  match it x with None => false | Some _ => bool_decide (currentStatus x = itBEGIN) end.

(** [Data] prints a decoding error and returns nil; what the destination holds then is
    left open. *)
Inductive filled : Type := Filled (v : gvalue) | Undecoded (e : exn).

Record MultiIndex : Type := mkMultiIndex {
  mbegin : bytes; mend : bytes; mtypeName : bytes; mfieldName : string }.

Section Indices.
Context {T : Type} `{LevelDB T}.
Implicit Types ldb : LDataBase T.

Definition NewIterator ldb (start limit : bytes) : cursor :=
  mkCursor (filter (fun e => in_range start limit e.1) (Entries (db ldb))) SOI.

(** Returns whether the error is nil. *)
Definition keyValue ldb (key : bytes) : M DbIterator bool :=
  x ← get;
  let k := splicingString (itTypeName x) key in
  match Get (db ldb) k with
  | None => mret false
  | Some v => _ ← modify (setKV k v); mret true
  end.

Definition next ldb : M DbIterator bool :=
  c ← deref;
  let '(c, ok) := cNext c in
  _ ← modify (set_it c);
  if ok then _ ← modify (set_status itCURRENT); keyValue ldb (cValue c)
  else _ ← modify (set_status itEND); mret false.

Definition prev ldb : M DbIterator bool :=
  c ← deref;
  let '(c, ok) := cPrev c in
  _ ← modify (set_it c);
  if ok then _ ← modify (set_status itCURRENT); keyValue ldb (cValue c)
  else _ ← modify (set_status itBEGIN); mret false.

Definition Value ldb : M DbIterator bytes :=
  c ← deref; _ ← keyValue ldb (cValue c); x ← get; mret (itValue x).

Definition Data ldb (data : gvalue) : M DbIterator filled :=
  match Elem data with
  | Some (GStruct _ _) =>
      match data with
      | GPtr _ _ =>
          c ← deref;
          _ ← keyValue ldb (cValue c);
          v ← Value ldb;
          match decode_to v data with
          | Ok d => mret (Filled d)
          | Throw e => if is_error e then mret (Undecoded e) else lift (Throw e)
          end
      | _ => lift (Throw ErrPtrNeeded)
      end
  | _ => lift (Throw ErrStructPtrNeeded)
  end.

(** *** Opening iterators *)

Definition getIndex (tagName : string) (value : gvalue) : result MultiIndex :=
  getFieldInfo tagName value ≫= fun fields =>
  let typeName := string_bytes (typeName fields) in
  let begin := splicingString typeName (string_bytes tagName) in
  keyEnd begin ≫= fun end_ =>
  Ok (mkMultiIndex begin end_ typeName tagName).
Definition GetIndex := getIndex.

(** [None] for the two nil results. *)
Definition dbPrefix (begin : bytes) (fieldName : string) (data : gvalue) (skip : nat) : result (option (bytes * bytes)) :=
  match getFieldInfo fieldName data with
  | Throw e => if is_error e then Ok None else Throw e
  | Ok fields =>
      match fieldValueToByte data fields skip with
      | Throw e => if is_error e then Ok None else Throw e
      | Ok prefix =>
          if len prefix =? 0 then Ok None
          else Ok (Some (begin ++ prefix, string_bytes (typeName fields)))
      end
  end.

Definition dbIterator ldb (key : option bytes) (begin end_ typeName : bytes) : result DbIterator :=
  let '(c, ok) := cNext (NewIterator ldb begin end_) in
  if negb ok then Throw ErrNotFound
  else match key with
  | None => Ok (newDbIterator typeName c)
  | Some k =>
      let '(c, ok) := cSeek c k in
      if negb ok then Throw ErrNotFound else Ok (newDbIterator typeName c)
  end.

Definition LowerBound_ ldb (begin end_ : bytes) (fieldName : string) (data : gvalue) (skip : nat) : result DbIterator :=
  dbPrefix begin fieldName data skip ≫= fun p =>
  match p with
  | None => dbIterator ldb None begin end_ []
  | Some (key, typeName) => dbIterator ldb (Some key) begin end_ typeName
  end.

(** [keyEnd] of a nil key panics. *)
Definition UpperBound_ ldb (begin end_ : bytes) (fieldName : string) (data : gvalue) (skip : nat) : result DbIterator :=
  dbPrefix begin fieldName data skip ≫= fun p =>
  match p with
  | None => Throw IndexOutOfRange
  | Some (key, typeName) => keyEnd key ≫= fun key => dbIterator ldb (Some key) begin end_ typeName
  end.

Definition EndIterator ldb (begin end_ typeName : bytes) : result DbIterator :=
  let '(c, ok) := cNext (NewIterator ldb begin end_) in
  if negb ok then Ok (mkDbIterator [] [] itEND typeName None)
  else
    let '(c, ok) := cLast c in
    if ok then Ok (mkDbIterator [] [] itEND typeName (Some (cNext c).1)) else Throw ErrNotFound.

Definition BeginIterator ldb (begin end_ typeName : bytes) : result DbIterator :=
  let '(c, ok) := cNext (NewIterator ldb begin end_) in
  if negb ok then Throw ErrNotFound
  else match Get (db ldb) (splicingString typeName (cValue c)) with
  | None => Throw ErrNotFound
  | Some v => Ok (mkDbIterator [] v itBEGIN typeName (Some c))
  end.

Definition Empty_ ldb (begin end_ : bytes) : bool := negb (cNext (NewIterator ldb begin end_)).2.

Definition IteratorTo_ ldb (begin end_ : bytes) (fieldName : string) (data : gvalue) (skip : nat) : result DbIterator :=
  getFieldInfo fieldName data ≫= fun fields =>
  fieldValueToByte data fields skip ≫= fun prefix =>
  if len prefix =? 0 then Throw ErrMessage
  else
    let '(c, ok) := cSeek (NewIterator ldb begin end_) (begin ++ prefix) in
    if negb ok then Throw ErrNotFound
    else
      let typeName := string_bytes (typeName fields) in
      match Get (db ldb) (splicingString typeName (cValue c)) with
      | None => Throw ErrNotFound
      | Some v => Ok (mkDbIterator [] v itNONE typeName (Some c))
      end.

(** *** The methods of an index; an iterator is an interface value, so it may be nil *)

Definition or_end ldb (mi : MultiIndex) (r : result DbIterator) : result DbIterator :=
  match r with
  | Ok x => Ok x
  | Throw e => if is_error e then EndIterator ldb (mbegin mi) (mend mi) (mtypeName mi) else Throw e
  end.
Definition LowerBound ldb mi (in_ : gvalue) (skip : nat) : result DbIterator :=
  or_end ldb mi (LowerBound_ ldb (mbegin mi) (mend mi) (mfieldName mi) in_ skip).
Definition UpperBound ldb mi (in_ : gvalue) (skip : nat) : result DbIterator :=
  or_end ldb mi (UpperBound_ ldb (mbegin mi) (mend mi) (mfieldName mi) in_ skip).

Definition mEnd ldb mi : option DbIterator :=
  match EndIterator ldb (mbegin mi) (mend mi) (mtypeName mi) with Ok x => Some x | Throw _ => None end.
Definition mBegin ldb mi : option DbIterator :=
  match BeginIterator ldb (mbegin mi) (mend mi) (mtypeName mi) with Ok x => Some x | Throw _ => mEnd ldb mi end.

Definition CompareEnd ldb mi (in_ : option DbIterator) : result bool :=
  match in_ with
  | None => Ok false
  | Some x => match mEnd ldb mi with None => Throw NilDereference | Some e => Ok (End_ e && End_ x) end
  end.

(** Comparing loads the values of both iterators. *)
Definition CompareIterator ldb (it1 it2 : option DbIterator) : result (bool * option DbIterator * option DbIterator) :=
  match it1, it2 with
  | None, None => Ok (true, it1, it2)
  | Some x, Some y =>
      if Begin_ x && Begin_ y then Ok (true, it1, it2)
      else if End_ x && End_ y then Ok (true, it1, it2)
      else match Value ldb x, Value ldb y with
      | (x, Ok a), (y, Ok b) => Ok (bytes_Compare a b =? 0, Some x, Some y)
      | (_, Throw e), _ => Throw e
      | _, (_, Throw e) => Throw e
      end
  | _, _ => Ok (false, it1, it2)
  end.

Definition CompareBegin ldb mi (in_ : option DbIterator) : result (bool * option DbIterator) :=
  match in_ with
  | None => Ok (false, None)
  | Some _ => CompareIterator ldb in_ (mBegin ldb mi) ≫= fun '(b, x, _) => Ok (b, x)
  end.

Definition BeginData ldb mi (out : gvalue) : result filled :=
  match mBegin ldb mi with
  | None => Throw ErrMessage
  | Some x => match (Data ldb out x).2 with Throw e => Throw (if is_error e then ErrMessage else e) | r => r end
  end.

Definition IteratorTo ldb mi (in_ : gvalue) : result DbIterator :=
  match IteratorTo_ ldb (mbegin mi) (mend mi) (mfieldName mi) in_ 0 with
  | Ok x => Ok x
  | Throw e => if is_error e then Throw GoPanic else Throw e
  end.

Definition mEmpty ldb mi : bool := Empty_ ldb (mbegin mi) (mend mi).

End Indices.

(** The loop of the callers over a whole index: [for !idx.CompareEnd(itr) { itr.Data(&x);
    ...; itr.Next() }], with a fresh [x]. *)
Fixpoint scan {T} `{LevelDB T} (fuel : nat) (ldb : LDataBase T) (mi : MultiIndex) (to_ : gvalue)
    (x : option DbIterator) : result (list filled) :=
  match fuel, x with
  | O, _ => Throw OutOfFuel
  | _, None => Throw NilDereference
  | S n, Some x =>
      CompareEnd ldb mi (Some x) ≫= fun e : bool =>
      if e then Ok []
      else match Data ldb to_ x with
      | (x, Throw e) => Throw e
      | (x, Ok d) =>
          match next ldb x with
          | (x, Throw e) => Throw e
          | (x, Ok _) => scan n ldb mi to_ (Some x) ≫= fun ds => Ok (d :: ds)
          end
      end
  end.

(** ** Key ranges *)

Lemma range_of_last (c : bytes) x : forall k : bytes,
  bytes_Compare k (c ++ [x]) <> -1 /\ bytes_Compare k (c ++ [x + 1]) = -1 <-> exists r, k = c ++ x :: r.
Proof.
  induction c as [|y c IH]; intros [|z k]; cbn [app bytes_Compare].
  - split; [intros [? _]; done|intros [r [=]]].
  - split.
    + intros [H1 H2]. assert (z = x) as ->; [|by exists k].
      repeat case_match; rewrite ?Z.ltb_lt, ?Z.ltb_ge in *; try done; try lia.
      assert (z = x + 1) as -> by lia. by destruct k.
    + intros [r [= -> ->]]. rewrite Z.ltb_irrefl. split; [by destruct r|].
      by rewrite (proj2 (Z.ltb_lt _ _)) by lia.
  - split; [intros [? _]; done|intros [r [=]]].
  - destruct (Z.ltb_spec z y), (Z.ltb_spec y z).
    all: try (split; [intros [? ?]; done|intros (r & [=]); lia]); try lia.
    rewrite IH. assert (z = y) as -> by lia. split; intros [r E]; exists r; [by rewrite E|by injection E].
Qed.

Definition last_below_255 (b : bytes) : Prop := exists x, last b = Some x /\ 0 <= x < 255.

Lemma has_prefix_app p k : has_prefix p k = true <-> exists r, k = p ++ r.
Proof.
  unfold has_prefix. rewrite bool_decide_eq_true. split.
  - intros E. exists (drop (length p) k). rewrite <- E at 1. by rewrite take_drop.
  - intros [r ->]. by rewrite take_app_length.
Qed.

(** [keyEnd] closes the range of the keys that start with [b]. *)
Lemma keyEnd_range b : last_below_255 b ->
  exists e, keyEnd b = Ok e /\ forall k, in_range b e k <-> has_prefix b k = true.
Proof.
  intros (x & Hx & Hr). unfold keyEnd. rewrite Hx. eexists. split; [done|]. intros k.
  apply last_Some in Hx as [c ->]. rewrite length_app. cbn [length].
  replace (length c + 1 - 1)%nat with (length c) by lia. rewrite take_app_length.
  unfold uwrap. rewrite Z.mod_small by lia. unfold in_range. rewrite range_of_last, has_prefix_app.
  split; intros [r ->]; exists r; by rewrite <- app_assoc.
Qed.

(** ** Counting the entries below a key *)

Lemma bytes_lt_le a b c : bytes_Compare a b = -1 -> bytes_Compare b c <> 1 -> bytes_Compare a c = -1.
Proof.
  intros H1 H2. destruct (bytes_Compare_cases b c) as [E|[E|E]]; [by eapply bytes_Compare_trans| |done].
  by apply bytes_Compare_eq in E as <-.
Qed.

Abbreviation by_key := (StronglySorted (fun a b : bytes * bytes => bytes_Compare a.1 b.1 = -1)).

Lemma count_below_spec k l : by_key l ->
  (count_below k l <= length l)%nat /\
  forall i e, l !! i = Some e -> (bytes_Compare e.1 k = -1 <-> (i < count_below k l)%nat).
Proof.
  induction 1 as [|a l Hs [IHn IH] Hall]; [split; [done|]; by intros []|].
  cbn [count_below]. unfold below. destruct (Z.eqb_spec (bytes_Compare a.1 k) (-1)) as [E|E]; cbn [length].
  - split; [lia|]. intros [|i] e He; cbn in He; [injection He as <-; split; [lia|done]|].
    rewrite (IH i e He). lia.
  - split; [lia|]. intros [|i] e He; cbn in He; [injection He as <-; split; [done|lia]|]. split; [|lia].
    intros Hk. exfalso. apply E. apply list_elem_of_lookup_2 in He. rewrite Forall_forall in Hall.
    specialize (Hall e He). by eapply bytes_Compare_trans.
Qed.

(** ** The keys of an object in an index *)

Definition tag_prefix (t tag : string) : bytes := splicingString (string_bytes t) (string_bytes tag).

(** A tag is a plain name. *)
Definition plain_tag (tag : string) : Prop :=
  (exists c r, string_bytes tag = c :: r /\ c <> 0) /\ last_below_255 (string_bytes tag) /\ no_underscore tag = true.

(** The object [o] has the index [tag], and none of its tags extends this one. *)
Definition indexed_by (tag : string) (o : gvalue) : Prop :=
  exists cfg f, parseObjectToCfg o = Ok cfg /\ lookup_field tag (Fields cfg) = Some f /\
    Forall (fun tf => has_prefix (string_bytes tag) (string_bytes tf.1) = true -> tf.1 = tag) (Fields cfg).

(** The key of [o] in the index [tag]. *)
Definition has_index_key (o : gvalue) (t : string) (z : Z) (tag : string) (k : bytes) : Prop :=
  exists cfg f, parseObjectToCfg o = Ok cfg /\ lookup_field tag (Fields cfg) = Some f /\
    index_key o t (id_bytes z) tag f = Ok k.

Lemma prefix_until_underscore (a b r : bytes) :
  forallb (fun x => negb (x =? underscore)) a = true -> has_prefix a (b ++ underscore :: r) = true -> has_prefix a b = true.
Proof.
  rewrite !has_prefix_app. revert b. induction a as [|x a IH]; intros b Ha [s E]; [by exists b|].
  cbn in Ha. apply andb_true_iff in Ha as [Hx Ha]. destruct b as [|y b]; cbn in E; injection E as Hxy E; subst.
  - by rewrite Z.eqb_refl in Hx.
  - destruct (IH b Ha (ex_intro _ s E)) as [s' ->]. by exists s'.
Qed.

Lemma has_prefix_strip (p a b : bytes) : has_prefix (p ++ a) (p ++ b) = true <-> has_prefix a b = true.
Proof.
  rewrite !has_prefix_app. split; intros [r E]; exists r; [|by rewrite E, app_assoc].
  rewrite <- app_assoc in E. by apply app_inv_head in E.
Qed.

(** Ids of stored objects start at 0; the first byte of a smaller one is not a letter. *)
Lemma id_bytes_head z : 0 <= z < 2 ^ 56 -> exists r, id_bytes z = 0 :: r.
Proof.
  intros Hz. unfold id_bytes. rewrite (uwrap_id 64) by (unfold in_u; norm_pow; lia).
  rewrite be_bytes_S. eexists. f_equal. change (8 * Z.of_nat 7) with 56. rewrite Z.shiftr_div_pow2, Z.div_small by done. done.
Qed.

Lemma object_index o t z kv tag :
  has_id o t z -> object_kv o = Some (t, kv) -> indexed_by tag o -> plain_tag tag -> 0 <= z < 2 ^ 56 ->
  exists k, has_index_key o t z tag k /\ has_prefix (tag_prefix t tag) k = true /\
    kvmap kv !! k = Some (id_bytes z) /\
    forall k', is_Some (kvmap kv !! k') -> has_prefix (tag_prefix t tag) k' = true -> k' = k.
Proof.
  intros Hid Ho (cfg & f & Hp & Hf & Hex) ((c & rt & Htag & Hc) & _ & Hnu) Hz.
  pose proof (object_entries o t z kv Hid Ho) as [_ _ _ _ Hent].
  destruct Hid as (cfg' & p & Hp' & [Ht Htags Honce _] & Hname & Hr & Hread & Hz').
  assert (cfg' = cfg) as -> by congruence. subst t.
  destruct (object_kv_fields _ _ _ _ _ _ Hp Hr Hread Hz' Ho) as (_ & _ & Hidk & ks & Hks & Hidx).
  pose proof (lookup_field_elem _ _ _ Hf) as Hin. apply list_elem_of_lookup in Hin as [n Hn].
  destruct (Forall2_lookup_l _ _ _ _ _ Hks Hn) as (k & Hk & Ek). cbn [fst snd] in Ek.
  assert (Honly : forall k', is_Some (kvmap kv !! k') -> has_prefix (tag_prefix (Name cfg) tag) k' = true -> k' = k).
  { intros k' (e & He & <-)%kvmap_lookup Hpre. apply elem_of_app in He as [He|He].
    - rewrite Hidx in He. apply list_elem_of_fmap in He as (k2 & -> & Hk2). cbn [key] in *.
      apply list_elem_of_lookup in Hk2 as [m Hm]. destruct (Forall2_lookup_r _ _ _ _ _ Hks Hm) as ([tag' g] & Hg & Ek').
      apply list_elem_of_lookup_2 in Hg. cbn [fst snd] in Ek'. destruct (index_key_shape _ _ _ _ _ _ Ek') as [r ->].
      rewrite Forall_forall in Hex. specialize (Hex _ Hg). cbn [fst] in Hex.
      unfold tag_prefix, splicingString in Hpre. rewrite !app_assoc in Hpre. rewrite <- (app_assoc _ (string_bytes tag')) in Hpre.
      apply has_prefix_strip, prefix_until_underscore in Hpre; [|done]. apply Hex in Hpre as ->.
      assert (g = f) as -> by (eapply field_entry_unique; [exact Honce|done|by apply lookup_field_elem]). congruence.
    - apply list_elem_of_singleton in He as ->. exfalso. rewrite Hidk in Hpre. unfold tag_prefix, object_key, splicingString in Hpre.
      apply has_prefix_strip in Hpre. apply (has_prefix_strip [underscore; underscore]) in Hpre.
      destruct (id_bytes_head z Hz) as [ri Hi]. rewrite Htag, Hi in Hpre. apply has_prefix_app in Hpre as [s [= E _]]. done. }
  exists k. split_and!; [by exists cfg, f| |  |done].
  - destruct (index_key_shape _ _ _ _ _ _ Ek) as [r ->]. apply has_prefix_app. exists (underscore :: r).
    unfold tag_prefix, splicingString. by rewrite <- !app_assoc.
  - assert (Hki : mkKv k (id_bytes z) ∈ index kv).
    { rewrite Hidx. apply list_elem_of_lookup_2 in Hk. exact (list_elem_of_fmap_2 (fun k => mkKv k (id_bytes z)) _ _ Hk). }
    destruct (kvmap kv !! k) as [v|] eqn:E.
    + unfold kvmap in E. apply elem_of_list_to_map_2 in E. rewrite elem_of_reverse in E.
      unfold entries in E. apply list_elem_of_fmap in E as (e & [= Hke ->] & He).
      apply elem_of_app in He as [He|He]; [by destruct (Hent e He) as [-> _]|].
      apply list_elem_of_singleton in He as ->. exfalso. rewrite Hidk in Hke.
      destruct (index_key_shape _ _ _ _ _ _ Ek) as [r Hr']. rewrite Hr' in Hke. unfold object_key, splicingString in Hke.
      destruct (id_bytes_head z Hz) as [ri Hi]. rewrite Hi in Hke.
      do 2 apply app_inv_head in Hke. rewrite Htag in Hke. injection Hke as E' _. done.
    + exfalso. assert (is_Some (kvmap kv !! k)) as [? E']; [|by rewrite E in E'].
      apply kvmap_lookup. exists (mkKv k (id_bytes z)). set_solver.
Qed.

(** ** The rows of an index *)

Lemma Forall_choose {A B} (P : A -> B -> Prop) l :
  (forall a, a ∈ l -> exists b, P a b) -> exists l', Forall2 P l l'.
Proof.
  induction l as [|a l IH]; intros Hl; [by exists []|].
  destruct (Hl a ltac:(left)) as [b Hb]. destruct IH as [l' Hl']; [intros x Hx; apply Hl; by right|].
  exists (b :: l'). by constructor.
Qed.

(** The value can be stored and read back. *)
Definition storable (s : gvalue) : Prop := fits s /\ forall bs, Marshal s = Ok bs -> len bs < 2 ^ 62.

(** The entries [y] are those of the object [s], which has the index [tag]. *)
Definition stores (t tag : string) (z : Z) (s : gvalue) (y : gmap bytes bytes) : Prop :=
  exists kv, y = kvmap kv /\ has_id (ref s) t z /\ object_kv (ref s) = Some (t, kv) /\ indexed_by tag (ref s) /\ storable s.

(** Every object of the type [t] in the table has the index [tag] and a plausible id;
    [z0] is a zero variable of the type. *)
Definition indexed_table (tbl : table) (t tag : string) (z0 : gvalue) : Prop :=
  forall z y, tbl !! (t, z) = Some y -> 0 <= z < 2 ^ 56 /\ exists s, stores t tag z s y /\ zero s = z0.

Lemma ref_struct s t z : has_id (ref s) t z -> exists n fs, s = GStruct n fs.
Proof. intros (cfg & p & Hp & _). destruct s; try done. eauto. Qed.

(** What is stored under the id decodes to the object. *)
Lemma stored_value t tag z s y : stores t tag z s y ->
  exists v, y !! object_key t z = Some v /\ decode_to v (ref (zero s)) = Ok (GPtr (zero (zero s)) (Some s)).
Proof.
  intros (kv & -> & Hid & Ho & _ & Hf & Hl). destruct (ref_struct s t z Hid) as (n & fs & Hs).
  pose proof (object_entries _ _ _ _ Hid Ho) as [_ _ Hidk _ _].
  destruct (round_trip_any s Hf) as [(bs & W & R) _]. exists bs.
  assert (Henc : Marshal s = Ok bs) by (unfold Marshal, EncodeToBytes, newEncoder; by rewrite W). split.
  - assert (value (idk kv) = bs) as <-.
    { unfold object_kv in Ho. destruct (parseObjectToCfg (ref s)) as [cfg|]; [|done]. unfold structKV in Ho.
      assert (Marshal (ref s) = Ok bs) as E by (rewrite Hs in Henc |- *; exact Henc). rewrite E in Ho.
      destruct (match rId cfg with Some p => _ | None => _ end ≫= Marshal) as [oi|]; [|done].
      destruct (DecodeBytes oi _) as [[]|]; try done.
      destruct (cfgToKV _ _ _ _ _) as [kv' [u|]] eqn:Ec; [|done]. injection Ho as _ <-.
      apply cfgToKV_ok in Ec as [Hk _]. cbn. by rewrite Hk. }
    rewrite <- Hidk. unfold kvmap, entries. rewrite map_app, reverse_app. cbn. by rewrite lookup_insert_eq.
  - unfold decode_to, ref, DecodeBytes. destruct (R (newDecoder bs) []) as (d' & E & _).
    + rewrite app_nil_r. unfold at_bytes, newDecoder, dunread. cbn [dpos ddata deosArray dvuint32]. cbn.
      specialize (Hl bs Henc). unfold len in *. split_and!; try done; lia.
    + by rewrite E.
Qed.

Record index_of (mi : MultiIndex) (t tag : string) : Prop := {
  mi_begin : mbegin mi = tag_prefix t tag;
  mi_end : keyEnd (tag_prefix t tag) = Ok (mend mi);
  mi_type : mtypeName mi = string_bytes t;
  mi_field : mfieldName mi = tag }.

Lemma tag_prefix_last t tag : plain_tag tag -> last_below_255 (tag_prefix t tag).
Proof.
  intros (_ & (x & Hx & Hr) & _). exists x. split; [|done]. unfold tag_prefix, splicingString.
  apply last_Some in Hx as [l ->]. by rewrite !app_assoc, last_snoc.
Qed.

Lemma has_id_fields o t z tag : has_id o t z -> indexed_by tag o ->
  exists f, getFieldInfo tag o = Ok f /\ typeName f = t.
Proof.
  intros (cfg & p & Hp & [_ Htags _ _] & <- & _) (cfg' & f & Hp' & Hf & _).
  assert (cfg' = cfg) as -> by congruence. exists f. split.
  - destruct (parse_extract _ _ Hp) as [He _].
    unfold parseObjectToCfg in Hp. destruct o as [| | | | | | | | | | |e [[]|]| |]; try done.
    unfold extractObjectTagInfo in He. rewrite extract_GPtr in He.
    unfold getFieldInfo. cbn [Elem]. unfold extractObjectTagInfo. rewrite extract_GStruct, He. cbn. by rewrite Hf.
  - apply lookup_field_elem in Hf. rewrite Forall_forall in Htags. apply (Htags _ Hf).
Qed.

Lemma getIndex_of o t z tag : has_id o t z -> indexed_by tag o -> plain_tag tag ->
  exists mi, GetIndex tag o = Ok mi /\ index_of mi t tag.
Proof.
  intros Hid Hi Hp. destruct (has_id_fields _ _ _ _ Hid Hi) as (f & Hf & Ht).
  destruct (keyEnd_range _ (tag_prefix_last t tag Hp)) as (e & He & _).
  unfold GetIndex, getIndex. rewrite Hf. cbn [mbind result_bind]. rewrite Ht.
  change (splicingString (string_bytes t) (string_bytes tag)) with (tag_prefix t tag). rewrite He. eauto using Build_index_of.
Qed.

Section Rows.
Context {T : Type} `{LevelDB T} `{!LevelDBLaws T}.
Implicit Types ldb : LDataBase T.

Definition rows ldb (mi : MultiIndex) : list (bytes * bytes) := slice (NewIterator ldb (mbegin mi) (mend mi)).

Lemma rows_elem ldb mi t tag k v : index_of mi t tag -> plain_tag tag ->
  (k, v) ∈ rows ldb mi <-> has_prefix (tag_prefix t tag) k = true /\ view ldb k = Some v.
Proof.
  intros [Hb He _ _] Hp. unfold rows. cbn [NewIterator slice]. rewrite list_elem_of_filter, Entries_Get. cbn [fst].
  destruct (keyEnd_range _ (tag_prefix_last t tag Hp)) as (e & He' & Hr). rewrite Hb.
  assert (e = mend mi) as -> by congruence. by rewrite Hr.
Qed.

Lemma rows_sorted ldb mi : by_key (rows ldb mi).
Proof.
  unfold rows. cbn [NewIterator slice]. pose proof (Entries_sorted (db ldb)) as Hs.
  induction Hs as [|a l Hs IH Hall]; [constructor|]. rewrite filter_cons. case_decide; [|done].
  constructor; [done|]. rewrite Forall_forall in *. intros b [_ Hb]%list_elem_of_filter. auto.
Qed.

(** A row of the index and the object it stands for. *)
Definition row_of (tbl : table) (t tag : string) (z0 : gvalue) (e : bytes * bytes) (r : bytes * Z * gvalue) : Prop :=
  let '(k, z, s) := r in
  e = (k, id_bytes z) /\ zero s = z0 /\ exists y, tbl !! (t, z) = Some y /\ stores t tag z s y /\ has_index_key (ref s) t z tag k.

Lemma rows_objects ldb tbl mi t tag z0 :
  represents (view ldb) tbl -> indexed_table tbl t tag z0 -> plain_tag tag -> no_underscore t = true -> index_of mi t tag ->
  (forall e, e ∈ rows ldb mi -> exists r, row_of tbl t tag z0 e r) /\
  (forall z y, tbl !! (t, z) = Some y -> exists k, (k, id_bytes z) ∈ rows ldb mi).
Proof.
  intros Hr Hi Hp Ht Hmi. split.
  - intros [k v] [Hpre Hv]%(rows_elem _ _ _ _ _ _ Hmi Hp).
    assert (Hty : type_of k = Some (string_bytes t)).
    { apply has_prefix_app in Hpre as [r ->]. unfold tag_prefix, splicingString. rewrite <- !app_assoc. by apply type_of_key. }
    destruct (rep_owner _ _ Hr k v ltac:(by rewrite Hty) Hv) as ([t' z] & y & Hy & Hyk).
    assert (t' = t) as ->.
    { pose proof (ok_typed _ (rep_ok _ _ Hr) _ _ Hy k ltac:(by rewrite Hyk)) as E. cbn in E.
      apply string_bytes_inj. congruence. }
    destruct (Hi z y Hy) as (Hz & s & Hs & Hz0). pose proof Hs as (kv & -> & Hid & Ho & Hib & _).
    destruct (object_index _ _ _ _ _ Hid Ho Hib Hp Hz) as (k' & Hk' & _ & Hval & Honly).
    assert (k = k') as -> by (apply Honly; [by rewrite Hyk|done]).
    exists (k', z, s). split; [congruence|]. split; [done|]. eexists. eauto.
  - intros z y Hy. destruct (Hi z y Hy) as (Hz & s & (kv & -> & Hid & Ho & Hib & _) & _).
    destruct (object_index _ _ _ _ _ Hid Ho Hib Hp Hz) as (k & _ & Hpre & Hval & _).
    exists k. apply (rows_elem _ _ t tag); [done..|]. split; [done|]. by eapply (rep_owned _ _ Hr).
Qed.

(** ** Moving through the rows *)

(** The iterator [x] stands on row [i] of the index. *)
Definition stands ldb mi (i : nat) (x : DbIterator) : Prop :=
  it x = Some (mkCursor (rows ldb mi) (At i)) /\ itTypeName x = mtypeName mi /\ currentStatus x <> itEND.

(** Every row leads to an object in the store. *)
Definition complete ldb mi : Prop :=
  forall k v, (k, v) ∈ rows ldb mi -> is_Some (Get (db ldb) (splicingString (mtypeName mi) v)).

Lemma keyValue_found ldb x v w : Get (db ldb) (splicingString (itTypeName x) v) = Some w ->
  keyValue ldb v x = (setKV (splicingString (itTypeName x) v) w x, Ok true).
Proof. intros E. unfold keyValue, mbind, M_bind, get. by rewrite E. Qed.

Lemma stands_Data ldb mi i x k v w (to_ d : gvalue) n fs :
  stands ldb mi i x -> rows ldb mi !! i = Some (k, v) -> Get (db ldb) (splicingString (mtypeName mi) v) = Some w ->
  Elem to_ = Some (GStruct n fs) -> decode_to w to_ = Ok d ->
  exists x', Data ldb to_ x = (x', Ok (Filled d)) /\ stands ldb mi i x'.
Proof.
  intros (Hit & Ht & Hs) Hrow Hg He Hd. unfold Data. rewrite He. destruct to_ as [| | | | | | | | | | |e o| |]; try done.
  assert (Hv : cValue (mkCursor (rows ldb mi) (At i)) = v) by (unfold cValue, at_cursor; cbn [pos slice]; by rewrite Hrow).
  rewrite <- Ht in Hg.
  assert (Hstep : forall y, it y = it x -> itTypeName y = itTypeName x -> deref y = (y, Ok (mkCursor (rows ldb mi) (At i))) /\
    keyValue ldb v y = (setKV (splicingString (itTypeName x) v) w y, Ok true)).
  { intros y E1 E2. split; [unfold deref, mbind, M_bind, get; by rewrite E1, Hit|].
    rewrite <- E2 in *. by apply keyValue_found. }
  set (y := setKV (splicingString (itTypeName x) v) w x).
  destruct (Hstep x eq_refl eq_refl) as [D1 K1]. destruct (Hstep y eq_refl eq_refl) as [D2 K2].
  exists (setKV (splicingString (itTypeName x) v) w y). split; [|done].
  unfold Value, mbind, M_bind. rewrite D1, Hv, K1. cbv beta iota. fold y. rewrite D2, Hv, K2. cbv beta iota.
  unfold get, mret, M_ret. cbv beta iota. unfold setKV at 1. cbn [itValue]. by rewrite Hd.
Qed.

Lemma go_to_ok c i : (i < length (slice c))%nat -> go_to c i = (mkCursor (slice c) (At i), true).
Proof. intros Hi. unfold go_to. by rewrite (proj2 (Nat.ltb_lt _ _)). Qed.
Lemma go_to_end c i : (length (slice c) <= i)%nat -> go_to c i = (mkCursor (slice c) EOI, false).
Proof. intros Hi. unfold go_to. by rewrite (proj2 (Nat.ltb_ge _ _)). Qed.

Lemma stands_next ldb mi i x : complete ldb mi -> stands ldb mi i x ->
  exists x' b, next ldb x = (x', Ok b) /\
    if (S i <? length (rows ldb mi))%nat then stands ldb mi (S i) x' else currentStatus x' = itEND.
Proof.
  intros Hc (Hit & Ht & Hs). unfold next, deref, mbind, M_bind, get. rewrite Hit. unfold mret, M_ret, cNext. cbn [pos].
  destruct (Nat.ltb_spec (S i) (length (rows ldb mi))) as [Hlt|Hge].
  - rewrite go_to_ok by done. cbn [slice]. unfold modify.
    destruct (rows ldb mi !! S i) as [[k v]|] eqn:Hrow; [|apply lookup_ge_None in Hrow; lia].
    destruct (Hc k v ltac:(by eapply list_elem_of_lookup_2)) as [w Hw].
    assert (cValue (mkCursor (rows ldb mi) (At (S i))) = v) as -> by (unfold cValue, at_cursor; cbn [pos slice]; by rewrite Hrow).
    erewrite keyValue_found by (cbn [itTypeName set_status set_it]; rewrite Ht; exact Hw).
    eexists _, _. split; [reflexivity|]. done.
  - rewrite go_to_end by done. eexists _, _. split; [reflexivity|]. done.
Qed.

Lemma NewIterator_rows ldb mi : NewIterator ldb (mbegin mi) (mend mi) = mkCursor (rows ldb mi) SOI.
Proof. reflexivity. Qed.

Lemma mEnd_status ldb mi : exists e, mEnd ldb mi = Some e /\ currentStatus e = itEND.
Proof.
  unfold mEnd, EndIterator, cNext. rewrite NewIterator_rows. cbn [pos].
  generalize (rows ldb mi) as l. intros [|r l]; eexists; split; reflexivity.
Qed.

Lemma CompareEnd_status ldb mi x : CompareEnd ldb mi (Some x) = Ok (End_ x).
Proof.
  destruct (mEnd_status ldb mi) as (e & He & Hs). unfold CompareEnd. rewrite He. unfold End_ at 1. by rewrite Hs.
Qed.

Lemma mBegin_stands ldb mi : complete ldb mi ->
  exists x, mBegin ldb mi = Some x /\
    if (0 <? length (rows ldb mi))%nat then stands ldb mi 0 x else currentStatus x = itEND.
Proof.
  intros Hc. unfold mBegin, BeginIterator, cNext. rewrite NewIterator_rows. cbn [pos].
  destruct (Nat.ltb_spec 0 (length (rows ldb mi))) as [Hl|Hl].
  - rewrite go_to_ok by done. cbn [negb slice].
    destruct (rows ldb mi !! 0%nat) as [[k v]|] eqn:Hrow; [|apply lookup_ge_None in Hrow; lia].
    destruct (Hc k v ltac:(by eapply list_elem_of_lookup_2)) as [w Hw].
    assert (cValue (mkCursor (rows ldb mi) (At 0)) = v) as -> by (unfold cValue, at_cursor; cbn [pos slice]; by rewrite Hrow).
    rewrite Hw. eexists. split; [reflexivity|]. done.
  - rewrite go_to_end by done. cbn [negb]. destruct (mEnd_status ldb mi) as (e & He & Hs). rewrite He. eauto.
Qed.

(** The scan from row [i] returns what the remaining rows lead to. *)
Lemma scan_from ldb mi to_ n fs (f : bytes -> gvalue) :
  Elem to_ = Some (GStruct n fs) ->
  (forall k v, (k, v) ∈ rows ldb mi -> exists w, Get (db ldb) (splicingString (mtypeName mi) v) = Some w /\ decode_to w to_ = Ok (f v)) ->
  forall m i x, (i + m = length (rows ldb mi))%nat ->
    (if (i <? length (rows ldb mi))%nat then stands ldb mi i x else currentStatus x = itEND) ->
    scan (S m) ldb mi to_ (Some x) = Ok (map (fun e => Filled (f e.2)) (drop i (rows ldb mi))).
Proof.
  intros He Hall m. assert (Hc : complete ldb mi) by (intros k v Hkv; destruct (Hall k v Hkv) as (w & -> & _); eauto).
  induction m as [|m IH]; intros i x Hi Hx.
  - rewrite (proj2 (Nat.ltb_ge i _)) in Hx by lia. cbn [scan]. rewrite CompareEnd_status. cbn [mbind result_bind].
    unfold End_. rewrite Hx, drop_ge by lia. done.
  - rewrite (proj2 (Nat.ltb_lt i _)) in Hx by lia. cbn [scan]. rewrite CompareEnd_status. cbn [mbind result_bind].
    unfold End_. rewrite bool_decide_eq_false_2 by apply Hx.
    destruct (rows ldb mi !! i) as [[k v]|] eqn:Hrow; [|apply lookup_ge_None in Hrow; lia].
    destruct (Hall k v ltac:(by eapply list_elem_of_lookup_2)) as (w & Hw & Hd).
    destruct (stands_Data ldb mi i x k v w to_ (f v) n fs Hx Hrow Hw He Hd) as (x1 & -> & Hx1).
    destruct (stands_next ldb mi i x1 Hc Hx1) as (x2 & b & -> & Hx2).
    change (scan (S m) ldb mi to_ (Some x2) ≫= (fun ds => Ok (Filled (f v) :: ds))
      = Ok (map (fun e => Filled (f e.2)) (drop i (rows ldb mi)))).
    rewrite (IH (S i) x2) by (lia || done). cbn [mbind result_bind]. by erewrite (drop_S _ _ i) by exact Hrow.
Qed.

Lemma sorted_key_once (l : list (bytes * bytes)) : by_key l ->
  forall (i j : nat) a b, l !! i = Some a -> l !! j = Some b -> a.1 = b.1 -> i = j.
Proof.
  intros Hs i j a b Hi Hj Hab.
  assert (Hlt : forall (l : list (bytes * bytes)) (i j : nat) a b, by_key l -> l !! i = Some a -> l !! j = Some b ->
    (i < j)%nat -> bytes_Compare a.1 b.1 = -1).
  { clear. intros l i j a b Hs. revert i j. induction Hs as [|c l Hs IH Hall]; intros i j Hi Hj Hij; [done|].
    destruct j as [|j]; [lia|]. cbn in Hj. destruct i as [|i]; cbn in Hi; [|by apply (IH i j); try lia].
    injection Hi as ->. rewrite Forall_forall in Hall. apply Hall. by eapply list_elem_of_lookup_2. }
  destruct (Nat.lt_trichotomy i j) as [H1|[H1|H1]]; [|done|].
  - pose proof (Hlt l i j a b Hs Hi Hj H1) as E. rewrite Hab, (proj2 (bytes_Compare_eq _ _) eq_refl) in E. done.
  - pose proof (Hlt l j i b a Hs Hj Hi H1) as E. rewrite Hab, (proj2 (bytes_Compare_eq _ _) eq_refl) in E. done.
Qed.

(** An id determines its row. *)
Lemma row_of_unique tbl t tag z0 e e' k k' z s s' :
  row_of tbl t tag z0 e (k, z, s) -> row_of tbl t tag z0 e' (k', z, s') -> k = k' /\ s = s'.
Proof.
  intros (_ & Hz0 & y & Hy & Hs & cfg & f & Hp & Hf & Hk) (_ & Hz0' & y' & Hy' & Hs' & cfg' & f' & Hp' & Hf' & Hk').
  rewrite Hy in Hy'. injection Hy' as <-. destruct (stored_value _ _ _ _ _ Hs) as (v & Hv & Hd).
  destruct (stored_value _ _ _ _ _ Hs') as (v' & Hv' & Hd'). rewrite Hv in Hv'. injection Hv' as <-.
  rewrite Hz0 in Hd. rewrite Hz0' in Hd'. rewrite Hd in Hd'. injection Hd' as <-. split; [|done]. congruence.
Qed.

(** The value of the first field of the index [tag]. *)
Definition first_field (o : gvalue) (tag : string) (v : gvalue) : Prop :=
  exists cfg f p ps, parseObjectToCfg o = Ok cfg /\ lookup_field tag (Fields cfg) = Some f /\
    fieldValue f = p :: ps /\ read_path o p = Ok v.

Lemma bytes_Compare_common (p a b : bytes) : bytes_Compare (p ++ a) (p ++ b) = bytes_Compare a b.
Proof. rewrite bytes_Compare_app by done. by rewrite (proj2 (bytes_Compare_eq _ _)). Qed.

Lemma index_key_first o t z tag k v : has_index_key o t z tag k -> first_field o tag v ->
  exists bv r, Marshal v = Ok bv /\ k = tag_prefix t tag ++ [underscore; underscore] ++ bv ++ r.
Proof.
  intros (cfg & f & Hp & Hf & Hk) (cfg' & f' & p & ps & Hp' & Hf' & Hfv & Hread).
  rewrite Hp in Hp'. injection Hp' as <-. rewrite Hf in Hf'. injection Hf' as <-.
  unfold index_key, fieldValueToByte in Hk. rewrite Hfv, Nat.sub_0_r, firstn_all in Hk. cbn [field_values] in Hk.
  rewrite Hread in Hk. cbn [mbind result_bind] in Hk. destruct (Marshal v) as [b|]; [|done]. cbn [mbind result_bind] in Hk. apply bind_Ok in Hk as (sfx & Hk & [= <-]).
  apply bind_Ok in Hk as (rest & _ & [= <-]).
  eexists b, (rest ++ _). split; [done|]. unfold tag_prefix, splicingString. rewrite <- !app_assoc. cbn [app]. by rewrite <- app_assoc.
Qed.

(** Rows in the order of their keys are in the order of their first field. *)
Lemma index_order_value o o' t z z' tag k k' v v' :
  has_index_key o t z tag k -> has_index_key o' t z' tag k' -> first_field o tag v -> first_field o' tag v' ->
  comparable v v' -> fits v -> fits v' -> bytes_Compare k k' = -1 -> rank v <= rank v'.
Proof.
  intros Hk Hk' Hv Hv' Hc Hf Hf'. destruct (db_key_order v v' Hc Hf Hf') as (bv & bv' & Eb & Eb' & Hlen & Hcmp).
  destruct (index_key_first _ _ _ _ _ _ Hk Hv) as (b1 & r1 & E1 & ->). destruct (index_key_first _ _ _ _ _ _ Hk' Hv') as (b2 & r2 & E2 & ->).
  unfold Marshal in *. rewrite Eb in E1. rewrite Eb' in E2. injection E1 as <-. injection E2 as <-.
  rewrite !bytes_Compare_common, bytes_Compare_app by done. rewrite Hcmp.
  destruct (Z.eqb_spec (Z.sgn (rank v - rank v')) 0); lia.
Qed.

(** The scan of the whole index, row by row. *)
Lemma scan_rows ldb tbl mi t tag z0 l :
  represents (view ldb) tbl -> index_of mi t tag -> (exists n fs, z0 = GStruct n fs) \/ rows ldb mi = [] ->
  Forall2 (row_of tbl t tag z0) (rows ldb mi) l ->
  scan (S (length l)) ldb mi (ref z0) (mBegin ldb mi) = Ok (map (fun r : bytes * Z * gvalue => Filled (GPtr (zero z0) (Some r.2))) l).
Proof.
  intros Hr Hmi Hz0 Hl.
  assert (Hall : forall e r, row_of tbl t tag z0 e r -> exists w,
    Get (db ldb) (splicingString (mtypeName mi) e.2) = Some w /\ decode_to w (ref z0) = Ok (GPtr (zero z0) (Some r.2))).
  { intros e [[k z] s] (-> & <- & y & Hy & Hs & _). destruct (stored_value _ _ _ _ _ Hs) as (w & Hw & Hd).
    exists w. split; [|done]. rewrite (mi_type _ _ _ Hmi). exact (rep_owned _ _ Hr _ _ _ _ Hy Hw). }
  pose (f := fun v => match Get (db ldb) (splicingString (mtypeName mi) v) with
    | Some w => match decode_to w (ref z0) with Ok d => d | Throw _ => z0 end | None => z0 end).
  assert (Hmap : map (fun e => Filled (f e.2)) (rows ldb mi) = map (fun r : bytes * Z * gvalue => Filled (GPtr (zero z0) (Some r.2))) l).
  { clear -Hl Hall. induction Hl as [|e r L l He Hl IH]; [done|]. cbn [map]. rewrite IH. do 2 f_equal.
    destruct (Hall e r He) as (w & Hw & Hd). unfold f. by rewrite Hw, Hd. }
  assert (Hrows : forall k v, (k, v) ∈ rows ldb mi -> exists w,
    Get (db ldb) (splicingString (mtypeName mi) v) = Some w /\ decode_to w (ref z0) = Ok (f v)).
  { intros k v Hin. apply list_elem_of_lookup in Hin as [n Hn]. destruct (Forall2_lookup_l _ _ _ _ _ Hl Hn) as (r & _ & Hro).
    destruct (Hall _ _ Hro) as (w & Hw & Hd). cbn [snd] in Hw. exists w. split; [done|]. unfold f. by rewrite Hw, Hd. }
  destruct (mBegin_stands ldb mi) as (x & -> & Hx).
  { intros k v Hin. destruct (Hrows k v Hin) as (w & -> & _). eauto. }
  rewrite <- Hmap, <- (Forall2_length _ _ _ Hl). destruct Hz0 as [(n & fs & Hz0)|Hnil].
  - rewrite (scan_from ldb mi (ref z0) n fs f ltac:(by rewrite Hz0) Hrows (length (rows ldb mi)) 0 x); [done|lia|done].
  - rewrite Hnil in *. cbn in Hx. cbn [length map scan]. rewrite CompareEnd_status. unfold End_. by rewrite Hx.
Qed.

Lemma rows_keys_sorted tbl t tag z0 L l : by_key L -> Forall2 (row_of tbl t tag z0) L l ->
  StronglySorted (fun a b : bytes * Z * gvalue => bytes_Compare a.1.1 b.1.1 = -1) l.
Proof.
  intros Hs Hl. revert Hs. induction Hl as [|e [[k z] s] L l He Hl IH]; intros Hs; inversion_clear Hs; constructor; [auto|].
  destruct He as [-> _]. clear -Hl H1. induction Hl as [|e [[k' z'] s'] L l He Hl IH]; constructor.
  - destruct He as [-> _]. by inversion_clear H1.
  - inversion_clear H1. auto.
Qed.

Lemma StronglySorted_weaken {A} (R S : A -> A -> Prop) l : StronglySorted R l ->
  (forall a b, a ∈ l -> b ∈ l -> R a b -> S a b) -> StronglySorted S l.
Proof.
  induction 1 as [|a l Hs IH Hall]; intros HS; constructor.
  - apply IH. intros x y Hx Hy. apply HS; by right.
  - rewrite Forall_forall in *. intros b Hb. apply HS; [left|by right|auto].
Qed.

(** C30. Indices enumerate the table: scanning the index [tag] of a type from [Begin] with
    [CompareEnd], [Data] and [Next] ends, and returns every object of this type in the
    table exactly once, decoded to what was stored, in the byte order of the keys of
    the index, which is the order of the values of its first field when this is of an
    orderable kind. *)
Theorem index_scan ldb tbl t tag z0 o zo :
  represents (view ldb) tbl -> indexed_table tbl t tag z0 -> plain_tag tag -> has_id o t zo -> indexed_by tag o ->
  exists mi l, GetIndex tag o = Ok mi /\
    scan (S (length l)) ldb mi (ref z0) (mBegin ldb mi)
      = Ok (map (fun r : bytes * Z * gvalue => Filled (GPtr (zero z0) (Some r.2))) l) /\
    StronglySorted (fun a b => bytes_Compare a.1.1 b.1.1 = -1) l /\
    NoDup (map (fun r => r.1.2) l) /\
    (forall z, z ∈ map (fun r => r.1.2) l <-> is_Some (tbl !! (t, z))) /\
    (forall k z s, (k, z, s) ∈ l -> has_index_key (ref s) t z tag k /\ exists y, tbl !! (t, z) = Some y /\ stores t tag z s y) /\
    StronglySorted (fun a b => forall v w, first_field (ref a.2) tag v -> first_field (ref b.2) tag w ->
      comparable v w -> fits v -> fits w -> rank v <= rank w) l.
Proof.
  intros Hr Hi Hp Hid Hib. destruct (getIndex_of _ _ _ _ Hid Hib Hp) as (mi & Hg & Hmi).
  assert (Ht : no_underscore t = true) by (destruct Hid as (cfg & _ & _ & [Ht _ _ _] & <- & _); exact Ht).
  destruct (rows_objects ldb tbl mi t tag z0 Hr Hi Hp Ht Hmi) as [Hsound Hcompl].
  destruct (Forall_choose _ _ Hsound) as [l Hl]. exists mi, l.
  assert (Hrow : forall n e, rows ldb mi !! n = Some e -> exists r, l !! n = Some r /\ row_of tbl t tag z0 e r)
    by (intros n e He; exact (Forall2_lookup_l _ _ _ _ _ Hl He)).
  assert (Hrev : forall n r, l !! n = Some r -> exists e, rows ldb mi !! n = Some e /\ row_of tbl t tag z0 e r)
    by (intros n r He; exact (Forall2_lookup_r _ _ _ _ _ Hl He)).
  pose proof (rows_sorted ldb mi) as Hsort.
  assert (Hkeys : StronglySorted (fun a b : bytes * Z * gvalue => bytes_Compare a.1.1 b.1.1 = -1) l) by (by eapply rows_keys_sorted).
  assert (Hik : forall k z s, (k, z, s) ∈ l -> has_index_key (ref s) t z tag k /\ exists y, tbl !! (t, z) = Some y /\ stores t tag z s y).
  { intros k z s Hin. apply list_elem_of_lookup in Hin as [n Hn]. destruct (Hrev n _ Hn) as (e & _ & _ & _ & y & Hy & Hst & Hik). eauto. }
  split_and!.
  - done.
  - apply (scan_rows ldb tbl mi t tag z0); [done..| |done].
    destruct (rows ldb mi) as [|e L]; [by right|left]. destruct (Hsound e ltac:(left)) as ([[k z] s] & _ & <- & y & _ & (kv & _ & Hs & _) & _).
    destruct (ref_struct _ _ _ Hs) as (n & fs & ->). cbn. eauto.
  - done.
  - apply NoDup_alt. intros i j z. rewrite !list_lookup_fmap. intros Ei Ej.
    destruct (l !! i) as [[[k z1] s]|] eqn:Hli; [|done]. destruct (l !! j) as [[[k' z2] s']|] eqn:Hlj; [|done].
    cbn in Ei, Ej. injection Ei as ->. injection Ej as ->.
    destruct (Hrev i _ Hli) as (e & He & Hre). destruct (Hrev j _ Hlj) as (e' & He' & Hre').
    destruct (row_of_unique _ _ _ _ _ _ _ _ _ _ _ Hre Hre') as [<- _].
    eapply sorted_key_once; [exact Hsort|exact He|exact He'|]. destruct Hre as [-> _], Hre' as [-> _]. done.
  - intros z. split.
    + intros ([[k z'] s] & -> & Hin)%list_elem_of_fmap. apply list_elem_of_lookup in Hin as [n Hn].
      destruct (Hrev n _ Hn) as (e & _ & _ & _ & y & Hy & _). cbn. eauto.
    + intros [y Hy]. destruct (Hcompl z y Hy) as [k Hk]. apply list_elem_of_lookup in Hk as [n Hn].
      destruct (Hrow n _ Hn) as ([[k' z'] s] & Hn' & Hro). pose proof Hro as ((<- & Hz')%pair_equal_spec & _ & y' & Hy' & _).
      assert (z = z') as ->.
      { apply id_bytes_inj; [| |done]; [destruct (Hi z y Hy) as [Hz _]|destruct (Hi z' y' Hy') as [Hz _]];
          unfold in_s; norm_pow; lia. }
      apply list_elem_of_lookup_2 in Hn'. exact (list_elem_of_fmap_2 (fun r => r.1.2) _ _ Hn').
  - done.
  - eapply (StronglySorted_weaken _ _ l Hkeys). intros [[k z] s] [[k' z'] s'] Ha Hb Hlt v w Hv Hw Hc Hfv Hfw.
    destruct (Hik _ _ _ Ha) as [Hka _]. destruct (Hik _ _ _ Hb) as [Hkb _]. exact (index_order_value _ _ _ _ _ _ _ _ _ _ Hka Hkb Hv Hw Hc Hfv Hfw Hlt).
Qed.

(** ** Bounds *)

(** An iterator on row [i], or at the end when there is no such row. *)
Definition placed ldb mi (i : nat) (x : DbIterator) : Prop :=
  if (i <? length (rows ldb mi))%nat then stands ldb mi i x else currentStatus x = itEND.

Lemma or_end_seek ldb mi typeName k : typeName = mtypeName mi ->
  exists x, or_end ldb mi (dbIterator ldb (Some k) (mbegin mi) (mend mi) typeName) = Ok x /\
    placed ldb mi (count_below k (rows ldb mi)) x.
Proof.
  intros ->. unfold dbIterator, cNext. rewrite NewIterator_rows. cbn [pos].
  assert (Hend : exists x, EndIterator ldb (mbegin mi) (mend mi) (mtypeName mi) = Ok x /\ currentStatus x = itEND).
  { destruct (mEnd_status ldb mi) as (e & He & Hs). unfold mEnd in He. destruct (EndIterator _ _ _ _); [|done].
    injection He as ->. eauto. }
  unfold placed. destruct (Nat.ltb_spec (count_below k (rows ldb mi)) (length (rows ldb mi))) as [Hlt|Hge].
  - rewrite go_to_ok by (cbn [slice]; lia). cbn [negb slice]. unfold cSeek. rewrite go_to_ok by done.
    cbn [negb slice]. eexists. split; [reflexivity|]. done.
  - destruct (Nat.ltb_spec 0 (length (rows ldb mi))) as [H0|H0].
    + rewrite go_to_ok by done. cbn [negb slice]. unfold cSeek. rewrite go_to_end by done. exact Hend.
    + rewrite go_to_end by done. exact Hend.
Qed.

Lemma dbPrefix_key o t z tag mi skip suffix f :
  has_id o t z -> indexed_by tag o -> index_of mi t tag -> getFieldInfo tag o = Ok f ->
  fieldValueToByte o f skip = Ok suffix -> suffix <> [] ->
  dbPrefix (mbegin mi) (mfieldName mi) o skip = Ok (Some (tag_prefix t tag ++ suffix, mtypeName mi)).
Proof.
  intros Hid Hib [Hb _ Ht Hf] Hg Hs Hne. destruct (has_id_fields _ _ _ _ Hid Hib) as (f' & Hg' & Htn).
  rewrite Hg in Hg'. injection Hg' as <-. unfold dbPrefix. rewrite Hf, Hg, Hs, Htn, Hb, Ht.
  destruct suffix; [done|]. unfold len. cbn [length]. by rewrite (proj2 (Z.eqb_neq _ _)) by lia.
Qed.

(** Bounds of an index: for the leading fields of an object, encoded to [p], [LowerBound]
    stands on the first row whose key is not below [p], and [UpperBound] on the first
    row behind all keys that start with [p], provided the last byte of [p] is below
    255; both are at the end when there is no such row, and an empty index is no
    exception. *)
Theorem index_bounds ldb o t z tag mi skip f suffix :
  has_id o t z -> indexed_by tag o -> plain_tag tag -> GetIndex tag o = Ok mi ->
  getFieldInfo tag o = Ok f -> fieldValueToByte o f skip = Ok suffix -> last_below_255 suffix ->
  let p := tag_prefix t tag ++ suffix in
  exists i j x y, LowerBound ldb mi o skip = Ok x /\ placed ldb mi i x /\
    UpperBound ldb mi o skip = Ok y /\ placed ldb mi j y /\ (i <= j <= length (rows ldb mi))%nat /\
    forall n k v, rows ldb mi !! n = Some (k, v) ->
      (bytes_Compare k p = -1 <-> (n < i)%nat) /\ (has_prefix p k = true <-> (i <= n < j)%nat).
Proof.
  intros Hid Hib Hp Hg Hf Hs Hl p. destruct (getIndex_of _ _ _ _ Hid Hib Hp) as (mi' & Hg' & Hmi).
  rewrite Hg in Hg'. injection Hg' as <-.
  assert (suffix <> []) as Hne by (destruct Hl as (? & Hl & _); by intros ->).
  assert (Hlp : last_below_255 p).
  { destruct Hl as (x & Hx & Hx'). exists x. split; [|done]. unfold p. apply last_Some in Hx as [l ->].
    by rewrite app_assoc, last_snoc. }
  destruct (keyEnd_range p Hlp) as (e & He & Hr).
  pose proof (dbPrefix_key o t z tag mi skip suffix f Hid Hib Hmi Hf Hs Hne) as Hd. fold p in Hd.
  destruct (or_end_seek ldb mi (mtypeName mi) p eq_refl) as (x & Hx & Px).
  destruct (or_end_seek ldb mi (mtypeName mi) e eq_refl) as (y & Hy & Py).
  pose proof (rows_sorted ldb mi) as Hsort.
  destruct (count_below_spec p (rows ldb mi) Hsort) as [_ Ci]. destruct (count_below_spec e (rows ldb mi) Hsort) as [Cn Cj].
  assert (Hpe : forall k, bytes_Compare k p = -1 -> bytes_Compare k e = -1).
  { intros k Hk. assert (Hpp : in_range p e p) by (apply Hr, has_prefix_app; exists []; by rewrite app_nil_r).
    destruct Hpp as [_ Hpe]. by eapply bytes_Compare_trans. }
  exists (count_below p (rows ldb mi)), (count_below e (rows ldb mi)), x, y. split_and!.
  - unfold LowerBound, LowerBound_. by rewrite Hd.
  - done.
  - unfold UpperBound, UpperBound_. rewrite Hd. cbn [mbind result_bind]. by rewrite He.
  - done.
  - destruct (Nat.le_gt_cases (count_below p (rows ldb mi)) (count_below e (rows ldb mi))) as [|Hgt]; [done|].
    destruct (rows ldb mi !! count_below e (rows ldb mi)) as [[k v]|] eqn:Hrow.
    + apply Ci in Hrow as Hk. apply Cj in Hrow as Hk'. cbn [fst] in *. apply Hk in Hgt. apply Hpe, Hk' in Hgt. lia.
    + apply lookup_ge_None in Hrow. destruct (count_below_spec p (rows ldb mi) Hsort). lia.
  - done.
  - intros n k v Hn. apply Ci in Hn as Hk. apply Cj in Hn as Hk'. cbn [fst] in *. split; [done|].
    rewrite <- Hr. unfold in_range. rewrite Hk, Hk'. lia.
Qed.

End Rows.

(** ** Concrete indices *)

(** Two accounts: the one inserted first has the greater name. *)
Definition one_db : LDataBase store := run (Insert (ref (account 0 9 1))) empty_db.
Definition two_db : LDataBase store := run (Insert (ref (account 0 7 2))) one_db.
Definition one_table : table := <[("AccountObject", 0) := kvmap (account_kv 0 9 1)]> ∅.
Definition two_table : table := <[("AccountObject", 1) := kvmap (account_kv 1 7 2)]> one_table.

Lemma two_represents : represents (view two_db) two_table.
Proof.
  apply (Insert_represents (ref (account 0 7 2)) (ref (account 1 7 2)) one_db two_db "AccountObject" (account_kv 1 7 2)); [|by_eval..|].
  - apply (Insert_represents (ref (account 0 9 1)) (ref (account 0 9 1)) empty_db one_db "AccountObject" (account_kv 0 9 1));
      [by apply represents_empty|by_eval..|apply unused_empty].
  - intros j y k Hj Hne Hk. unfold one_table in Hj. rewrite lookup_insert_Some, lookup_empty in Hj.
    destruct Hj as [[<- <-]|[_ ?]]; [|done].
    assert (Hd : kvmap (account_kv 0 9 1) ##ₘ kvmap (account_kv 1 7 2)) by by_decide.
    destruct Hk as [v Hv]. exact (map_disjoint_Some_r _ _ _ _ Hd Hv).
Qed.

Lemma account_storable id name data : in_s 64 id -> in_u 64 name -> in_u 64 data -> storable (account id name data).
Proof.
  intros Hi Hn Hd. split; [done|]. intros bs E.
  change (Ok (be_bytes 8 (u64 id) ++ be_bytes 8 name ++ be_bytes 8 data ++ []) = Ok bs) in E.
  apply (f_equal (fun r => match r with Ok b => length b | Throw _ => 0%nat end)) in E.
  rewrite !length_app, !length_be_bytes in E. unfold len. rewrite <- E. done.
Qed.

Lemma by_name_plain : plain_tag "byName".
Proof. split_and!; [by exists 98, [121; 78; 97; 109; 101]|exists 101; split; [done|lia]|done]. Qed.

Lemma account_indexed id name data : indexed_by "byName" (ref (account id name data)).
Proof.
  destruct (parseObjectToCfg (ref (account id name data))) as [cfg|] eqn:E; [|vm_compute in E; done].
  vm_compute in E. injection E as <-. eexists _, _. split_and!; [reflexivity..|]. by repeat constructor.
Qed.

Lemma two_indexed : indexed_table two_table "AccountObject" "byName" (account 0 0 0).
Proof.
  intros z y Hy. unfold two_table, one_table in Hy. rewrite !lookup_insert_Some, lookup_empty in Hy.
  destruct Hy as [[[= <-] <-]|[_ [[[= <-] <-]|[_ ?]]]]; [| |done].
  - split; [lia|]. exists (account 1 7 2). split; [|done]. exists (account_kv 1 7 2).
    split_and!; [done|by apply account_has_id|by_eval|apply account_indexed|by apply account_storable].
  - split; [lia|]. exists (account 0 9 1). split; [|done]. exists (account_kv 0 9 1).
    split_and!; [done|by apply account_has_id|by_eval|apply account_indexed|by apply account_storable].
Qed.

Lemma index_scan_witness :
  exists mi (l : list (bytes * Z * gvalue)), GetIndex "byName" (ref (account 0 0 0)) = Ok mi /\
    scan (S (length l)) two_db mi (ref (account 0 0 0)) (mBegin two_db mi)
      = Ok (map (fun r => Filled (GPtr (zero (account 0 0 0)) (Some r.2))) l) /\
    (forall z, z ∈ map (fun r => r.1.2) l <-> is_Some (two_table !! ("AccountObject", z))).
Proof.
  destruct (index_scan two_db two_table "AccountObject" "byName" (account 0 0 0) (ref (account 0 0 0)) 0)
    as (mi & l & H1 & H2 & _ & _ & H3 & _);
    [apply two_represents|apply two_indexed|apply by_name_plain|by apply account_has_id|apply account_indexed|].
  exists mi, l. split; [exact H1|]. split; [exact H2|exact H3].
Defined.

(** The scan by name: the second account comes first. *)
Definition by_name_scan : result (list filled) :=
  GetIndex "byName" (ref (account 0 0 0)) ≫= fun mi =>
  scan 3 two_db mi (ref (account 0 0 0)) (mBegin two_db mi).
Example by_name_order : by_name_scan = Ok [Filled (ref (account 1 7 2)); Filled (ref (account 0 9 1))].
Proof. by_eval. Qed.

Definition by_name : MultiIndex :=
  mkMultiIndex (tag_prefix "AccountObject" "byName") (string_bytes "AccountObject__byNamf") (string_bytes "AccountObject") "byName".

Lemma index_bounds_witness :
  exists i j x y, LowerBound two_db by_name (ref (account 0 7 0)) 0 = Ok x /\ placed two_db by_name i x /\
    UpperBound two_db by_name (ref (account 0 7 0)) 0 = Ok y /\ placed two_db by_name j y /\
    (i <= j <= length (rows two_db by_name))%nat.
Proof.
  destruct (getFieldInfo "byName" (ref (account 0 7 0))) as [f|] eqn:Ef; [|vm_compute in Ef; done].
  destruct (index_bounds two_db (ref (account 0 7 0)) "AccountObject" 0 "byName" by_name 0 f
    ([underscore; underscore] ++ be_bytes 8 7)) as (i & j & x & y & H1 & H2 & H3 & H4 & H5 & _).
  - by apply account_has_id.
  - apply account_indexed.
  - apply by_name_plain.
  - by_eval.
  - done.
  - vm_compute in Ef. injection Ef as <-. by_eval.
  - exists 7. split; [done|lia].
  - exists i, j, x, y. split; [exact H1|]. split; [exact H2|]. split; [exact H3|]. split; [exact H4|exact H5].
Defined.

(** A key that ends in the byte 255 is incremented to one that ends in 0: the upper
    bound of the account named 255 is that account itself. *)
Definition wrap_db : LDataBase store := run (Insert (ref (account 0 256 0))) (run (Insert (ref (account 0 255 0))) empty_db).
Definition upper_bound_255 : result filled :=
  UpperBound wrap_db by_name (ref (account 0 255 0)) 0 ≫= fun x => (Data wrap_db (ref (account 0 0 0)) x).2.
Theorem upper_bound_wraps : upper_bound_255 = Ok (Filled (ref (account 0 255 0))).
Proof. by_eval. Qed.

(** [entity/transaction_object.go], with the digest cut to one word: the tags declare the
    id as the first component of the index over the expiration. *)
Definition transaction_object (id expiration trx : Z) : gvalue :=
  GStruct "TransactionObject"
    [(mkField "ID" true EosNone "id,increment,byExpiration", GInteger KInt64 id);
     (mkField "Expiration" true EosNone "byExpiration,orderedUnique", GInteger KUint32 expiration);
     (mkField "TrxID" true EosNone "byTrxId,orderedUnique", GInteger KUint64 trx)].

Definition expiration_db : LDataBase store :=
  run (Insert (ref (transaction_object 0 50 2))) (run (Insert (ref (transaction_object 0 100 1))) empty_db).
Definition expiration_scan : result (list filled) :=
  let o := ref (transaction_object 0 0 0) in
  GetIndex "byExpiration" o ≫= fun mi => scan 3 expiration_db mi o (mBegin expiration_db mi).

(** The index over the expiration is in the order of the ids: a transaction that expires
    at 100 comes before one that expires at 50. *)
Theorem expiration_index_by_id :
  expiration_scan = Ok [Filled (ref (transaction_object 0 100 1)); Filled (ref (transaction_object 1 50 2))].
Proof. by_eval. Qed.
