(* ===== verification/Permissions.v ===== *)
(** * Permissions: the authorization manager

    [chain/authorization_manager.go], with [PermissionObject], [PermissionLinkObject] and
    [PermissionUsageObject] of [entity/] and the native actions' structs of
    [chain/eosio_contract_types.go].  The permissions of an account form a tree below
    its permission [owner]; an action may be authorized by the permission it is linked
    to ([active] unless a link says otherwise) or by any permission above it, and the
    signatures of the transaction must satisfy every permission it declares.

    The tables are finite maps over the ids that the state database assigns.  The
    lookup by owner and name is a lookup by a unique key ([perms_ok]); the lower bound
    of an id is the permission with the least id that is not smaller, as in
    [DbIndex.index_bounds]. *)

From S2P Require Import Prelude Uint128 Bytes Rlp Sha256 Ecc Name Time Authority.

(** ** Configuration ([common/config.go]) and names *)

Definition named (s : string) : Z :=
  match N (map (fun c => Z.of_N (Ascii.N_of_ascii c)) (String.list_ascii_of_string s)) with Ok n => n | Throw _ => 0 end.

Definition SystemAccountName : Z := Eval vm_compute in named "eosio".
Definition ActiveName : Z := Eval vm_compute in named "active".
Definition OwnerName : Z := Eval vm_compute in named "owner".
Definition EosioAnyName : Z := Eval vm_compute in named "eosio.any".
Definition EosioCodeName : Z := Eval vm_compute in named "eosio.code".

(** [UpdateAuth{}.GetName()] and so on *)
Definition nUpdateAuth : Z := Eval vm_compute in named "updateauth".
Definition nDeleteAuth : Z := Eval vm_compute in named "deleteauth".
Definition nLinkAuth : Z := Eval vm_compute in named "linkauth".
Definition nUnLinkAuth : Z := Eval vm_compute in named "unlinkauth".
Definition nCancelDelay : Z := Eval vm_compute in named "canceldelay".

(** ** Stored objects *)

Record PermissionObject : Type := mkPermissionObject {
  poParent : Z; poID : Z; UsageId : Z; poOwner : Z; poName : Z; LastUpdated : Z; poAuth : Authority }.

Record PermissionLinkObject : Type := mkLink {
  linkID : Z; linkAccount : Z; linkCode : Z; MessageType : Z; RequiredPermission : Z }.

(** A deferred transaction.  Of [PackedTrx] there are its length and the authorizations of
    the actions it decodes to. *)
Record Generated : Type := mkGenerated {
  genID : Z; genTrxId : Sha256; genSender : Z; genSenderId : Uint128; genPayer : Z; DelayUntil : Z; genExpiration : Z;
  Published : Z; PackedSize : Z; genAuthorizations : list (list PermissionLevel) }.

Record UpdateAuth : Type := mkUpdateAuth { uaAccount : Z; uaPermission : Z; uaParent : Z; uaAuth : Authority }.
Record DeleteAuth : Type := mkDeleteAuth { daAccount : Z; daPermission : Z }.
Record LinkAuth : Type := mkLinkAuth { laAccount : Z; laCode : Z; laType : Z; Requirement : Z }.
Record UnLinkAuth : Type := mkUnLinkAuth { ulAccount : Z; ulCode : Z; ulType : Z }.
Record CancelDelay : Type := mkCancelDelay { CancelingAuth : PermissionLevel; cdTrxId : Sha256 }.

Record Action : Type := mkAction {
  actAccount : Z; actName : Z; Authorization : list PermissionLevel; actData : bytes }.

Record Perms : Type := mkPerms {
  permissions : gmap Z PermissionObject; nextPermission : Z;
  permUsages : gmap Z Z; nextUsage : Z;
  links : gmap Z PermissionLinkObject; nextLink : Z;
  generated : gmap Z Generated; nextGenerated : Z;
  PendingBlockTime : Z; MaxTrxDelay : Z; MaxAuthorityDepth : Z }.

Definition set_permissions (m : gmap Z PermissionObject) (n : Z) (s : Perms) : Perms :=
  mkPerms m n (permUsages s) (nextUsage s) (links s) (nextLink s) (generated s) (nextGenerated s) (PendingBlockTime s) (MaxTrxDelay s) (MaxAuthorityDepth s).
Definition set_permUsages (m : gmap Z Z) (n : Z) (s : Perms) : Perms :=
  mkPerms (permissions s) (nextPermission s) m n (links s) (nextLink s) (generated s) (nextGenerated s) (PendingBlockTime s) (MaxTrxDelay s) (MaxAuthorityDepth s).
Definition set_links (m : gmap Z PermissionLinkObject) (n : Z) (s : Perms) : Perms :=
  mkPerms (permissions s) (nextPermission s) (permUsages s) (nextUsage s) m n (generated s) (nextGenerated s) (PendingBlockTime s) (MaxTrxDelay s) (MaxAuthorityDepth s).

Definition set_generated (m : gmap Z Generated) (n : Z) (s : Perms) : Perms :=
  mkPerms (permissions s) (nextPermission s) (permUsages s) (nextUsage s) (links s) (nextLink s) m n (PendingBlockTime s) (MaxTrxDelay s) (MaxAuthorityDepth s).

(** ** Lookups *)

(** [Find("byOwner", ...)] *)
Definition find_owner (owner name : Z) (s : Perms) : option PermissionObject :=
  head (filter (fun p => poOwner p = owner /\ poName p = name) (map_to_list (permissions s)).*2).

(** [Find("byActionName", ...)] *)
Definition find_link (account code type : Z) (s : Perms) : option PermissionLinkObject :=
  head (filter (fun l => linkAccount l = account /\ linkCode l = code /\ MessageType l = type) (map_to_list (links s)).*2).

(** The entry with the least id that is not below [id]. *)
Fixpoint least (id : Z) (l : list (Z * PermissionObject)) : option (Z * PermissionObject) :=
  match l with
  | [] => None
  | (k, p) :: l' =>
      let r := least id l' in
      if id <=? k
      then match r with Some (k', _) => if k <? k' then Some (k, p) else r | None => Some (k, p) end
      else r
  end.

(** [PermissionIndex.LowerBound(PermissionObject{ID: id})] followed by [Data(&parent)]:
    the field [Parent].  Behind the last row the decoder finds no bytes and sets it to
    0; in an empty index the iterator is nil. *)
Definition parent_at (s : Perms) (id : Z) : result Z :=
  match least id (map_to_list (permissions s)) with
  | Some (_, p) => Ok (poParent p)
  | None => if decide (permissions s = ∅) then Throw NilDereference else Ok 0
  end.

(** The loop of [Satisfies]; [parent] is [parent.Parent].  Ids go down along it, so that
    the first one is enough fuel ([satisfies_ancestor]). *)
Fixpoint satisfies_loop (fuel : nat) (s : Perms) (id parent : Z) : result bool :=
  if id =? parent then Ok true
  else if parent =? 0 then Ok false
  else match fuel with
  | O => Throw OutOfFuel
  | S n => parent_at s parent ≫= satisfies_loop n s id
  end.

Definition Satisfies (s : Perms) (po other : PermissionObject) : result bool :=
  if negb (poOwner po =? poOwner other) then Ok false
  else if (poID po =? poID other) || (poID po =? poParent other) then Ok true
  else parent_at s (poParent other) ≫= fun parent => satisfies_loop (Z.to_nat parent) s (poID po) parent.

(** ** Permissions *)

Definition insert_permission (p : Z -> PermissionObject) : M Perms PermissionObject :=
  s ← get;
  let id := nextPermission s in
  _ ← modify (fun s => set_permissions (<[id := p id]> (permissions s)) (i64 (id + 1)) s);
  mret (p id).

Definition insert_usage (lastUsed : Z) : M Perms Z :=
  s ← get;
  let id := nextUsage s in
  _ ← modify (fun s => set_permUsages (<[id := lastUsed]> (permUsages s)) (i64 (id + 1)) s);
  mret id.

Definition CreatePermission (account name parent : Z) (auth : Authority) (initialCreationTime : Z) : M Perms PermissionObject :=
  s ← get;
  let creationTime := if initialCreationTime =? 0 then PendingBlockTime s else initialCreationTime in
  usage ← insert_usage creationTime;
  insert_permission (fun id => mkPermissionObject parent id usage account name creationTime auth).

(** Returns the permission the caller's pointer then holds. *)
Definition ModifyPermission (permission : PermissionObject) (auth : Authority) : M Perms PermissionObject :=
  s ← get;
  let p := mkPermissionObject (poParent permission) (poID permission) (UsageId permission) (poOwner permission)
             (poName permission) (PendingBlockTime s) auth in
  _ ← modify (fun s => set_permissions (<[poID p := p]> (permissions s)) (nextPermission s) s);
  mret p.

(** The bound [LowerBound(PermissionObject{Parent: permission.ID})] of the index over
    [(Parent, ID)] is the end exactly when no permission has this parent or a greater
    one. *)
Definition no_later_parent (id : Z) (s : Perms) : bool :=
  forallb (fun p => poParent p <? id) (map_to_list (permissions s)).*2.

Definition RemovePermission (permission : PermissionObject) : M Perms unit :=
  s ← get;
  _ ← assertM (no_later_parent (poID permission) s) ActionValidateException;
  _ ← modify (fun s => set_permUsages (delete (UsageId permission) (permUsages s)) (nextUsage s) s);
  modify (fun s => set_permissions (delete (poID permission) (permissions s)) (nextPermission s) s).

(** An unknown usage is logged, and then written under its id. *)
Definition UpdatePermissionUsage (permission : PermissionObject) : M Perms unit :=
  s ← get;
  modify (fun s => set_permUsages (<[UsageId permission := PendingBlockTime s]> (permUsages s)) (nextUsage s) s).

Definition GetPermissionLastUsed (permission : PermissionObject) (s : Perms) : Z :=
  default 0 (permUsages s !! UsageId permission).

Definition FindPermission (s : Perms) (level : PermissionLevel) : result (option PermissionObject) :=
  EosAssert (negb (Actor level =? 0) && negb (Permission level =? 0)) InvalidPermission ≫= fun _ =>
  Ok (find_owner (Actor level) (Permission level) s).

Definition GetPermission (s : Perms) (level : PermissionLevel) : result PermissionObject :=
  EosAssert (negb (Actor level =? 0) && negb (Permission level =? 0)) InvalidPermission ≫= fun _ =>
  match find_owner (Actor level) (Permission level) s with
  | Some p => Ok p
  | None => Throw PermissionQueryException
  end.

Definition LookupLinkedPermission (s : Perms) (authorizerAccount scope actName : Z) : option Z :=
  match find_link authorizerAccount scope actName s with
  | Some l => Some (RequiredPermission l)
  | None => RequiredPermission <$> find_link authorizerAccount scope 0 s
  end.

Definition not_linkable (actName : Z) : bool :=
  (actName =? nUpdateAuth) || (actName =? nDeleteAuth) || (actName =? nLinkAuth) || (actName =? nUnLinkAuth) || (actName =? nCancelDelay).

(** A link to the empty name counts as none. *)
Definition LookupMinimumPermission (s : Perms) (authorizerAccount scope actName : Z) : result (option Z) :=
  _ ← (if scope =? SystemAccountName then EosAssert (negb (not_linkable actName)) UnlinkableMinPermissionAction else Ok tt);
  match LookupLinkedPermission s authorizerAccount scope actName with
  | None => Ok (Some ActiveName)
  | Some p => if p =? 0 then Ok (Some ActiveName) else if p =? EosioAnyName then Ok None else Ok (Some p)
  end.

(** ** The checks of the native actions *)

(** [a.GetPermission(&auth).Satisfies(...)] asserted; the arguments of the message are
    evaluated before. *)
Definition require_above (s : Perms) (auth : PermissionLevel) (minPermission : PermissionObject) : result unit :=
  p ← GetPermission s auth;
  b ← Satisfies s p minPermission;
  EosAssert b IrrelevantAuthException.

Definition single_auth (auths : list PermissionLevel) : result PermissionLevel :=
  match auths with [auth] => Ok auth | _ => Throw IrrelevantAuthException end.

Definition CheckUpdateAuthAuthorization (s : Perms) (update : UpdateAuth) (auths : list PermissionLevel) : result unit :=
  auth ← single_auth auths;
  _ ← EosAssert (Actor auth =? uaAccount update) IrrelevantAuthException;
  found ← FindPermission s (mkPermissionLevel (uaAccount update) (uaPermission update));
  minPermission ← match found with
    | Some p => Ok p
    | None => GetPermission s (mkPermissionLevel (uaAccount update) (uaParent update))
    end;
  require_above s auth minPermission.

Definition CheckDeleteAuthAuthorization (s : Perms) (del : DeleteAuth) (auths : list PermissionLevel) : result unit :=
  auth ← single_auth auths;
  _ ← EosAssert (Actor auth =? daAccount del) IrrelevantAuthException;
  minPermission ← GetPermission s (mkPermissionLevel (daAccount del) (daPermission del));
  require_above s auth minPermission.

(** [linkedPermissionName.Empty()] dereferences a nil pointer when the link is to
    [eosio.any]. *)
Definition CheckLinkAuthAuthorization (s : Perms) (link : LinkAuth) (auths : list PermissionLevel) : result unit :=
  auth ← single_auth auths;
  _ ← EosAssert (Actor auth =? laAccount link) IrrelevantAuthException;
  _ ← EosAssert (negb (not_linkable (laType link))) ActionValidateException;
  linked ← LookupMinimumPermission s (laAccount link) (laCode link) (laType link);
  match linked with
  | None => Throw NilDereference
  | Some name =>
      if name =? 0 then Ok tt
      else
        p ← GetPermission s auth;
        q ← GetPermission s (mkPermissionLevel (laAccount link) name);
        b ← Satisfies s p q;
        EosAssert b IrrelevantAuthException
  end.

(** [unlinkedPermissionName.Empty()] dereferences a nil pointer when there is no link. *)
Definition CheckUnLinkAuthAuthorization (s : Perms) (unlink : UnLinkAuth) (auths : list PermissionLevel) : result unit :=
  auth ← single_auth auths;
  _ ← EosAssert (Actor auth =? ulAccount unlink) IrrelevantAuthException;
  match LookupLinkedPermission s (ulAccount unlink) (ulCode unlink) (ulType unlink) with
  | None => Throw NilDereference
  | Some name =>
      _ ← EosAssert (negb (name =? 0)) TransactionException;
      if name =? EosioAnyName then Ok tt
      else
        p ← GetPermission s auth;
        q ← GetPermission s (mkPermissionLevel (ulAccount unlink) name);
        b ← Satisfies s p q;
        EosAssert b IrrelevantAuthException
  end.

Definition CheckCancelDelayAuthorization (s : Perms) (cancel : CancelDelay) (auths : list PermissionLevel) : result Z :=
  auth ← single_auth auths;
  p ← GetPermission s auth;
  q ← GetPermission s (CancelingAuth cancel);
  b ← Satisfies s p q;
  _ ← EosAssert b IrrelevantAuthException;
  if decide (generated s = ∅) then Throw NilDereference
  else match head (filter (fun g => genTrxId g = cdTrxId cancel) (map_to_list (generated s)).*2) with
  | None => Throw TxNotFound
  | Some g =>
      _ ← EosAssert (existsb (existsb (fun a => bool_decide (a = CancelingAuth cancel))) (genAuthorizations g)) ActionValidateException;
      Ok (Milliseconds (i64 (DelayUntil g - Published g)))
  end.

(** ** The check of a transaction

    The decoders of the action data drop their errors, so that they are total; the
    theorems hold for all of them ([Rlp.v] has the format).  [checkTime n] is the outcome
    of the [n]-th look at the clock, and [range] the order in which Go visits a map. *)

Section Check.
Variables (decodeUpdateAuth : bytes -> UpdateAuth) (decodeDeleteAuth : bytes -> DeleteAuth)
  (decodeLinkAuth : bytes -> LinkAuth) (decodeUnLinkAuth : bytes -> UnLinkAuth) (decodeCancelDelay : bytes -> CancelDelay).
Variable checkTime : nat -> result unit.
Variable range : gmap PermissionLevel Z -> list (PermissionLevel * Z).

Definition tick : M nat unit := n ← get; _ ← modify S; lift (checkTime n).

(** The callback of the checker. *)
Definition permission_authority (s : Perms) (p : PermissionLevel) : result Authority :=
  po ← GetPermission s p; Ok (poAuth po).

Definition effective_delay (s : Perms) (providedDelay : Z) : Z :=
  if Seconds (MaxTrxDelay s) <=? providedDelay then MaxMicroseconds else providedDelay.

(** The [switch] over the native actions; [None] when the action is not one of them.  The
    delay that [CheckCancelDelayAuthorization] returns is dropped. *)
Definition special_case (s : Perms) (act : Action) : option (result unit) :=
  if negb (actAccount act =? SystemAccountName) then None
  else if actName act =? nUpdateAuth then Some (CheckUpdateAuthAuthorization s (decodeUpdateAuth (actData act)) (Authorization act))
  else if actName act =? nDeleteAuth then Some (CheckDeleteAuthAuthorization s (decodeDeleteAuth (actData act)) (Authorization act))
  else if actName act =? nLinkAuth then Some (CheckLinkAuthAuthorization s (decodeLinkAuth (actData act)) (Authorization act))
  else if actName act =? nUnLinkAuth then Some (CheckUnLinkAuthAuthorization s (decodeUnLinkAuth (actData act)) (Authorization act))
  else if actName act =? nCancelDelay
  then Some (_ ← CheckCancelDelayAuthorization s (decodeCancelDelay (actData act)) (Authorization act); Ok tt)
  else None.

Definition check_minimum (s : Perms) (act : Action) (declaredAuth : PermissionLevel) : result unit :=
  minPermissionName ← LookupMinimumPermission s (Actor declaredAuth) (actAccount act) (actName act);
  match minPermissionName with
  | None => Ok tt
  | Some name =>
      minPermission ← GetPermission s (mkPermissionLevel (Actor declaredAuth) name);
      require_above s declaredAuth minPermission
  end.

(** An entry with a greater delay is found and kept. *)
Definition add_permission (declaredAuth : PermissionLevel) (delay : Z) (m : gmap PermissionLevel Z) : gmap PermissionLevel Z :=
  match m !! declaredAuth with
  | Some second => if delay <? second then m else <[declaredAuth := delay]> m
  | None => <[declaredAuth := delay]> m
  end.

Fixpoint check_declared (s : Perms) (act : Action) (specialCase : bool) (delay : Z) (auths : list PermissionLevel)
    (m : gmap PermissionLevel Z) : M nat (gmap PermissionLevel Z) :=
  match auths with
  | [] => mret m
  | d :: auths' =>
      _ ← tick;
      _ ← lift (if specialCase then Ok tt else check_minimum s act d);
      check_declared s act specialCase delay auths' (add_permission d delay m)
  end.

Fixpoint check_actions (s : Perms) (delay : Z) (actions : list Action) (m : gmap PermissionLevel Z) : M nat (gmap PermissionLevel Z) :=
  match actions with
  | [] => mret m
  | act :: actions' =>
      let special := special_case s act in
      _ ← lift (default (Ok tt) special);
      m ← check_declared s act (match special with Some _ => true | None => false end) delay (Authorization act) m;
      check_actions s delay actions' m
  end.

Fixpoint check_permissions (s : Perms) (l : list (PermissionLevel * Z)) (ac : AuthorityChecker) : M nat AuthorityChecker :=
  match l with
  | [] => mret ac
  | (p, q) :: l' =>
      _ ← tick;
      let '(st, r) := SatisfiedLoc (permission_authority s) p q None ac in
      b ← lift r;
      _ ← assertM b UnsatisfiedAuthorization;
      check_permissions s l' (checker st)
  end.

Definition check_keys (ac : AuthorityChecker) (allowUnusedKeys : bool) : result unit :=
  if allowUnusedKeys then Ok tt
  else
    _ ← GetUnusedKeys ac;
    EosAssert (AllKeysUsed ac) TxIrrelevantSig.

Definition CheckAuthorization (s : Perms) (actions : list Action) (providedKeys : list PublicKey)
    (providedPermissions : list PermissionLevel) (providedDelay : Z) (allowUnusedKeys : bool) : M nat unit :=
  let delay := effective_delay s providedDelay in
  m ← check_actions s delay actions ∅;
  ac ← check_permissions s (range m) (MakeAuthChecker (MaxAuthorityDepth s) providedKeys providedPermissions delay);
  lift (check_keys ac allowUnusedKeys).

Definition CheckAuthorization2 (s : Perms) (account permission : Z) (providedKeys : list PublicKey)
    (providedPermissions : list PermissionLevel) (providedDelay : Z) (allowUnusedKeys : bool) : result unit :=
  let ac := MakeAuthChecker (MaxAuthorityDepth s) providedKeys providedPermissions (effective_delay s providedDelay) in
  let '(st, r) := SatisfiedLc (permission_authority s) (mkPermissionLevel account permission) None ac in
  b ← r;
  _ ← EosAssert b UnsatisfiedAuthorization;
  check_keys (checker st) allowUnusedKeys.

Fixpoint required_keys (s : Perms) (auths : list PermissionLevel) (ac : AuthorityChecker) : result AuthorityChecker :=
  match auths with
  | [] => Ok ac
  | d :: auths' =>
      let '(st, r) := SatisfiedLc (permission_authority s) d None ac in
      b ← r;
      _ ← EosAssert b UnsatisfiedAuthorization;
      required_keys s auths' (checker st)
  end.
Definition GetRequiredKeys (s : Perms) (actions : list Action) (candidateKeys : list PublicKey) (providedDelay : Z) : result (list PublicKey) :=
  ac ← required_keys s (concat (map Authorization actions)) (MakeAuthChecker (MaxAuthorityDepth s) candidateKeys [] providedDelay);
  GetUsedKeys ac.

End Check.


(** ** The tree of permissions *)

Definition stored (s : Perms) (p : PermissionObject) : Prop := permissions s !! poID p = Some p.

(** Ids are assigned in order and kept by the rows, parents come before their children
    and belong to the same account, an account has one permission of a name, and every
    permission has a usage row of its own.  Id 0 is a row as soon as there is one: a
    parent 0 is both the mark of a root and the id of that row. *)
Record perms_ok (s : Perms) : Prop := {
  perm_key k p : permissions s !! k = Some p -> poID p = k /\ 0 <= k < nextPermission s;
  perm_parent k p : permissions s !! k = Some p ->
    poParent p = 0 \/ exists q, permissions s !! poParent p = Some q /\ poParent p < k /\ poOwner q = poOwner p;
  perm_unique k k' p p' : permissions s !! k = Some p -> permissions s !! k' = Some p' ->
    poOwner p = poOwner p' -> poName p = poName p' -> k = k';
  perm_auth k p : permissions s !! k = Some p -> auth_wf (poAuth p);
  perm_zero : nextPermission s = 0 \/ 0 < nextPermission s /\ is_Some (permissions s !! 0);
  perm_usage k p : permissions s !! k = Some p -> is_Some (permUsages s !! UsageId p);
  perm_usage_own k k' p p' : permissions s !! k = Some p -> permissions s !! k' = Some p' -> UsageId p = UsageId p' -> k = k';
  usage_key k u : permUsages s !! k = Some u -> 0 <= k < nextUsage s }.

(** [p] is [q] or above it in the tree of its account. *)
Inductive above (s : Perms) (p : PermissionObject) : PermissionObject -> Prop :=
| above_refl : above s p p
| above_parent q r : permissions s !! poParent q = Some r -> poOwner r = poOwner q -> above s p r -> above s p q.

#[export] Hint Constructors above : core.

Lemma least_in id l k p : least id l = Some (k, p) -> (k, p) ∈ l /\ id <= k.
Proof.
  induction l as [|[k0 p0] l IH]; cbn [least]; [done|].
  destruct (Z.leb_spec id k0); [|intros [? ?]%IH; split; [by right|done]].
  destruct (least id l) as [[k' p']|]; [destruct (Z.ltb_spec k0 k')|]; intros [= <- <-]; try (split; [by left|done]).
  destruct IH as [??]; [done|]. split; [by right|done].
Qed.

Lemma least_found id l p : (forall q, (id, q) ∈ l -> q = p) -> (id, p) ∈ l -> least id l = Some (id, p).
Proof.
  induction l as [|[k0 p0] l IH]; intros Hu Hin; [by apply elem_of_nil in Hin|]. cbn [least].
  destruct (decide (k0 = id)) as [->|Hne].
  - rewrite Z.leb_refl. rewrite (Hu p0) by left.
    destruct (least id l) as [[k' p']|] eqn:E; [|done]. apply least_in in E as [E Hk].
    destruct (Z.ltb_spec id k'); [done|]. replace k' with id in * by lia. rewrite (Hu p'); [done|by right].
  - apply elem_of_cons in Hin as [[= -> ->]|Hin]; [done|]. rewrite IH; [|intros q Hq; apply Hu; by right|done].
    destruct (Z.leb_spec id k0); [|done]. destruct (Z.ltb_spec k0 id); [lia|done].
Qed.

Lemma parent_at_row s k p : permissions s !! k = Some p -> parent_at s k = Ok (poParent p).
Proof.
  intros Hk. unfold parent_at. rewrite (least_found k _ p); [done| |by apply elem_of_map_to_list].
  intros q Hq%elem_of_map_to_list. congruence.
Qed.

Section Tree.
Context (s : Perms) (Hok : perms_ok s).

Lemma parent_stored q r : permissions s !! poParent q = Some r -> stored s r.
Proof. intros Hr. unfold stored. by destruct (perm_key s Hok _ _ Hr) as [-> _]. Qed.

Lemma parent_le q : stored s q -> 0 <= poParent q <= poID q /\ (poParent q = 0 \/ poParent q < poID q).
Proof.
  intros Hq. pose proof (perm_key s Hok _ _ Hq) as [_ Hk].
  destruct (perm_parent s Hok _ _ Hq) as [->|(r & Hr & Hlt & _)]; [lia|].
  pose proof (perm_key s Hok _ _ Hr) as [_ ?]. lia.
Qed.

Lemma above_owner p q : above s p q -> poOwner p = poOwner q.
Proof. induction 1; congruence. Qed.

Lemma above_le p q : stored s q -> above s p q -> poID p <= poID q.
Proof.
  intros Hq H. induction H as [|q r Hr Ho H IH]; [done|].
  pose proof (parent_le q Hq). pose proof (perm_key s Hok _ _ Hr) as [? _]. specialize (IH (parent_stored _ _ Hr)). lia.
Qed.

Lemma above_cases p q : above s p q <-> p = q \/ exists r, permissions s !! poParent q = Some r /\ poOwner r = poOwner q /\ above s p r.
Proof. split; [destruct 1; eauto 6|intros [->|(r & ? & ? & ?)]; eauto]. Qed.

Lemma stored_inj p q : stored s p -> stored s q -> poID p = poID q -> p = q.
Proof. unfold stored. congruence. Qed.

(** The loop decides whether [po] is above the parent of [r]. *)
Lemma satisfies_loop_spec po n r : stored s po -> stored s r -> poOwner po = poOwner r -> (Z.to_nat (poParent r) <= n)%nat ->
  exists b, satisfies_loop n s (poID po) (poParent r) = Ok b /\
    (b = true <-> exists q, permissions s !! poParent r = Some q /\ poOwner q = poOwner r /\ above s po q).
Proof.
  intros Hpo. revert r. induction n as [|n IH]; intros r Hr Ho Hn; cbn [satisfies_loop];
    pose proof (parent_le r Hr) as [? _]; pose proof (perm_key s Hok _ _ Hpo) as [_ ?].
  all: destruct (Z.eqb_spec (poID po) (poParent r)) as [E|E];
    [exists true; split; [done|]; split; [exists po; rewrite <- E; auto|done]|].
  all: destruct (Z.eqb_spec (poParent r) 0) as [E0|E0];
    [exists false; split; [done|]; split; [done|]; intros (q & Hq & _ & Ha);
     apply above_le in Ha; [|by eapply parent_stored]; rewrite E0 in Hq; apply (perm_key s Hok) in Hq; lia|].
  - lia.
  - destruct (perm_parent s Hok _ _ Hr) as [?|(q & Hq & Hlt & Hoq)]; [lia|]. rewrite (parent_at_row _ _ _ Hq), Ok_bind.
    pose proof (parent_stored _ _ Hq) as Hsq. pose proof (perm_key s Hok _ _ Hq) as [Hid _]. pose proof (parent_le q Hsq).
    destruct (IH q) as (b & Hb & Hiff); [done|congruence|lia|]. exists b. split; [done|]. rewrite Hiff. split.
    + intros (q' & Hq' & Ho' & Ha). exists q. eauto.
    + intros (q' & Hq' & _ & Ha). replace q' with q in * by congruence.
      apply above_cases in Ha as [->|Ha]; [lia|done].
Qed.
End Tree.

(** [Satisfies] always returns, and it returns true exactly when the first permission
    is the second one or one of its ancestors in the tree of the same account: neither
    the permission with id 0, whose id marks a root, nor the lower bound that stands for
    the lookup of a parent makes it accept or miss one. *)
Lemma satisfies_ancestor s po other : perms_ok s -> stored s po -> stored s other ->
  exists b, Satisfies s po other = Ok b /\ (b = true <-> above s po other).
Proof.
  intros Hok Hpo Hot. unfold Satisfies.
  destruct (Z.eqb_spec (poOwner po) (poOwner other)) as [Ho|Ho]; cbn [negb];
    [|exists false; split; [done|]; split; [done|]; intros Ha%above_owner; congruence].
  destruct (Z.eqb_spec (poID po) (poID other)) as [E|E]; cbn [orb].
  { exists true. split; [done|]. rewrite (stored_inj s po other) by done. split; auto. }
  destruct (Z.eqb_spec (poID po) (poParent other)) as [E'|E'].
  { exists true. split; [done|]. split; [|done]. intros _. apply above_parent with po; [by rewrite <- E'|done|auto]. }
  pose proof (perm_key s Hok _ _ Hpo) as [_ ?]. pose proof (parent_le s Hok other Hot) as [? _].
  assert (exists q, permissions s !! poParent other = Some q) as [q Hq].
  { destruct (perm_parent s Hok _ _ Hot) as [->|(q & ? & _)]; [|eauto]. destruct (perm_zero s Hok) as [?|[_ [q ?]]]; [lia|eauto]. }
  rewrite (parent_at_row _ _ _ Hq), Ok_bind. pose proof (parent_stored s Hok _ _ Hq) as Hsq.
  pose proof (perm_key s Hok _ _ Hq) as [Hidq _].
  destruct (decide (poOwner q = poOwner other)) as [Hoq|Hoq].
  - destruct (satisfies_loop_spec s Hok po (Z.to_nat (poParent q)) q) as (b & Hb & Hiff); [done|done|congruence|lia|].
    exists b. split; [done|]. rewrite Hiff, (above_cases _ _ other). split; [intros Hx|].
    + right. exists q. split_and!; [done..|]. apply above_cases. auto.
    + intros [->|(q' & Hq' & _ & Ha)]; [done|]. replace q' with q in * by congruence.
      apply above_cases in Ha as [->|Ha]; [congruence|done].
  - assert (poParent other = 0) as E0.
    { destruct (perm_parent s Hok _ _ Hot) as [?|(q' & Hq' & _ & ?)]; [done|]. congruence. }
    pose proof (parent_le s Hok q Hsq) as [? _]. replace (poParent q) with 0 by lia.
    exists false. change (Z.to_nat 0) with O. cbn [satisfies_loop]. destruct (Z.eqb_spec (poID po) 0) as [|_]; [congruence|].
    split; [done|]. split; [done|].
    intros Ha. apply above_cases in Ha as [->|(q' & Hq' & ? & _)]; [done|]. congruence.
Qed.


(** A chain with the accounts [eosio] and [alice]: the permission with id 0 is the
    [owner] of [eosio], and [alice] has [owner], [active] and below it [pay]. *)
Definition key_authority (n : Z) : Authority := mkAuthority 1 [mkKeyWeight (one_key n) 1] [] [].
Definition alice_name : Z := Eval vm_compute in named "alice".
Definition pay_name : Z := Eval vm_compute in named "pay".
Definition example_perms : Perms :=
  mkPerms
    {[ 0 := mkPermissionObject 0 0 0 SystemAccountName OwnerName 7 (key_authority 1);
       1 := mkPermissionObject 0 1 1 SystemAccountName ActiveName 7 (key_authority 1);
       2 := mkPermissionObject 0 2 2 alice_name OwnerName 7 (key_authority 2);
       3 := mkPermissionObject 2 3 3 alice_name ActiveName 7 (key_authority 3);
       4 := mkPermissionObject 3 4 4 alice_name pay_name 7 (key_authority 4) ]} 5
    {[ 0 := 7; 1 := 7; 2 := 7; 3 := 7; 4 := 7 ]} 5
    {[ 0 := mkLink 0 alice_name 77 0 pay_name ]} 1 ∅ 0 9 3888000 6.

(** [perms_ok] is decided row by row. *)
Definition row_ok (s : Perms) (k : Z) (p : PermissionObject) : Prop :=
  poID p = k /\ 0 <= k < nextPermission s /\
  (poParent p = 0 \/ match permissions s !! poParent p with Some q => poParent p < k /\ poOwner q = poOwner p | None => False end) /\
  map_Forall (fun k' p' => k = k' \/ poOwner p <> poOwner p' \/ poName p <> poName p') (permissions s) /\
  map_Forall (fun k' p' => k = k' \/ UsageId p <> UsageId p') (permissions s) /\
  auth_wf (poAuth p) /\ is_Some (permUsages s !! UsageId p).

#[global] Instance row_ok_dec s k p : Decision (row_ok s k p).
Proof. unfold row_ok. destruct (permissions s !! poParent p); apply _. Defined.

Lemma perms_ok_rows s : map_Forall (row_ok s) (permissions s) -> map_Forall (fun k _ => 0 <= k < nextUsage s) (permUsages s) ->
  (nextPermission s = 0 \/ 0 < nextPermission s /\ is_Some (permissions s !! 0)) -> perms_ok s.
Proof.
  intros H Hu Hz. split; try done.
  - intros k p Hk. destruct (H k p Hk) as (? & ? & _). done.
  - intros k p Hk. destruct (H k p Hk) as (_ & _ & [|Hp] & _); [by left|]. right.
    destruct (permissions s !! poParent p) as [q|]; [|done]. exists q. tauto.
  - intros k k' p p' Hk Hk' ??. destruct (H k p Hk) as (_ & _ & _ & Hq & _). destruct (Hq k' p' Hk') as [|[]]; congruence.
  - intros k p Hk. by destruct (H k p Hk) as (_ & _ & _ & _ & _ & ? & _).
  - intros k p Hk. by destruct (H k p Hk) as (_ & _ & _ & _ & _ & _ & ?).
  - intros k k' p p' Hk Hk' ?. destruct (H k p Hk) as (_ & _ & _ & _ & Hq & _). destruct (Hq k' p' Hk'); congruence.
Qed.

Lemma example_perms_ok : perms_ok example_perms.
Proof. apply perms_ok_rows; by_decide. Qed.

(** ** Lookups *)

Lemma find_owner_Some s owner name p : find_owner owner name s = Some p ->
  exists k, permissions s !! k = Some p /\ poOwner p = owner /\ poName p = name.
Proof.
  intros H%head_Some_elem_of. apply list_elem_of_filter in H as [Hp H].
  apply list_elem_of_fmap in H as ([k q] & -> & H%elem_of_map_to_list). eauto.
Qed.

Lemma find_owner_None s owner name : find_owner owner name s = None ->
  forall k p, permissions s !! k = Some p -> poOwner p = owner -> poName p <> name.
Proof.
  intros H k p Hk Ho Hn. unfold find_owner in H.
  assert (p ∈ filter (fun p => poOwner p = owner /\ poName p = name) (map_to_list (permissions s)).*2) as Hin.
  { apply list_elem_of_filter. split; [done|]. apply list_elem_of_fmap. exists (k, p). by rewrite elem_of_map_to_list. }
  destruct (filter _ _); [by apply elem_of_nil in Hin|done].
Qed.

Lemma find_owner_stored s owner name p : perms_ok s -> find_owner owner name s = Some p ->
  stored s p /\ poOwner p = owner /\ poName p = name.
Proof. intros Hok (k & Hk & ? & ?)%find_owner_Some. unfold stored. by destruct (perm_key s Hok _ _ Hk) as [-> _]. Qed.

(** A stored permission is what the lookup of its owner and name finds. *)
Lemma find_owner_row s p : perms_ok s -> stored s p -> find_owner (poOwner p) (poName p) s = Some p.
Proof.
  intros Hok Hp. destruct (find_owner _ _ s) as [q|] eqn:E.
  - apply find_owner_Some in E as (k & Hk & Ho & Hn). unfold stored in Hp.
    rewrite (perm_unique s Hok _ _ _ _ Hk Hp Ho Hn) in Hk. congruence.
  - by destruct (find_owner_None _ _ _ E _ _ Hp eq_refl).
Qed.

Lemma FindPermission_Ok s level r : FindPermission s level = Ok r ->
  Actor level <> 0 /\ Permission level <> 0 /\ r = find_owner (Actor level) (Permission level) s.
Proof. unfold FindPermission. intros H. inv_ok. apply andb_prop in Hm as [H1%negb_true_iff%Z.eqb_neq H2%negb_true_iff%Z.eqb_neq]. done. Qed.

Lemma GetPermission_Ok s level p : GetPermission s level = Ok p -> find_owner (Actor level) (Permission level) s = Some p.
Proof. unfold GetPermission. intros H. inv_ok. by destruct (find_owner _ _ s); inv_ok. Qed.

Lemma GetPermission_stored s level p : perms_ok s -> GetPermission s level = Ok p ->
  stored s p /\ poOwner p = Actor level /\ poName p = Permission level.
Proof. intros Hok H%GetPermission_Ok. by apply find_owner_stored. Qed.

Lemma permission_authority_wf s p a : perms_ok s -> permission_authority s p = Ok a -> auth_wf a.
Proof. intros Hok H. unfold permission_authority in H. inv_ok. apply (GetPermission_stored s) in Hm as [Hs _]; [|done]. by eapply perm_auth. Qed.

(** ** Changes of the tree *)

(** The permission [CreatePermission] returns, and the state it leaves. *)
Lemma CreatePermission_eq account name parent auth t s :
  let created := mkPermissionObject parent (nextPermission s) (nextUsage s) account name (if t =? 0 then PendingBlockTime s else t) auth in
  CreatePermission account name parent auth t s =
    (set_permissions (<[nextPermission s := created]> (permissions s)) (i64 (nextPermission s + 1))
       (set_permUsages (<[nextUsage s := LastUpdated created]> (permUsages s)) (i64 (nextUsage s + 1)) s), Ok created).
Proof. done. Qed.

(** Room for one more row. *)
Definition room (s : Perms) : Prop := nextPermission s < 2 ^ 63 - 1 /\ 0 <= nextUsage s < 2 ^ 63 - 1.

Definition parent_in (s : Perms) (account parent : Z) : Prop :=
  parent = 0 \/ exists q, permissions s !! parent = Some q /\ poOwner q = account.

Lemma nextPermission_nonneg s : perms_ok s -> 0 <= nextPermission s.
Proof. intros Hok. destruct (perm_zero s Hok); lia. Qed.

Lemma CreatePermission_ok account name parent auth t s s' p :
  perms_ok s -> room s -> parent_in s account parent -> find_owner account name s = None -> auth_wf auth ->
  CreatePermission account name parent auth t s = (s', Ok p) -> perms_ok s' /\ stored s' p.
Proof.
  intros Hok [Hr1 Hr2] Hpar Hnew Hwf. rewrite CreatePermission_eq. cbv zeta. intros [= <- <-].
  pose proof (nextPermission_nonneg s Hok) as Hn0. rewrite !i64_small by lia.
  assert (Hfresh : forall k p, permissions s !! k = Some p -> k <> nextPermission s) by (intros k p Hk; apply (perm_key s Hok) in Hk; lia).
  assert (Hufresh : forall k p, permissions s !! k = Some p -> UsageId p <> nextUsage s).
  { intros k p Hk. destruct (perm_usage s Hok _ _ Hk) as [u Hu]. apply (usage_key s Hok) in Hu. lia. }
  split; [|by unfold stored; cbn; rewrite lookup_insert_eq].
  split; cbn.
  - intros k p [[<- <-]|[? Hk]]%lookup_insert_Some; cbn; [lia|]. apply (perm_key s Hok) in Hk. lia.
  - intros k p [[<- <-]|[? Hk]]%lookup_insert_Some; cbn.
    + destruct Hpar as [->|(q & Hq & Ho)]; [by left|right]. exists q. pose proof (perm_key s Hok _ _ Hq) as [_ ?].
      rewrite lookup_insert_ne by lia. split_and!; [done|lia|done].
    + destruct (perm_parent s Hok _ _ Hk) as [|(q & Hq & ? & ?)]; [by left|right]. exists q.
      rewrite lookup_insert_ne by (apply not_eq_sym; by eapply Hfresh). done.
  - intros k k' p p' [[<- <-]|[? Hk]]%lookup_insert_Some [[<- <-]|[? Hk']]%lookup_insert_Some Ho Hn; cbn in *; [done|..].
    + by destruct (find_owner_None _ _ _ Hnew _ _ Hk').
    + by destruct (find_owner_None _ _ _ Hnew _ _ Hk).
    + by eapply (perm_unique s Hok).
  - intros k p [[<- <-]|[? Hk]]%lookup_insert_Some; cbn; [done|]. by eapply (perm_auth s Hok).
  - right. split; [lia|]. destruct (perm_zero s Hok) as [->|[? Hz]]; [rewrite lookup_insert_eq; eauto|].
    rewrite lookup_insert_ne by lia. done.
  - intros k p [[<- <-]|[? Hk]]%lookup_insert_Some; cbn; [rewrite lookup_insert_eq; eauto|].
    rewrite lookup_insert_ne by (apply not_eq_sym; by eapply Hufresh). by eapply (perm_usage s Hok).
  - intros k k' p p' [[<- <-]|[? Hk]]%lookup_insert_Some [[<- <-]|[? Hk']]%lookup_insert_Some Hu; cbn in *; [done|..].
    + by destruct (Hufresh _ _ Hk').
    + by destruct (Hufresh _ _ Hk).
    + by eapply (perm_usage_own s Hok).
  - intros k u [[<- <-]|[? Hk]]%lookup_insert_Some; [lia|]. apply (usage_key s Hok) in Hk. lia.
Qed.

(** A row keeps its place in the tree when its authority is replaced. *)
Lemma replace_authority_ok s permission p' : perms_ok s -> stored s permission -> auth_wf (poAuth p') ->
  poParent p' = poParent permission -> poID p' = poID permission -> UsageId p' = UsageId permission ->
  poOwner p' = poOwner permission -> poName p' = poName permission ->
  perms_ok (set_permissions (<[poID permission := p']> (permissions s)) (nextPermission s) s).
Proof.
  intros Hok Hp Hwf E1 E2 E3 E4 E5.
  assert (Hrow : forall k q, <[poID permission := p']> (permissions s) !! k = Some q ->
    exists q0, permissions s !! k = Some q0 /\ poParent q = poParent q0 /\ poID q = poID q0 /\ poOwner q = poOwner q0 /\
      poName q = poName q0 /\ UsageId q = UsageId q0 /\ (auth_wf (poAuth q) \/ poAuth q = poAuth q0)).
  { intros k q [[<- <-]|[? Hk]]%lookup_insert_Some; [exists permission; split_and!; try done; by left|exists q; split_and!; try done; by right]. }
  assert (Hback : forall k q, permissions s !! k = Some q ->
    exists q', <[poID permission := p']> (permissions s) !! k = Some q' /\ poOwner q' = poOwner q).
  { intros k q Hk. destruct (decide (k = poID permission)) as [->|Hne].
    - exists p'. rewrite lookup_insert_eq. unfold stored in Hp. replace q with permission by congruence. done.
    - exists q. by rewrite lookup_insert_ne by done. }
  split; cbn.
  - intros k q (q0 & Hk & _ & -> & _)%Hrow. by apply (perm_key s Hok).
  - intros k q (q0 & Hk & -> & _ & -> & _)%Hrow. destruct (perm_parent s Hok _ _ Hk) as [|(r & Hr & ? & <-)]; [by left|right].
    apply Hback in Hr as (r' & ? & <-). eauto.
  - intros k k' q q' (q0 & Hk & _ & _ & -> & -> & _)%Hrow (q1 & Hk' & _ & _ & -> & -> & _)%Hrow. by eapply (perm_unique s Hok).
  - intros k q (q0 & Hk & _ & _ & _ & _ & _ & [?| ->])%Hrow; [done|]. by eapply (perm_auth s Hok).
  - destruct (perm_zero s Hok) as [?|[? [q Hz]]]; [by left|right]. apply Hback in Hz as (q' & ? & _). eauto.
  - intros k q (q0 & Hk & _ & _ & _ & _ & -> & _)%Hrow. by eapply (perm_usage s Hok).
  - intros k k' q q' (q0 & Hk & _ & _ & _ & _ & -> & _)%Hrow (q1 & Hk' & _ & _ & _ & _ & -> & _)%Hrow. by eapply (perm_usage_own s Hok).
  - apply (usage_key s Hok).
Qed.

Lemma ModifyPermission_ok permission auth s s' p :
  perms_ok s -> stored s permission -> auth_wf auth -> ModifyPermission permission auth s = (s', Ok p) ->
  perms_ok s' /\ stored s' p.
Proof.
  intros Hok Hp Hwf [= <- <-]. split; [by apply replace_authority_ok|by unfold stored; cbn; rewrite lookup_insert_eq].
Qed.

Lemma no_later_parent_spec id s : no_later_parent id s = true <-> forall k p, permissions s !! k = Some p -> poParent p < id.
Proof.
  unfold no_later_parent. rewrite forallb_forall. split.
  - intros H k p Hk. apply Z.ltb_lt, H, list_elem_of_In, list_elem_of_fmap. exists (k, p). by rewrite elem_of_map_to_list.
  - intros H p Hp%list_elem_of_In. apply list_elem_of_fmap in Hp as ([k q] & -> & Hq%elem_of_map_to_list). by apply Z.ltb_lt, (H k).
Qed.

(** A permission goes only without children, so that no row loses its parent. *)
Lemma RemovePermission_ok permission s s' :
  perms_ok s -> stored s permission -> RemovePermission permission s = (s', Ok tt) ->
  perms_ok s' /\ permissions s' = delete (poID permission) (permissions s).
Proof.
  intros Hok Hp. unfold RemovePermission, mbind, M_bind, get, modify, assertM, lift.
  destruct (no_later_parent (poID permission) s) eqn:E; cbn [EosAssert]; [|done]. intros [= <-].
  rewrite no_later_parent_spec in E. split; [|done].
  assert (poID permission <> 0) as Hnz.
  { pose proof (E _ _ Hp). pose proof (parent_le s Hok _ Hp). lia. }
  split; cbn; try (setoid_rewrite lookup_delete_Some).
  - intros k p [_ Hk]. by apply (perm_key s Hok).
  - intros k p [_ Hk]. destruct (perm_parent s Hok _ _ Hk) as [|(q & ? & ? & ?)]; [by left|right].
    exists q. split_and!; try done. pose proof (E _ _ Hk). lia.
  - intros k k' p p' [_ Hk] [_ Hk']. by eapply (perm_unique s Hok).
  - intros k p [_ Hk]. by eapply (perm_auth s Hok).
  - destruct (perm_zero s Hok) as [|[? ?]]; [by left|right]. by rewrite lookup_delete_ne by done.
  - intros k p [Hne Hk]. rewrite lookup_delete_ne; [by eapply (perm_usage s Hok)|].
    intros Hu. apply Hne. by eapply (perm_usage_own s Hok).
  - intros k k' p p' [_ Hk] [_ Hk']. by eapply (perm_usage_own s Hok).
  - intros k u [_ Hk]. by apply (usage_key s Hok) in Hk.
Qed.

(** [RemovePermission] looks for a child with a lower bound alone: a permission without
    children is not removed while another one has a parent with a greater id.  Here
    [alice] has two permissions below [active], and the first one cannot be removed
    because the second one has a child. *)
Definition two_branches : Perms :=
  set_permissions (<[5 := mkPermissionObject 3 5 5 alice_name 11 7 (key_authority 4)]>
                  (<[6 := mkPermissionObject 5 6 6 alice_name 12 7 (key_authority 4)]> (permissions example_perms))) 7
    (set_permUsages (<[5 := 7]> (<[6 := 7]> (permUsages example_perms))) 7 example_perms).

Theorem remove_childless_refused : exists permission,
  perms_ok two_branches /\ stored two_branches permission /\
  (forall k p, permissions two_branches !! k = Some p -> poParent p <> poID permission) /\
  RemovePermission permission two_branches = (two_branches, Throw ActionValidateException).
Proof.
  exists (mkPermissionObject 3 4 4 alice_name pay_name 7 (key_authority 4)). split_and!.
  - apply perms_ok_rows; by_decide.
  - vm_compute. reflexivity.
  - assert (map_Forall (fun _ p => poParent p <> 4) (permissions two_branches)) as H by by_decide. exact H.
  - vm_compute. reflexivity.
Qed.

(** ** What a successful check means *)

(** [d] may authorize [act]: the action is linked to [eosio.any], or [d] is the
    permission it is linked to ([active] without a link) or one above it. *)
Definition authorized (s : Perms) (act : Action) (d : PermissionLevel) : Prop :=
  exists minimum, LookupMinimumPermission s (Actor d) (actAccount act) (actName act) = Ok minimum /\
  match minimum with
  | None => True
  | Some name => exists p q, find_owner (Actor d) (Permission d) s = Some p /\ find_owner (Actor d) name s = Some q /\ above s p q
  end.

Lemma require_above_Ok s auth q : perms_ok s -> stored s q -> require_above s auth q = Ok tt ->
  exists p, find_owner (Actor auth) (Permission auth) s = Some p /\ above s p q.
Proof.
  intros Hok Hq H. unfold require_above in H. inv_ok. subst. pose proof (GetPermission_stored s auth a Hok Hm) as [Hs _].
  destruct (satisfies_ancestor s a q Hok Hs Hq) as (b & Hb & Hiff). exists a. split; [by apply GetPermission_Ok|]. apply Hiff. congruence.
Qed.

Lemma check_minimum_Ok s act d : perms_ok s -> check_minimum s act d = Ok tt -> authorized s act d.
Proof.
  intros Hok H. unfold check_minimum in H. apply bind_Ok in H as (a & Hm & H). exists a. split; [done|].
  destruct a as [name|]; [|done]. apply bind_Ok in H as (q & Hq & H). pose proof (GetPermission_stored s _ _ Hok Hq) as [Hs _].
  apply require_above_Ok in H as (p & Hp & Ha); [|done..]. exists p, q. split_and!; [done| |done]. by apply GetPermission_Ok in Hq.
Qed.

Section CheckSound.
Context (decodeUpdateAuth : bytes -> UpdateAuth) (decodeDeleteAuth : bytes -> DeleteAuth)
  (decodeLinkAuth : bytes -> LinkAuth) (decodeUnLinkAuth : bytes -> UnLinkAuth) (decodeCancelDelay : bytes -> CancelDelay)
  (checkTime : nat -> result unit).
Context (s : Perms) (Hok : perms_ok s).

Notation special := (special_case decodeUpdateAuth decodeDeleteAuth decodeLinkAuth decodeUnLinkAuth decodeCancelDelay s).
Notation actions_checked := (check_actions decodeUpdateAuth decodeDeleteAuth decodeLinkAuth decodeUnLinkAuth decodeCancelDelay checkTime s).

(** What the loop over the actions established for [d] of [act]. *)
Definition declared_ok (act : Action) (d : PermissionLevel) : Prop :=
  match special act with Some r => r = Ok tt | None => authorized s act d end.

(** The delays in the map are all the effective delay: the branch that keeps a greater
    one is never taken. *)
Definition delays_are (delay : Z) (m : gmap PermissionLevel Z) : Prop := forall d x, m !! d = Some x -> x = delay.

Lemma add_permission_spec d delay m : delays_are delay m -> add_permission d delay m = <[d := delay]> m.
Proof.
  intros Hm. unfold add_permission. destruct (m !! d) as [x|] eqn:E; [|done]. rewrite (Hm d x E).
  by destruct (Z.ltb_spec delay delay); [lia|].
Qed.

Lemma delays_are_insert d delay m : delays_are delay m -> delays_are delay (<[d := delay]> m).
Proof. intros Hm d' x [[_ <-]|[_ Hx]]%lookup_insert_Some; [done|by eapply Hm]. Qed.

Lemma check_declared_Ok act special delay auths m n n' m' : delays_are delay m ->
  check_declared checkTime s act special delay auths m n = (n', Ok m') ->
  delays_are delay m' /\ dom m' = dom m ∪ list_to_set auths /\
  (special = false -> forall d, d ∈ auths -> authorized s act d).
Proof.
  revert m n. induction auths as [|d auths IH]; intros m n Hm; cbn [check_declared].
  { intros [= _ <-]. split_and!; [done|set_solver|]. intros _ d Hd. by apply elem_of_nil in Hd. }
  unfold tick, mbind, M_bind, get, modify, lift. destruct (checkTime n) as [_|]; [|done].
  destruct (if special then Ok tt else check_minimum s act d) as [[]|e] eqn:E; [|done].
  rewrite add_permission_spec by done. intros H. apply IH in H as (? & Hd & Ha); [|by apply delays_are_insert].
  split_and!; [done|set_solver|]. intros -> d' [->|Hd']%elem_of_cons; [by apply check_minimum_Ok|auto].
Qed.

Lemma check_actions_Ok delay actions m n n' m' : delays_are delay m -> actions_checked delay actions m n = (n', Ok m') ->
  delays_are delay m' /\ dom m ⊆ dom m' /\
  (forall act d, act ∈ actions -> d ∈ Authorization act -> d ∈ dom m' /\ declared_ok act d).
Proof.
  revert m n. induction actions as [|act actions IH]; intros m n Hm; cbn [check_actions].
  { intros [= _ <-]. split_and!; [done..|]. intros act d Ha. by apply elem_of_nil in Ha. }
  unfold mbind, M_bind, lift. destruct (default (Ok tt) (special act)) as [[]|e] eqn:E; [|done].
  destruct (check_declared _ _ _ _ _ _ _ _) as [n1 [m1|e]] eqn:Ec; [|done]. intros H.
  apply check_declared_Ok in Ec as (Hm1 & Hd1 & Ha1); [|done]. apply IH in H as (Hm' & Hd' & Ha'); [|done].
  split_and!; [done|set_solver|]. intros act' d [->|Hin]%elem_of_cons Hd; [|by apply Ha'].
  split; [set_solver|]. unfold declared_ok. destruct (special act); [done|]. by apply Ha1.
Qed.

Lemma check_permissions_Ok keys perms l ac n n' ac' : ProvidedKeys ac = keys -> ProvidedPermissions ac = perms ->
  check_permissions checkTime s l ac n = (n', Ok ac') ->
  forall d delay, (d, delay) ∈ l -> satisfied (permission_authority s) keys perms delay d.
Proof.
  revert ac n. induction l as [|[p q] l IH]; intros ac n Hk Hp; cbn [check_permissions]; [intros _ d delay Hd; by apply elem_of_nil in Hd|].
  unfold tick, mbind, M_bind, get, modify, lift. destruct (checkTime n) as [_|]; [|done].
  destruct (SatisfiedLoc (permission_authority s) p q None ac) as [st [b|e]] eqn:E; [|done]. unfold assertM, lift, mbind, M_bind, EosAssert.
  destruct b; [|done]. intros H.
  apply (SatisfiedLc_sound (permission_authority s) p (set_ProvidedDelay q ac)) in E as [Hst Hsat];
    [|intros ? ? ?; by eapply permission_authority_wf].
  cbn in Hst, Hsat. rewrite Hk, Hp in Hst, Hsat. intros d delay [[= -> ->]|Hin]%elem_of_cons; [auto|].
  eapply IH; [apply Hst|apply Hst|exact H|done].
Qed.
End CheckSound.

(** C18. The check of a transaction is sound: when it passes, every authorization that an
    action declares is satisfied by the keys, the permissions and the delay that were
    provided, and it may authorize this action: the special check of a native action
    passed, or the declared permission is the one the action is linked to or an ancestor
    of it in the tree of the same account.  [range] is any order of a Go map. *)
Theorem check_authorization_sound decodeUpdateAuth decodeDeleteAuth decodeLinkAuth decodeUnLinkAuth decodeCancelDelay
    checkTime range s actions keys perms delay allowUnusedKeys n n' :
  perms_ok s -> (forall m, range m ≡ₚ map_to_list m) ->
  CheckAuthorization decodeUpdateAuth decodeDeleteAuth decodeLinkAuth decodeUnLinkAuth decodeCancelDelay checkTime range
    s actions keys perms delay allowUnusedKeys n = (n', Ok tt) ->
  forall act d, act ∈ actions -> d ∈ Authorization act ->
    satisfied (permission_authority s) keys perms (effective_delay s delay) d /\
    match special_case decodeUpdateAuth decodeDeleteAuth decodeLinkAuth decodeUnLinkAuth decodeCancelDelay s act with
    | Some r => r = Ok tt
    | None => authorized s act d
    end.
Proof.
  intros Hok Hrange. unfold CheckAuthorization, mbind, M_bind.
  destruct (check_actions _ _ _ _ _ _ _ _ _ _ _) as [n1 [m|e]] eqn:Ea; [|done].
  destruct (check_permissions _ _ _ _ _) as [n2 [ac|e]] eqn:Ep; [|done]. intros _ act d Hact Hd.
  apply (check_actions_Ok _ _ _ _ _ _ s Hok) in Ea as (Hm & _ & Ha); [|intros d' x Hx; by rewrite lookup_empty in Hx].
  destruct (Ha act d Hact Hd) as [[x Hx]%elem_of_dom Hdecl]. split; [|done].
  refine (check_permissions_Ok checkTime s Hok keys perms _ _ _ _ _ _ _ Ep _ _ _); [done..|].
  rewrite (Hrange m), <- (Hm d x Hx). by apply elem_of_map_to_list.
Qed.

(** ** The checks of the native actions *)

(** [auth] is the only declared authorization, it belongs to [account], and its permission
    is above the stored permission [q]. *)
Definition by_ancestor (s : Perms) (auths : list PermissionLevel) (account : Z) (q : PermissionObject) : Prop :=
  exists auth p, auths = [auth] /\ Actor auth = account /\ find_owner account (Permission auth) s = Some p /\ above s p q.

Lemma single_auth_Ok auths auth : single_auth auths = Ok auth -> auths = [auth].
Proof. destruct auths as [|a [|]]; cbn; intros [=]; by subst. Qed.

Lemma require_above_by s auth account q : perms_ok s -> stored s q -> Actor auth = account ->
  require_above s auth q = Ok tt -> by_ancestor s [auth] account q.
Proof. intros Hok Hq <- H. apply require_above_Ok in H as (p & Hp & Ha); [|done..]. by exists auth, p. Qed.

(** The comparison of [CheckLinkAuthAuthorization] and [CheckUnLinkAuthAuthorization]. *)
Lemma compare_above s auth account name : perms_ok s -> Actor auth = account ->
  (p ← GetPermission s auth; q ← GetPermission s (mkPermissionLevel account name); b ← Satisfies s p q; EosAssert b IrrelevantAuthException) = Ok tt ->
  exists q, find_owner account name s = Some q /\ by_ancestor s [auth] account q.
Proof.
  intros Hok Ha H. apply bind_Ok in H as (p & Hp & H). apply bind_Ok in H as (q & Hq & H).
  exists q. split; [by apply GetPermission_Ok in Hq|]. apply GetPermission_stored in Hq as [Hq _]; [|done].
  apply require_above_by; [done..|]. unfold require_above. by rewrite Hp, Ok_bind.
Qed.

Lemma minimum_nonzero s account code type name : LookupMinimumPermission s account code type = Ok (Some name) -> name <> 0.
Proof.
  unfold LookupMinimumPermission. intros H. apply bind_Ok in H as (_ & _ & H).
  destruct (LookupLinkedPermission _ _ _ _) as [p|]; [|by injection H as <-].
  destruct (Z.eqb_spec p 0); [by injection H as <-|]. destruct (p =? EosioAnyName); [done|]. congruence.
Qed.

(** C19. Only an ancestor changes a permission or a link: when the check of a native action
    passes, the action declares one authorization, of the affected account, whose
    permission is the changed one, the parent of the one to be created, or above; to
    unlink it is the permission of the link, or above, unless the link is to
    [eosio.any]; to link it is the permission the action needed before. *)
Theorem auth_actions_need_ancestor s auths : perms_ok s ->
  (forall update, CheckUpdateAuthAuthorization s update auths = Ok tt ->
     exists q, by_ancestor s auths (uaAccount update) q /\
       find_owner (uaAccount update) (if find_owner (uaAccount update) (uaPermission update) s then uaPermission update else uaParent update) s = Some q) /\
  (forall del, CheckDeleteAuthAuthorization s del auths = Ok tt ->
     exists q, by_ancestor s auths (daAccount del) q /\ find_owner (daAccount del) (daPermission del) s = Some q) /\
  (forall link, CheckLinkAuthAuthorization s link auths = Ok tt -> not_linkable (laType link) = false /\
     exists name q, LookupMinimumPermission s (laAccount link) (laCode link) (laType link) = Ok (Some name) /\
       by_ancestor s auths (laAccount link) q /\ find_owner (laAccount link) name s = Some q) /\
  (forall unlink, CheckUnLinkAuthAuthorization s unlink auths = Ok tt ->
     exists name, LookupLinkedPermission s (ulAccount unlink) (ulCode unlink) (ulType unlink) = Some name /\
     (name = EosioAnyName \/ exists q, by_ancestor s auths (ulAccount unlink) q /\ find_owner (ulAccount unlink) name s = Some q)).
Proof.
  intros Hok. split_and!; intros x H; apply bind_Ok in H as (auth & ->%single_auth_Ok & H);
    apply bind_Ok in H as ([] & Ha%EosAssert_Ok%Z.eqb_eq & H).
  - apply bind_Ok in H as (found & (_ & _ & Hf)%FindPermission_Ok & H). cbn in Hf. rewrite <- Hf.
    destruct found as [p|]; [rewrite Ok_bind in H|apply bind_Ok in H as (p & Hp%GetPermission_Ok & H)]; exists p; split; try done.
    + apply require_above_by; [done| |done..]. symmetry in Hf. by apply (find_owner_stored s) in Hf as [? _].
    + apply require_above_by; [done| |done..]. by apply (find_owner_stored s) in Hp as [? _].
  - apply bind_Ok in H as (p & Hp%GetPermission_Ok & H). exists p. split; [|done]. apply require_above_by; [done| |done..].
    by apply (find_owner_stored s) in Hp as [? _].
  - apply bind_Ok in H as ([] & Hl%EosAssert_Ok%negb_true_iff & H). split; [done|].
    apply bind_Ok in H as (linked & Hm & H). destruct linked as [name|]; [|done].
    destruct (Z.eqb_spec name 0) as [->|Hn]; [by destruct (minimum_nonzero s _ _ _ _ Hm)|].
    apply compare_above in H as (q & Hq & Hb); [|done..]. by exists name, q.
  - destruct (LookupLinkedPermission _ _ _ _) as [name|]; [|done]. exists name. split; [done|].
    apply bind_Ok in H as ([] & Hz%EosAssert_Ok & H). destruct (Z.eqb_spec name EosioAnyName); [by left|right].
    apply compare_above in H as (q & Hq & Hb); [|done..]. eauto.
Qed.

(** [alice] signs a transfer on the contract 77, to which [pay] is linked, with the key of
    [pay] and with the key of [active]; and she gives [pay] a new key. *)
Definition alice_pay : PermissionLevel := mkPermissionLevel alice_name pay_name.
Definition alice_active : PermissionLevel := mkPermissionLevel alice_name ActiveName.
Definition example_actions : list Action :=
  [mkAction 77 5 [alice_pay; alice_active] []; mkAction SystemAccountName nUpdateAuth [alice_active] []].
Definition example_update : UpdateAuth := mkUpdateAuth alice_name pay_name ActiveName (key_authority 5).
Definition example_check : nat * result unit :=
  CheckAuthorization (fun _ => example_update) (fun _ => mkDeleteAuth 0 0) (fun _ => mkLinkAuth 0 0 0 0) (fun _ => mkUnLinkAuth 0 0 0)
    (fun _ => mkCancelDelay alice_pay NewSha256Nil) (fun _ => Ok tt) map_to_list example_perms example_actions [one_key 3; one_key 4] [] 0 false 0%nat.

Lemma check_authorization_sound_witness :
  satisfied (permission_authority example_perms) [one_key 3; one_key 4] [] 0 alice_active /\
  authorized example_perms (mkAction 77 5 [alice_pay; alice_active] []) alice_active.
Proof.
  assert (example_check = (5%nat, Ok tt)) as E by (vm_compute; reflexivity).
  exact (check_authorization_sound _ _ _ _ _ _ _ example_perms example_actions _ _ 0 _ _ _ example_perms_ok (fun m => reflexivity _) E
    (mkAction 77 5 [alice_pay; alice_active] []) alice_active ltac:(by left) ltac:(by right; left)).
Defined.

Lemma auth_actions_need_ancestor_witness :
  exists q, by_ancestor example_perms [alice_active] alice_name q /\ find_owner alice_name pay_name example_perms = Some q.
Proof.
  exact (proj1 (auth_actions_need_ancestor example_perms [alice_active] example_perms_ok) example_update
    ltac:(vm_compute; reflexivity)).
Defined.

(** The permission [pay] does not authorize what [active] is needed for, and a key that
    no authority used is refused. *)
Example check_refuses :
  CheckDeleteAuthAuthorization example_perms (mkDeleteAuth alice_name ActiveName) [alice_pay] = Throw IrrelevantAuthException /\
  CheckAuthorization2 example_perms alice_name pay_name [one_key 4; one_key 9] [] 0 false = Throw TxIrrelevantSig /\
  CheckAuthorization2 example_perms alice_name pay_name [one_key 9] [] 0 true = Throw UnsatisfiedAuthorization.
Proof. by split_and!; vm_compute. Qed.

(** ** Divergences *)

Definition any_link (s : Perms) : Perms := set_links (<[1 := mkLink 1 alice_name 78 0 EosioAnyName]> (links s)) 2 s.

(** An action that is linked to [eosio.any] cannot be linked again: the name that the
    lookup returns is a nil pointer, which [linkedPermissionName.Empty()] dereferences. *)
Theorem relink_any_panics :
  CheckLinkAuthAuthorization (any_link example_perms) (mkLinkAuth alice_name 78 5 ActiveName) [alice_active] = Throw NilDereference.
Proof. vm_compute. reflexivity. Qed.

(** To unlink without a link ends in a nil dereference, not in the [TransactionException]
    of the message. *)
Theorem unlink_without_link_panics s unlink auth : Actor auth = ulAccount unlink ->
  LookupLinkedPermission s (ulAccount unlink) (ulCode unlink) (ulType unlink) = None ->
  CheckUnLinkAuthAuthorization s unlink [auth] = Throw NilDereference.
Proof. intros Ha Hl. unfold CheckUnLinkAuthAuthorization. cbn. rewrite Ha, Z.eqb_refl. cbn. by rewrite Hl. Qed.

(** To cancel while there is no deferred transaction ends in a nil dereference, not in
    [TxNotFound]. *)
Theorem cancel_without_deferred_panics :
  CheckCancelDelayAuthorization example_perms (mkCancelDelay alice_pay NewSha256Nil) [alice_active] = Throw NilDereference.
Proof. vm_compute. reflexivity. Qed.
