(* ===== verification/NativeActions.v ===== *)
(** * NativeActions: accounts, RAM billing and the native actions

    [chain/eosio_contract.go]: the handlers of the actions of the system account, with
    [AccountObject] and [AccountSequenceObject] of [entity/account_object.go], the parts
    of [chain/apply_context.go] they use ([RequireAuthorization], [AddRamUsage],
    [CancelDeferredTransaction2]) and [AddRamUsage] of [chain/transaction_context.go].

    A handler takes the struct that its action's data decodes to; the source drops the
    errors of the decoder, so that this can be any value.  A lookup by a unique name is
    the row with that name.  The validation of WebAssembly code is an argument. *)

From S2P Require Import Prelude Uint128 Bytes Rlp Sha256 Ecc Name Time Authority Permissions.
From S2P Require ResourceLimits.

(** ** Configuration *)

Definition OverheadPerAccountRamBytes : Z := 2 * 1024.
Definition SetcodeRamBytesMultiplier : Z := 10.

(** [DefaultConfig.BillableSize[kind].value]; a kind that the map lacks has the zero
    value. *)
Definition BillableValue (kind : string) : Z :=
  default 0 ((list_to_map [("permission_level_weight", 24); ("key_weight", 8); ("wait_weight", 16); ("shared_authority", 3 * 16 + 4);
    ("permission_link_object", 40 + 32); ("permission_object", 64 + 64 + 5 * 32); ("table_id_object", 44 + 32 * 2);
    ("key_value_object", 32 + 8 + 4 + 32 * 2); ("Idx64Object", 24 + 8 + 32 * 3); ("Idx128Object", 24 + 16 + 32 * 3);
    ("Idx256Object", 24 + 32 + 32 * 3); ("IdxDoubleObject", 24 + 8 + 32 * 3); ("IdxLongDoubleObject", 24 + 16 + 32 * 3);
    ("generated_transaction_object", 96 + 4 + 32 * 5)]%string : gmap string Z) !! kind).

Definition Billable (kind : string) : Z := BillableSizeV (BillableValue kind).

(** ** State *)

Record AccountObject : Type := mkAccountObject {
  accID : Z; accName : Z; VmType : Z; VmVersion : Z; Privileged : bool; LastCodeUpdate : Z; CodeVersion : Sha256;
  CreationDate : Z; Code : bytes; Abi : bytes }.

Record AccountSequenceObject : Type := mkAccountSequenceObject {
  seqID : Z; seqName : Z; RecvSequence : Z; AuthSequence : Z; CodeSequence : Z; AbiSequence : Z }.

(** What the handlers read and write of the chain. *)
Record Chain : Type := mkChain {
  perms : Perms; accounts : gmap Z AccountObject; nextAccount : Z;
  sequences : gmap Z AccountSequenceObject; nextSequence : Z;
  resources : ResourceLimits.Db; producing : bool; KeyBlacklist : list PublicKey }.

(** The apply context of an action, and the accounts whose RAM the transaction checks. *)
Record Context : Type := mkContext {
  chain : Chain; ctxAuthorization : list PermissionLevel; UsedAuthorizations : list bool;
  AccountRamDeltas : gmap Z Z; ValidateRamUsage : gset Z }.

Definition set_perms (p : Perms) (c : Chain) : Chain :=
  mkChain p (accounts c) (nextAccount c) (sequences c) (nextSequence c) (resources c) (producing c) (KeyBlacklist c).
Definition set_accounts (m : gmap Z AccountObject) (n : Z) (c : Chain) : Chain :=
  mkChain (perms c) m n (sequences c) (nextSequence c) (resources c) (producing c) (KeyBlacklist c).
Definition set_sequences (m : gmap Z AccountSequenceObject) (n : Z) (c : Chain) : Chain :=
  mkChain (perms c) (accounts c) (nextAccount c) m n (resources c) (producing c) (KeyBlacklist c).
Definition set_resources (r : ResourceLimits.Db) (c : Chain) : Chain :=
  mkChain (perms c) (accounts c) (nextAccount c) (sequences c) (nextSequence c) r (producing c) (KeyBlacklist c).

Definition set_chain (c : Chain) (x : Context) : Context :=
  mkContext c (ctxAuthorization x) (UsedAuthorizations x) (AccountRamDeltas x) (ValidateRamUsage x).
Definition set_used (u : list bool) (x : Context) : Context :=
  mkContext (chain x) (ctxAuthorization x) u (AccountRamDeltas x) (ValidateRamUsage x).
Definition set_deltas (m : gmap Z Z) (x : Context) : Context :=
  mkContext (chain x) (ctxAuthorization x) (UsedAuthorizations x) m (ValidateRamUsage x).
Definition set_validate (v : gset Z) (x : Context) : Context :=
  mkContext (chain x) (ctxAuthorization x) (UsedAuthorizations x) (AccountRamDeltas x) v.

(** A part of the state runs, and the rest stays. *)
Definition on_chain {A} (m : M Chain A) : M Context A := fun x => let '(c, r) := m (chain x) in (set_chain c x, r).
Definition on_perms {A} (m : M Perms A) : M Context A := on_chain (fun c => let '(p, r) := m (perms c) in (set_perms p c, r)).
Definition on_resources {A} (m : M ResourceLimits.Db A) : M Context A :=
  on_chain (fun c => let '(d, r) := m (resources c) in (set_resources d c, r)).

(** [Find("byName", ...)] *)
Definition find_account (name : Z) (c : Chain) : option AccountObject :=
  head (filter (fun a => accName a = name) (map_to_list (accounts c)).*2).
Definition find_sequence (name : Z) (c : Chain) : option AccountSequenceObject :=
  head (filter (fun a => seqName a = name) (map_to_list (sequences c)).*2).

Definition new_account (name creation : Z) (id : Z) : AccountObject :=
  mkAccountObject id name 0 0 false 0 NewSha256Nil creation [] [].
Definition new_sequence (name id : Z) : AccountSequenceObject := mkAccountSequenceObject id name 0 0 0 0.

Definition insert_account (a : Z -> AccountObject) : M Chain unit :=
  modify (fun c => set_accounts (<[nextAccount c := a (nextAccount c)]> (accounts c)) (i64 (nextAccount c + 1)) c).
Definition insert_sequence (a : Z -> AccountSequenceObject) : M Chain unit :=
  modify (fun c => set_sequences (<[nextSequence c := a (nextSequence c)]> (sequences c)) (i64 (nextSequence c + 1)) c).

(** [db.Modify]: the row is written under the id of the object. *)
Definition modify_account (a : AccountObject) : M Chain unit :=
  modify (fun c => set_accounts (<[accID a := a]> (accounts c)) (nextAccount c) c).
Definition modify_sequence (a : AccountSequenceObject) : M Chain unit :=
  modify (fun c => set_sequences (<[seqID a := a]> (sequences c)) (nextSequence c) c).

(** ** The apply context *)

(** The index of the first authorization of [account]. *)
Fixpoint first_actor (account : Z) (auths : list PermissionLevel) : option nat :=
  match auths with
  | [] => None
  | v :: auths' => if Actor v =? account then Some O else S <$> first_actor account auths'
  end.

Definition RequireAuthorization (account : Z) : M Context unit :=
  x ← get;
  match first_actor account (ctxAuthorization x) with
  | None => lift (Throw MissingAuthException)
  | Some k =>
      match UsedAuthorizations x !! k with
      | Some _ => modify (fun x => set_used (<[k := true]> (UsedAuthorizations x)) x)
      | None => lift (Throw IndexOutOfRange)
      end
  end.

Definition HasAuthorization (account : Z) (x : Context) : bool := existsb (fun v => Actor v =? account) (ctxAuthorization x).
Definition IsAccount (n : Z) (c : Chain) : bool := match find_account n c with Some _ => true | None => false end.

(** [TransactionContext.AddRamUsage] *)
Definition trx_AddRamUsage (account ramDelta : Z) : M Context unit :=
  _ ← on_resources (ResourceLimits.AddPendingRamUsage account ramDelta);
  if 0 <? ramDelta then modify (fun x => set_validate ({[account]} ∪ ValidateRamUsage x) x) else mret tt.

(** The set of deltas is ordered by the account alone: a second delta of an account is
    not added. *)
Definition AddRamUsage (account ramDelta : Z) : M Context unit :=
  _ ← trx_AddRamUsage account ramDelta;
  modify (fun x => match AccountRamDeltas x !! account with
                   | Some _ => x
                   | None => set_deltas (<[account := ramDelta]> (AccountRamDeltas x)) x
                   end).

(** ** The handlers *)

(** [strings.Index(s, prefix) == 0] *)
Definition starts_with (prefix : string) (s : bytes) : bool :=
  bool_decide (take (String.length prefix) s = map (fun c => Z.of_N (Ascii.N_of_ascii c)) (String.list_ascii_of_string prefix)).

(** An exception of the type that the [Catch] names becomes an [ActionValidateException].
    [GetPermission] raises [InvalidPermission] as it is. *)
Definition catch_query {A} (r : result A) : result A :=
  match r with Throw PermissionQueryException => Throw ActionValidateException | _ => r end.

Fixpoint check_accounts (c : Chain) (l : list PermissionLevelWeight) : result unit :=
  match l with
  | [] => Ok tt
  | a :: l' =>
      _ ← EosAssert (IsAccount (Actor (plPermission a)) c) ActionValidateException;
      let name := Permission (plPermission a) in
      _ ← (if (name =? OwnerName) || (name =? ActiveName) || (name =? EosioCodeName) then Ok tt
           else _ ← catch_query (GetPermission (perms c) (plPermission a)); Ok tt);
      check_accounts c l'
  end.

Definition CheckKeyList (c : Chain) (key : PublicKey) : result unit :=
  if 0 <? len (KeyBlacklist c) then EosAssert (negb (bool_decide (key ∈ KeyBlacklist c))) KeyBlacklistException else Ok tt.

Fixpoint check_keys_listed (c : Chain) (l : list KeyWeight) : result unit :=
  match l with [] => Ok tt | k :: l' => _ ← CheckKeyList c (kwKey k); check_keys_listed c l' end.

Definition validateAuthorityPrecondition (c : Chain) (auth : Authority) : result unit :=
  _ ← check_accounts c (Accounts auth);
  if producing c then check_keys_listed c (Keys auth) else Ok tt.

Record NewAccount : Type := mkNewAccount { Creator : Z; naName : Z; naOwner : Authority; naActive : Authority }.
Record SetCode : Type := mkSetCode { scAccount : Z; scVmType : Z; scVmVersion : Z; scCode : bytes }.
Record SetAbi : Type := mkSetAbi { saAccount : Z; saAbi : bytes }.

(** The RAM of a new account with its two permissions. *)
Definition account_ram (owner active : Authority) : Z :=
  let ramDelta := u64 (OverheadPerAccountRamBytes + u64 (2 * Billable "permission_object")) in
  let ramDelta := u64 (ramDelta + GetBillableSize owner) in
  u64 (ramDelta + GetBillableSize active).

Definition applyEosioNewaccount (create : NewAccount) : M Context unit :=
  _ ← RequireAuthorization (Creator create);
  _ ← assertM (Authority.Validate (naOwner create)) ActionValidateException;
  _ ← assertM (Authority.Validate (naActive create)) ActionValidateException;
  nameStr ← lift (S_ (naName create));
  _ ← assertM (negb (naName create =? 0)) ActionValidateException;
  _ ← assertM (len nameStr <=? 12) ActionValidateException;
  x ← get;
  _ ← (match find_account (Creator create) (chain x) with
       | Some creator =>
           if negb (Privileged creator) then assertM (negb (starts_with "eosio." nameStr)) ActionValidateException else mret tt
       | None => mret tt
       end);
  _ ← assertM (negb (IsAccount (naName create) (chain x))) AccountNameExistsException;
  let creation := NewBlockTimeStamp (PendingBlockTime (perms (chain x))) in
  _ ← on_chain (insert_account (new_account (naName create) creation));
  _ ← on_chain (insert_sequence (new_sequence (naName create)));
  x ← get;
  _ ← lift (validateAuthorityPrecondition (chain x) (naOwner create));
  _ ← lift (validateAuthorityPrecondition (chain x) (naActive create));
  ownerPermission ← on_perms (CreatePermission (naName create) OwnerName 0 (naOwner create) 0);
  activePermission ← on_perms (CreatePermission (naName create) ActiveName (poID ownerPermission) (naActive create) 0);
  _ ← on_resources (ResourceLimits.InitializeAccount (naName create));
  AddRamUsage (naName create) (i64 (account_ram (poAuth ownerPermission) (poAuth activePermission))).

(** The exported copy of the handler has the same body. *)
Definition ApplyEosioNewaccount : NewAccount -> M Context unit := applyEosioNewaccount.

Section Handlers.
(** [wasmgo.Validate] *)
Variable validate_code : bool -> bytes -> result unit.

(** A missing account is written under id 0, as the zero object has it; [RequireAuthorization]
    and the check of the transaction exclude it. *)
Definition account_or_zero (name : Z) (c : Chain) : AccountObject := default (new_account name 0 0) (find_account name c).
Definition sequence_or_zero (name : Z) (c : Chain) : AccountSequenceObject := default (new_sequence name 0) (find_sequence name c).

Definition with_code (now : Z) (version : Sha256) (code : bytes) (a : AccountObject) : AccountObject :=
  mkAccountObject (accID a) (accName a) (VmType a) (VmVersion a) (Privileged a) now version (CreationDate a) code (Abi a).
Definition with_abi (abi : bytes) (a : AccountObject) : AccountObject :=
  mkAccountObject (accID a) (accName a) (VmType a) (VmVersion a) (Privileged a) (LastCodeUpdate a) (CodeVersion a)
    (CreationDate a) (Code a) abi.
Definition next_code_sequence (a : AccountSequenceObject) : AccountSequenceObject :=
  mkAccountSequenceObject (seqID a) (seqName a) (RecvSequence a) (AuthSequence a) (u64 (CodeSequence a + 1)) (AbiSequence a).

Definition bump_code_sequence (name : Z) : M Chain unit :=
  c ← get; modify_sequence (next_code_sequence (sequence_or_zero name c)).

Definition applyEosioSetcode (act : SetCode) : M Context unit :=
  _ ← RequireAuthorization (scAccount act);
  _ ← assertM (scVmType act =? 0) InvalidContractVmType;
  _ ← assertM (scVmVersion act =? 0) InvalidContractVmVersion;
  x ← get;
  codeId ← lift (if 0 <? len (scCode act)
                 then h ← Hash256 (VSlice (map VUint8 (scCode act))); _ ← validate_code (producing (chain x)) (scCode act); Ok (Some h)
                 else Ok None);
  let accountObject := account_or_zero (scAccount act) (chain x) in
  let codeSize := len (scCode act) in
  let oldSize := len (Code accountObject) * SetcodeRamBytesMultiplier in
  let newSize := codeSize * SetcodeRamBytesMultiplier in
  codeId ← lift (match codeId with Some h => Ok h | None => Throw NilDereference end);
  _ ← assertM (negb (bool_decide (CodeVersion accountObject = codeId))) SetExactCode;
  _ ← on_chain (modify_account (with_code (PendingBlockTime (perms (chain x))) codeId
        (if 0 <? codeSize then scCode act else Code accountObject) accountObject));
  _ ← on_chain (bump_code_sequence (scAccount act));
  if negb (newSize =? oldSize) then AddRamUsage (scAccount act) (i64 (newSize - oldSize)) else mret tt.

(** An empty ABI leaves the stored one, and the sequence of the code goes up. *)
Definition applyEosioSetabi (act : SetAbi) : M Context unit :=
  _ ← RequireAuthorization (saAccount act);
  x ← get;
  let accountObject := account_or_zero (saAccount act) (chain x) in
  let abiSize := len (saAbi act) in
  let oldSize := len (Abi accountObject) in
  let newSize := abiSize in
  _ ← on_chain (modify_account (with_abi (if 0 <? abiSize then saAbi act else Abi accountObject) accountObject));
  _ ← on_chain (bump_code_sequence (saAccount act));
  if negb (newSize =? oldSize) then AddRamUsage (saAccount act) (i64 (newSize - oldSize)) else mret tt.

Definition permission_size (auth : Authority) : Z := u64 (Billable "permission_object" + GetBillableSize auth).

Definition applyEosioUpdateauth (update : UpdateAuth) : M Context unit :=
  _ ← RequireAuthorization (uaAccount update);
  _ ← assertM (negb (uaPermission update =? 0)) ActionValidateException;
  permissionStr ← lift (S_ (uaPermission update));
  _ ← assertM (negb (starts_with "eosio." permissionStr)) ActionValidateException;
  _ ← assertM (negb (uaPermission update =? uaParent update)) ActionValidateException;
  _ ← assertM (Authority.Validate (uaAuth update)) ActionValidateException;
  _ ← assertM (negb (uaPermission update =? ActiveName) || (uaParent update =? OwnerName)) ActionValidateException;
  _ ← assertM (if uaPermission update =? OwnerName then uaParent update =? 0 else negb (uaParent update =? 0)) ActionValidateException;
  x ← get;
  _ ← assertM (match last (Waits (uaAuth update)) with Some w => WaitSec w <=? MaxTrxDelay (perms (chain x)) | None => true end) ActionValidateException;
  _ ← lift (validateAuthorityPrecondition (chain x) (uaAuth update));
  permission ← lift (FindPermission (perms (chain x)) (mkPermissionLevel (uaAccount update) (uaPermission update)));
  parentId ← lift (if negb (uaPermission update =? OwnerName)
                   then parent ← GetPermission (perms (chain x)) (mkPermissionLevel (uaAccount update) (uaParent update)); Ok (poID parent)
                   else Ok 0);
  match permission with
  | Some permission =>
      _ ← assertM (parentId =? poParent permission) ActionValidateException;
      let oldSize := permission_size (poAuth permission) in
      permission ← on_perms (ModifyPermission permission (uaAuth update));
      let newSize := permission_size (poAuth permission) in
      AddRamUsage (poOwner permission) (i64 (u64 (newSize - oldSize)))
  | None =>
      p ← on_perms (CreatePermission (uaAccount update) (uaPermission update) parentId (uaAuth update) 0);
      let newSize := permission_size (poAuth p) in
      AddRamUsage (uaAccount update) (i64 newSize)
  end.

(** The order of the index [byPermissionName]: the fields with its tag, in the order in
    which the struct declares them. *)
Definition link_key (l : PermissionLinkObject) : list Z := [linkAccount l; linkCode l; MessageType l; RequiredPermission l].

Fixpoint key_le (a b : list Z) : bool :=
  match a, b with
  | x :: a', y :: b' => (x <? y) || ((x =? y) && key_le a' b')
  | [], _ => true
  | _ :: _, [] => false
  end.

(** The lower bound of [bound]. *)
Definition first_link (bound : list Z) (s : Perms) : option PermissionLinkObject :=
  foldr (fun l r => if key_le bound (link_key l)
                    then match r with Some m => if key_le (link_key m) (link_key l) then r else Some l | None => Some l end
                    else r) None (map_to_list (links s)).*2.

Definition link_IsEmpty (p : PermissionLinkObject) : bool :=
  (linkID p =? 0) && (linkAccount p =? 0) && (linkCode p =? 0) && (MessageType p =? 0) && (RequiredPermission p =? 0).

(** Behind the last link, [Data] leaves the empty object. *)
Definition applyEosioDeleteauth (del : DeleteAuth) : M Context unit :=
  _ ← RequireAuthorization (daAccount del);
  _ ← assertM (negb (daPermission del =? OwnerName)) ActionValidateException;
  _ ← assertM (negb (daPermission del =? ActiveName)) ActionValidateException;
  x ← get;
  let link := first_link [daAccount del; 0; 0; daPermission del] (perms (chain x)) in
  _ ← assertM (match link with Some l => link_IsEmpty l | None => true end) ActionValidateException;
  permission ← lift (GetPermission (perms (chain x)) (mkPermissionLevel (daAccount del) (daPermission del)));
  let oldSize := permission_size (poAuth permission) in
  _ ← on_perms (RemovePermission permission);
  AddRamUsage (daAccount del) (i64 (- i64 oldSize)).

Definition insert_link (l : Z -> PermissionLinkObject) : M Perms unit :=
  modify (fun s => set_links (<[nextLink s := l (nextLink s)]> (links s)) (i64 (nextLink s + 1)) s).
Definition modify_link (l : PermissionLinkObject) : M Perms unit :=
  modify (fun s => set_links (<[linkID l := l]> (links s)) (nextLink s) s).
Definition remove_link (l : PermissionLinkObject) : M Perms unit :=
  modify (fun s => set_links (delete (linkID l) (links s)) (nextLink s) s).

(** The kind [PermissionLinkObject] is not one of the map of billable sizes. *)
Definition applyEosioLinkauth (requirement : LinkAuth) : M Context unit :=
  _ ← assertM (negb (Requirement requirement =? 0)) ActionValidateException;
  _ ← RequireAuthorization (laAccount requirement);
  x ← get;
  let c := chain x in
  _ ← assertM (IsAccount (laAccount requirement) c) AccountQueryException;
  _ ← assertM (IsAccount (laCode requirement) c) AccountQueryException;
  _ ← assertM ((Requirement requirement =? EosioAnyName) ||
               match find_owner (laAccount requirement) (Requirement requirement) (perms c) with Some _ => true | None => false end)
        PermissionQueryException;
  match find_link (laAccount requirement) (laCode requirement) (laType requirement) (perms c) with
  | Some l =>
      _ ← assertM (negb (RequiredPermission l =? Requirement requirement)) ActionValidateException;
      on_perms (modify_link (mkLink (linkID l) (linkAccount l) (laCode requirement) (laType requirement) (Requirement requirement)))
  | None =>
      _ ← on_perms (insert_link (fun id => mkLink id (laAccount requirement) (laCode requirement) (laType requirement) (Requirement requirement)));
      AddRamUsage (laAccount requirement) (i64 (Billable "PermissionLinkObject"))
  end.

Definition applyEosioUnlinkauth (unlink : UnLinkAuth) : M Context unit :=
  _ ← RequireAuthorization (ulAccount unlink);
  x ← get;
  match find_link (ulAccount unlink) (ulCode unlink) (ulType unlink) (perms (chain x)) with
  | None => lift (Throw ActionValidateException)
  | Some link =>
      _ ← AddRamUsage (linkAccount link) (i64 (- i64 (Billable "permission_link_object")));
      on_perms (remove_link link)
  end.

(** *** Deferred transactions *)

Definition transactionIdToSenderId (tid : Sha256) : Uint128 := mkUint128 (Hash3 tid) (Hash2 tid).

(** [Find("bySenderId", ...)] *)
Definition find_generated (sender : Z) (senderId : Uint128) (s : Perms) : option Generated :=
  head (filter (fun g => genSender g = sender /\ genSenderId g = senderId) (map_to_list (generated s)).*2).

Definition remove_generated (g : Generated) : M Perms unit :=
  modify (fun s => set_generated (delete (genID g) (generated s)) (nextGenerated s) s).

Definition CancelDeferredTransaction2 (sendId : Uint128) (sender : Z) : M Context bool :=
  x ← get;
  match find_generated sender sendId (perms (chain x)) with
  | Some gto =>
      _ ← AddRamUsage (genPayer gto) (i64 (- i64 (u64 (Billable "generated_transaction_object" + PackedSize gto))));
      _ ← on_perms (remove_generated gto);
      mret true
  | None => mret false
  end.

Definition applyEosioCanceldelay (cancel : CancelDelay) : M Context unit :=
  _ ← RequireAuthorization (Actor (CancelingAuth cancel));
  _ ← CancelDeferredTransaction2 (transactionIdToSenderId (cdTrxId cancel)) 0;
  mret tt.

(** The native actions and their dispatch. *)
Inductive native : Type :=
| ANewAccount (a : NewAccount) | ASetCode (a : SetCode) | ASetAbi (a : SetAbi) | AUpdateAuth (a : UpdateAuth)
| ADeleteAuth (a : DeleteAuth) | ALinkAuth (a : LinkAuth) | AUnLinkAuth (a : UnLinkAuth) | ACancelDelay (a : CancelDelay).

Definition apply (a : native) : M Context unit :=
  match a with
  | ANewAccount a => applyEosioNewaccount a
  | ASetCode a => applyEosioSetcode a
  | ASetAbi a => applyEosioSetabi a
  | AUpdateAuth a => applyEosioUpdateauth a
  | ADeleteAuth a => applyEosioDeleteauth a
  | ALinkAuth a => applyEosioLinkauth a
  | AUnLinkAuth a => applyEosioUnlinkauth a
  | ACancelDelay a => applyEosioCanceldelay a
  end.
End Handlers.

(** ** What the handlers keep *)

(** The tree has a permission of this shape. *)
Definition has_perm (s : Perms) (owner name parent id : Z) : Prop :=
  exists p, permissions s !! id = Some p /\ poOwner p = owner /\ poName p = name /\ poParent p = parent.

Definition has_account (c : Chain) (name : Z) : Prop := exists k a, accounts c !! k = Some a /\ accName a = name.

(** The permissions are well formed, accounts have distinct names and, every one of them,
    the permission [owner] as a root and [active] directly below it; permissions belong
    to accounts; and a link names accounts and a permission that exist, once for an
    account, a contract and an action. *)
Record chain_ok (c : Chain) : Prop := {
  ok_perms : perms_ok (perms c);
  acc_key k a : accounts c !! k = Some a -> accID a = k /\ 0 <= k < nextAccount c /\ 0 < accName a;
  acc_unique k k' a a' : accounts c !! k = Some a -> accounts c !! k' = Some a' -> accName a = accName a' -> k = k';
  acc_perms name : has_account c name ->
    exists o i, has_perm (perms c) name OwnerName 0 o /\ has_perm (perms c) name ActiveName o i;
  perm_account o n pa i : has_perm (perms c) o n pa i -> has_account c o;
  next_account : 0 <= nextAccount c;
  next_link : 0 <= nextLink (perms c);
  link_key_ok k l : links (perms c) !! k = Some l -> linkID l = k /\ 0 <= k < nextLink (perms c);
  link_ok k l : links (perms c) !! k = Some l -> has_account c (linkAccount l) /\ has_account c (linkCode l) /\
    (RequiredPermission l = EosioAnyName \/ exists pa i, has_perm (perms c) (linkAccount l) (RequiredPermission l) pa i);
  link_unique k k' l l' : links (perms c) !! k = Some l -> links (perms c) !! k' = Some l' ->
    linkAccount l = linkAccount l' -> linkCode l = linkCode l' -> MessageType l = MessageType l' -> k = k' }.

(** What [chain_ok] reads of the permissions. *)
Lemma chain_ok_perms c p : chain_ok c -> perms_ok p -> links p = links (perms c) -> nextLink p = nextLink (perms c) ->
  (forall name o, has_account c name -> has_perm (perms c) name OwnerName 0 o -> has_perm p name OwnerName 0 o) ->
  (forall name o i, has_account c name -> has_perm (perms c) name ActiveName o i -> has_perm p name ActiveName o i) ->
  (forall o n pa i, has_perm p o n pa i -> has_account c o) ->
  (forall k l pa i, links p !! k = Some l -> has_perm (perms c) (linkAccount l) (RequiredPermission l) pa i ->
     exists pa i, has_perm p (linkAccount l) (RequiredPermission l) pa i) ->
  chain_ok (set_perms p c).
Proof.
  intros [] Hp El En Ho Ha Hacc Hl. split; cbn; rewrite ?El, ?En; try done.
  - intros name Hn. destruct (acc_perms0 name Hn) as (o & i & ? & ?). exists o, i. split; [by apply Ho|by apply Ha].
  - intros k l Hk. destruct (link_ok0 k l Hk) as (? & ? & [|(pa & i & Hx)]); split_and!; try done; [by left|right].
    eapply Hl; [by rewrite El|done].
Qed.

Lemma chain_ok_resources c d : chain_ok c -> chain_ok (set_resources d c).
Proof. by intros []. Qed.

Lemma chain_ok_sequences c m n : chain_ok c -> chain_ok (set_sequences m n c).
Proof. by intros []. Qed.

Lemma find_account_Some name c a : find_account name c = Some a -> exists k, accounts c !! k = Some a /\ accName a = name.
Proof.
  intros H%head_Some_elem_of. apply list_elem_of_filter in H as [Hp H].
  apply list_elem_of_fmap in H as ([k q] & -> & H%elem_of_map_to_list). eauto.
Qed.

Lemma find_account_has name c : (exists a, find_account name c = Some a) <-> has_account c name.
Proof.
  split; [intros (a & (k & ? & ?)%find_account_Some); by exists k, a|]. intros (k & a & Hk & Hn). unfold find_account.
  assert (a ∈ filter (fun a => accName a = name) (map_to_list (accounts c)).*2) as Hin.
  { apply list_elem_of_filter. split; [done|]. apply list_elem_of_fmap. exists (k, a). by rewrite elem_of_map_to_list. }
  destruct (filter _ _) as [|a' l]; [by apply elem_of_nil in Hin|]. by exists a'.
Qed.

Lemma IsAccount_has name c : IsAccount name c = true <-> has_account c name.
Proof. rewrite <- find_account_has. unfold IsAccount. destruct (find_account name c); naive_solver. Qed.

Lemma find_link_Some a c t s l : find_link a c t s = Some l ->
  exists k, links s !! k = Some l /\ linkAccount l = a /\ linkCode l = c /\ MessageType l = t.
Proof.
  intros H%head_Some_elem_of. apply list_elem_of_filter in H as [Hp H].
  apply list_elem_of_fmap in H as ([k q] & -> & H%elem_of_map_to_list). eauto.
Qed.

Lemma find_link_None a c t s : find_link a c t s = None ->
  forall k l, links s !! k = Some l -> ~ (linkAccount l = a /\ linkCode l = c /\ MessageType l = t).
Proof.
  intros H k l Hk Hl. unfold find_link in H.
  assert (l ∈ filter (fun l => linkAccount l = a /\ linkCode l = c /\ MessageType l = t) (map_to_list (links s)).*2) as Hin.
  { apply list_elem_of_filter. split; [done|]. apply list_elem_of_fmap. exists (k, l). by rewrite elem_of_map_to_list. }
  destruct (filter _ _); [by apply elem_of_nil in Hin|done].
Qed.

Lemma find_owner_has s o n p : perms_ok s -> find_owner o n s = Some p -> has_perm s o n (poParent p) (poID p).
Proof. intros Hok (Hs & <- & <-)%find_owner_stored; [|done]. by exists p. Qed.

Lemma has_perm_fun s o n pa o' n' pa' i : has_perm s o n pa i -> has_perm s o' n' pa' i -> o = o' /\ n = n' /\ pa = pa'.
Proof. intros (p & Hp & <- & <- & <-) (q & Hq & <- & <- & <-). by simplify_eq. Qed.

(** The shapes after each change of the tree. *)
Lemma CreatePermission_shapes account name parent auth t s s' p : perms_ok s ->
  CreatePermission account name parent auth t s = (s', Ok p) ->
  poID p = nextPermission s /\ poOwner p = account /\ poParent p = parent /\ poAuth p = auth /\
  links s' = links s /\ nextLink s' = nextLink s /\ permissions s' = <[nextPermission s := p]> (permissions s) /\
  forall o n pa i, has_perm s' o n pa i <->
    has_perm s o n pa i \/ (o = account /\ n = name /\ pa = parent /\ i = nextPermission s).
Proof.
  intros Hok. rewrite CreatePermission_eq. cbv zeta. intros [= <- <-]. cbn. split_and!; try done.
  intros o n pa i. unfold has_perm. cbn. destruct (decide (i = nextPermission s)) as [->|Hne].
  - rewrite lookup_insert_eq. split.
    + intros (q & [= <-] & <- & <- & <-). by right.
    + intros [(q & Hq & _)|(-> & -> & -> & _)]; [apply (perm_key s Hok) in Hq; lia|].
      eexists. split; [done|]. done.
  - rewrite lookup_insert_ne by done. naive_solver.
Qed.

Lemma ModifyPermission_shapes permission auth s s' p : stored s permission ->
  ModifyPermission permission auth s = (s', Ok p) ->
  poOwner p = poOwner permission /\ poAuth p = auth /\ links s' = links s /\ nextLink s' = nextLink s /\
  permissions s' = <[poID permission := p]> (permissions s) /\
  forall o n pa i, has_perm s' o n pa i <-> has_perm s o n pa i.
Proof.
  intros Hp [= <- <-]. cbn. split_and!; try done. intros o n pa i. unfold has_perm. cbn.
  destruct (decide (i = poID permission)) as [->|Hne]; [|by rewrite lookup_insert_ne].
  rewrite lookup_insert_eq, Hp. split; intros (q & [= <-] & Hx); eauto.
Qed.

Lemma RemovePermission_shapes permission s s' :
  RemovePermission permission s = (s', Ok tt) ->
  links s' = links s /\ nextLink s' = nextLink s /\ permissions s' = delete (poID permission) (permissions s) /\
  forall o n pa i, has_perm s' o n pa i <-> has_perm s o n pa i /\ i <> poID permission.
Proof.
  unfold RemovePermission. intros H. run_step H. run_step H. run_step H. run_step H. cbn. split_and!; try done.
  intros o n pa i. unfold has_perm. cbn. setoid_rewrite lookup_delete_Some. naive_solver.
Qed.

(** ** Runs of the handlers *)

Lemma run_on_chain {A} (m : M Chain A) x x' a : on_chain m x = (x', Ok a) <-> exists c, m (chain x) = (c, Ok a) /\ x' = set_chain c x.
Proof. unfold on_chain. destruct (m (chain x)) as [c r]. naive_solver. Qed.

Lemma run_on_perms {A} (m : M Perms A) x x' a :
  on_perms m x = (x', Ok a) <-> exists p, m (perms (chain x)) = (p, Ok a) /\ x' = set_chain (set_perms p (chain x)) x.
Proof. unfold on_perms, on_chain. destruct (m (perms (chain x))) as [p r]. naive_solver. Qed.

Lemma run_on_resources {A} (m : M ResourceLimits.Db A) x x' a :
  on_resources m x = (x', Ok a) <-> exists d, m (resources (chain x)) = (d, Ok a) /\ x' = set_chain (set_resources d (chain x)) x.
Proof. unfold on_resources, on_chain. destruct (m (resources (chain x))) as [p r]. naive_solver. Qed.

Lemma first_actor_Some account auths k : first_actor account auths = Some k -> exists d, d ∈ auths /\ Actor d = account.
Proof.
  revert k. induction auths as [|d auths IH]; intros k; cbn; [done|]. destruct (Z.eqb_spec (Actor d) account).
  - intros _. exists d. split; [by left|done].
  - intros (k' & Hk & _)%fmap_Some. destruct (IH _ Hk) as (d' & ? & ?). exists d'. split; [by right|done].
Qed.

(** Only the marks of used authorizations change. *)
Lemma RequireAuthorization_run account x x' : RequireAuthorization account x = (x', Ok tt) ->
  chain x' = chain x /\ exists d, d ∈ ctxAuthorization x /\ Actor d = account.
Proof.
  unfold RequireAuthorization. intros H. run_step H. destruct (first_actor account (ctxAuthorization x)) as [k|] eqn:E; [|done].
  apply first_actor_Some in E. destruct (UsedAuthorizations x !! k); [|done]. by run_step H.
Qed.

Lemma trx_AddRamUsage_run account delta x x' : trx_AddRamUsage account delta x = (x', Ok tt) ->
  exists d, ResourceLimits.AddPendingRamUsage account delta (resources (chain x)) = (d, Ok tt) /\ chain x' = set_resources d (chain x).
Proof.
  unfold trx_AddRamUsage. intros H. apply run_bind in H as (x1 & [] & (d & Hd & ->)%run_on_resources & H).
  exists d. split; [done|]. by destruct (0 <? delta); run_step H.
Qed.

Lemma AddRamUsage_run account delta x x' : AddRamUsage account delta x = (x', Ok tt) ->
  exists d, ResourceLimits.AddPendingRamUsage account delta (resources (chain x)) = (d, Ok tt) /\ chain x' = set_resources d (chain x).
Proof.
  unfold AddRamUsage. intros H. apply run_bind in H as (x1 & [] & (d & Hd & E)%trx_AddRamUsage_run & H).
  exists d. split; [done|]. run_step H. by destruct (AccountRamDeltas x1 !! account).
Qed.

Definition actors_exist (x : Context) : Prop := forall d, d ∈ ctxAuthorization x -> has_account (chain x) (Actor d).

(** The account of a handler that required its authorization. *)
Lemma required_account account x x' : actors_exist x -> RequireAuthorization account x = (x', Ok tt) ->
  chain x' = chain x /\ has_account (chain x) account.
Proof. intros Hx (E & d & Hd & <-)%RequireAuthorization_run. auto. Qed.

(** Ids are left. *)
Record chain_room (c : Chain) : Prop := {
  room_perms : nextPermission (perms c) < 2 ^ 63 - 2;
  room_usages : 0 <= nextUsage (perms c) < 2 ^ 63 - 2;
  room_accounts : nextAccount c < 2 ^ 63 - 1;
  room_links : nextLink (perms c) < 2 ^ 63 - 1 }.

Lemma newaccount_run create x x' : applyEosioNewaccount create x = (x', Ok tt) ->
  naName create <> 0 /\ ~ has_account (chain x) (naName create) /\
  let c := chain x in
  exists s1 s2 p q d,
    CreatePermission (naName create) OwnerName 0 (naOwner create) 0 (perms c) = (s1, Ok p) /\
    CreatePermission (naName create) ActiveName (poID p) (naActive create) 0 s1 = (s2, Ok q) /\
    ResourceLimits.AddPendingRamUsage (naName create)
      (i64 (account_ram (poAuth p) (poAuth q)))
      (ResourceLimits.InitializeAccount (naName create) (resources c)).1 = (d, Ok tt) /\
    chain x' =
      set_resources d (set_perms s2
        (set_sequences (<[nextSequence c := new_sequence (naName create) (nextSequence c)]> (sequences c)) (i64 (nextSequence c + 1))
          (set_accounts (<[nextAccount c := new_account (naName create) (NewBlockTimeStamp (PendingBlockTime (perms c))) (nextAccount c)]> (accounts c))
             (i64 (nextAccount c + 1)) c))).
Proof.
  unfold applyEosioNewaccount. intros H.
  apply run_bind in H as (x1 & [] & (E & _)%RequireAuthorization_run & H). rewrite <- E.
  do 6 run_step H. apply negb_true_iff, Z.eqb_neq in Hr2. split; [done|].
  apply run_bind in H as (x2 & [] & Hc & H).
  assert (x2 = x1) as ->.
  { destruct (find_account _ _) as [cr|]; [destruct (negb (Privileged cr))|]; by run_step Hc. }
  run_step H. apply negb_true_iff, not_true_iff_false in Hr4. rewrite IsAccount_has in Hr4. split; [done|]. cbv zeta.
  apply run_bind in H as (x2 & [] & (c1 & Hc1%run_modify & ->)%run_on_chain & H).
  apply run_bind in H as (x2 & [] & (c2 & Hc2%run_modify & ->)%run_on_chain & H).
  do 3 run_step H.
  apply run_bind in H as (x2 & p & (s1 & Hp & ->)%run_on_perms & H).
  apply run_bind in H as (x2 & q & (s2 & Hq & ->)%run_on_perms & H).
  apply run_bind in H as (x2 & [] & (d1 & Hd1 & ->)%run_on_resources & H).
  apply AddRamUsage_run in H as (d & Hd & ->). exists s1, s2, p, q, d. subst c1 c2.
  split_and!; [exact Hp|exact Hq| |reflexivity].
  change (ResourceLimits.InitializeAccount (naName create) (resources (chain x1)) = (d1, Ok tt)) in Hd1. by rewrite Hd1.
Qed.

(** Code and ABI: the account's row changes, but not its name. *)
Lemma bump_code_sequence_run name c c' : bump_code_sequence name c = (c', Ok tt) -> exists m, c' = set_sequences m (nextSequence c) c.
Proof. unfold bump_code_sequence, modify_sequence. intros H. run_step H. run_step H. eauto. Qed.

Lemma setcode_run validate act x x' : applyEosioSetcode validate act x = (x', Ok tt) ->
  exists x1 h m r, RequireAuthorization (scAccount act) x = (x1, Ok tt) /\
    let c := chain x in let a := account_or_zero (scAccount act) c in
    scCode act <> [] /\
    (r = resources c /\ len (scCode act) = len (Code a) \/
     ResourceLimits.AddPendingRamUsage (scAccount act) (i64 (len (scCode act) * 10 - len (Code a) * 10)) (resources c) = (r, Ok tt)) /\
    chain x' = set_resources r (set_sequences m (nextSequence c)
      (set_accounts (<[accID a := with_code (PendingBlockTime (perms c)) h (scCode act) a]> (accounts c)) (nextAccount c) c)).
Proof.
  unfold applyEosioSetcode, SetcodeRamBytesMultiplier. intros H.
  apply run_bind in H as (x1 & [] & Ha & H). pose proof (RequireAuthorization_run _ _ _ Ha) as [E _]. rewrite <- E.
  do 4 run_step H. do 2 run_step H.
  destruct (Z.ltb_spec 0 (len (scCode act))) as [Hl|Hl]; [|simplify_eq].
  destruct a1 as [h|]; [|done]. injection Hr2 as <-. assert (scCode act <> []) by (by intros E0; rewrite E0 in Hl).
  apply run_bind in H as (x2 & [] & (c1 & Hc1%run_modify & ->)%run_on_chain & H).
  apply run_bind in H as (x2 & [] & (c2 & (m & Hc2)%bump_code_sequence_run & ->)%run_on_chain & H). subst c1 c2.
  destruct (Z.eqb_spec (len (scCode act) * 10) (len (Code (account_or_zero (scAccount act) (chain x1))) * 10)); cbn [negb] in H.
  - run_step H. exists x1, h, m, (resources (chain x1)). split; [done|]. cbv zeta.
    split_and!; [done|left; split; [done|lia]|done].
  - apply AddRamUsage_run in H as (d & Hd & ->). exists x1, h, m, d. split; [done|]. cbv zeta.
    split_and!; [done|right; exact Hd|done].
Qed.

Lemma setabi_run act x x' : applyEosioSetabi act x = (x', Ok tt) ->
  exists x1 m r, RequireAuthorization (saAccount act) x = (x1, Ok tt) /\
    let c := chain x in let a := account_or_zero (saAccount act) c in
    (r = resources c /\ len (saAbi act) = len (Abi a) \/
     ResourceLimits.AddPendingRamUsage (saAccount act) (i64 (len (saAbi act) - len (Abi a))) (resources c) = (r, Ok tt)) /\
    chain x' = set_resources r (set_sequences m (nextSequence c)
      (set_accounts (<[accID a := with_abi (if 0 <? len (saAbi act) then saAbi act else Abi a) a]> (accounts c)) (nextAccount c) c)).
Proof.
  unfold applyEosioSetabi. intros H.
  apply run_bind in H as (x1 & [] & Ha & H). pose proof (RequireAuthorization_run _ _ _ Ha) as [E _]. rewrite <- E. run_step H.
  apply run_bind in H as (x2 & [] & (c1 & Hc1%run_modify & ->)%run_on_chain & H).
  apply run_bind in H as (x2 & [] & (c2 & (m & Hc2)%bump_code_sequence_run & ->)%run_on_chain & H). subst c1 c2.
  destruct (Z.eqb_spec (len (saAbi act)) (len (Abi (account_or_zero (saAccount act) (chain x1))))); cbn [negb] in H.
  - run_step H. exists x1, m, (resources (chain x1)). split; [done|]. cbv zeta. split; [by left|done].
  - apply AddRamUsage_run in H as (d & Hd & ->). exists x1, m, d. split; [done|]. cbv zeta. split; [by right|done].
Qed.

(** The parent that [updateauth] gives a permission it creates. *)
Definition update_parent (s : Perms) (update : UpdateAuth) (parentId : Z) : Prop :=
  if uaPermission update =? OwnerName then parentId = 0
  else exists q, find_owner (uaAccount update) (uaParent update) s = Some q /\ parentId = poID q.

Lemma updateauth_run update x x' : applyEosioUpdateauth update x = (x', Ok tt) ->
  exists x1 s p d parentId, RequireAuthorization (uaAccount update) x = (x1, Ok tt) /\
    let c := chain x in
    update_parent (perms c) update parentId /\
    match find_owner (uaAccount update) (uaPermission update) (perms c) with
    | Some permission =>
        parentId = poParent permission /\
        ModifyPermission permission (uaAuth update) (perms c) = (s, Ok p) /\
        ResourceLimits.AddPendingRamUsage (poOwner p) (i64 (u64 (permission_size (poAuth p) - permission_size (poAuth permission)))) (resources c) = (d, Ok tt)
    | None =>
        CreatePermission (uaAccount update) (uaPermission update) parentId (uaAuth update) 0 (perms c) = (s, Ok p) /\
        ResourceLimits.AddPendingRamUsage (uaAccount update) (i64 (permission_size (poAuth p))) (resources c) = (d, Ok tt)
    end /\
    chain x' = set_resources d (set_perms s c).
Proof.
  unfold applyEosioUpdateauth. intros H.
  apply run_bind in H as (x1 & [] & Ha & H). pose proof (RequireAuthorization_run _ _ _ Ha) as [E _]. rewrite <- E.
  do 11 run_step H. apply FindPermission_Ok in Hr8 as (_ & _ & Hf). cbn in Hf. rewrite <- Hf.
  run_step H. rename a9 into parentId.
  assert (update_parent (perms (chain x1)) update parentId) as Hpar.
  { unfold update_parent. destruct (uaPermission update =? OwnerName); cbn [negb] in Hr8; [by injection Hr8|].
    apply bind_Ok in Hr8 as (q & Hq%GetPermission_Ok & [= <-]). eauto. }
  destruct a8 as [permission|].
  - run_step H. apply Z.eqb_eq in Hr9.
    apply run_bind in H as (x2 & p & (s1 & Hp & ->)%run_on_perms & H).
    apply AddRamUsage_run in H as (d & Hd & ->). by exists x1, s1, p, d, parentId.
  - apply run_bind in H as (x2 & p & (s1 & Hp & ->)%run_on_perms & H).
    apply AddRamUsage_run in H as (d & Hd & ->). by exists x1, s1, p, d, parentId.
Qed.

Lemma deleteauth_run del x x' : applyEosioDeleteauth del x = (x', Ok tt) ->
  exists x1 s d permission, RequireAuthorization (daAccount del) x = (x1, Ok tt) /\
    let c := chain x in
    daPermission del <> OwnerName /\ daPermission del <> ActiveName /\
    match first_link [daAccount del; 0; 0; daPermission del] (perms c) with Some l => link_IsEmpty l = true | None => True end /\
    find_owner (daAccount del) (daPermission del) (perms c) = Some permission /\
    RemovePermission permission (perms c) = (s, Ok tt) /\
    ResourceLimits.AddPendingRamUsage (daAccount del) (i64 (- i64 (permission_size (poAuth permission)))) (resources c) = (d, Ok tt) /\
    chain x' = set_resources d (set_perms s c).
Proof.
  unfold applyEosioDeleteauth. intros H.
  apply run_bind in H as (x1 & [] & Ha & H). pose proof (RequireAuthorization_run _ _ _ Ha) as [E _]. rewrite <- E.
  do 5 run_step H. apply GetPermission_Ok in Hr2. cbn in Hr2.
  apply negb_true_iff, Z.eqb_neq in Hr. apply negb_true_iff, Z.eqb_neq in Hr0.
  apply run_bind in H as (x2 & [] & (s1 & Hp & ->)%run_on_perms & H).
  apply AddRamUsage_run in H as (d & Hd & ->). exists x1, s1, d, a2. split; [done|]. cbv zeta.
  split_and!; try done. by destruct (first_link _ _).
Qed.

Lemma linkauth_run req x x' : applyEosioLinkauth req x = (x', Ok tt) ->
  exists x1 s d, RequireAuthorization (laAccount req) x = (x1, Ok tt) /\
    let c := chain x in
    has_account c (laAccount req) /\ has_account c (laCode req) /\
    (Requirement req = EosioAnyName \/ exists p, find_owner (laAccount req) (Requirement req) (perms c) = Some p) /\
    match find_link (laAccount req) (laCode req) (laType req) (perms c) with
    | Some l => d = resources c /\ s = set_links (<[linkID l := mkLink (linkID l) (linkAccount l) (laCode req) (laType req) (Requirement req)]>
                    (links (perms c))) (nextLink (perms c)) (perms c)
    | None => ResourceLimits.AddPendingRamUsage (laAccount req) (i64 (Billable "PermissionLinkObject")) (resources c) = (d, Ok tt) /\
        s = set_links (<[nextLink (perms c) := mkLink (nextLink (perms c)) (laAccount req) (laCode req) (laType req) (Requirement req)]>
                    (links (perms c))) (i64 (nextLink (perms c) + 1)) (perms c)
    end /\
    chain x' = set_resources d (set_perms s c).
Proof.
  unfold applyEosioLinkauth. intros H. run_step H.
  apply run_bind in H as (x1 & [] & Ha & H). pose proof (RequireAuthorization_run _ _ _ Ha) as [E _]. rewrite <- E.
  do 4 run_step H. apply IsAccount_has in Hr0, Hr1.
  assert (Requirement req = EosioAnyName \/ exists p, find_owner (laAccount req) (Requirement req) (perms (chain x1)) = Some p) as Hreq.
  { apply orb_true_iff in Hr2 as [?%Z.eqb_eq|Hf]; [by left|right]. destruct (find_owner _ _ _); [eauto|done]. }
  destruct (find_link _ _ _ _) as [l|].
  - run_step H. apply run_on_perms in H as (s & Hs%run_modify & ->). subst s. exists x1. do 2 eexists. split; [done|]. cbv zeta.
    split_and!; try done.
  - apply run_bind in H as (x2 & [] & (s & Hs%run_modify & ->)%run_on_perms & H). subst s.
    apply AddRamUsage_run in H as (d & Hd & ->). exists x1. do 2 eexists. split; [done|]. cbv zeta. split_and!; try done.
Qed.

Lemma unlinkauth_run unlink x x' : applyEosioUnlinkauth unlink x = (x', Ok tt) ->
  exists x1 d link, RequireAuthorization (ulAccount unlink) x = (x1, Ok tt) /\
    let c := chain x in
    find_link (ulAccount unlink) (ulCode unlink) (ulType unlink) (perms c) = Some link /\
    ResourceLimits.AddPendingRamUsage (linkAccount link) (i64 (- i64 (Billable "permission_link_object"))) (resources c) = (d, Ok tt) /\
    chain x' = set_perms (set_links (delete (linkID link) (links (perms c))) (nextLink (perms c)) (perms c)) (set_resources d c).
Proof.
  unfold applyEosioUnlinkauth. intros H.
  apply run_bind in H as (x1 & [] & Ha & H). pose proof (RequireAuthorization_run _ _ _ Ha) as [E _]. rewrite <- E. run_step H.
  destruct (find_link _ _ _ _) as [link|]; [|done].
  apply run_bind in H as (x2 & [] & (d & Hd & E2)%AddRamUsage_run & H).
  apply run_on_perms in H as (s & Hs%run_modify & ->). subst s. exists x1, d, link. split; [done|]. cbv zeta. cbn [chain set_chain].
  rewrite E2. by split_and!.
Qed.

Lemma CancelDeferredTransaction2_run sendId sender x x' b : CancelDeferredTransaction2 sendId sender x = (x', Ok b) ->
  match find_generated sender sendId (perms (chain x)) with
  | None => b = false /\ x' = x
  | Some g => b = true /\ exists d,
      ResourceLimits.AddPendingRamUsage (genPayer g) (i64 (- i64 (u64 (Billable "generated_transaction_object" + PackedSize g)))) (resources (chain x)) = (d, Ok tt) /\
      chain x' = set_perms (set_generated (delete (genID g) (generated (perms (chain x)))) (nextGenerated (perms (chain x))) (perms (chain x)))
                   (set_resources d (chain x))
  end.
Proof.
  unfold CancelDeferredTransaction2. intros H. run_step H. destruct (find_generated _ _ _) as [g|]; [|run_step H; done].
  apply run_bind in H as (x2 & [] & (d & Hd & E2)%AddRamUsage_run & H).
  apply run_bind in H as (x3 & [] & (s & Hs%run_modify & ->)%run_on_perms & H). run_step H. split; [done|]. exists d. cbn [chain set_chain].
  rewrite E2. by split_and!.
Qed.

(** ** [chain_ok] is an invariant *)

Lemma find_owner_named s o n pa i : perms_ok s -> has_perm s o n pa i -> exists p, find_owner o n s = Some p /\ poID p = i /\ poParent p = pa.
Proof.
  intros Hok (p & Hp & <- & <- & <-). pose proof (perm_key s Hok _ _ Hp) as [<- _].
  exists p. split; [by apply find_owner_row|done].
Qed.

Lemma has_account_insert c k a m n : accounts c !! k = Some a \/ accounts c !! k = None -> m = <[k := a]> (accounts c) ->
  forall name, has_account c name -> has_account (set_accounts m n c) name.
Proof.
  intros Hk -> name (k' & a' & Hk' & Hn). exists k', a'. split; [|done]. cbn.
  destruct (decide (k' = k)) as [->|]; [|by rewrite lookup_insert_ne]. rewrite lookup_insert_eq. naive_solver.
Qed.

(** A row that keeps its id and name can be rewritten. *)
Lemma chain_ok_row c k a a' : chain_ok c -> accounts c !! k = Some a -> accID a' = accID a -> accName a' = accName a ->
  chain_ok (set_accounts (<[k := a']> (accounts c)) (nextAccount c) c).
Proof.
  intros Hc Hk Ei En.
  assert (Hrow : forall i b, <[k := a']> (accounts c) !! i = Some b -> exists b0, accounts c !! i = Some b0 /\ accID b = accID b0 /\ accName b = accName b0).
  { intros i b [[<- <-]|[? Hi]]%lookup_insert_Some; eauto. }
  assert (Hacc : forall name, has_account (set_accounts (<[k := a']> (accounts c)) (nextAccount c) c) name <-> has_account c name).
  { intros name. split.
    - intros (i & b & (b0 & ? & ? & ?)%Hrow & <-). exists i, b0. split; congruence.
    - intros (i & b & Hi & <-). destruct (decide (i = k)) as [->|Hne].
      + exists k, a'. cbn. rewrite lookup_insert_eq. split; congruence.
      + exists i, b. cbn. by rewrite lookup_insert_ne. }
  destruct Hc. split; try done.
  - intros i b (b0 & Hi & -> & ->)%Hrow. by apply acc_key0.
  - intros i i' b b' (b0 & Hi & _ & ->)%Hrow (b1 & Hi' & _ & ->)%Hrow. by eapply acc_unique0.
  - intros name Hn%Hacc. by apply acc_perms0.
  - intros o n pa i Hp%perm_account0. by apply Hacc.
  - intros i l Hl%link_ok0. by rewrite !Hacc.
Qed.

Lemma account_or_zero_row c name : chain_ok c -> has_account c name ->
  exists a, find_account name c = Some a /\ accounts c !! accID a = Some a /\ account_or_zero name c = a /\ accName a = name.
Proof.
  intros Hc [a Ha]%find_account_has. exists a. unfold account_or_zero. rewrite Ha. cbn.
  apply find_account_Some in Ha as (k & Hk & Hn). by destruct (acc_key c Hc _ _ Hk) as [-> _].
Qed.

(** Links survive a change that keeps the permissions they name. *)
Lemma chain_ok_links c m n : chain_ok c -> nextLink (perms c) <= n ->
  (forall k l, m !! k = Some l ->
     linkID l = k /\ 0 <= k < n /\ has_account c (linkAccount l) /\ has_account c (linkCode l) /\
     (RequiredPermission l = EosioAnyName \/ exists pa i, has_perm (perms c) (linkAccount l) (RequiredPermission l) pa i)) ->
  (forall k k' l l', m !! k = Some l -> m !! k' = Some l' ->
     linkAccount l = linkAccount l' -> linkCode l = linkCode l' -> MessageType l = MessageType l' -> k = k') ->
  chain_ok (set_perms (set_links m n (perms c)) c).
Proof.
  intros [Hp] Hn Hm Hu. split; try done.
  - by destruct Hp.
  - cbn. lia.
  - cbn. intros k l Hk. by destruct (Hm k l Hk) as (? & ? & _).
  - cbn. intros k l Hk. by destruct (Hm k l Hk) as (_ & _ & ? & ? & ?).
Qed.

Lemma key_le_bound x y z l : linkAccount l = x -> 0 < linkCode l -> key_le [x; 0; y; z] (link_key l) = true.
Proof. intros <- Hc. cbn. rewrite Z.eqb_refl, Z.ltb_irrefl. cbn. by apply orb_true_iff; left; apply Z.ltb_lt. Qed.

Lemma first_link_le bound s l : first_link bound s = Some l -> key_le bound (link_key l) = true.
Proof.
  unfold first_link. revert l. induction (map_to_list (links s)).*2 as [|l0 ls IH]; intros l; cbn [foldr]; [done|].
  destruct (key_le bound (link_key l0)) eqn:E; [|apply IH].
  destruct (foldr _ _ ls) as [m|]; [|by intros [= <-]].
  destruct (key_le (link_key m) (link_key l0)); intros [= <-]; [by apply IH|done].
Qed.

Lemma first_link_Some bound s k l : links s !! k = Some l -> key_le bound (link_key l) = true ->
  exists l', first_link bound s = Some l' /\ key_le bound (link_key l') = true.
Proof.
  intros Hk Hl. enough (exists l', first_link bound s = Some l') as [l' Hl'] by (exists l'; split; [done|by eapply first_link_le]).
  unfold first_link. assert (l ∈ (map_to_list (links s)).*2) as Hin by (apply list_elem_of_fmap; exists (k, l); by rewrite elem_of_map_to_list).
  induction (map_to_list (links s)).*2 as [|l0 ls IH]; [by apply elem_of_nil in Hin|]. cbn [foldr].
  apply elem_of_cons in Hin as [<-|Hin].
  - rewrite Hl. destruct (foldr _ _ ls) as [m|]; [|eauto]. destruct (key_le (link_key m) _); eauto.
  - destruct (IH Hin) as [l' ->]. repeat case_match; eauto.
Qed.

Lemma find_owner_free s o n : perms_ok s -> (forall pa i, ~ has_perm s o n pa i) -> find_owner o n s = None.
Proof. intros Hok H. destruct (find_owner o n s) as [p|] eqn:E; [|done]. by apply find_owner_has, H in E. Qed.

Lemma CreatePermission_next account name parent auth t s s' p : CreatePermission account name parent auth t s = (s', Ok p) ->
  nextPermission s' = i64 (nextPermission s + 1) /\ nextUsage s' = i64 (nextUsage s + 1).
Proof. rewrite CreatePermission_eq. cbv zeta. by intros [= <- <-]. Qed.

(** The action's data has the types of its struct. *)
Definition typed (a : native) : Prop :=
  match a with
  | ANewAccount a => in_u 64 (naName a) /\ auth_wf (naOwner a) /\ auth_wf (naActive a)
  | AUpdateAuth a => auth_wf (uaAuth a)
  | _ => True
  end.

(** A new account with its two permissions. *)
Lemma account_created_ok c a m n o1 o2 t s1 s2 p q : chain_ok c -> chain_room c ->
  accID a = nextAccount c -> 0 < accName a -> ~ has_account c (accName a) -> auth_wf o1 -> auth_wf o2 ->
  CreatePermission (accName a) OwnerName 0 o1 t (perms c) = (s1, Ok p) ->
  CreatePermission (accName a) ActiveName (poID p) o2 t s1 = (s2, Ok q) ->
  chain_ok (set_perms s2 (set_sequences m n (set_accounts (<[nextAccount c := a]> (accounts c)) (i64 (nextAccount c + 1)) c))).
Proof.
  intros Hc Hroom Ei Hpos Hnew Hwo Hwa Hp Hq. set (name := accName a) in *.
  pose proof (ok_perms c Hc) as Hok. destruct Hroom as [R1 R2 R3 R4]. pose proof (nextPermission_nonneg _ Hok) as R0.
  assert (Hfree : forall n pa i, ~ has_perm (perms c) name n pa i) by (intros n' pa i Hx; by eapply Hnew, perm_account).
  pose proof (CreatePermission_next _ _ _ _ _ _ _ _ Hp) as [N1 N2]. rewrite i64_small in N1, N2 by lia.
  pose proof (CreatePermission_shapes _ _ _ _ _ _ _ _ Hok Hp) as (I1 & O1 & _ & _ & L1 & M1 & _ & S1).
  apply CreatePermission_ok in Hp as [Hok1 Hst1]; [|done|split; lia|by left|by apply find_owner_free|done].
  pose proof (CreatePermission_shapes _ _ _ _ _ _ _ _ Hok1 Hq) as (I2 & O2 & _ & _ & L2 & M2 & _ & S2).
  apply CreatePermission_ok in Hq as [Hok2 _]; [|done|split; lia|right; by exists p| |done].
  2:{ apply find_owner_free; [done|]. intros pa i [Hx|(_ & Hx & _)]%S1; [by eapply Hfree|done]. }
  pose proof (next_account c Hc). rewrite (i64_small (nextAccount c + 1)) by lia.
  assert (Hacc : forall n', has_account c n' \/ n' = name ->
    has_account (set_perms s2 (set_sequences m n (set_accounts (<[nextAccount c := a]> (accounts c)) (nextAccount c + 1) c))) n').
  { intros n' [(k & b & Hk & <-)| ->].
    - exists k, b. cbn. rewrite lookup_insert_ne; [done|]. apply (acc_key c Hc) in Hk. lia.
    - exists (nextAccount c), a. cbn. by rewrite lookup_insert_eq. }
  split; cbn -[has_account]; rewrite ?L2, ?L1, ?M2, ?M1; try done.
  - intros k b [[<- <-]|[? Hk]]%lookup_insert_Some; [lia|]. apply (acc_key c Hc) in Hk. lia.
  - intros k k' b b' [[<- <-]|[? Hk]]%lookup_insert_Some [[<- <-]|[? Hk']]%lookup_insert_Some En; [done|..].
    + destruct Hnew. by exists k', b'.
    + destruct Hnew. by exists k, b.
    + by eapply (acc_unique c Hc).
  - intros n' (k & b & Hk & <-). cbn in Hk. apply lookup_insert_Some in Hk as [[<- <-]|[? Hk]].
    + exists (nextPermission (perms c)), (nextPermission s1). rewrite !S2, !S1, I1. naive_solver.
    + destruct (acc_perms c Hc (accName b)) as (o & i & ? & ?); [by exists k, b|]. exists o, i. rewrite !S2, !S1. tauto.
  - intros o n' pa i [[Hx|(-> & _)]%S1|(-> & _)]%S2; apply Hacc; [|by right..]. left. by eapply (perm_account c Hc).
  - lia.
  - by apply (next_link c Hc).
  - apply (link_key_ok c Hc).
  - intros k l Hl. destruct (link_ok c Hc k l Hl) as (? & ? & Hx). split_and!; [apply Hacc; by left..|].
    destruct Hx as [|(pa & i & Hx)]; [by left|right]. exists pa, i. rewrite S2, S1. tauto.
  - apply (link_unique c Hc).
Qed.

Lemma newaccount_ok create x x' : chain_ok (chain x) -> chain_room (chain x) -> typed (ANewAccount create) ->
  applyEosioNewaccount create x = (x', Ok tt) -> chain_ok (chain x').
Proof.
  intros Hc Hroom (Hn & Hwo & Hwa) H. apply newaccount_run in H as (Hne & Hnew & s1 & s2 & p & q & d & Hp & Hq & _ & ->).
  apply chain_ok_resources. unfold in_u in Hn.
  eapply (account_created_ok (chain x) (new_account (naName create) (NewBlockTimeStamp (PendingBlockTime (perms (chain x)))) (nextAccount (chain x))));
    [done|done|done|cbn; lia|done|exact Hwo|exact Hwa|exact Hp|exact Hq].
Qed.

(** A permission that is added to an account. *)
Lemma permission_created_ok c account name parent auth t s p : chain_ok c -> chain_room c -> has_account c account ->
  parent_in (perms c) account parent -> find_owner account name (perms c) = None -> auth_wf auth ->
  CreatePermission account name parent auth t (perms c) = (s, Ok p) -> chain_ok (set_perms s c).
Proof.
  intros Hc [R1 R2 _ _] Hacc Hpi Hnone Hwf Hm. pose proof (ok_perms c Hc) as Hok.
  pose proof (CreatePermission_shapes _ _ _ _ _ _ _ _ Hok Hm) as (_ & _ & _ & _ & L & N & _ & S).
  apply CreatePermission_ok in Hm as [Hok' _]; [|done|split; lia|done..]. apply chain_ok_perms; try done.
  - intros n o _. rewrite S. tauto.
  - intros n o i _. rewrite S. tauto.
  - intros o n pa i. rewrite S. intros [Hp|(-> & _)]; [by eapply (perm_account c Hc)|done].
  - intros k l pa i _ Hl. exists pa, i. rewrite S. tauto.
Qed.

(** A permission whose authority is replaced. *)
Lemma authority_replaced_ok c permission p' : chain_ok c -> stored (perms c) permission -> auth_wf (poAuth p') ->
  poParent p' = poParent permission -> poID p' = poID permission -> UsageId p' = UsageId permission ->
  poOwner p' = poOwner permission -> poName p' = poName permission ->
  chain_ok (set_perms (set_permissions (<[poID permission := p']> (permissions (perms c))) (nextPermission (perms c)) (perms c)) c).
Proof.
  intros Hc Hst Hwf E1 E2 E3 E4 E5.
  assert (S : forall o n pa i, has_perm (set_permissions (<[poID permission := p']> (permissions (perms c))) (nextPermission (perms c)) (perms c)) o n pa i
    <-> has_perm (perms c) o n pa i).
  { intros o n pa i. unfold has_perm. cbn. destruct (decide (i = poID permission)) as [->|Hne]; [|by rewrite lookup_insert_ne].
    rewrite lookup_insert_eq, Hst. split; intros (q & [= <-] & Hx); eexists; (split; [reflexivity|]); naive_solver congruence. }
  apply chain_ok_perms; try done.
  - by apply replace_authority_ok; [apply Hc|..].
  - intros n o _. by rewrite S.
  - intros n o i _. by rewrite S.
  - intros o n pa i. rewrite S. by apply (perm_account c Hc).
  - intros k l pa i _ Hl. exists pa, i. by rewrite S.
Qed.

Lemma permission_modified_ok c permission auth s p : chain_ok c -> stored (perms c) permission -> auth_wf auth ->
  ModifyPermission permission auth (perms c) = (s, Ok p) -> chain_ok (set_perms s c).
Proof. intros Hc Hst Hwf [= <- _]. by apply (authority_replaced_ok c permission). Qed.

Lemma updateauth_ok update x x' : chain_ok (chain x) -> chain_room (chain x) -> actors_exist x -> auth_wf (uaAuth update) ->
  applyEosioUpdateauth update x = (x', Ok tt) -> chain_ok (chain x').
Proof.
  intros Hc Hroom Hx Hwf H. apply updateauth_run in H as (x1 & s & p & d & pid & Ha & Hpar & H & ->).
  apply required_account in Ha as [_ Hacc]; [|done]. apply chain_ok_resources. pose proof (ok_perms _ Hc) as Hok.
  destruct (find_owner (uaAccount update) (uaPermission update) (perms (chain x))) as [permission|] eqn:E.
  - destruct H as (_ & Hm & _). apply find_owner_stored in E as [Hst _]; [|done]. by eapply permission_modified_ok.
  - destruct H as (Hm & _). eapply permission_created_ok; [done..| |done|done|exact Hm].
    unfold update_parent in Hpar. destruct (_ =? _); [by left|right]. destruct Hpar as (q & (Hq & Ho & _)%find_owner_stored & ->); [|done]. eauto.
Qed.

(** No link is left without its permission: the lower bound over all links finds one
    that names it. *)
Lemma deleteauth_ok del x x' : chain_ok (chain x) -> actors_exist x -> applyEosioDeleteauth del x = (x', Ok tt) -> chain_ok (chain x').
Proof.
  intros Hc Hx H. apply deleteauth_run in H as (x1 & s & d & p & Ha & Hno & Hna & Hl & Hf & Hm & _ & ->).
  apply required_account in Ha as [_ Hacc]; [|done]. apply chain_ok_resources. set (c := chain x) in *. pose proof (ok_perms c Hc) as Hok.
  pose proof (find_owner_has _ _ _ _ Hok Hf) as Hhas. apply find_owner_stored in Hf as [Hst _]; [|done].
  pose proof (RemovePermission_shapes _ _ _ Hm) as (L & N & _ & S).
  apply RemovePermission_ok in Hm as [Hok' _]; [|done..]. apply chain_ok_perms; try done.
  - intros n o _ Ho. rewrite S. split; [done|]. intros ->. by pose proof (has_perm_fun _ _ _ _ _ _ _ _ Ho Hhas) as (_ & ? & _).
  - intros n o i _ Ho. rewrite S. split; [done|]. intros ->. by pose proof (has_perm_fun _ _ _ _ _ _ _ _ Ho Hhas) as (_ & ? & _).
  - intros o n pa i. rewrite S. intros [? _]. by eapply (perm_account c Hc).
  - intros k l pa i Hk Hp. exists pa, i. rewrite S. split; [done|]. intros ->.
    pose proof (has_perm_fun _ _ _ _ _ _ _ _ Hp Hhas) as (E1 & E2 & _). rewrite L in Hk.
    destruct (link_ok c Hc k l Hk) as (_ & (kc & ac & Hkc & Ec) & _). apply (acc_key c Hc) in Hkc.
    destruct (first_link_Some [daAccount del; 0; 0; daPermission del] (perms c) k l) as (l' & Hl' & Hb); [done|apply key_le_bound; [done|lia]|].
    rewrite Hl' in Hl. unfold link_IsEmpty in Hl. rewrite !andb_true_iff, !Z.eqb_eq in Hl. destruct Hl as [[[[_ Ea] _] _] _].
    destruct Hacc as (ka & aa & Hka & Eka). apply (acc_key c Hc) in Hka. cbn in Hb. rewrite Ea in Hb.
    destruct (Z.ltb_spec (daAccount del) 0); [lia|]. destruct (Z.eqb_spec (daAccount del) 0); [lia|done].
Qed.

Lemma linkauth_ok req x x' : chain_ok (chain x) -> chain_room (chain x) -> applyEosioLinkauth req x = (x', Ok tt) -> chain_ok (chain x').
Proof.
  intros Hc [_ _ _ R4] H. apply linkauth_run in H as (x1 & s & d & _ & Ha & Hcode & Hreq & H & ->). apply chain_ok_resources.
  set (c := chain x) in *. pose proof (next_link c Hc) as R0.
  assert (Hreq' : Requirement req = EosioAnyName \/ exists pa i, has_perm (perms c) (laAccount req) (Requirement req) pa i).
  { destruct Hreq as [|[p Hp]]; [by left|right]. apply find_owner_has in Hp; [eauto|apply Hc]. }
  destruct (find_link _ _ _ _) as [l|] eqn:E.
  - destruct H as [_ ->]. apply find_link_Some in E as (k & Hk & El1 & El2 & El3).
    pose proof (link_key_ok c Hc k l Hk) as [Ek Ekr]. rewrite Ek. apply chain_ok_links; [done|lia|..].
    + intros k' l' [[<- <-]|[? Hk']]%lookup_insert_Some; cbn; [rewrite El1; split_and!; done || lia|].
      destruct (link_key_ok c Hc _ _ Hk'), (link_ok c Hc _ _ Hk') as (? & ? & ?). done.
    + intros k1 k2 l1 l2 [[<- <-]|[? H1]]%lookup_insert_Some [[<- <-]|[? H2]]%lookup_insert_Some; cbn; intros; [done|..].
      * eapply (link_unique c Hc); [exact Hk|exact H2|congruence..].
      * eapply (link_unique c Hc); [exact H1|exact Hk|congruence..].
      * by eapply (link_unique c Hc).
  - destruct H as [_ ->]. rewrite i64_small by lia. apply chain_ok_links; [done|lia|..].
    + intros k' l' [[<- <-]|[? Hk']]%lookup_insert_Some; cbn; [split_and!; done || lia|].
      destruct (link_key_ok c Hc _ _ Hk'), (link_ok c Hc _ _ Hk') as (? & ? & ?). split_and!; done || lia.
    + intros k1 k2 l1 l2 [[<- <-]|[? H1]]%lookup_insert_Some [[<- <-]|[? H2]]%lookup_insert_Some; cbn; intros; [done|..].
      * by destruct (find_link_None _ _ _ _ E _ _ H2).
      * by destruct (find_link_None _ _ _ _ E _ _ H1).
      * by eapply (link_unique c Hc).
Qed.

Lemma unlinkauth_ok unlink x x' : chain_ok (chain x) -> applyEosioUnlinkauth unlink x = (x', Ok tt) -> chain_ok (chain x').
Proof.
  intros Hc H. apply unlinkauth_run in H as (x1 & d & l & _ & _ & _ & ->).
  apply (chain_ok_links (set_resources d (chain x))); [by apply chain_ok_resources|done|..]; cbn.
  - intros k l' [_ Hk]%lookup_delete_Some. destruct (link_key_ok _ Hc _ _ Hk), (link_ok _ Hc _ _ Hk) as (? & ? & ?). done.
  - intros k k' l1 l2 [_ H1]%lookup_delete_Some [_ H2]%lookup_delete_Some. by eapply (link_unique _ Hc).
Qed.

Lemma chain_ok_generated c m n : chain_ok c -> chain_ok (set_perms (set_generated m n (perms c)) c).
Proof. intros [Hp]. split; try done. by destruct Hp. Qed.

Lemma canceldelay_ok cancel x x' : chain_ok (chain x) -> applyEosioCanceldelay cancel x = (x', Ok tt) -> chain_ok (chain x').
Proof.
  unfold applyEosioCanceldelay. intros Hc H. apply run_bind in H as (x1 & [] & (E & _)%RequireAuthorization_run & H).
  apply run_bind in H as (x2 & b & H2%CancelDeferredTransaction2_run & H). run_step H. rewrite E in H2.
  destruct (find_generated _ _ _) as [g|]; [|destruct H2 as [_ ->]; by rewrite E].
  destruct H2 as (_ & d & _ & ->). by apply (chain_ok_generated (set_resources d (chain x))), chain_ok_resources.
Qed.

Lemma setcode_ok validate act x x' : chain_ok (chain x) -> actors_exist x -> applyEosioSetcode validate act x = (x', Ok tt) -> chain_ok (chain x').
Proof.
  intros Hc Hx H. apply setcode_run in H as (x1 & h & m & r & Ha & _ & _ & ->). apply required_account in Ha as [_ Hacc]; [|done].
  destruct (account_or_zero_row _ _ Hc Hacc) as (a & _ & Hk & -> & _).
  apply chain_ok_resources, chain_ok_sequences. by apply (chain_ok_row _ _ a).
Qed.

Lemma setabi_ok act x x' : chain_ok (chain x) -> actors_exist x -> applyEosioSetabi act x = (x', Ok tt) -> chain_ok (chain x').
Proof.
  intros Hc Hx H. apply setabi_run in H as (x1 & m & r & Ha & _ & ->). apply required_account in Ha as [_ Hacc]; [|done].
  destruct (account_or_zero_row _ _ Hc Hacc) as (a & _ & Hk & -> & _).
  apply chain_ok_resources, chain_ok_sequences. by apply (chain_ok_row _ _ a).
Qed.

(** Every native action keeps the chain well formed.  The authorizations of the action
    belong to accounts, as the check of the transaction ensures. *)
Lemma native_actions_keep_chain validate a x x' :
  chain_ok (chain x) -> chain_room (chain x) -> actors_exist x -> typed a ->
  apply validate a x = (x', Ok tt) -> chain_ok (chain x').
Proof.
  intros Hc Hr Hx Ht. destruct a as [a|a|a|a|a|a|a|a]; cbn [apply];
    [by apply newaccount_ok|by apply setcode_ok|by apply setabi_ok|by apply updateauth_ok|by apply deleteauth_ok
    |by apply linkauth_ok|by apply unlinkauth_ok|by apply canceldelay_ok].
Qed.

(** A chain with the account [eosio] alone, which creates [alice]. *)
Definition genesis_perms : Perms :=
  mkPerms {[ 0 := mkPermissionObject 0 0 0 SystemAccountName OwnerName 7 (key_authority 1);
             1 := mkPermissionObject 0 1 1 SystemAccountName ActiveName 7 (key_authority 1) ]} 2
          {[ 0 := 7; 1 := 7 ]} 2 ∅ 0 ∅ 0 1000000000000000 3888000 6.
Definition eosio_account : AccountObject := mkAccountObject 0 SystemAccountName 0 0 true 0 NewSha256Nil 0 [] [].
Definition genesis : Chain :=
  mkChain genesis_perms {[ 0 := eosio_account ]} 1 {[ 0 := new_sequence SystemAccountName 0 ]} 1
    (ResourceLimits.InitializeAccount SystemAccountName ResourceLimits.InitializeDatabase).1 false [].
Definition eosio_active : PermissionLevel := mkPermissionLevel SystemAccountName ActiveName.
Definition context_of (auths : list PermissionLevel) (c : Chain) : Context := mkContext c auths (replicate (length auths) false) ∅ ∅.
Definition create_alice : NewAccount := mkNewAccount SystemAccountName alice_name (key_authority 2) (key_authority 3).

Lemma genesis_ok : chain_ok genesis.
Proof.
  assert (Hacc : forall n, has_account genesis n <-> n = SystemAccountName).
  { intros n. split; [intros (k & a & Hk & <-); cbn in Hk; by apply lookup_singleton_Some in Hk as [_ <-]|intros ->].
    exists 0, eosio_account. split; [|done]. apply lookup_insert_eq. }
  split; try done.
  - apply perms_ok_rows; by_decide.
  - cbn. intros k a [<- <-]%lookup_singleton_Some. by_decide.
  - cbn. intros k k' a a' [<- _]%lookup_singleton_Some [<- _]%lookup_singleton_Some. done.
  - intros n ->%Hacc. exists 0, 1. split; (eexists; split; [vm_compute; reflexivity|done]).
  - intros o n pa i (p & Hp & <- & _). apply Hacc. cbn in Hp.
    apply lookup_insert_Some in Hp as [[_ <-]|[_ [_ <-]%lookup_singleton_Some]]; done.
Qed.

(** ** RAM billing *)

(** What an account stores in the tables of the native actions. *)
Definition perm_ram (s : Perms) (name : Z) : Z :=
  sum_map (fun _ p => if poOwner p =? name then permission_size (poAuth p) else 0) (permissions s).

Definition code_ram (c : Chain) (name : Z) : Z :=
  match find_account name c with Some a => SetcodeRamBytesMultiplier * len (Code a) + len (Abi a) | None => 0 end.

Definition ram_used (c : Chain) (name : Z) : Z :=
  match ResourceLimits.usages (resources c) !! name with Some u => ResourceLimits.RamUsage u | None => 0 end.

(** What the account is billed for beyond its permissions, its code and its ABI. *)
Definition ram_other (c : Chain) (name : Z) : Z := ram_used c name - perm_ram (perms c) name - code_ram c name.

(** Every account has a usage row, sizes are far from the end of the word. *)
Record ram_ok (c : Chain) : Prop := {
  ram_row name : has_account c name -> exists u, ResourceLimits.usages (resources c) !! name = Some u /\ in_u 64 (ResourceLimits.RamUsage u);
  ram_perm k p : permissions (perms c) !! k = Some p -> GetBillableSize (poAuth p) < 2 ^ 40;
  ram_code k a : accounts c !! k = Some a -> len (Code a) < 2 ^ 40 /\ len (Abi a) < 2 ^ 40 }.

Definition small (a : native) : Prop :=
  match a with
  | ANewAccount a => GetBillableSize (naOwner a) < 2 ^ 40 /\ GetBillableSize (naActive a) < 2 ^ 40
  | ASetCode a => len (scCode a) < 2 ^ 40
  | ASetAbi a => len (saAbi a) < 2 ^ 40
  | AUpdateAuth a => GetBillableSize (uaAuth a) < 2 ^ 40
  | _ => True
  end.

(** An empty ABI, the removal of a link and the cancellation of a deferred transaction
    are billed otherwise. *)
Definition billed_by_size (a : native) : Prop :=
  match a with ASetAbi a => saAbi a <> [] | AUnLinkAuth _ | ACancelDelay _ => False | _ => True end.

Lemma Billable_permission : Billable "permission_object" = 288.
Proof. vm_compute. reflexivity. Qed.

Lemma GetBillableSize_range auth : in_u 64 (GetBillableSize auth).
Proof. apply uwrap_range. lia. Qed.

Lemma permission_size_small auth : GetBillableSize auth < 2 ^ 40 -> permission_size auth = 288 + GetBillableSize auth.
Proof. intros H. pose proof (GetBillableSize_range auth) as []. unfold permission_size. rewrite Billable_permission. apply uwrap_id. unfold in_u. lia. Qed.

Lemma len_nil {A} : len (@nil A) = 0.
Proof. done. Qed.

Lemma len_nonneg {A} (l : list A) : 0 <= len l.
Proof. unfold len. lia. Qed.

Lemma ram_used_add c d name name' delta : ram_ok c -> has_account c name -> in_s 64 delta ->
  ResourceLimits.AddPendingRamUsage name delta (resources c) = (d, Ok tt) ->
  ram_used (set_resources d c) name' = ram_used c name' + (if name' =? name then delta else 0).
Proof.
  intros Hr Hn Hd H. destruct (ram_row c Hr name Hn) as (u & Hu & Hin).
  rewrite (ResourceLimits.ram_usage_exact name delta _ u Hu Hin Hd) in H. case_bool_decide; [|done]. injection H as <-.
  unfold ram_used. cbn. destruct (Z.eqb_spec name' name) as [->|Hne]; [by rewrite lookup_insert_eq, Hu|].
  rewrite lookup_insert_ne by done. lia.
Qed.

Lemma perm_ram_create s s' o n parent auth t p name : perms_ok s -> CreatePermission o n parent auth t s = (s', Ok p) ->
  perm_ram s' name = perm_ram s name + (if name =? o then permission_size auth else 0).
Proof.
  intros Hok H. apply CreatePermission_shapes in H as (_ & Ho & _ & Ha & _ & _ & E & _); [|done]. unfold perm_ram. rewrite E, sum_insert.
  - rewrite Ho, Ha, (Z.eqb_sym o). lia.
  - destruct (permissions s !! nextPermission s) eqn:Ex; [|done]. apply (perm_key s Hok) in Ex. lia.
Qed.

Lemma perm_ram_modify s s' p auth p' name : stored s p -> ModifyPermission p auth s = (s', Ok p') ->
  perm_ram s' name = perm_ram s name + (if name =? poOwner p then permission_size auth - permission_size (poAuth p) else 0).
Proof.
  intros Hst H. apply ModifyPermission_shapes in H as (Ho & Ha & _ & _ & E & _); [|done]. unfold perm_ram.
  rewrite E, (sum_update _ _ _ _ _ Hst), Ho, Ha, (Z.eqb_sym (poOwner p)). destruct (name =? poOwner p); lia.
Qed.

Lemma perm_ram_remove s s' p name : stored s p -> RemovePermission p s = (s', Ok tt) ->
  perm_ram s' name = perm_ram s name - (if name =? poOwner p then permission_size (poAuth p) else 0).
Proof.
  intros Hst H. apply RemovePermission_shapes in H as (_ & _ & E & _). unfold perm_ram.
  rewrite E, (sum_delete _ (permissions s) _ _ Hst), (Z.eqb_sym (poOwner p)). lia.
Qed.

Lemma find_account_row c k a : chain_ok c -> accounts c !! k = Some a -> find_account (accName a) c = Some a.
Proof.
  intros Hc Hk. destruct (find_account_has (accName a) c) as [_ (b & Hb)]; [by exists k, a|]. rewrite Hb. f_equal.
  apply find_account_Some in Hb as (k' & Hk' & En). rewrite (acc_unique c Hc _ _ _ _ Hk' Hk En) in Hk'. congruence.
Qed.

Lemma code_ram_row c k a a' name : chain_ok c -> accounts c !! k = Some a -> accID a' = accID a -> accName a' = accName a ->
  has_account c name ->
  code_ram (set_accounts (<[k := a']> (accounts c)) (nextAccount c) c) name =
    if name =? accName a then SetcodeRamBytesMultiplier * len (Code a') + len (Abi a') else code_ram c name.
Proof.
  intros Hc Hk Ei En (i & b & Hi & <-). pose proof (chain_ok_row c k a a' Hc Hk Ei En) as Hc'. unfold code_ram.
  destruct (Z.eqb_spec (accName b) (accName a)) as [E|E].
  - rewrite E, <- En. rewrite (find_account_row _ k a' Hc'); [done|]. apply lookup_insert_eq.
  - rewrite (find_account_row c i b Hc Hi). rewrite (find_account_row _ i b Hc'); [done|]. cbn.
    rewrite lookup_insert_ne; [done|]. intros ->. congruence.
Qed.

(** The effect of a change of an account's row that is billed with [delta]. *)
Lemma ram_other_row c m r k a a' name delta : chain_ok c -> ram_ok c -> accounts c !! k = Some a -> accID a' = accID a -> accName a' = accName a ->
  (r = resources c /\ delta = 0 \/ ResourceLimits.AddPendingRamUsage (accName a) delta (resources c) = (r, Ok tt)) -> in_s 64 delta ->
  delta = SetcodeRamBytesMultiplier * len (Code a') + len (Abi a') - (SetcodeRamBytesMultiplier * len (Code a) + len (Abi a)) ->
  has_account c name ->
  ram_other (set_resources r (set_sequences m (nextSequence c) (set_accounts (<[k := a']> (accounts c)) (nextAccount c) c))) name = ram_other c name.
Proof.
  intros Hc Hram Hk Ei En Hr Hd Hdelta Hn. unfold ram_other.
  change (code_ram (set_resources _ _) name) with (code_ram (set_accounts (<[k := a']> (accounts c)) (nextAccount c) c) name).
  rewrite (code_ram_row c k a a') by done. cbn [perms set_resources set_sequences set_accounts].
  assert (Hcode : code_ram c (accName a) = SetcodeRamBytesMultiplier * len (Code a) + len (Abi a)).
  { unfold code_ram. by rewrite (find_account_row c k a). }
  assert (Hused : ram_used (set_resources r (set_sequences m (nextSequence c) (set_accounts (<[k := a']> (accounts c)) (nextAccount c) c))) name =
    ram_used c name + (if name =? accName a then delta else 0)).
  { destruct Hr as [[-> ->]|Hr]; [destruct (name =? accName a); unfold ram_used; cbn; lia|].
    apply (ram_used_add c r (accName a) name delta Hram); [by exists k, a|done|exact Hr]. }
  rewrite Hused. destruct (Z.eqb_spec name (accName a)) as [->|_]; lia.
Qed.

(** The effect of a change of the permissions that is billed with [delta]. *)
Lemma ram_other_perms c s d o name delta : chain_ok c -> ram_ok c -> has_account c o -> in_s 64 delta ->
  ResourceLimits.AddPendingRamUsage o delta (resources c) = (d, Ok tt) ->
  perm_ram s name = perm_ram (perms c) name + (if name =? o then delta else 0) ->
  ram_other (set_resources d (set_perms s c)) name = ram_other c name.
Proof.
  intros Hc Hram Ho Hd H Hp. unfold ram_other. cbn [perms set_resources set_perms].
  change (code_ram (set_resources _ _) name) with (code_ram c name).
  change (ram_used (set_resources d (set_perms s c)) name) with (ram_used (set_resources d c) name).
  rewrite (ram_used_add c d o name delta) by done. lia.
Qed.

Lemma setcode_ram validate act x x' name : chain_ok (chain x) -> actors_exist x -> ram_ok (chain x) -> len (scCode act) < 2 ^ 40 ->
  applyEosioSetcode validate act x = (x', Ok tt) -> has_account (chain x) name -> ram_other (chain x') name = ram_other (chain x) name.
Proof.
  intros Hc Hx Hram Hs H Hn. apply setcode_run in H as (x1 & h & m & r & Ha & _ & Hr & ->). apply required_account in Ha as [_ Hacc]; [|done].
  destruct (account_or_zero_row _ _ Hc Hacc) as (a & _ & Hk & E & En). rewrite E in Hr |- *.
  pose proof (len_nonneg (scCode act)). pose proof (len_nonneg (Code a)). destruct (ram_code _ Hram _ _ Hk).
  rewrite i64_small in Hr by lia.
  apply (ram_other_row _ m r _ a _ name (len (scCode act) * 10 - len (Code a) * 10)); try done; [|split; cbn; lia|cbn; unfold SetcodeRamBytesMultiplier; lia].
  rewrite En. destruct Hr as [[-> ?]|]; [left; split; [done|lia]|by right].
Qed.

Lemma setabi_ram act x x' name : chain_ok (chain x) -> actors_exist x -> ram_ok (chain x) -> len (saAbi act) < 2 ^ 40 -> saAbi act <> [] ->
  applyEosioSetabi act x = (x', Ok tt) -> has_account (chain x) name -> ram_other (chain x') name = ram_other (chain x) name.
Proof.
  intros Hc Hx Hram Hs Hne H Hn. apply setabi_run in H as (x1 & m & r & Ha & Hr & ->). apply required_account in Ha as [_ Hacc]; [|done].
  destruct (account_or_zero_row _ _ Hc Hacc) as (a & _ & Hk & E & En). rewrite E in Hr |- *.
  pose proof (len_nonneg (Abi a)). destruct (ram_code _ Hram _ _ Hk).
  assert (0 < len (saAbi act)) as Hl by (destruct (saAbi act); [done|unfold len; cbn; lia]). rewrite (proj2 (Z.ltb_lt _ _) Hl).
  rewrite i64_small in Hr by lia.
  apply (ram_other_row _ m r _ a _ name (len (saAbi act) - len (Abi a))); try done; [|split; cbn; lia|cbn; lia].
  rewrite En. destruct Hr as [[-> ?]|]; [left; split; [done|lia]|by right].
Qed.

Lemma stored_owner_account c p : chain_ok c -> stored (perms c) p -> has_account c (poOwner p).
Proof. intros Hc Hp. eapply (perm_account c Hc). by exists p. Qed.

Lemma updateauth_ram update x x' name : chain_ok (chain x) -> actors_exist x -> ram_ok (chain x) -> GetBillableSize (uaAuth update) < 2 ^ 40 ->
  applyEosioUpdateauth update x = (x', Ok tt) -> ram_other (chain x') name = ram_other (chain x) name.
Proof.
  intros Hc Hx Hram Hs H. apply updateauth_run in H as (x1 & s & p & d & pid & Ha & _ & H & ->).
  apply required_account in Ha as [_ Hacc]; [|done]. set (c := chain x) in *. pose proof (ok_perms c Hc) as Hok.
  pose proof (GetBillableSize_range (uaAuth update)) as [? _].
  destruct (find_owner (uaAccount update) (uaPermission update) (perms c)) as [permission|] eqn:E.
  - destruct H as (_ & Hm & Hd). apply find_owner_stored in E as [Hst _]; [|done].
    pose proof (ModifyPermission_shapes _ _ _ _ _ Hst Hm) as (Ho & Hau & _). rewrite Ho, Hau in Hd.
    pose proof (GetBillableSize_range (poAuth permission)) as [? _]. pose proof (ram_perm _ Hram _ _ Hst) as Hsz.
    eapply (ram_other_perms c s d (poOwner permission)); [done|done|by apply stored_owner_account| |exact Hd|].
    + apply swrap_range. lia.
    + rewrite (perm_ram_modify _ _ _ _ _ name Hst Hm). rewrite swrap_uwrap, i64_small; [done|]. rewrite !permission_size_small by done. lia.
  - destruct H as (Hm & Hd). pose proof (CreatePermission_shapes _ _ _ _ _ _ _ _ Hok Hm) as (_ & _ & _ & Hau & _). rewrite Hau in Hd.
    eapply (ram_other_perms c s d (uaAccount update)); [done..| |exact Hd|].
    + apply swrap_range. lia.
    + rewrite (perm_ram_create _ _ _ _ _ _ _ _ name Hok Hm). rewrite i64_small; [done|]. rewrite permission_size_small by done. lia.
Qed.

Lemma deleteauth_ram del x x' name : chain_ok (chain x) -> actors_exist x -> ram_ok (chain x) ->
  applyEosioDeleteauth del x = (x', Ok tt) -> ram_other (chain x') name = ram_other (chain x) name.
Proof.
  intros Hc Hx Hram H. apply deleteauth_run in H as (x1 & s & d & p & Ha & _ & _ & _ & Hf & Hm & Hd & ->).
  apply required_account in Ha as [_ Hacc]; [|done]. set (c := chain x) in *. pose proof (ok_perms c Hc) as Hok.
  apply find_owner_stored in Hf as (Hst & Ho & _); [|done].
  pose proof (GetBillableSize_range (poAuth p)) as [? _]. pose proof (ram_perm _ Hram _ _ Hst) as Hsz.
  eapply (ram_other_perms c s d (daAccount del)); [done..| |exact Hd|].
  - apply swrap_range. lia.
  - rewrite (perm_ram_remove _ _ _ name Hst Hm), Ho. rewrite (i64_small (permission_size _)), i64_small by (rewrite permission_size_small by done; lia).
    destruct (name =? daAccount del); lia.
Qed.

Lemma linkauth_ram req x x' name : chain_ok (chain x) -> ram_ok (chain x) ->
  applyEosioLinkauth req x = (x', Ok tt) -> ram_other (chain x') name = ram_other (chain x) name.
Proof.
  intros Hc Hram H. apply linkauth_run in H as (x1 & s & d & _ & Ha & _ & _ & H & ->). set (c := chain x) in *.
  destruct (find_link _ _ _ _) as [l|]; destruct H as [Hd ->]; [by subst d|].
  eapply (ram_other_perms c _ d (laAccount req)); [done..| |exact Hd|].
  - by_decide.
  - change (i64 (Billable "PermissionLinkObject")) with 0. unfold perm_ram. cbn. destruct (name =? laAccount req); lia.
Qed.

Lemma newaccount_ram create x x' : chain_ok (chain x) -> chain_room (chain x) -> typed (ANewAccount create) -> ram_ok (chain x) ->
  small (ANewAccount create) -> applyEosioNewaccount create x = (x', Ok tt) ->
  ram_other (chain x') (naName create) = OverheadPerAccountRamBytes /\
  forall name, has_account (chain x) name -> ram_other (chain x') name = ram_other (chain x) name.
Proof.
  intros Hc Hroom Ht Hram [Hs1 Hs2] H. pose proof (newaccount_ok create x x' Hc Hroom Ht H) as Hc'.
  apply newaccount_run in H as (Hne & Hnew & s1 & s2 & p & q & d & Hp & Hq & Hd & E).
  set (c := chain x) in *. set (nm := naName create) in *. pose proof (ok_perms c Hc) as Hok. destruct Ht as (_ & Hwo & Hwa).
  pose proof (GetBillableSize_range (naOwner create)) as [? _]. pose proof (GetBillableSize_range (naActive create)) as [? _].
  assert (Hperm : forall name, perm_ram s2 name = perm_ram (perms c) name + (if name =? nm then 576 + GetBillableSize (naOwner create) + GetBillableSize (naActive create) else 0)).
  { intros name. destruct Hroom as [R1 R2 _ _].
    rewrite (perm_ram_create _ _ _ _ _ _ _ _ name) with (2 := Hq).
    - rewrite (perm_ram_create _ _ _ _ _ _ _ _ name Hok Hp), !permission_size_small by done. destruct (name =? nm); lia.
    - eapply CreatePermission_ok; [exact Hok|split; lia|by left| |exact Hwo|exact Hp].
      apply find_owner_free; [done|]. intros pa i Hx. by eapply Hnew, perm_account. }
  pose proof (CreatePermission_shapes _ _ _ _ _ _ _ _ Hok Hp) as (_ & _ & _ & Ea & _).
  assert (poAuth q = naActive create) as Eq by (rewrite CreatePermission_eq in Hq; by simplify_eq).
  unfold account_ram in Hd. rewrite Ea, Eq, Billable_permission in Hd. change (u64 (2 * 288)) with 576 in Hd. change (u64 (OverheadPerAccountRamBytes + 576)) with 2624 in Hd.
  rewrite !uwrap_id, i64_small in Hd by (rewrite ?uwrap_id; unfold in_u; lia).
  set (z := ResourceLimits.mkUsageObject ResourceLimits.zero_acc ResourceLimits.zero_acc 0) in *.
  pose proof (ResourceLimits.ram_usage_exact nm (2624 + GetBillableSize (naOwner create) + GetBillableSize (naActive create))
    (ResourceLimits.InitializeAccount nm (resources c)).1 z) as Hx.
  rewrite Hx in Hd; [|apply lookup_insert_eq|split; cbn; lia|split; lia]. clear Hx. case_bool_decide; [|done]. injection Hd as <-.
  assert (Hacc : forall name b, find_account name (chain x') = Some b -> find_account name c = Some b \/ name = nm /\ Code b = [] /\ Abi b = []).
  { intros name b (k & Hk & <-)%find_account_Some. rewrite E in Hk. cbn in Hk. apply lookup_insert_Some in Hk as [[_ <-]|[_ Hk]]; [by right|left].
    by apply find_account_row with k. }
  assert (Hin : forall name, has_account c name \/ name = nm -> has_account (chain x') name).
  { rewrite E. intros name [(k & a & Hk & <-)| ->].
    - exists k, a. cbn. rewrite lookup_insert_ne; [done|]. apply (acc_key c Hc) in Hk. lia.
    - eexists (nextAccount c), _. cbn. by rewrite lookup_insert_eq. }
  split.
  - unfold ram_other, code_ram. destruct (find_account_has nm (chain x')) as [_ (b & Hb)]; [by apply Hin; right|]. rewrite Hb.
    destruct (Hacc _ _ Hb) as [Hold|(_ & -> & ->)].
    { destruct Hnew. apply find_account_has. eauto. }
    rewrite E. unfold ram_used. cbn [perms set_resources set_perms resources ResourceLimits.usages ResourceLimits.set_usages].
    rewrite lookup_insert_eq. cbn [ResourceLimits.RamUsage z]. rewrite Hperm, Z.eqb_refl, !(len_nil : len (@nil Z) = 0).
    assert (perm_ram (perms c) nm = 0) as ->; [|unfold OverheadPerAccountRamBytes; lia].
    apply sum_zero. intros k v Hk. destruct (Z.eqb_spec (poOwner v) nm) as [Eo|]; [|done]. destruct Hnew. rewrite <- Eo.
    apply stored_owner_account; [done|]. unfold stored. by destruct (perm_key _ Hok _ _ Hk) as [-> _].
  - intros name Hn. assert (name <> nm) by (intros ->; done). unfold ram_other, code_ram.
    destruct (find_account_has name (chain x')) as [_ (b & Hb)]; [by apply Hin; left|]. rewrite Hb.
    destruct (Hacc _ _ Hb) as [->|(? & _)]; [|done]. rewrite E. unfold ram_used.
    cbn [perms set_resources set_perms resources ResourceLimits.usages ResourceLimits.set_usages].
    rewrite Hperm, (proj2 (Z.eqb_neq name nm)) by done. rewrite !lookup_insert_ne by done. lia.
Qed.

(** C22. RAM is billed by what is stored: across a native action other than the three that
    are billed otherwise, what an account is charged for beyond the billable sizes of its
    permissions, its code and its ABI stays the same, for every account, and a new
    account starts with the fixed overhead.  No wrap-around of the unsigned sums and
    differences shows. *)
Theorem native_ram_billing validate a x x' :
  chain_ok (chain x) -> chain_room (chain x) -> actors_exist x -> typed a -> ram_ok (chain x) -> small a -> billed_by_size a ->
  apply validate a x = (x', Ok tt) ->
  (forall name, has_account (chain x) name -> ram_other (chain x') name = ram_other (chain x) name) /\
  match a with ANewAccount create => ram_other (chain x') (naName create) = OverheadPerAccountRamBytes | _ => True end.
Proof.
  intros Hc Hroom Hx Ht Hram Hs Hb H. destruct a as [a|a|a|a|a|a|a|a]; cbn [apply] in H; try done.
  - split; [|by apply (newaccount_ram a x x')]. by apply (newaccount_ram a x x').
  - split; [|done]. intros name. by apply (setcode_ram validate a).
  - split; [|done]. intros name. by apply (setabi_ram a).
  - split; [|done]. intros name _. by apply (updateauth_ram a).
  - split; [|done]. intros name _. by apply (deleteauth_ram a).
  - split; [|done]. intros name _. by apply (linkauth_ram a).
Qed.

Lemma native_ram_billing_witness : exists x',
  apply (fun _ _ => Ok tt) (ANewAccount create_alice) (context_of [eosio_active] genesis) = (x', Ok tt) /\
  ram_other (chain x') alice_name = 2048.
Proof.
  eexists. assert (apply (fun _ _ => Ok tt) (ANewAccount create_alice) (context_of [eosio_active] genesis) =
    ((applyEosioNewaccount create_alice (context_of [eosio_active] genesis)).1, Ok tt)) as E by (vm_compute; reflexivity).
  split; [exact E|].
  refine (proj2 (native_ram_billing _ (ANewAccount create_alice) (context_of [eosio_active] genesis) _ genesis_ok _ _ _ _ _ _ E)).
  - split; cbn; lia.
  - intros d [->|[]%elem_of_nil]%elem_of_cons. exists 0, eosio_account. split; [vm_compute; reflexivity|done].
  - by_decide.
  - split.
    + intros n (k & a & Hk & <-). cbn in Hk. apply lookup_singleton_Some in Hk as [_ <-]. eexists. split; [vm_compute; reflexivity|by_decide].
    + intros k p Hp. cbn in Hp. apply lookup_insert_Some in Hp as [[_ <-]|[_ [_ <-]%lookup_singleton_Some]]; vm_compute; reflexivity.
    + intros k a Hk. cbn in Hk. apply lookup_singleton_Some in Hk as [_ <-]. by split; vm_compute.
  - by split; vm_compute.
  - done.
Defined.

(** ** Divergences *)

(** The chain after [alice] was created, and a run of her actions. *)
Definition with_alice : Chain := Eval vm_compute in chain (applyEosioNewaccount create_alice (context_of [eosio_active] genesis)).1.
Fixpoint run_all (l : list native) (c : Chain) : result Chain :=
  match l with
  | [] => Ok c
  | a :: l' => match apply (fun _ _ => Ok tt) a (context_of [alice_active] c) with (x, Ok _) => run_all l' (chain x) | (_, Throw e) => Throw e end
  end.
Definition alice_state (l : list native) : result (Z * option bytes) :=
  c ← run_all l with_alice; Ok (ram_used c alice_name, Abi <$> find_account alice_name c).

(** An empty ABI refunds the stored one, which stays, and again each time: the account
    ends with less RAM billed than before it stored the ABI. *)
Theorem setabi_empty_refunds :
  alice_state [] = Ok (2724, Some []) /\
  alice_state [ASetAbi (mkSetAbi alice_name [1; 2; 3])] = Ok (2727, Some [1; 2; 3]) /\
  alice_state [ASetAbi (mkSetAbi alice_name [1; 2; 3]); ASetAbi (mkSetAbi alice_name []); ASetAbi (mkSetAbi alice_name [])] = Ok (2721, Some [1; 2; 3]).
Proof. split_and!; vm_compute; reflexivity. Qed.

(** A link is free, its removal refunds 80 bytes. *)
Theorem link_cycle_refunds :
  alice_state [ALinkAuth (mkLinkAuth alice_name SystemAccountName 5 ActiveName)] = Ok (2724, Some []) /\
  alice_state [ALinkAuth (mkLinkAuth alice_name SystemAccountName 5 ActiveName); AUnLinkAuth (mkUnLinkAuth alice_name SystemAccountName 5)] = Ok (2644, Some []).
Proof. split_and!; vm_compute; reflexivity. Qed.

(** A permission that no link names cannot be deleted while the account has a link to
    another one. *)
Theorem unlinked_permission_not_deleted :
  let create_pay := AUpdateAuth (mkUpdateAuth alice_name pay_name ActiveName (key_authority 4)) in
  let link_active := ALinkAuth (mkLinkAuth alice_name SystemAccountName 5 ActiveName) in
  let delete_pay := ADeleteAuth (mkDeleteAuth alice_name pay_name) in
  is_ok (run_all [create_pay; delete_pay] with_alice) = true /\
  run_all [create_pay; link_active; delete_pay] with_alice = Throw ActionValidateException.
Proof. split; vm_compute; reflexivity. Qed.

(** Removing the code of an account, which the code means to allow, dereferences the nil
    code id. *)
Theorem setcode_empty_panics validate account x x1 : RequireAuthorization account x = (x1, Ok tt) ->
  (applyEosioSetcode validate (mkSetCode account 0 0 []) x).2 = Throw NilDereference.
Proof. intros H. unfold applyEosioSetcode, mbind, M_bind. cbn [scAccount]. by rewrite H. Qed.

(** A second RAM delta of an account within an action is not reported in its trace. *)
Theorem second_delta_lost account delta first x x' : AccountRamDeltas x !! account = Some first ->
  AddRamUsage account delta x = (x', Ok tt) -> AccountRamDeltas x' !! account = Some first.
Proof.
  intros Hf H. unfold AddRamUsage, trx_AddRamUsage in H.
  apply run_bind in H as (x1 & [] & H1 & H). apply run_bind in H1 as (x2 & [] & (d & _ & ->)%run_on_resources & H1).
  assert (AccountRamDeltas x1 !! account = Some first) as E by (by destruct (0 <? delta); run_step H1).
  run_step H. by rewrite E.
Qed.
