(* ===== verification/Transaction.v ===== *)
(** * Transaction: transactions, their ids, signatures and packed form

    [chain/types/transaction.go], with
    [Action] of [chain/types/action.go] and [Vuint32] of [common/types.go].  A value is
    serialized through the [gval] of [Rlp.v] that reflection finds in it; a [Name] is
    written by its [Pack] method and read as the [uint64] it is.

    The recovery of a key from a signature, the text of a signature and the compression
    of the zlib package are arguments. *)

From stdpp Require Import sorting.
From S2P Require Import Prelude Uint128 Bytes Rlp Sha256 Ecc Name Time BlockHeader Authority Permissions.

(** ** Data *)

Record TransactionHeader : Type := mkTransactionHeader {
  Expiration : Z; RefBlockNum : Z; RefBlockPrefix : Z; MaxNetUsageWords : Z; MaxCpuUsageMS : Z; DelaySec : Z }.

Record Extension : Type := mkExtension { extType : Z; extData : bytes }.

Record Transaction : Type := mkTransaction {
  trxHeader : TransactionHeader; ContextFreeActions : list Action; Actions : list Action;
  TransactionExtensions : list Extension }.

Record SignedTransaction : Type := mkSignedTransaction {
  sTransaction : Transaction; Signatures : list Signature; ContextFreeData : list bytes }.

(** ** Headers *)

Definition header_IsEmpty (t : TransactionHeader) : bool :=
  (Expiration t =? 0) && (RefBlockNum t =? 0) && (RefBlockPrefix t =? 0) && (MaxNetUsageWords t =? 0) &&
  (MaxCpuUsageMS t =? 0) && (DelaySec t =? 0).

(** The header has no part in it. *)
Definition GetRefBlocknum (headBlocknum : Z) : Z := u32 (u32 (headBlocknum / 0xffff * 0xffff) + headBlocknum mod 0xffff).

Definition VerifyReferenceBlock (t : TransactionHeader) (referenceBlock : Sha256) : bool :=
  (RefBlockNum t =? u16 (EndianReverseU32 (u32 (Hash0 referenceBlock)))) && (RefBlockPrefix t =? u32 (Hash1 referenceBlock)).

Definition header_Validate (t : TransactionHeader) : result unit :=
  EosAssert (MaxNetUsageWords t <? (2 ^ 32 - 1) / 8) TransactionException.

Definition SetReferenceBlock (referenceBlock : Sha256) (t : TransactionHeader) : TransactionHeader :=
  let first := EndianReverseU32 (u32 (Hash0 referenceBlock)) in
  mkTransactionHeader (Expiration t) (u16 first) (u32 (Hash1 referenceBlock)) (MaxNetUsageWords t) (MaxCpuUsageMS t) (DelaySec t).

(** ** The serialized form *)

Definition g_uvarint (v : Z) : gval := VPack (PutUvarint v).

(** [Vuint32.Unpack]; with an error of the reader nothing is read and nothing set. *)
Definition unpack_uvarint (in_ : bytes) : result (gval * Z) :=
  let '(re, l) := Uvarint in_ in
  if l <? 0 then Ok (g_uvarint 0, 0) else Ok (g_uvarint (u32 re), l).

Definition g_bytes (b : bytes) : gval := VSlice (map VUint8 b).
Definition g_level (p : PermissionLevel) : gval := VStruct [(NoTag, VUint64 (Actor p)); (NoTag, VUint64 (Permission p))].
Definition g_action (a : Action) : gval :=
  VStruct [(NoTag, VUint64 (actAccount a)); (NoTag, VUint64 (actName a)); (NoTag, VSlice (map g_level (Authorization a)));
           (NoTag, g_bytes (actData a))].
Definition g_extension (e : Extension) : gval := VStruct [(NoTag, VUint16 (extType e)); (NoTag, g_bytes (extData e))].
Definition g_header (h : TransactionHeader) : gval :=
  VStruct [(NoTag, VUint32 (Expiration h)); (NoTag, VUint16 (RefBlockNum h)); (NoTag, VUint32 (RefBlockPrefix h));
           (NoTag, g_uvarint (MaxNetUsageWords h)); (NoTag, VUint8 (MaxCpuUsageMS h)); (NoTag, g_uvarint (DelaySec h))].
Definition g_transaction (t : Transaction) : gval :=
  VStruct [(NoTag, g_header (trxHeader t)); (NoTag, VSlice (map (fun a => VPtr (Some (g_action a))) (ContextFreeActions t)));
           (NoTag, VSlice (map (fun a => VPtr (Some (g_action a))) (Actions t)));
           (NoTag, VSlice (map (fun e => VPtr (Some (g_extension e))) (TransactionExtensions t)))].

(** The bytes of [Name.Pack] are those of the [uint64]. *)
Lemma name_pack_uint64 n trxIsID : EncodeToBytes (VPack (Name.Pack n)) trxIsID = EncodeToBytes (VUint64 n) trxIsID.
Proof. reflexivity. Qed.

Definition t_uvarint : gtype := TUnpack TUint32 unpack_uvarint.
Definition t_bytes : gtype := TSlice TUint8.
Definition t_level : gtype := TStruct [(NoTag, TUint64); (NoTag, TUint64)].
Definition t_action : gtype := TStruct [(NoTag, TUint64); (NoTag, TUint64); (NoTag, TSlice t_level); (NoTag, t_bytes)].
Definition t_extension : gtype := TStruct [(NoTag, TUint16); (NoTag, t_bytes)].
Definition t_header : gtype :=
  TStruct [(NoTag, TUint32); (NoTag, TUint16); (NoTag, TUint32); (NoTag, t_uvarint); (NoTag, TUint8); (NoTag, t_uvarint)].
Definition t_transaction : gtype :=
  TStruct [(NoTag, t_header); (NoTag, TSlice (TPtr t_action)); (NoTag, TSlice (TPtr t_action)); (NoTag, TSlice (TPtr t_extension))].

(** *** Back from the [gval] *)

Definition from_uvarint (v : gval) : option Z := match v with VPack p => Some (Uvarint p).1 | _ => None end.
Definition from_uint8 (v : gval) : option Z := match v with VUint8 z => Some z | _ => None end.
Definition from_slice {A} (f : gval -> option A) (v : gval) : option (list A) :=
  match v with VSlice l => mapM f l | _ => None end.
Definition from_ptr {A} (f : gval -> option A) (v : gval) : option A := match v with VPtr (Some x) => f x | _ => None end.
Definition from_bytes : gval -> option bytes := from_slice from_uint8.
Definition from_level (v : gval) : option PermissionLevel :=
  match v with VStruct [(_, VUint64 a); (_, VUint64 p)] => Some (mkPermissionLevel a p) | _ => None end.
Definition from_action (v : gval) : option Action :=
  match v with
  | VStruct [(_, VUint64 a); (_, VUint64 n); (_, ls); (_, d)] =>
      ls ← from_slice from_level ls; d ← from_bytes d; Some (mkAction a n ls d)
  | _ => None
  end.
Definition from_extension (v : gval) : option Extension :=
  match v with VStruct [(_, VUint16 t); (_, d)] => d ← from_bytes d; Some (mkExtension t d) | _ => None end.
Definition from_header (v : gval) : option TransactionHeader :=
  match v with
  | VStruct [(_, VUint32 e); (_, VUint16 r); (_, VUint32 p); (_, w); (_, VUint8 m); (_, d)] =>
      w ← from_uvarint w; d ← from_uvarint d; Some (mkTransactionHeader e r p w m d)
  | _ => None
  end.
Definition from_transaction (v : gval) : option Transaction :=
  match v with
  | VStruct [(_, h); (_, c); (_, a); (_, e)] =>
      h ← from_header h; c ← from_slice (from_ptr from_action) c; a ← from_slice (from_ptr from_action) a;
      e ← from_slice (from_ptr from_extension) e; Some (mkTransaction h c a e)
  | _ => None
  end.

(** ** Ids and signatures *)

(** [EncodeToBytes] with its error printed: no bytes. *)
Definition encoded (v : gval) : bytes := match EncodeToBytes v false with Ok b => b | Throw _ => [] end.

Definition ID (t : Transaction) : result Sha256 := NewSha256Byte (Digest.Sum (encoded (g_transaction t))).

Definition SigDigest (t : Transaction) (chainID : Sha256) (cfd : list bytes) : result Sha256 :=
  tail ← (if 0 <? len cfd then h ← Hash256 (VSlice (map g_bytes cfd)); Ok (to_Bytes h) else Ok (to_Bytes NewSha256Nil));
  NewSha256Byte (Digest.Sum (encoded (gval_Sha256 chainID) ++ encoded (g_transaction t) ++ tail)).

Definition TotalActions (t : Transaction) : Z := u32 (len (ContextFreeActions t) + len (Actions t)).

Definition FirstAuthorizor (tx : Transaction) : Z :=
  match concat (map Authorization (Actions tx)) with auth :: _ => Actor auth | [] => 0 end.

(** [PublicKeySet.AddItem]: the keys in the order of [ComparePubKey]; [None] when the key
    is there. *)
Fixpoint AddItem (k : PublicKey) (l : list PublicKey) : option (list PublicKey) :=
  match l with
  | [] => Some [k]
  | x :: l' =>
      if ComparePubKey k x =? -1 then Some (k :: l)
      else if ComparePubKey k x =? 0 then None
      else cons x <$> AddItem k l'
  end.

Record CachedPubKey : Type := mkCachedPubKey { cTrxID : Sha256; cPubKey : PublicKey; cSig : Signature }.

Section Signatures.
(** [publicKey] is the recovery of the curve's library. *)
Context (publicKey : Z -> bytes -> bytes -> result PublicKey) `{Ripemd160}.

(** The error of the recovery is dropped. *)
Definition recover (sig : Signature) (digest : bytes) : result PublicKey :=
  match recover_key publicKey sig digest with Throw SignatureError => Ok PublicKey_zero | r => r end.

(** One signature; the state is the package variable [recoveryCache]. *)
Definition recover_cached (t : Transaction) (digest : Sha256) (useCache : bool) (sig : Signature) : M (gmap bytes CachedPubKey) PublicKey :=
  if useCache then
    text ← lift (SigString sig);
    cache ← get;
    id ← lift (ID t);
    match cache !! text with
    | Some it =>
        if bool_decide (cTrxID it = id) then mret (cPubKey it)
        else recov ← lift (recover sig (to_Bytes digest));
             _ ← modify (fun c => <[text := mkCachedPubKey id recov sig]> c);
             mret recov
    | None =>
        recov ← lift (recover sig (to_Bytes digest));
        _ ← modify (fun c => <[text := mkCachedPubKey id recov sig]> c);
        mret recov
    end
  else lift (recover sig (to_Bytes digest)).

Fixpoint recover_all (t : Transaction) (digest : Sha256) (allowDuplicateKeys useCache : bool) (sigs : list Signature)
    (keys : list PublicKey) : M (gmap bytes CachedPubKey) (list PublicKey) :=
  match sigs with
  | [] => mret keys
  | sig :: sigs' =>
      recov ← recover_cached t digest useCache sig;
      let r := AddItem recov keys in
      _ ← assertM (allowDuplicateKeys || match r with Some _ => true | None => false end) TxDuplicateSig;
      recover_all t digest allowDuplicateKeys useCache sigs' (default keys r)
  end.

Definition GetSignatureKeys (t : Transaction) (signatures : list Signature) (chainID : Sha256) (cfd : list bytes)
    (allowDuplicateKeys useCache : bool) : M (gmap bytes CachedPubKey) (list PublicKey) :=
  digest ← lift (SigDigest t chainID cfd);
  recover_all t digest allowDuplicateKeys useCache signatures [].

Definition signed_GetSignatureKeys (st : SignedTransaction) (chainID : Sha256) (allowDuplicateKeys useCache : bool) :
    M (gmap bytes CachedPubKey) (list PublicKey) :=
  GetSignatureKeys (sTransaction st) (Signatures st) chainID (ContextFreeData st) allowDuplicateKeys useCache.
End Signatures.

(** ** Packed transactions *)

Definition CompressionNone : Z := 0.
Definition CompressionZlib : Z := 1.
Definition FixedNetOverheadOfPackedTrx : Z := 16.

Record PackedTransaction : Type := mkPackedTransaction {
  ptSignatures : list Signature; Compression : Z; PackedContextFreeData : bytes; PackedTrx : bytes;
  UnpackedTrx : option Transaction }.

(** The compression of [compress/zlib]: what was compressed is read back, and the header
    of the format is never missing. *)
Class Zlib : Type := { zlib_deflate : bytes -> bytes; zlib_inflate : bytes -> result bytes }.
Class ZlibLaws `{Zlib} : Prop := {
  inflate_deflate b : zlib_inflate (zlib_deflate b) = Ok b;
  deflate_nonempty b : zlib_deflate b <> [] }.

Section Packed.
Context `{Zlib}.

Definition packTransaction (t : Transaction) : bytes := encoded (g_transaction t).
Definition packContextFreeData (cfd : list bytes) : bytes := if len cfd =? 0 then [] else encoded (VSlice (map g_bytes cfd)).

(** The source drops the error of the decoder and goes on with what was filled so far,
    which the decoder's result does not tell: an error is an error here. *)
Definition unpackTransaction (data : bytes) : result Transaction :=
  v ← DecodeBytes data t_transaction;
  match from_transaction v with Some t => Ok t | None => Throw RlpError end.
Definition unpackContextFreeData (data : bytes) : result (list bytes) :=
  if len data =? 0 then Ok []
  else v ← DecodeBytes data (TSlice t_bytes);
       match from_slice from_bytes v with Some l => Ok l | None => Throw RlpError end.

Definition zlibCompressTransaction (t : Transaction) : bytes := zlib_deflate (packTransaction t).
Definition zlibCompressContextFreeData (cfd : list bytes) : bytes :=
  if len cfd =? 0 then [] else zlib_deflate (packContextFreeData cfd).
Definition zlibDecompressTransaction (data : bytes) : result Transaction :=
  packed ← zlib_inflate data; unpackTransaction packed.
Definition zlibDecompressContextFreeData (data : bytes) : result (list bytes) :=
  if len data =? 0 then Ok [] else packed ← zlib_inflate data; unpackContextFreeData packed.

(** [Try(...).FcCaptureAndRethrow(compression, ...)]: the first argument should be the
    format of a message, and the conversion of the compression to a string panics in place
    of whatever was thrown. *)
Definition FcCaptureAndRethrow {A} (r : result A) : result A := match r with Ok a => Ok a | Throw _ => Throw InterfaceConversion end.

(** The [switch] over the compression, in its [Try]. *)
Definition by_compression {A} (c : Z) (none zlib : result A) : result A :=
  FcCaptureAndRethrow (if c =? CompressionNone then none else if c =? CompressionZlib then zlib else Throw UnknownTransactionCompression).

(** [UnpackedTrx] stays as it was. *)
Definition SetTransactionWithCFD (t : SignedTransaction) (cfd : list bytes) (compression : Z) (p : PackedTransaction) : result PackedTransaction :=
  '(trx, data) ← by_compression compression
    (Ok (packTransaction (sTransaction t), packContextFreeData cfd))
    (Ok (zlibCompressTransaction (sTransaction t), zlibCompressContextFreeData cfd));
  Ok (mkPackedTransaction (ptSignatures p) compression data trx (UnpackedTrx p)).

Definition SetTransaction (t : Transaction) (compression : Z) (p : PackedTransaction) : result PackedTransaction :=
  trx ← by_compression compression (Ok (packTransaction t)) (Ok (zlibCompressTransaction t));
  Ok (mkPackedTransaction (ptSignatures p) compression [] trx (UnpackedTrx p)).

Definition empty_packed (signatures : list Signature) : PackedTransaction := mkPackedTransaction signatures 0 [] [] None.
Definition NewPackedTransactionByTrx (t : Transaction) (compression : Z) : result PackedTransaction :=
  SetTransaction t compression (empty_packed []).
Definition NewPackedTransactionBySignedTrx (t : SignedTransaction) (compression : Z) : result PackedTransaction :=
  SetTransactionWithCFD t (ContextFreeData t) compression (empty_packed (Signatures t)).

(** The bound of the assertion is that of the type. *)
Definition GetUnprunableSize (p : PackedTransaction) : result Z :=
  let size := u32 (FixedNetOverheadOfPackedTrx + u32 (len (PackedTrx p))) in
  _ ← EosAssert (size <=? 2 ^ 32 - 1) TxTooBig; Ok size.

Definition g_signatures (sigs : list Signature) : result gval := l ← mapM SigPack sigs; Ok (VSlice (map VPack l)).

Definition GetPrunableSize (p : PackedTransaction) : result Z :=
  let size := match (v ← g_signatures (ptSignatures p); EncodeSize v false) with Ok n => n | Throw _ => 0 end in
  let size := size + len (PackedContextFreeData p) in
  _ ← EosAssert (size <=? 2 ^ 32 - 1) TxTooBig; Ok (u32 size).

Definition GetRawTransaction (p : PackedTransaction) : result bytes :=
  by_compression (Compression p) (Ok (PackedTrx p)) (zlib_inflate (PackedTrx p)).

Definition GetContextFreeData (p : PackedTransaction) : result (list bytes) :=
  by_compression (Compression p) (unpackContextFreeData (PackedContextFreeData p)) (zlibDecompressContextFreeData (PackedContextFreeData p)).

Definition localUnpack : M PackedTransaction unit :=
  p ← get;
  match UnpackedTrx p with
  | Some _ => mret tt
  | None =>
      t ← lift (by_compression (Compression p) (unpackTransaction (PackedTrx p)) (zlibDecompressTransaction (PackedTrx p)));
      modify (fun p => mkPackedTransaction (ptSignatures p) (Compression p) (PackedContextFreeData p) (PackedTrx p) (Some t))
  end.

Definition GetTransaction : M PackedTransaction Transaction :=
  _ ← localUnpack;
  p ← get;
  lift (match UnpackedTrx p with Some t => Ok t | None => Throw NilDereference end).

Definition packed_ID : M PackedTransaction Sha256 := _ ← localUnpack; t ← GetTransaction; lift (ID t).
Definition packed_Expiration : M PackedTransaction Z := t ← GetTransaction; mret (Expiration (trxHeader t)).
Definition GetUncachedID (p : PackedTransaction) : result Sha256 := raw ← GetRawTransaction p; tx ← unpackTransaction raw; ID tx.

Definition signed_body : M PackedTransaction SignedTransaction :=
  p ← get;
  if (Compression p =? CompressionNone) || (Compression p =? CompressionZlib) then
    t ← GetTransaction;
    cfd ← lift (if Compression p =? CompressionNone then unpackContextFreeData (PackedContextFreeData p)
                else zlibDecompressContextFreeData (PackedContextFreeData p));
    mret (mkSignedTransaction t (ptSignatures p) cfd)
  else lift (Throw UnknownTransactionCompression).
Definition GetSignedTransaction : M PackedTransaction SignedTransaction := fun p => let '(p', r) := signed_body p in (p', FcCaptureAndRethrow r).
End Packed.

(** ** What survives packing *)

(** Every number is within its type, every length within the format's bounds. *)
Definition bytes_ok (b : bytes) : Prop := len b <= MAX_NUM_ARRAY_ELEMENT /\ Forall (in_u 8) b.
Definition level_ok (p : PermissionLevel) : Prop := in_u 64 (Actor p) /\ in_u 64 (Permission p).
Definition action_ok (a : Action) : Prop :=
  in_u 64 (actAccount a) /\ in_u 64 (actName a) /\ len (Authorization a) <= MAX_NUM_ARRAY_ELEMENT /\
  Forall level_ok (Authorization a) /\ bytes_ok (actData a).
Definition extension_ok (e : Extension) : Prop := in_u 16 (extType e) /\ bytes_ok (extData e).
Definition header_ok (h : TransactionHeader) : Prop :=
  in_u 32 (Expiration h) /\ in_u 16 (RefBlockNum h) /\ in_u 32 (RefBlockPrefix h) /\ in_u 32 (MaxNetUsageWords h) /\
  in_u 8 (MaxCpuUsageMS h) /\ in_u 32 (DelaySec h).
Definition transaction_ok (t : Transaction) : Prop :=
  header_ok (trxHeader t) /\
  (len (ContextFreeActions t) <= MAX_NUM_ARRAY_ELEMENT /\ Forall action_ok (ContextFreeActions t)) /\
  (len (Actions t) <= MAX_NUM_ARRAY_ELEMENT /\ Forall action_ok (Actions t)) /\
  (len (TransactionExtensions t) <= MAX_NUM_ARRAY_ELEMENT /\ Forall extension_ok (TransactionExtensions t)).

Lemma decode_encoded t v : fits true t v -> len (encoded v) < 2 ^ 62 -> DecodeBytes (encoded v) t = Ok v.
Proof.
  intros Hf Hl. destruct (proj1 (round_trips_all t) true v Hf) as (bs & He & Hd). destruct (He false) as (st' & E & _).
  assert (encoded v = bs) as Eb by (unfold encoded, EncodeToBytes; by rewrite E). rewrite Eb in Hl |- *.
  destruct (Hd (NewDecoder bs) []) as (d' & E' & _).
  - rewrite app_nil_r. split_and!; cbn; [lia|lia|done|done].
  - unfold DecodeBytes. by rewrite E'.
Qed.

Lemma fits_uvarint allow v : in_u 32 v -> fits allow t_uvarint (g_uvarint v).
Proof.
  intros Hv rest. unfold unpack_uvarint. assert (in_u 64 v) by (unfold in_u in *; norm_pow; lia).
  rewrite Uvarint_PutUvarint by done. cbn zeta. destruct (Z.ltb_spec (Z.of_nat (length (PutUvarint v))) 0); [lia|].
  by rewrite uwrap_id.
Qed.

Lemma fits_bytes allow b : bytes_ok b -> fits allow t_bytes (g_bytes b).
Proof. intros [Hl Hb]. split; [unfold len; by rewrite length_map|]. apply Forall_map. by apply Forall_impl with (in_u 8). Qed.

(** A slice of values that fit. *)
Lemma fits_slice {A} allow t (g : A -> gval) (P : A -> Prop) l : (forall a, P a -> fits allow t (g a)) ->
  len l <= MAX_NUM_ARRAY_ELEMENT -> Forall P l -> fits allow (TSlice t) (VSlice (map g l)).
Proof. intros Hg Hl HP. split; [unfold len; by rewrite length_map|]. apply Forall_map. by apply Forall_impl with P. Qed.

Lemma fits_cons allow t fs x vs : fits allow t x -> fits allow (TStruct fs) (VStruct vs) ->
  fits allow (TStruct ((NoTag, t) :: fs)) (VStruct ((NoTag, x) :: vs)).
Proof. intros Hx Hs. exact (conj eq_refl (conj Hs Hx)). Qed.

(** Splits a struct into its fields. *)
Ltac fits_fields := first [exact I | apply fits_cons; [|fits_fields]].

Lemma fits_action allow a : action_ok a -> fits allow t_action (g_action a).
Proof.
  intros (Ha & Hn & Hl & Hls & Hd). fits_fields; [done|done| |by apply fits_bytes].
  apply (fits_slice allow t_level g_level level_ok); [|done..]. intros p [? ?]. by fits_fields.
Qed.

Lemma fits_transaction t : transaction_ok t -> fits true t_transaction (g_transaction t).
Proof.
  intros ((He & Hr & Hp & Hw & Hm & Hd) & [Hc Hcs] & [Ha Has] & [Hx Hxs]).
  assert (Hact : forall a, action_ok a -> fits true (TPtr t_action) (VPtr (Some (g_action a)))) by (intros a Hok; split; [done|by apply fits_action]).
  fits_fields.
  - fits_fields; done || by apply fits_uvarint.
  - by apply (fits_slice true (TPtr t_action) (fun a => VPtr (Some (g_action a))) action_ok).
  - by apply (fits_slice true (TPtr t_action) (fun a => VPtr (Some (g_action a))) action_ok).
  - apply (fits_slice true (TPtr t_extension) (fun e => VPtr (Some (g_extension e))) extension_ok); [|done..].
    intros e [Ht Hb]. split; [done|]. fits_fields; [done|by apply fits_bytes].
Qed.

(** Reading back. *)
Lemma from_slice_map {A} (f : gval -> option A) (g : A -> gval) l : Forall (fun a => f (g a) = Some a) l ->
  from_slice f (VSlice (map g l)) = Some l.
Proof.
  intros H. cbn. induction H as [|a l Ha Hl IH]; [done|]. cbn. rewrite Ha. cbn. by rewrite IH.
Qed.

Lemma from_g_bytes b : from_bytes (g_bytes b) = Some b.
Proof. apply (from_slice_map from_uint8 VUint8). by apply Forall_forall. Qed.

Lemma from_g_uvarint v : in_u 32 v -> from_uvarint (g_uvarint v) = Some v.
Proof.
  intros Hv. unfold from_uvarint, g_uvarint. rewrite <- (app_nil_r (PutUvarint v)). rewrite Uvarint_PutUvarint; [done|]. unfold in_u in *. norm_pow. lia.
Qed.

Lemma from_g_action a : from_action (g_action a) = Some a.
Proof.
  unfold g_action, from_action. rewrite (from_slice_map from_level g_level) by (apply Forall_forall; by intros []).
  cbn [mbind option_bind]. rewrite from_g_bytes. by destruct a.
Qed.

Lemma from_g_transaction t : header_ok (trxHeader t) -> from_transaction (g_transaction t) = Some t.
Proof.
  intros (_ & _ & _ & Hw & _ & Hd). unfold g_transaction, from_transaction, g_header, from_header.
  rewrite !from_g_uvarint by done. cbn [mbind option_bind].
  rewrite !(from_slice_map (from_ptr from_action) (fun a => VPtr (Some (g_action a)))) by (apply Forall_forall; intros; apply from_g_action).
  cbn [mbind option_bind].
  rewrite (from_slice_map (from_ptr from_extension) (fun e => VPtr (Some (g_extension e)))).
  - by destruct t as [[]].
  - apply Forall_forall. intros [] _. cbn [from_ptr]. unfold g_extension, from_extension. cbn [extData extType]. by rewrite from_g_bytes.
Qed.

Lemma unpack_pack t : transaction_ok t -> len (packTransaction t) < 2 ^ 62 -> unpackTransaction (packTransaction t) = Ok t.
Proof.
  intros Ht Hl. unfold unpackTransaction, packTransaction. rewrite (decode_encoded t_transaction) by (done || by apply fits_transaction).
  rewrite Ok_bind, from_g_transaction; [done|]. apply Ht.
Qed.

Definition cfd_ok (cfd : list bytes) : Prop := len cfd <= MAX_NUM_ARRAY_ELEMENT /\ Forall bytes_ok cfd.

Lemma unpack_pack_cfd cfd : cfd_ok cfd -> len (packContextFreeData cfd) < 2 ^ 62 -> unpackContextFreeData (packContextFreeData cfd) = Ok cfd.
Proof.
  intros [Hl Hc]. unfold packContextFreeData. destruct (Z.eqb_spec (len cfd) 0) as [E|E].
  { intros _. destruct cfd; [done|]. unfold len in E. cbn in E. lia. }
  intros Hs. unfold unpackContextFreeData.
  assert (Hf : fits true (TSlice t_bytes) (VSlice (map g_bytes cfd))) by (apply (fits_slice true t_bytes g_bytes bytes_ok); [apply fits_bytes|done..]).
  rewrite (decode_encoded (TSlice t_bytes)) by done. destruct (Z.eqb_spec (len (encoded (VSlice (map g_bytes cfd)))) 0) as [E0|_].
  - exfalso. pose proof (decode_encoded _ _ Hf Hs) as Hd.
    destruct (encoded (VSlice (map g_bytes cfd))) as [|b l]; [|unfold len in E0; cbn in E0; lia].
    cbv -[map g_bytes] in Hd. destruct cfd; [done|]. cbn in Hd. congruence.
  - rewrite Ok_bind, (from_slice_map from_bytes g_bytes); [done|]. apply Forall_forall. intros. apply from_g_bytes.
Qed.

(** ** Keys of the signatures *)

Lemma ComparePubKey_refl k : ComparePubKey k k = 0.
Proof. by apply (compare_pub_key_total_order k k k). Qed.

Lemma ComparePubKey_eq k x : ComparePubKey k x = 0 -> k = x.
Proof. apply (compare_pub_key_total_order k x x). Qed.

Lemma ComparePubKey_flip k x : ComparePubKey k x <> -1 -> ComparePubKey k x <> 0 -> ComparePubKey x k = -1.
Proof. destruct (compare_pub_key_total_order k x x) as (_ & Ha & Hc & _). rewrite Ha. intros. destruct Hc as [|[|]]; lia. Qed.

Notation ordered := (StronglySorted (fun a b => ComparePubKey a b = -1)).

Lemma AddItem_spec k l l' : ordered l -> AddItem k l = Some l' ->
  ordered l' /\ l' ≡ₚ k :: l /\ k ∉ l.
Proof.
  revert l'. induction l as [|x l IH]; intros l' Hs; cbn [AddItem].
  { intros [= <-]. split_and!; [repeat constructor|done|apply not_elem_of_nil]. }
  apply StronglySorted_inv in Hs as [Hs Hx]. destruct (Z.eqb_spec (ComparePubKey k x) (-1)) as [E|E].
  - intros [= <-]. assert (Hall : Forall (fun b => ComparePubKey k b = -1) (x :: l)).
    { constructor; [done|]. eapply Forall_impl; [exact Hx|]. intros b Hb. by apply ComparePubKey_trans with x. }
    split_and!; [by constructor; [constructor|]|done|]. intros Hin. rewrite Forall_forall in Hall. apply Hall in Hin. by rewrite ComparePubKey_refl in Hin.
  - destruct (Z.eqb_spec (ComparePubKey k x) 0) as [E0|E0]; [done|]. intros (l1 & H1 & ->)%fmap_Some. destruct (IH l1 Hs H1) as (Hs1 & Hp & Hk).
    assert (ComparePubKey x k = -1) as Ex by (by apply ComparePubKey_flip).
    split_and!.
    + constructor; [done|]. rewrite Hp. by constructor.
    + rewrite Hp. apply Permutation_swap.
    + intros [->|Hin]%elem_of_cons; [by rewrite ComparePubKey_refl in E0|done].
Qed.

Lemma AddItem_None k l : AddItem k l = None -> k ∈ l.
Proof.
  induction l as [|x l IH]; cbn [AddItem]; [done|]. destruct (Z.eqb_spec (ComparePubKey k x) (-1)); [done|].
  destruct (Z.eqb_spec (ComparePubKey k x) 0) as [E0|E0]; [intros _; apply ComparePubKey_eq in E0 as ->; by left|].
  intros H. destruct (AddItem k l); [done|]. right. auto.
Qed.

Section SignatureKeys.
Context (publicKey : Z -> bytes -> bytes -> result PublicKey) `{Ripemd160Laws}.

(** The entries of this transaction hold the keys that its digest gives. *)
Definition cache_valid (t : Transaction) (digest : Sha256) (cache : gmap bytes CachedPubKey) : Prop :=
  forall sig text e, sig_ok sig -> SigString sig = Ok text -> cache !! text = Some e -> ID t = Ok (cTrxID e) ->
    recover publicKey sig (to_Bytes digest) = Ok (cPubKey e).

Lemma cache_valid_empty t digest : cache_valid t digest ∅.
Proof. intros sig text e _ _ He. by rewrite lookup_empty in He. Qed.

(** Signatures of one text give one key. *)
Lemma recover_text sig sig' text digest : sig_ok sig -> sig_ok sig' -> SigString sig = Ok text -> SigString sig' = Ok text ->
  recover publicKey sig digest = recover publicKey sig' digest.
Proof. intros Hs Hs' Ht Ht'. destruct (SigString_inj sig sig' text Hs Hs' Ht Ht') as [Hi Hc]. unfold recover, recover_key. by rewrite Hi, Hc. Qed.

Lemma cache_valid_insert t digest cache sig text id k : cache_valid t digest cache -> sig_ok sig -> SigString sig = Ok text ->
  recover publicKey sig (to_Bytes digest) = Ok k ->
  cache_valid t digest (<[text := mkCachedPubKey id k sig]> cache).
Proof.
  intros Hc Hs Ht Hk sig' text' e Hs' Ht' [[<- <-]|[_ He]]%lookup_insert_Some Hid; [|by eapply Hc]. cbn. rewrite <- Hk. by eapply recover_text.
Qed.

Lemma recover_cached_run t digest useCache sig cache k : cache_valid t digest cache -> sig_ok sig ->
  recover publicKey sig (to_Bytes digest) = Ok k ->
  exists cache', recover_cached publicKey t digest useCache sig cache = (cache', Ok k) /\ cache_valid t digest cache'.
Proof.
  intros Hc Hs Hk. unfold recover_cached. destruct useCache; [|exists cache; unfold lift; by rewrite Hk].
  assert (exists text, SigString sig = Ok text) as [text Ht].
  { unfold SigString. unfold recover, recover_key in Hk. destruct (inner sig); [by eexists|done]. }
  destruct (NewSha256Byte_Sum (encoded (g_transaction t))) as (id & Hid & _). fold (ID t) in Hid.
  unfold mbind, M_bind, get, lift, modify. rewrite Ht, Hid, Hk.
  destruct (cache !! text) as [it|] eqn:E; [|eexists; split; [done|]; by apply cache_valid_insert].
  case_bool_decide as Hd; [|eexists; split; [done|]; by apply cache_valid_insert].
  exists cache. split; [|done]. rewrite (Hc sig text it Hs Ht E) in Hk by congruence. by injection Hk as ->.
Qed.

Lemma recover_all_run t digest allow useCache sigs ks : Forall sig_ok sigs ->
  Forall2 (fun sig k => recover publicKey sig (to_Bytes digest) = Ok k) sigs ks -> forall keys cache, cache_valid t digest cache -> ordered keys ->
  exists cache' r, recover_all publicKey t digest allow useCache sigs keys cache = (cache', r) /\ cache_valid t digest cache' /\
    if bool_decide (allow = true \/ NoDup ks /\ Forall (fun k => k ∉ keys) ks)
    then exists keys', r = Ok keys' /\ ordered keys' /\ forall k, k ∈ keys' <-> k ∈ keys \/ k ∈ ks
    else r = Throw TxDuplicateSig.
Proof.
  intros Hok Hks. revert Hok. induction Hks as [|sig k sigs ks Hk Hks IH]; intros Hok keys cache Hc Hs.
  { exists cache, (Ok keys). split; [done|]. split; [done|]. rewrite bool_decide_true; [|right; by split; constructor]. exists keys. split; [done|]. split; [done|set_solver]. }
  inversion_clear Hok as [|? ? Hsig Hsigs]. cbn [recover_all].
  destruct (recover_cached_run t digest useCache sig cache k Hc Hsig Hk) as (c1 & E1 & Hc1). unfold mbind at 1, M_bind at 1. rewrite E1.
  destruct (AddItem k keys) as [l|] eqn:E; cbn [default].
  - apply AddItem_spec in E as (Hl & Hp & Hn); [|done]. rewrite orb_true_r. destruct (IH Hsigs l c1 Hc1 Hl) as (c' & r & Er & Hc' & Hr).
    exists c', r. split; [exact Er|]. split; [done|]. revert Hr. case_bool_decide as H1.
    + rewrite bool_decide_true.
      * intros (keys' & -> & Ho & Hin). exists keys'. split; [done|]. split; [done|]. intros k'. rewrite Hin, Hp. set_solver.
      * destruct H1 as [->|[Hnd Hks1]]; [by left|]. rewrite Forall_forall in Hks1. setoid_rewrite Hp in Hks1. right. rewrite Forall_cons, Forall_forall. split; [constructor; set_solver|set_solver].
    + intros ->. rewrite bool_decide_false; [done|]. intros [->|[[Hk1 Hnd]%NoDup_cons [_ Hks1]%Forall_cons]]; [by apply H1; left|]. apply H1. right. split; [done|].
      rewrite Forall_forall in Hks1 |- *. intros k' Hk'. rewrite Hp. set_solver.
  - apply AddItem_None in E. destruct allow.
    + destruct (IH Hsigs keys c1 Hc1 Hs) as (c' & r & Er & Hc' & Hr). exists c', r. split; [exact Er|]. split; [done|]. rewrite bool_decide_true in * by (by left).
      destruct Hr as (keys' & -> & Ho & Hin). exists keys'. split; [done|]. split; [done|]. intros k'. rewrite Hin. set_solver.
    + exists c1, (Throw TxDuplicateSig). split; [done|]. split; [done|]. rewrite bool_decide_false; [done|]. intros [|[_ [Hd _]%Forall_cons]]; [done|]. by apply Hd.
Qed.
End SignatureKeys.

(** C29. The keys of a transaction: when each signature gives a key under the digest of the
    transaction, the chain and the context-free data, [GetSignatureKeys] returns the set of
    exactly these keys, in the order of the set; but without [allowDuplicateKeys] it refuses
    two signatures of one key, and only these.  This holds with the cache of recovered keys
    as without, provided that its entries for this transaction were made with this digest,
    and they stay so.  The signatures hold bytes and are of one of the two curves of the
    package ([sig_ok]), which their texts tell apart; a sum of RIPEMD-160 has 20 bytes. *)
Theorem signature_keys_exact publicKey `{Ripemd160Laws} t sigs chainID cfd allow useCache digest cache ks :
  Forall sig_ok sigs -> SigDigest t chainID cfd = Ok digest -> cache_valid publicKey t digest cache ->
  Forall2 (fun sig k => recover publicKey sig (to_Bytes digest) = Ok k) sigs ks ->
  exists cache' r, GetSignatureKeys publicKey t sigs chainID cfd allow useCache cache = (cache', r) /\ cache_valid publicKey t digest cache' /\
    if bool_decide (allow = true \/ NoDup ks) then exists keys, r = Ok keys /\ ordered keys /\ forall k, k ∈ keys <-> k ∈ ks
    else r = Throw TxDuplicateSig.
Proof.
  intros Hok Hd Hc Hks. destruct (recover_all_run publicKey t digest allow useCache sigs ks Hok Hks [] cache Hc ltac:(constructor)) as (c' & r & E & Hc' & Hr).
  exists c', r. split; [unfold GetSignatureKeys, mbind, M_bind, lift; by rewrite Hd|]. split; [done|]. revert Hr. case_bool_decide as H1.
  - rewrite bool_decide_true by (destruct H1 as [|[]]; auto). intros (keys & -> & Ho & Hin). exists keys. split; [done|]. split; [done|]. intros k. rewrite Hin. set_solver.
  - intros ->. rewrite bool_decide_false; [done|]. intros [|Hnd]; apply H1; [by left|right]. split; [done|]. apply Forall_forall. set_solver.
Qed.

(** A transfer by [alice], signed by two keys; the toy curve takes the key from the
    signature. *)
Definition example_transaction : Transaction :=
  mkTransaction (mkTransactionHeader 1000 1 2 0 0 0) [] [mkAction 77 5 [alice_active] [1; 2; 3]] [].
Definition toy_sig (n : Z) : Signature := mkSignature 0 (replicate 65 n) (Some 0).
Definition toy_key (c : Z) (content hash : bytes) : result PublicKey := Ok (mkPublicKey 0 (2 :: replicate 32 (nth 0 content 0))).
#[local] Instance toy_ripemd : Ripemd160 := fun b => replicate 20 (u8 (len b)).
#[local] Instance toy_ripemd_laws : Ripemd160Laws.
Proof. intros b. split; [done|]. apply Forall_replicate. by apply uwrap_range. Qed.

Definition example_key (n : Z) : PublicKey := mkPublicKey 0 (2 :: replicate 32 n).

Lemma signature_keys_exact_witness : exists cache keys,
  GetSignatureKeys toy_key example_transaction [toy_sig 9; toy_sig 4] NewSha256Nil [] false true ∅ = (cache, Ok keys) /\
  ordered keys /\ forall k, k ∈ keys <-> k ∈ [example_key 9; example_key 4].
Proof.
  destruct (NewSha256Byte_Sum (encoded (gval_Sha256 NewSha256Nil) ++ encoded (g_transaction example_transaction) ++ to_Bytes NewSha256Nil)) as (d & Ed & _).
  assert (Hd : SigDigest example_transaction NewSha256Nil [] = Ok d) by exact Ed.
  destruct (signature_keys_exact toy_key example_transaction [toy_sig 9; toy_sig 4] NewSha256Nil [] false true
    d ∅ [example_key 9; example_key 4] ltac:(by_decide) Hd (cache_valid_empty _ _ _) ltac:(by repeat constructor)) as (cache & r & E & _ & Hr).
  rewrite bool_decide_true in Hr by (right; by_decide). destruct Hr as (keys & -> & Ho & Hin). exists cache, keys. split; [exact E|]. split; [exact Ho|exact Hin].
Defined.

(** The cache compares the id of the transaction, which covers neither the chain nor the
    context-free data: the key that was recovered with one digest is returned for any
    other chain and any other context-free data. *)
Theorem cache_ignores_context_free_data publicKey `{Ripemd160} t sig text chainID cfd id digest k cache : ID t = Ok id -> SigDigest t chainID cfd = Ok digest ->
  SigString sig = Ok text -> cache !! text = Some (mkCachedPubKey id k sig) ->
  GetSignatureKeys publicKey t [sig] chainID cfd false true cache = (cache, Ok [k]).
Proof.
  intros Hid Hd Ht Hc. unfold GetSignatureKeys. rewrite Hd. cbn [recover_all]. unfold recover_cached, mbind, M_bind, get, lift. rewrite Ht, Hid, Hc.
  cbn [cTrxID cPubKey]. by rewrite bool_decide_true.
Qed.

(** ** Packed transactions *)

Section PackedLemmas.
Context `{ZlibLaws}.

Lemma by_compression_Ok {A} c (none zlib : result A) x : c = CompressionNone \/ c = CompressionZlib ->
  (if c =? CompressionNone then none else zlib) = Ok x -> by_compression c none zlib = Ok x.
Proof. intros [->| ->]; unfold by_compression; cbn; by intros ->. Qed.

Lemma GetTransaction_unpack p t : UnpackedTrx p = None ->
  by_compression (Compression p) (unpackTransaction (PackedTrx p)) (zlibDecompressTransaction (PackedTrx p)) = Ok t ->
  GetTransaction p = (mkPackedTransaction (ptSignatures p) (Compression p) (PackedContextFreeData p) (PackedTrx p) (Some t), Ok t).
Proof.
  intros Hn E. unfold GetTransaction, localUnpack, mbind, M_bind, get, lift, modify. rewrite Hn, E. reflexivity.
Qed.
End PackedLemmas.

(** C28. Packing a transaction: with either compression, [GetSignedTransaction] returns the
    transaction that was packed, with its signatures and context-free data, and the id of
    the packed form, cached or not, is the id of the transaction.  With any other
    compression the packing panics, in the conversion of the compression that was to
    report it. *)
Theorem packed_round_trip `{ZlibLaws} t compression :
  transaction_ok (sTransaction t) -> cfd_ok (ContextFreeData t) ->
  len (packTransaction (sTransaction t)) < 2 ^ 62 -> len (packContextFreeData (ContextFreeData t)) < 2 ^ 62 ->
  if bool_decide (compression = CompressionNone \/ compression = CompressionZlib)
  then exists p, NewPackedTransactionBySignedTrx t compression = Ok p /\
         (GetSignedTransaction p).2 = Ok t /\ (packed_ID p).2 = ID (sTransaction t) /\ GetUncachedID p = ID (sTransaction t)
  else NewPackedTransactionBySignedTrx t compression = Throw InterfaceConversion.
Proof.
  intros Ht Hcfd Hl1 Hl2. pose proof (unpack_pack _ Ht Hl1) as Hu. pose proof (unpack_pack_cfd _ Hcfd Hl2) as Huc.
  destruct t as [trx sigs cfd]. cbn [sTransaction ContextFreeData Signatures] in *. case_bool_decide as Hc.
  - set (packed := if compression =? CompressionNone then packTransaction trx else zlibCompressTransaction trx).
    set (data := if compression =? CompressionNone then packContextFreeData cfd else zlibCompressContextFreeData cfd).
    exists (mkPackedTransaction sigs compression data packed None).
    assert (E1 : by_compression compression (unpackTransaction packed) (zlibDecompressTransaction packed) = Ok trx).
    { apply by_compression_Ok; [done|]. unfold packed, zlibDecompressTransaction, zlibCompressTransaction. destruct Hc as [->| ->]; cbn; [done|].
      by rewrite inflate_deflate, Ok_bind. }
    assert (E2 : (if compression =? CompressionNone then unpackContextFreeData data else zlibDecompressContextFreeData data) = Ok cfd).
    { unfold data, zlibDecompressContextFreeData, zlibCompressContextFreeData. destruct Hc as [->| ->]; cbn; [done|].
      destruct (Z.eqb_spec (len cfd) 0) as [E|E]; [destruct cfd; [done|unfold len in E; cbn in E; lia]|].
      destruct (Z.eqb_spec (len (zlib_deflate (packContextFreeData cfd))) 0) as [E0|_].
      - pose proof (deflate_nonempty (packContextFreeData cfd)). destruct (zlib_deflate _); [done|]. unfold len in E0. cbn in E0. lia.
      - by rewrite inflate_deflate, Ok_bind. }
    assert (E3 : by_compression compression (Ok packed) (zlib_inflate packed) = Ok (packTransaction trx)).
    { apply by_compression_Ok; [done|]. unfold packed, zlibCompressTransaction. destruct Hc as [->| ->]; cbn; [done|]. by rewrite inflate_deflate. }
    split_and!.
    + unfold NewPackedTransactionBySignedTrx, SetTransactionWithCFD, packed, data. by destruct Hc as [->| ->].
    + unfold GetSignedTransaction, signed_body, mbind, M_bind, get. cbn [Compression].
      rewrite (proj2 (orb_true_iff _ _)) by (destruct Hc as [->| ->]; auto).
      erewrite GetTransaction_unpack by done. unfold lift. cbn [Compression PackedContextFreeData].
      by rewrite E2.
    + unfold packed_ID, localUnpack, GetTransaction, mbind, M_bind, get, lift, modify. cbn [UnpackedTrx Compression PackedTrx].
      by rewrite E1.
    + unfold GetUncachedID, GetRawTransaction. cbn [Compression PackedTrx]. by rewrite E3, Ok_bind, Hu, Ok_bind.
  - unfold NewPackedTransactionBySignedTrx, SetTransactionWithCFD, by_compression.
    destruct (Z.eqb_spec compression CompressionNone); [tauto|]. destruct (Z.eqb_spec compression CompressionZlib); [tauto|done].
Qed.

(** Stored blocks stand for the compression. *)
#[local] Instance stored_zlib : Zlib := {| zlib_deflate b := 0x78 :: b; zlib_inflate b := match b with _ :: l => Ok l | [] => Throw RlpError end |}.
#[local] Instance stored_zlib_laws : ZlibLaws.
Proof. by split. Qed.

Definition example_signed : SignedTransaction := mkSignedTransaction example_transaction [toy_sig 9] [[1; 2]; []].

Lemma packed_round_trip_witness : exists p,
  NewPackedTransactionBySignedTrx example_signed CompressionZlib = Ok p /\ (GetSignedTransaction p).2 = Ok example_signed /\
  (packed_ID p).2 = ID example_transaction /\ GetUncachedID p = ID example_transaction.
Proof.
  refine (packed_round_trip example_signed CompressionZlib _ _ _ _).
  - by_decide.
  - by_decide.
  - vm_compute. reflexivity.
  - vm_compute. reflexivity.
Defined.

(** [GetRefBlocknum] is the block number it is given. *)
Lemma GetRefBlocknum_id h : in_u 32 h -> GetRefBlocknum h = h.
Proof.
  intros [H0 H1]. unfold GetRefBlocknum. pose proof (Z.div_mod h 0xffff). pose proof (Z.mod_pos_bound h 0xffff).
  rewrite !uwrap_id; unfold in_u; rewrite ?uwrap_id; unfold in_u; lia.
Qed.
