(* ===== verification/Receipts.v ===== *)
(** * Receipts: what a block keeps of a transaction, and the node's view of one

    [chain/types/block.go] (status, receipts and their digest), [PackedDigest] of
    [chain/types/transaction.go] and [chain/types/transaction_metadata.go]. *)

From S2P Require Import Prelude Bytes Rlp Sha256 Ecc Permissions Transaction.

(** ** Receipts *)

Inductive TransactionStatus : Type :=
| TransactionStatusExecuted | TransactionStatusSoftFail | TransactionStatusHardFail | TransactionStatusDelayed
| TransactionStatusExpired | TransactionStatusUnknown.

#[global] Instance TransactionStatus_eq_dec : EqDecision TransactionStatus.
Proof. solve_decision. Defined.

Definition status_code (s : TransactionStatus) : Z :=
  match s with
  | TransactionStatusExecuted => 0 | TransactionStatusSoftFail => 1 | TransactionStatusHardFail => 2 | TransactionStatusDelayed => 3
  | TransactionStatusExpired => 4 | TransactionStatusUnknown => 255
  end.

Record TransactionReceiptHeader : Type := mkReceiptHeader { Status : TransactionStatus; CpuUsageUs : Z; NetUsageWords : Z }.

#[global] Instance TransactionReceiptHeader_eq_dec : EqDecision TransactionReceiptHeader.
Proof. solve_decision. Defined.

(** The transaction itself, or its id; the other field is nil. *)
Record TransactionWithID : Type := mkWithID { wiPacked : option PackedTransaction; wiID : Sha256 }.
Record TransactionReceipt : Type := mkReceipt { rHeader : TransactionReceiptHeader; rTrx : TransactionWithID }.

(** An error of the encoder leaves nothing to hash. *)
Definition encoded_or_nothing (v : result gval) : bytes := match v with Ok v => encoded v | Throw _ => [] end.

Definition PackedDigest (p : PackedTransaction) : result Sha256 :=
  prunableResult ← NewSha256Byte (Digest.Sum (encoded_or_nothing (g_signatures (ptSignatures p)) ++ encoded (g_bytes (PackedContextFreeData p))));
  NewSha256Byte (Digest.Sum (encoded (VUint8 (Compression p)) ++ encoded (g_bytes (PackedTrx p)) ++ encoded (gval_Sha256 prunableResult))).

(** The words of network usage are the constant 25. *)
Definition receipt_Digest (t : TransactionReceipt) : result Sha256 :=
  let h := rHeader t in
  trx ← (if bool_decide (wiID (rTrx t) <> NewSha256Nil) then Ok (encoded (gval_Sha256 (wiID (rTrx t))))
         else match wiPacked (rTrx t) with
              | Some p => d ← PackedDigest p; Ok (encoded (gval_Sha256 d))
              | None => Throw NilDereference
              end);
  NewSha256Byte (Digest.Sum (encoded (VUint8 (status_code (Status h))) ++ encoded (VUint32 (CpuUsageUs h)) ++ PutUvarint 25 ++ trx)).

(** ** The node's view of a transaction *)

Record TransactionMetadata : Type := mkMetadata {
  tmID : Sha256; SignedID : Sha256; tmTrx : SignedTransaction; tmPacked : PackedTransaction;
  SigningKeys : Sha256 * list PublicKey; Accepted : bool; Implicit : bool; Scheduled : bool }.

Definition g_packed (p : PackedTransaction) : result gval :=
  sigs ← g_signatures (ptSignatures p);
  Ok (VPtr (Some (VStruct [(NoTag, sigs); (NoTag, VUint8 (Compression p)); (NoTag, g_bytes (PackedContextFreeData p)); (NoTag, g_bytes (PackedTrx p));
    (Dash, VPtr None)]))).

Section Metadata.
Context `{Zlib}.

Definition NewTransactionMetadata (ptrx : PackedTransaction) : result TransactionMetadata :=
  g ← g_packed ptrx;
  hashed ← Hash256 g;
  let '(ptrx, signed) := GetSignedTransaction ptrx in
  signedTransaction ← signed;
  id ← ID (sTransaction signedTransaction);
  Ok (mkMetadata id hashed signedTransaction ptrx (NewSha256Nil, []) false false false).

Definition NewTransactionMetadataBySignedTrx (t : SignedTransaction) (c : Z) : result TransactionMetadata :=
  packedTrx ← NewPackedTransactionBySignedTrx t c;
  g ← g_packed packedTrx;
  hashed ← Hash256 g;
  id ← ID (sTransaction t);
  Ok (mkMetadata id hashed t packedTrx (NewSha256Nil, []) false false false).
End Metadata.

(** The keys are recovered once for a chain; the cache of the package is the state. *)
Definition RecoverKeys (publicKey : Z -> bytes -> bytes -> result PublicKey) `{Ripemd160} (chainID : Sha256)
    (t : TransactionMetadata) : M (gmap bytes CachedPubKey) (list PublicKey) :=
  if bool_decide ((SigningKeys t).1 <> chainID) then signed_GetSignatureKeys publicKey (tmTrx t) chainID false true
  else mret (SigningKeys t).2.

(** ** The digest of a receipt *)

(** A block does not commit to the network usage of its transactions: receipts that differ
    in it have the same digest, and so blocks that differ in it have the same root. *)
Theorem receipt_digest_ignores_net_usage s cpu net net' trx :
  receipt_Digest (mkReceipt (mkReceiptHeader s cpu net) trx) = receipt_Digest (mkReceipt (mkReceiptHeader s cpu net') trx).
Proof. reflexivity. Qed.

(** The digest of a receipt is there whenever it has an id or a transaction. *)
Lemma receipt_Digest_total t : (wiID (rTrx t) <> NewSha256Nil \/ is_Some (wiPacked (rTrx t))) -> exists d, receipt_Digest t = Ok d.
Proof.
  intros Ht. unfold receipt_Digest. assert (exists b, (if bool_decide (wiID (rTrx t) <> NewSha256Nil) then Ok (encoded (gval_Sha256 (wiID (rTrx t))))
         else match wiPacked (rTrx t) with
              | Some p => d ← PackedDigest p; Ok (encoded (gval_Sha256 d))
              | None => Throw NilDereference
              end) = Ok b) as [b ->].
  { case_bool_decide as Hid; [by eexists|]. destruct Ht as [Ht|[p ->]]; [done|]. unfold PackedDigest.
    destruct (NewSha256Byte_Sum (encoded_or_nothing (g_signatures (ptSignatures p)) ++ encoded (g_bytes (PackedContextFreeData p)))) as (h & -> & _).
    rewrite Ok_bind.
    destruct (NewSha256Byte_Sum (encoded (VUint8 (Compression p)) ++ encoded (g_bytes (PackedTrx p)) ++ encoded (gval_Sha256 h))) as (h' & -> & _).
    by eexists. }
  rewrite Ok_bind. match goal with |- exists d, NewSha256Byte (Digest.Sum ?x) = Ok d => destruct (NewSha256Byte_Sum x) as (d & -> & _) end. by exists d.
Qed.
