(* ===== verification/Controller.v ===== *)
(** * Controller: what the chain controller checks and keeps for every transaction

    Parts of [chain/controller.go]: the state a new chain starts with
    ([CreateNativeAccount], [initializeDatabase]), the authorities of the producers
    ([updateProducersAuthority]), the checks of a transaction against the chain
    (expiration, reference block, referenced accounts), the record of the transactions
    that were seen ([recordTransaction] of [chain/transaction_context.go],
    [clearExpiredInputTransactions]), the block summaries, the lists of the node's
    operator, the proposal of producers and the conditions under which checks are
    skipped. *)

From S2P Require Import Prelude Uint128 Bytes Rlp Sha256 Ecc Name Time BlockHeader Authority Permissions NativeActions Transaction.
From S2P Require ResourceLimits.

(** ** A new chain *)

Definition NullAccountName : Z := Eval vm_compute in named "eosio.null".
Definition ProducersAccountName : Z := Eval vm_compute in named "eosio.prods".
Definition MajorityProducersPermissionName : Z := Eval vm_compute in named "prod.major".
Definition MinorityProducersPermissionName : Z := Eval vm_compute in named "prod.minor".

(** A part of the chain runs, and the rest stays. *)
Definition in_perms {A} (m : M Perms A) : M Chain A := fun c => let '(p, r) := m (perms c) in (set_perms p c, r).
Definition in_resources {A} (m : M ResourceLimits.Db A) : M Chain A := fun c => let '(d, r) := m (resources c) in (set_resources d c, r).

(** [eosioAbi] is the serialized ABI of the system contract. *)
Definition CreateNativeAccount (initialTimestamp : Z) (eosioAbi : bytes) (name : Z) (owner active : Authority) (isPrivileged : bool) : M Chain unit :=
  _ ← insert_account (fun id => mkAccountObject id name 0 0 isPrivileged 0 NewSha256Nil (NewBlockTimeStamp initialTimestamp) []
        (if name =? SystemAccountName then eosioAbi else []));
  _ ← insert_sequence (new_sequence name);
  ownerPermission ← in_perms (CreatePermission name OwnerName 0 owner initialTimestamp);
  activePermission ← in_perms (CreatePermission name ActiveName (poID ownerPermission) active initialTimestamp);
  _ ← in_resources (ResourceLimits.InitializeAccount name);
  _ ← in_resources (ResourceLimits.AddPendingRamUsage name (i64 (account_ram (poAuth ownerPermission) (poAuth activePermission))));
  in_resources (ResourceLimits.VerifyAccountRamUsage name).

(** The accounts and permissions of [initializeDatabase]. *)
Definition initialize_accounts (initialTimestamp : Z) (eosioAbi : bytes) (initialKey : PublicKey) : M Chain unit :=
  let systemAuth := NewAuthority initialKey 0 in
  let emptyAuthority := mkAuthority 1 [] [] [] in
  let activeProducersAuthority := mkAuthority 1 [] [mkPermissionLevelWeight (mkPermissionLevel SystemAccountName ActiveName) 1] [] in
  _ ← CreateNativeAccount initialTimestamp eosioAbi SystemAccountName systemAuth systemAuth true;
  _ ← CreateNativeAccount initialTimestamp eosioAbi NullAccountName emptyAuthority emptyAuthority false;
  _ ← CreateNativeAccount initialTimestamp eosioAbi ProducersAccountName emptyAuthority activeProducersAuthority false;
  c ← get;
  activePermission ← lift (GetPermission (perms c) (mkPermissionLevel ProducersAccountName ActiveName));
  majorityPermission ← in_perms (CreatePermission ProducersAccountName MajorityProducersPermissionName (poID activePermission)
                                   activeProducersAuthority initialTimestamp);
  _ ← in_perms (CreatePermission ProducersAccountName MinorityProducersPermissionName (poID majorityPermission)
                  activeProducersAuthority initialTimestamp);
  mret tt.

Definition empty_perms (pendingTime maxTrxDelay maxDepth : Z) : Perms := mkPerms ∅ 0 ∅ 0 ∅ 0 ∅ 0 pendingTime maxTrxDelay maxDepth.
Definition empty_chain (p : Perms) : Chain := mkChain p ∅ 0 ∅ 0 ResourceLimits.InitializeDatabase false [].

(** ** The authorities of the producers *)

Definition authority_eqb (a b : Authority) : bool :=
  (Threshold a =? Threshold b) &&
  bool_decide (map (fun k => (kwKey k, kwWeight k)) (Keys a) = map (fun k => (kwKey k, kwWeight k)) (Keys b)) &&
  bool_decide (map (fun p => (plPermission p, plWeight p)) (Accounts a) = map (fun p => (plPermission p, plWeight p)) (Accounts b)) &&
  bool_decide (map (fun w => (WaitSec w, wwWeight w)) (Waits a) = map (fun w => (WaitSec w, wwWeight w)) (Waits b)).

Definition producers_authority (threshold : Z) (producers : list Z) : Authority :=
  mkAuthority threshold [] (map (fun p => mkPermissionLevelWeight (mkPermissionLevel p ActiveName) 1) producers) [].

(** The time of the last update stays, unlike in [ModifyPermission]. *)
Definition updatePermission (producers : list Z) (name threshold : Z) : M Chain unit :=
  c ← get;
  permission ← lift (GetPermission (perms c) (mkPermissionLevel ProducersAccountName name));
  let auth := producers_authority threshold producers in
  if negb (authority_eqb (poAuth permission) auth)
  then in_perms (modify (fun s => set_permissions
         (<[poID permission := mkPermissionObject (poParent permission) (poID permission) (UsageId permission) (poOwner permission)
              (poName permission) (LastUpdated permission) auth]> (permissions s)) (nextPermission s) s))
  else mret tt.

Definition calculateThreshold (numProducers numerator denominator : Z) : Z := u32 (u32 (u32 numProducers * numerator) / denominator + 1).

(** The permissions are looked up one after the other. *)
Definition updateProducersAuthority (producers : list Z) : M Chain unit :=
  _ ← updatePermission producers ActiveName (calculateThreshold (len producers) 2 3);
  _ ← updatePermission producers MajorityProducersPermissionName (calculateThreshold (len producers) 1 2);
  updatePermission producers MinorityProducersPermissionName (calculateThreshold (len producers) 1 3).

(** ** The checks of a transaction *)

Fixpoint check_cfa (c : Chain) (l : list Action) : result unit :=
  match l with
  | [] => Ok tt
  | a :: l' =>
      _ ← EosAssert (IsAccount (actAccount a) c) TransactionException;
      _ ← EosAssert (len (Authorization a) =? 0) TransactionException;
      check_cfa c l'
  end.

Fixpoint check_auths (c : Chain) (l : list PermissionLevel) : result unit :=
  match l with
  | [] => Ok tt
  | auth :: l' =>
      _ ← EosAssert (IsAccount (Actor auth) c) TransactionException;
      found ← FindPermission (perms c) auth;
      _ ← EosAssert (match found with Some _ => true | None => false end) TransactionException;
      check_auths c l'
  end.

Fixpoint check_referenced (c : Chain) (l : list Action) (oneAuth : bool) : result bool :=
  match l with
  | [] => Ok oneAuth
  | a :: l' =>
      _ ← EosAssert (IsAccount (actAccount a) c) TransactionException;
      _ ← check_auths c (Authorization a);
      check_referenced c l' (oneAuth || negb (len (Authorization a) =? 0))
  end.

Definition ValidateReferencedAccounts (c : Chain) (t : Transaction) : result unit :=
  _ ← check_cfa c (ContextFreeActions t);
  oneAuth ← check_referenced c (Actions t) false;
  EosAssert oneAuth TxNoAuths.

Definition ValidateExpiration (pendingBlockTime maxTrxLifetime : Z) (h : TransactionHeader) : result unit :=
  _ ← EosAssert (pendingBlockTime <=? TimePointSec.ToTimePoint (Expiration h)) ExpiredTxException;
  EosAssert (TimePointSec.ToTimePoint (Expiration h) <=? TimePoint.AddUs pendingBlockTime (Seconds maxTrxLifetime)) TxExpTooFarException.

(** *** Block summaries: the last block of each number modulo 65536 *)

Definition initial_summaries (head : Sha256) : gmap Z Sha256 :=
  <[1 := head]> (list_to_map ((fun i => (Z.of_nat i, NewSha256Nil)) <$> seq 0 0x10000)).

Definition createBlockSummary (id : Sha256) (summaries : gmap Z Sha256) : result (gmap Z Sha256) :=
  let blockNum := NumFromID id in
  let sid := Z.land blockNum 0xffff in
  match summaries !! sid with
  | Some _ => Ok (<[sid := id]> summaries)
  | None => Throw DatabaseException
  end.

(** A missing summary is the zero id. *)
Definition ValidateTapos (summaries : gmap Z Sha256) (h : TransactionHeader) : result unit :=
  EosAssert (VerifyReferenceBlock h (default NewSha256Nil (summaries !! RefBlockNum h))) InvalidRefBlockException.

(** *** The transactions that were seen *)

Record TransactionObject : Type := mkTransactionObject { toExpiration : Z; toTrxID : Sha256 }.

(** The table in the order of the ids, which is also the order of the index
    [byExpiration] ([DbIndex.expiration_index_by_id]). *)
Notation Seen := (list TransactionObject).

Definition IsKnownUnexpiredTransaction (id : Sha256) (seen : Seen) : bool := existsb (fun o => bool_decide (toTrxID o = id)) seen.

Definition recordTransaction (id : Sha256) (expire : Z) (seen : Seen) : result Seen :=
  if IsKnownUnexpiredTransaction id seen then Throw TxDuplicate else Ok (seen ++ [mkTransactionObject expire id]).

Fixpoint clearExpiredInputTransactions (now : Z) (seen : Seen) : Seen :=
  match seen with
  | [] => []
  | t :: seen' => if TimePointSec.ToTimePoint (toExpiration t) <? now then clearExpiredInputTransactions now seen' else seen
  end.

(** *** The lists of the node's operator *)

Record Lists : Type := mkLists {
  ActorWhitelist : list Z; ActorBlacklist : list Z; ContractWhitelist : list Z; ContractBlacklist : list Z;
  ActionBlacklist : list (Z * Z) }.

Fixpoint check_each (ok : Z -> bool) (e : exn) (l : list Z) : result unit :=
  match l with [] => Ok tt | a :: l' => _ ← EosAssert (ok a) e; check_each ok e l' end.

Definition CheckActorList (ls : Lists) (actors : list Z) : result unit :=
  if 0 <? len (ActorWhitelist ls) then check_each (fun a => bool_decide (a ∈ ActorWhitelist ls)) ActorWhitelistException actors
  else if 0 <? len (ActorBlacklist ls) then check_each (fun a => negb (bool_decide (a ∈ ActorBlacklist ls))) ActorBlacklistException actors
  else Ok tt.

Definition CheckContractList (ls : Lists) (code : Z) : result unit :=
  if 0 <? len (ContractWhitelist ls) then EosAssert (bool_decide (code ∈ ContractWhitelist ls)) ContractWhitelistException
  else if 0 <? len (ContractBlacklist ls) then EosAssert (negb (bool_decide (code ∈ ContractBlacklist ls))) ContractBlacklistException
  else Ok tt.

Definition CheckActionList (ls : Lists) (code action : Z) : result unit :=
  if 0 <? len (ActionBlacklist ls) then EosAssert (negb (bool_decide ((code, action) ∈ ActionBlacklist ls))) ActionBlacklistException else Ok tt.

(** ** Which checks are skipped *)

Inductive BlockStatus : Type := Irreversible | Validated | Complete | Incomplete.
#[global] Instance BlockStatus_eq_dec : EqDecision BlockStatus.
Proof. solve_decision. Defined.
Inductive ValidationMode : Type := FULL | LIGHT.
#[global] Instance ValidationMode_eq_dec : EqDecision ValidationMode.
Proof. solve_decision. Defined.

Record Flags : Type := mkFlags {
  pendingStatus : option BlockStatus; InTrxRequiringChecks : bool; DisableReplayOpts : bool; ForceAllChecks : bool;
  BlockValidationMode : ValidationMode; TrustedProducerLightValidation : bool }.

Definition LightValidationAllowed (f : Flags) (dro : bool) : bool :=
  match pendingStatus f with
  | None => false
  | Some pbStatus =>
      if InTrxRequiringChecks f then false
      else
        let considerSkippingOnReplay := (bool_decide (pbStatus = Irreversible) || bool_decide (pbStatus = Validated)) && negb dro in
        let considerSkippingOnValidate := bool_decide (pbStatus = Complete) &&
          (bool_decide (BlockValidationMode f = LIGHT) || TrustedProducerLightValidation f) in
        considerSkippingOnReplay || considerSkippingOnValidate
  end.

Definition SkipDbSession (f : Flags) (bs : BlockStatus) : bool :=
  bool_decide (bs = Irreversible) && negb (DisableReplayOpts f) && negb (InTrxRequiringChecks f).
Definition SkipDbSessions (f : Flags) : bool := match pendingStatus f with Some s => SkipDbSession f s | None => false end.
Definition SkipTrxChecks (f : Flags) : bool := LightValidationAllowed f (DisableReplayOpts f).
Definition SkipAuthCheck (f : Flags) : bool := LightValidationAllowed f (ForceAllChecks f).
Definition IsProducingBlock (f : Flags) : bool := bool_decide (pendingStatus f = Some Incomplete).

(** ** The proposal of producers *)

Definition producer_eqb (p q : ProducerKey) : bool :=
  (ProducerName p =? ProducerName q) && bool_decide (BlockSigningKey p = BlockSigningKey q).

Fixpoint compare (first second : list ProducerKey) : bool :=
  match first, second with
  | [], [] => true
  | p :: f', q :: s' => producer_eqb p q && compare f' s'
  | _, _ => false
  end.

(** [ProposedScheduleBlockNum] and [ProposedSchedule] of the global properties *)
Record Proposal : Type := mkProposal { ProposedScheduleBlockNum : Z; ProposedVersion : Z; ProposedProducers : list ProducerKey }.

(** The versions and producers of the schedules of the pending block. *)
Record Schedules : Type := mkSchedules {
  activeVersion : Z; activeProducers : list ProducerKey; pendingVersion : Z; pendingProducers : list ProducerKey }.

Definition SetProposedProducers (headBlockNum : Z) (s : Schedules) (producers : list ProducerKey) (gpo : Proposal) : Proposal * Z :=
  let curBlockNum := u32 (headBlockNum + 1) in
  if negb (ProposedScheduleBlockNum gpo =? 0) &&
     (negb (ProposedScheduleBlockNum gpo =? curBlockNum) || compare producers (ProposedProducers gpo)) then (gpo, -1)
  else
    let '(version, current) := if len (pendingProducers s) =? 0 then (activeVersion s, activeProducers s) else (pendingVersion s, pendingProducers s) in
    if compare producers current then (gpo, -1)
    else let version := u32 (version + 1) in (mkProposal curBlockNum version producers, version).

(** ** The chain is well formed from its first block *)

Lemma run_in_perms {A} (m : M Perms A) c c' a : in_perms m c = (c', Ok a) <-> exists p, m (perms c) = (p, Ok a) /\ c' = set_perms p c.
Proof. unfold in_perms. destruct (m (perms c)). naive_solver. Qed.

Lemma run_in_resources {A} (m : M ResourceLimits.Db A) c c' a :
  in_resources m c = (c', Ok a) <-> exists d, m (resources c) = (d, Ok a) /\ c' = set_resources d c.
Proof. unfold in_resources. destruct (m (resources c)). naive_solver. Qed.

Definition next_ids (c : Chain) : Z * Z * Z * Z := (nextPermission (perms c), nextUsage (perms c), nextAccount c, nextLink (perms c)).

Lemma CreateNativeAccount_run t abi name owner active priv c c' : CreateNativeAccount t abi name owner active priv c = (c', Ok tt) ->
  exists a m s1 s2 p q d, accID a = nextAccount c /\ accName a = name /\
    CreatePermission name OwnerName 0 owner t (perms c) = (s1, Ok p) /\
    CreatePermission name ActiveName (poID p) active t s1 = (s2, Ok q) /\
    c' = set_resources d (set_perms s2 (set_sequences m (i64 (nextSequence c + 1))
           (set_accounts (<[nextAccount c := a]> (accounts c)) (i64 (nextAccount c + 1)) c))).
Proof.
  unfold CreateNativeAccount. intros H.
  apply run_bind in H as (c1 & [] & Hc1%run_modify & H). apply run_bind in H as (c2 & [] & Hc2%run_modify & H).
  apply run_bind in H as (c3 & p & (s1 & Hp & ->)%run_in_perms & H). apply run_bind in H as (c4 & q & (s2 & Hq & ->)%run_in_perms & H).
  apply run_bind in H as (c5 & [] & (d1 & _ & ->)%run_in_resources & H).
  apply run_bind in H as (c6 & [] & (d2 & _ & ->)%run_in_resources & H). apply run_in_resources in H as (d3 & _ & ->).
  subst c1 c2. do 2 eexists. exists s1, s2, p, q, d3. split_and!; [| |exact Hp|exact Hq|reflexivity]; reflexivity.
Qed.

Lemma CreateNativeAccount_ok t abi name owner active priv c c' : chain_ok c -> chain_room c -> 0 < name -> ~ has_account c name ->
  auth_wf owner -> auth_wf active -> CreateNativeAccount t abi name owner active priv c = (c', Ok tt) ->
  chain_ok c' /\ (forall n, has_account c' n <-> has_account c n \/ n = name) /\
  (next_ids c' = (nextPermission (perms c) + 2, nextUsage (perms c) + 2, nextAccount c + 1, nextLink (perms c))) /\
  has_perm (perms c') name ActiveName (nextPermission (perms c)) (nextPermission (perms c) + 1) /\
  (forall n pa i, has_perm (perms c') name n pa i -> n = OwnerName \/ n = ActiveName).
Proof.
  intros Hc Hroom Hpos Hnew Hwo Hwa H. apply CreateNativeAccount_run in H as (a & m & s1 & s2 & p & q & d & Ei & En & Hp & Hq & ->).
  assert (Hc' : chain_ok (set_perms s2 (set_sequences m (i64 (nextSequence c + 1))
      (set_accounts (<[nextAccount c := a]> (accounts c)) (i64 (nextAccount c + 1)) c)))).
  { rewrite <- En in Hpos, Hnew, Hp, Hq. eapply account_created_ok; [done|done|exact Ei|exact Hpos|exact Hnew|exact Hwo|exact Hwa|exact Hp|exact Hq]. }
  destruct Hroom as [R1 R2 R3 R4]. pose proof (ok_perms c Hc) as Hok. pose proof (nextPermission_nonneg _ Hok). pose proof (next_account c Hc).
  pose proof (CreatePermission_next _ _ _ _ _ _ _ _ Hp) as [N1 N2]. rewrite i64_small in N1, N2 by lia.
  pose proof (CreatePermission_next _ _ _ _ _ _ _ _ Hq) as [N3 N4]. rewrite N1, i64_small in N3 by lia. rewrite N2, i64_small in N4 by lia.
  assert (Hfree : forall n pa i, ~ has_perm (perms c) name n pa i) by (intros n pa i Hx; by eapply Hnew, perm_account).
  pose proof (CreatePermission_shapes _ _ _ _ _ _ _ _ Hok Hp) as (I1 & _ & _ & _ & _ & M1 & _ & S1).
  apply CreatePermission_ok in Hp as [Hok1 _]; [|done|split; lia|by left|by apply find_owner_free|done].
  pose proof (CreatePermission_shapes _ _ _ _ _ _ _ _ Hok1 Hq) as (_ & _ & _ & _ & _ & M2 & _ & S2).
  split_and!.
  - by apply chain_ok_resources.
  - intros n. split.
    + intros (k & b & Hk & <-). cbn in Hk. apply lookup_insert_Some in Hk as [[<- <-]|[? Hk]]; [right; done|left; by exists k, b].
    + intros [(k & b & Hk & <-)| ->]; [exists k, b|exists (nextAccount c), a]; cbn; [|by rewrite lookup_insert_eq].
      rewrite lookup_insert_ne; [done|]. apply (acc_key c Hc) in Hk. lia.
  - unfold next_ids. cbn. rewrite N3, N4, M2, M1, i64_small by lia. by rewrite <- !Z.add_assoc.
  - cbn. apply S2. right. split_and!; [done|done|by rewrite I1|by rewrite N1].
  - cbn. intros n pa i [[Hx|(_ & -> & _)]%S1|(_ & -> & _)]%S2; [by destruct (Hfree _ _ _ Hx)|by left|by right].
Qed.

Lemma empty_chain_ok p : p = empty_perms (PendingBlockTime p) (MaxTrxDelay p) (MaxAuthorityDepth p) -> chain_ok (empty_chain p).
Proof.
  intros ->. assert (Hno : forall n, ~ has_account (empty_chain (empty_perms (PendingBlockTime p) (MaxTrxDelay p) (MaxAuthorityDepth p))) n).
  { intros n (k & a & Hk & _). cbn in Hk. by rewrite lookup_empty in Hk. }
  split; try done.
  - apply perms_ok_rows; [apply map_Forall_empty..|by left].
  - intros n Hn. by destruct (Hno n).
  - intros o n pa i (q & Hq & _). cbn in Hq. by rewrite lookup_empty in Hq.
Qed.

Lemma next_ids_inv c a b n l : next_ids c = (a, b, n, l) ->
  nextPermission (perms c) = a /\ nextUsage (perms c) = b /\ nextAccount c = n /\ nextLink (perms c) = l.
Proof. unfold next_ids. by intros [= -> -> -> ->]. Qed.

Lemma chain_room_ids c a b n l : next_ids c = (a, b, n, l) -> a < 2 ^ 63 - 2 -> 0 <= b < 2 ^ 63 - 2 -> n < 2 ^ 63 - 1 -> l < 2 ^ 63 - 1 -> chain_room c.
Proof. unfold next_ids. intros [= Ha Hb Hn Hl]. split; lia. Qed.

(** The state of a new chain. *)
Lemma initialize_accounts_ok t abi key p c : p = empty_perms (PendingBlockTime p) (MaxTrxDelay p) (MaxAuthorityDepth p) ->
  initialize_accounts t abi key (empty_chain p) = (c, Ok tt) -> chain_ok c.
Proof.
  unfold initialize_accounts. intros Ep H. pose proof (empty_chain_ok p Ep) as H0.
  assert (I0 : next_ids (empty_chain p) = (0, 0, 0, 0)) by (by rewrite Ep).
  assert (A0 : forall n, ~ has_account (empty_chain p) n) by (intros n (k & a & Hk & _); cbn in Hk; by rewrite lookup_empty in Hk).
  assert (Hwf : auth_wf (NewAuthority key 0) /\ auth_wf (mkAuthority 1 [] [] []) /\
    auth_wf (mkAuthority 1 [] [mkPermissionLevelWeight (mkPermissionLevel SystemAccountName ActiveName) 1] [])).
  { split_and!; (split; cbn; repeat constructor; by_decide). }
  destruct Hwf as (W1 & W2 & W3).
  apply run_bind in H as (c1 & [] & H1 & H). apply CreateNativeAccount_ok in H1 as (K1 & A1 & I1 & _); [|done|by eapply chain_room_ids|done|done|done..].
  apply run_bind in H as (c2 & [] & H2 & H). pose proof (next_ids_inv _ _ _ _ _ I0) as (E1 & E2 & E3 & E4). rewrite E1, E2, E3, E4 in I1.
  apply CreateNativeAccount_ok in H2 as (K2 & A2 & I2 & _); [|done|by eapply chain_room_ids|done| |done..].
  2:{ rewrite A1. intros [Hx|Hx]; [by eapply A0|done]. }
  apply run_bind in H as (c3 & [] & H3 & H). pose proof (next_ids_inv _ _ _ _ _ I1) as (F1 & F2 & F3 & F4). rewrite F1, F2, F3, F4 in I2.
  apply CreateNativeAccount_ok in H3 as (K3 & A3 & I3 & P3 & Q3); [|done|by eapply chain_room_ids|done| |done..].
  2:{ rewrite A2, A1. intros [[Hx|Hx]|Hx]; [by eapply A0|done..]. }
  pose proof (next_ids_inv _ _ _ _ _ I2) as (G1 & G2 & G3 & G4). rewrite G1, G2, G3, G4 in I3. run_step H.
  apply run_bind in H as (c3' & ap & Hr & H). run_step Hr.
  pose proof (GetPermission_stored _ _ _ (ok_perms _ K3) Hr) as (Sap & Oap & _). cbn in Oap.
  assert (Hacc : has_account c3 ProducersAccountName) by (apply A3; by right).
  apply run_bind in H as (c4 & mj & (s1 & Hmj & ->)%run_in_perms & H). apply run_bind in H as (c5 & mn & (s2 & Hmn & ->)%run_in_perms & H). run_step H.
  assert (K4 : chain_ok (set_perms s1 c3)).
  { eapply permission_created_ok; [done|by eapply chain_room_ids|exact Hacc|right; by exists ap| |exact W3|exact Hmj].
    apply find_owner_free; [apply K3|]. intros pa i [Hx|Hx]%Q3; done. }
  pose proof (CreatePermission_shapes _ _ _ _ _ _ _ _ (ok_perms _ K3) Hmj) as (Imj & Omj & _ & _ & L & N & Emj & S).
  pose proof (CreatePermission_next _ _ _ _ _ _ _ _ Hmj) as [N1 N2]. pose proof (next_ids_inv _ _ _ _ _ I3) as (J1 & J2 & J3 & J4).
  eapply (permission_created_ok (set_perms s1 c3)); [done| |done| | |exact W3|exact Hmn].
  - eapply chain_room_ids; [unfold next_ids; cbn; by rewrite N1, N2, N, J1, J2, J3, J4|done..].
  - right. exists mj. cbn. rewrite Emj, Imj, lookup_insert_eq. done.
  - apply find_owner_free; [apply K4|]. intros pa i. cbn. rewrite S. intros [[Hx|Hx]%Q3|(_ & Hx & _)]; done.
Qed.

Lemma producers_authority_wf threshold producers : in_u 32 threshold -> auth_wf (producers_authority threshold producers).
Proof. intros Ht. split; cbn; [done|constructor| |constructor]. apply Forall_map, Forall_true. intros p. cbn. by_decide. Qed.

Lemma updatePermission_run producers name threshold c c' : updatePermission producers name threshold c = (c', Ok tt) ->
  exists p, GetPermission (perms c) (mkPermissionLevel ProducersAccountName name) = Ok p /\
    c' = (if authority_eqb (poAuth p) (producers_authority threshold producers) then c
          else set_perms (set_permissions (<[poID p := mkPermissionObject (poParent p) (poID p) (UsageId p) (poOwner p) (poName p) (LastUpdated p)
                 (producers_authority threshold producers)]> (permissions (perms c))) (nextPermission (perms c)) (perms c)) c).
Proof.
  unfold updatePermission. intros H. run_step H. apply run_bind in H as (c1 & p & Hr & H). run_step Hr. exists p. split; [done|].
  destruct (authority_eqb _ _); cbn [negb] in H; [by run_step H|]. apply run_in_perms in H as (s & [= <-] & ->). done.
Qed.

Lemma updatePermission_ok producers name threshold c c' : chain_ok c -> in_u 32 threshold ->
  updatePermission producers name threshold c = (c', Ok tt) -> chain_ok c'.
Proof.
  intros Hc Ht (p & Hp & ->)%updatePermission_run. destruct (authority_eqb _ _); [done|].
  apply GetPermission_stored in Hp as [Hst _]; [|apply Hc]. apply (authority_replaced_ok c p); try done. by apply producers_authority_wf.
Qed.

Lemma updateProducersAuthority_ok producers c c' : chain_ok c -> updateProducersAuthority producers c = (c', Ok tt) -> chain_ok c'.
Proof.
  unfold updateProducersAuthority. intros Hc H. apply run_bind in H as (c1 & [] & H1 & H). apply run_bind in H as (c2 & [] & H2 & H).
  assert (Ht : forall a b, in_u 32 (calculateThreshold (len producers) a b)) by (intros; apply uwrap_range; lia).
  by eapply updatePermission_ok in H; [|eapply updatePermission_ok in H2; [exact H2|eapply updatePermission_ok in H1; [exact H1|..]|]|].
Qed.

(** *** Accounts stay *)

Lemma accounts_stay validate a x x' name : chain_ok (chain x) -> actors_exist x ->
  NativeActions.apply validate a x = (x', Ok tt) -> has_account (chain x) name -> has_account (chain x') name.
Proof.
  intros Hc Hx H (k & r & Hk & Hn).
  assert (Hset : forall i r', accounts (chain x) !! i = Some r' -> forall r'', accName r'' = accName r' ->
    exists k r, <[i := r'']> (accounts (chain x)) !! k = Some r /\ accName r = name).
  { intros i r' Hi r'' E. destruct (decide (i = k)) as [->|?]; [exists k, r''; rewrite lookup_insert_eq; naive_solver congruence|].
    exists k, r. by rewrite lookup_insert_ne. }
  unfold has_account. destruct a as [a|a|a|a|a|a|a|a]; cbn [NativeActions.apply] in H.
  - apply newaccount_run in H as (_ & _ & s1 & s2 & p & q & d & _ & _ & _ & ->). cbn. exists k, r.
    rewrite lookup_insert_ne; [done|]. apply (acc_key _ Hc) in Hk. lia.
  - apply setcode_run in H as (x1 & h & m & d & Ha & _ & _ & ->). apply required_account in Ha as [_ Hacc]; [|done].
    destruct (account_or_zero_row _ _ Hc Hacc) as (b & _ & Hb & -> & _). by eapply Hset.
  - apply setabi_run in H as (x1 & m & d & Ha & _ & ->). apply required_account in Ha as [_ Hacc]; [|done].
    destruct (account_or_zero_row _ _ Hc Hacc) as (b & _ & Hb & -> & _). by eapply Hset.
  - apply updateauth_run in H as (x1 & s & p & d & i & _ & _ & _ & ->). by exists k, r.
  - apply deleteauth_run in H as (x1 & s & d & p & _ & _ & _ & _ & _ & _ & _ & ->). by exists k, r.
  - apply linkauth_run in H as (x1 & s & d & _ & _ & _ & _ & _ & ->). by exists k, r.
  - apply unlinkauth_run in H as (x1 & d & l & _ & _ & _ & ->). by exists k, r.
  - unfold applyEosioCanceldelay in H. apply run_bind in H as (x1 & [] & (E & _)%RequireAuthorization_run & H).
    apply run_bind in H as (x2 & b & H2%CancelDeferredTransaction2_run & H). run_step H. rewrite E in H2.
    destruct (find_generated _ _ _); [destruct H2 as (_ & d & _ & ->)|destruct H2 as [_ ->]; rewrite E]; by exists k, r.
Qed.

(** *** What the check of the referenced accounts establishes *)

Lemma assert_then {A} b e (k : unit -> result A) r : (EosAssert b e ≫= k) = Ok r <-> b = true /\ k tt = Ok r.
Proof. destruct b; cbn; naive_solver. Qed.

Lemma len_zero {A} (l : list A) : (len l =? 0) = true <-> l = [].
Proof. unfold len. rewrite Z.eqb_eq. destruct l; cbn [length]; split; try done; lia. Qed.

Lemma check_cfa_iff c l : check_cfa c l = Ok tt <-> Forall (fun a => has_account c (actAccount a) /\ Authorization a = []) l.
Proof.
  induction l as [|a l IH]; [by split; [constructor|]|]. cbn [check_cfa].
  rewrite !assert_then, IH, Forall_cons, IsAccount_has, len_zero. tauto.
Qed.

(** A permission that exists: neither of its names is empty. *)
Definition level_exists (c : Chain) (l : PermissionLevel) : Prop :=
  has_account c (Actor l) /\ Actor l <> 0 /\ Permission l <> 0 /\ is_Some (find_owner (Actor l) (Permission l) (perms c)).

Lemma check_auths_iff c l : check_auths c l = Ok tt <-> Forall (level_exists c) l.
Proof.
  induction l as [|a l IH]; [by split; [constructor|]|]. cbn [check_auths]. unfold FindPermission.
  rewrite assert_then, Forall_cons, IsAccount_has. unfold level_exists at 1. rewrite <- IH.
  destruct (Z.eqb_spec (Actor a) 0) as [E1|E1], (Z.eqb_spec (Permission a) 0) as [E2|E2]; cbn; [naive_solver..|].
  destruct (find_owner _ _ _) as [p|]; cbn; [|split; [by intros [_ ?]|intros ((_ & _ & _ & [q ?]) & _); done]]. rewrite is_Some_alt. tauto.
Qed.

Lemma check_referenced_iff c l b r : check_referenced c l b = Ok r <->
  Forall (fun a => has_account c (actAccount a) /\ Forall (level_exists c) (Authorization a)) l /\
  r = b || existsb (fun a => negb (len (Authorization a) =? 0)) l.
Proof.
  revert b. induction l as [|a l IH]; intros b; [cbn; rewrite orb_false_r; naive_solver|]. cbn [check_referenced existsb].
  rewrite assert_then, Forall_cons, IsAccount_has, <- check_auths_iff, orb_assoc.
  destruct (check_auths c (Authorization a)) as [[]|e] eqn:E; cbn [mbind]; cbn; [rewrite IH; tauto|naive_solver].
Qed.

(** The check of the referenced accounts is exact: it passes exactly when every
    contract exists, context-free actions declare no authorization, every authorization
    names an account and a permission of it that exist, and there is at least one. *)
Theorem referenced_accounts_exact c t : ValidateReferencedAccounts c t = Ok tt <->
  Forall (fun a => has_account c (actAccount a) /\ Authorization a = []) (ContextFreeActions t) /\
  Forall (fun a => has_account c (actAccount a) /\ Forall (level_exists c) (Authorization a)) (Actions t) /\
  Exists (fun a => Authorization a <> []) (Actions t).
Proof.
  unfold ValidateReferencedAccounts. rewrite <- check_cfa_iff. destruct (check_cfa c (ContextFreeActions t)) as [[]|e]; cbn [mbind]; cbn; [|naive_solver].
  rewrite bind_Ok. setoid_rewrite check_referenced_iff. setoid_rewrite EosAssert_Ok.
  assert (Hex : existsb (fun a => negb (len (Authorization a) =? 0)) (Actions t) = true <-> Exists (fun a => Authorization a <> []) (Actions t)).
  { rewrite existsb_exists, Exists_exists. setoid_rewrite list_elem_of_In. setoid_rewrite negb_true_iff.
    setoid_rewrite <- not_true_iff_false. by setoid_rewrite len_zero. }
  rewrite <- Hex. cbn. naive_solver.
Qed.

Lemma validated_actors c t a : ValidateReferencedAccounts c t = Ok tt -> a ∈ Actions t ->
  Forall (fun d => has_account c (Actor d)) (Authorization a).
Proof.
  unfold ValidateReferencedAccounts. intros ([] & _ & (b & [Hf _]%check_referenced_iff & _)%bind_Ok)%bind_Ok Ha.
  rewrite Forall_forall in Hf. destruct (Hf a Ha) as [_ Hl]. eapply Forall_impl; [exact Hl|]. by intros d [].
Qed.

(** *** The states of a chain

    [decode] gives the native action an action carries; any other action runs a contract,
    which reaches this part of the state through resource usage and deferred
    transactions. *)
Section States.
Context (validate : bool -> bytes -> result unit) (decode : Action -> option native).

Inductive run_actions : list Action -> Chain -> Chain -> Prop :=
| run_none c : run_actions [] c c
| run_native a n l x x' c : decode a = Some n -> typed n -> chain_room (chain x) -> ctxAuthorization x = Authorization a ->
    NativeActions.apply validate n x = (x', Ok tt) -> run_actions l (chain x') c -> run_actions (a :: l) (chain x) c
| run_contract a d m k l c c' : decode a = None ->
    run_actions l (set_resources d (set_perms (set_generated m k (perms c)) c)) c' -> run_actions (a :: l) c c'.

(** The next block, with its time. *)
Definition set_block_time (t : Z) (s : Perms) : Perms :=
  mkPerms (permissions s) (nextPermission s) (permUsages s) (nextUsage s) (links s) (nextLink s) (generated s) (nextGenerated s)
    t (MaxTrxDelay s) (MaxAuthorityDepth s).

(** A new chain; a transaction that passed the check of its accounts; a block that
    replaced the producers; and the end of a block, which processes the resource limits,
    removes deferred transactions and is followed by a block of a later time. *)
Inductive chain_state : Chain -> Prop :=
| state_new t abi key p c : p = empty_perms (PendingBlockTime p) (MaxTrxDelay p) (MaxAuthorityDepth p) ->
    initialize_accounts t abi key (empty_chain p) = (c, Ok tt) -> chain_state c
| state_transaction t c c' : chain_state c -> ValidateReferencedAccounts c t = Ok tt -> run_actions (Actions t) c c' -> chain_state c'
| state_producers producers c c' : chain_state c -> updateProducersAuthority producers c = (c', Ok tt) -> chain_state c'
| state_block d m k t c : chain_state c -> chain_state (set_resources d (set_perms (set_block_time t (set_generated m k (perms c))) c)).

Lemma run_actions_ok l c c' : run_actions l c c' -> chain_ok c ->
  Forall (fun a => Forall (fun d => has_account c (Actor d)) (Authorization a)) l -> chain_ok c'.
Proof.
  induction 1 as [c|a n l x x' c _ Ht Hr Ea Ha Hl IH|a d m k l c c' _ Hl IH]; intros Hc Hf; [done|..]; apply Forall_cons in Hf as [Hf1 Hf2].
  - assert (Hx : actors_exist x) by (intros d Hd; rewrite Ea in Hd; by eapply Forall_forall in Hf1).
    apply IH; [by eapply native_actions_keep_chain|]. eapply Forall_impl; [exact Hf2|]. intros b Hb.
    eapply Forall_impl; [exact Hb|]. intros d Hd. by eapply accounts_stay.
  - by apply IH; [apply chain_ok_resources, chain_ok_generated|].
Qed.

(** C17. Every state of a chain is well formed, from its first block and through its
    transactions, changes of producers and blocks: accounts have distinct names, each has
    its permission [owner] as a root and [active] below it, permissions form a tree in
    the account they belong to, with authorities that fit their types, and a permission
    link names accounts and a permission that exist. *)
Theorem chain_invariant c : chain_state c -> chain_ok c.
Proof.
  induction 1 as [t abi key p c Hp H|t c c' _ IH Hv Hr|producers c c' _ IH H|d m k t c _ IH].
  - by eapply initialize_accounts_ok.
  - eapply run_actions_ok; [exact Hr|exact IH|]. apply Forall_forall. intros a Ha. by eapply validated_actors.
  - by eapply updateProducersAuthority_ok.
  - apply chain_ok_resources. apply (chain_ok_generated c m k) in IH as [Hp]. split; try done. by destruct Hp.
Qed.
End States.

(** A new chain, and the transaction of [eosio] that creates [alice]. *)
Definition genesis_key : PublicKey := mkPublicKey 0 [7].
Definition new_chain : Chain := Eval vm_compute in
  (initialize_accounts 1000000000000000 [] genesis_key (empty_chain (empty_perms 1000000000000000 3888000 6))).1.
Definition create_action : Action := mkAction SystemAccountName (named "newaccount") [eosio_active] [].
Definition create_trx : Transaction := mkTransaction (mkTransactionHeader 0 0 0 0 0 0) [] [create_action] [].
Definition created : Context := Eval vm_compute in (NativeActions.apply (fun _ _ => Ok tt) (ANewAccount create_alice) (context_of [eosio_active] new_chain)).1.

Lemma chain_invariant_witness :
  chain_state (fun _ _ => Ok tt) (fun _ => Some (ANewAccount create_alice)) (chain created) /\ chain_ok (chain created) /\
  IsAccount alice_name (chain created) = true.
Proof.
  assert (H : chain_state (fun _ _ => Ok tt) (fun _ => Some (ANewAccount create_alice)) (chain created)).
  { apply (state_transaction _ _ create_trx new_chain).
    - eapply (state_new _ _ _ _ _ (empty_perms 1000000000000000 3888000 6)); [reflexivity|].
      unfold new_chain. instantiate (1 := genesis_key). instantiate (1 := []). instantiate (1 := 1000000000000000). by_eval.
    - by_eval.
    - refine (run_native _ _ create_action (ANewAccount create_alice) [] (context_of [eosio_active] new_chain) created _ eq_refl _ _ eq_refl _ _);
        [by_decide|split; vm_compute; by split|by_eval|constructor]. }
  split_and!; [exact H|exact (chain_invariant _ _ _ H)|by_eval].
Defined.

(** ** Reference blocks *)

(** The summaries after the blocks [ids], oldest first. *)
Fixpoint add_summaries (ids : list Sha256) (summaries : gmap Z Sha256) : result (gmap Z Sha256) :=
  match ids with
  | [] => Ok summaries
  | id :: ids' => summaries' ← createBlockSummary id summaries; add_summaries ids' summaries'
  end.

(** The last block whose number is [n] modulo 65536. *)
Definition latest (n : Z) (ids : list Sha256) : option Sha256 := last (filter (fun id => NumFromID id mod 2 ^ 16 = n) ids).

Lemma land_u16 n : Z.land n 0xffff = n mod 2 ^ 16.
Proof. change 0xffff with (Z.ones 16). by rewrite Z.land_ones. Qed.

Lemma initial_summaries_lookup head n : in_u 16 n -> initial_summaries head !! n = Some (if n =? 1 then head else NewSha256Nil).
Proof.
  intros Hn. unfold initial_summaries. destruct (Z.eqb_spec n 1) as [->|Hne]; [apply lookup_insert_eq|rewrite lookup_insert_ne by done].
  apply elem_of_list_to_map_1'; [by intros y (i & [= _ ->] & _)%list_elem_of_fmap|].
  apply list_elem_of_fmap. exists (Z.to_nat n). unfold in_u in Hn. change (2 ^ 16) with 65536 in Hn. split; [f_equal; lia|].
  apply elem_of_seq. split; [lia|]. apply Nat2Z.inj_lt. replace (Z.of_nat (0 + 0x10000)) with 65536 by (vm_compute; reflexivity). lia.
Qed.

Lemma latest_cons n id ids : latest n (id :: ids) =
  match latest n ids with Some x => Some x | None => if decide (NumFromID id mod 2 ^ 16 = n) then Some id else None end.
Proof.
  unfold latest. rewrite filter_cons. destruct (decide _); [|by destruct (last _)]. by rewrite last_cons.
Qed.

Lemma add_summaries_total ids summaries : (forall n, in_u 16 n -> is_Some (summaries !! n)) ->
  exists s, add_summaries ids summaries = Ok s /\
    forall n, in_u 16 n -> s !! n = match latest n ids with Some id => Some id | None => summaries !! n end.
Proof.
  revert summaries. induction ids as [|id ids IH]; intros summaries Hs; [by exists summaries|]. cbn [add_summaries].
  unfold createBlockSummary. rewrite land_u16. set (k := NumFromID id mod 2 ^ 16).
  assert (Hk : in_u 16 k) by (apply Z.mod_pos_bound; lia). destruct (Hs k Hk) as [old ->]. rewrite Ok_bind.
  destruct (IH (<[k := id]> summaries)) as (s & E & Hl).
  { intros n Hn. destruct (decide (k = n)) as [->|?]; [by rewrite lookup_insert_eq|rewrite lookup_insert_ne by done; by apply Hs]. }
  exists s. split; [done|]. intros n Hn. rewrite Hl, latest_cons by done. destruct (latest n ids); [done|]. fold k.
  destruct (decide (k = n)) as [->|?]; [by rewrite lookup_insert_eq|by rewrite lookup_insert_ne].
Qed.

Lemma verify_reference_iff h id : NumFromID id mod 2 ^ 16 = RefBlockNum h -> VerifyReferenceBlock h id = true <-> RefBlockPrefix h = u32 (Hash1 id).
Proof.
  unfold VerifyReferenceBlock, NumFromID. intros E. rewrite andb_true_iff, !Z.eqb_eq. unfold uwrap at 1. rewrite E. tauto.
Qed.

Lemma latest_slot n ids id : latest n ids = Some id -> id ∈ ids /\ NumFromID id mod 2 ^ 16 = n.
Proof. unfold latest. intros Hl%last_Some_elem_of. by apply list_elem_of_filter in Hl as [? ?]. Qed.

(** C27. A reference block is accepted exactly when it is on the chain: recording the
    blocks of a chain never fails, and afterwards a transaction passes [ValidateTapos]
    exactly when its prefix is the one of the last block whose number agrees with
    [RefBlockNum] modulo 65536 (before there is one, of the block the chain started from
    or of an empty id).  So a reference made with [SetReferenceBlock] is good until
    65536 further blocks replace it, and only for a chain that has that block. *)
Theorem tapos_exact head ids : exists s, add_summaries ids (initial_summaries head) = Ok s /\
  (forall h, in_u 16 (RefBlockNum h) -> ValidateTapos s h = Ok tt <->
     match latest (RefBlockNum h) ids with
     | Some id => RefBlockPrefix h = u32 (Hash1 id)
     | None => VerifyReferenceBlock h (if RefBlockNum h =? 1 then head else NewSha256Nil) = true
     end) /\
  (forall id h, latest (NumFromID id mod 2 ^ 16) ids = Some id -> ValidateTapos s (SetReferenceBlock id h) = Ok tt).
Proof.
  destruct (add_summaries_total ids (initial_summaries head)) as (s & E & Hl).
  { intros n Hn. rewrite initial_summaries_lookup by done. eauto. }
  exists s. assert (Hv : forall h, in_u 16 (RefBlockNum h) -> ValidateTapos s h = Ok tt <->
     match latest (RefBlockNum h) ids with
     | Some id => RefBlockPrefix h = u32 (Hash1 id)
     | None => VerifyReferenceBlock h (if RefBlockNum h =? 1 then head else NewSha256Nil) = true
     end).
  { intros h Hh. unfold ValidateTapos. rewrite EosAssert_Ok, Hl, initial_summaries_lookup by done.
    destruct (latest _ _) as [id|] eqn:El; [|done]. apply latest_slot in El as [_ Hs]. by apply verify_reference_iff. }
  split_and!; [done|done|]. intros id h Hid. apply Hv; cbn [RefBlockNum RefBlockPrefix SetReferenceBlock]; [apply uwrap_range; lia|].
  change (u16 (EndianReverseU32 (u32 (Hash0 id)))) with (NumFromID id mod 2 ^ 16). by rewrite Hid.
Qed.

(** Two blocks of the same slot: only the later one can be referred to. *)
Definition block_2 : Sha256 := mkSha256 0x02000000 5 0 0.
Definition block_65538 : Sha256 := mkSha256 0x02000100 6 0 0.

Lemma tapos_exact_witness : exists s, add_summaries [block_2; block_65538] (initial_summaries NewSha256Nil) = Ok s /\
  ValidateTapos s (SetReferenceBlock block_65538 (mkTransactionHeader 0 0 0 0 0 0)) = Ok tt /\
  ValidateTapos s (SetReferenceBlock block_2 (mkTransactionHeader 0 0 0 0 0 0)) <> Ok tt.
Proof.
  destruct (tapos_exact NewSha256Nil [block_2; block_65538]) as (s & E & Hv & Hs). exists s.
  split_and!; [done|by apply Hs; vm_compute|]. rewrite Hv by by_decide. by vm_compute.
Defined.
