(* ===== verification/ContractTables.v ===== *)
(** * ContractTables: the tables of contracts and the iterators into them

    The table functions of [chain/apply_context.go]: the iterator cache, the tables of a
    contract ([FindTable], [FindOrCreateTable]) and the operations on their rows by
    primary key ([DbStoreI64] to [DbEndI64]), with the RAM they are billed for, and
    [TableIdObject] and [KeyValueObject] of [entity/contract_table_objects.go].

    A row is stored under its id and under the key of its index; the index is in the
    order of the keys ([DbPack.db_key_order], [DbIndex.index_bounds]).  A modification
    replaces what the pointer held by what it holds, whatever is stored; nothing looks
    whether a key is taken ([DbSession.duplicate_key_accepted]).  The objects behind the
    pointers of the cache are values of its slots: a slot is the only holder of its
    object. *)

From S2P Require Import Prelude Uint128 Bytes Rlp Sha256 Ecc Name Time Authority Permissions NativeActions.

(** ** Stored objects *)

Record TableIdObject : Type := mkTableIdObject {
  tabID : Z; tabCode : Z; tabScope : Z; tabTable : Z; tabPayer : Z; tabCount : Z }.

Record KeyValueObject : Type := mkKeyValueObject {
  kvID : Z; kvTId : Z; PrimaryKey : Z; kvPayer : Z; kvValue : bytes }.

(** Objects by id, with one index. *)
Record Indexed (K R : Type) `{Countable K} : Type := mkIndexed { irows : gmap Z R; ikeys : gmap K Z; inext : Z }.
Arguments mkIndexed {K R _ _} _ _ _.
Arguments irows {K R _ _} _.
Arguments ikeys {K R _ _} _.
Arguments inext {K R _ _} _.

Section Indexed.
Context {K R : Type} `{Countable K} (id : R -> Z) (key : R -> K).

Definition db_Find (k : K) (t : Indexed K R) : option R := ikeys t !! k ≫= fun i => irows t !! i.

Definition db_Insert (mk : Z -> R) (t : Indexed K R) : R * Indexed K R :=
  let o := mk (inext t) in
  (o, mkIndexed (<[id o := o]> (irows t)) (<[key o := id o]> (ikeys t)) (i64 (inext t + 1))).

Definition db_Modify (old new : R) (t : Indexed K R) : Indexed K R :=
  mkIndexed (<[id new := new]> (delete (id old) (irows t))) (<[key new := id new]> (delete (key old) (ikeys t))) (inext t).

Definition db_Remove (o : R) (t : Indexed K R) : Indexed K R :=
  match irows t !! id o with
  | None => t
  | Some _ => mkIndexed (delete (id o) (irows t)) (delete (key o) (ikeys t)) (inext t)
  end.
End Indexed.

Definition table_key (t : TableIdObject) : Z * Z * Z := (tabCode t, tabScope t, tabTable t).
Definition row_key (o : KeyValueObject) : Z * Z := (kvTId o, PrimaryKey o).

(** *** The index by table and primary key *)

Definition key_lt (a b : Z * Z) : bool := (a.1 <? b.1) || ((a.1 =? b.1) && (a.2 <? b.2)).

(** The best of the keys that pass a test. *)
Fixpoint best (better : Z * Z -> Z * Z -> bool) (ok : Z * Z -> bool) (l : list (Z * Z)) : option (Z * Z) :=
  match l with
  | [] => None
  | k :: l' =>
      let r := best better ok l' in
      if ok k then match r with Some k' => if better k' k then r else Some k | None => Some k end else r
  end.

Definition keys (m : gmap (Z * Z) Z) : list (Z * Z) := (map_to_list m).*1.
(** The first key that is not below [k], the first one above it, the last one below it,
    and the first and the last of all. *)
Definition seek (k : Z * Z) (m : gmap (Z * Z) Z) : option (Z * Z) := best key_lt (fun x => negb (key_lt x k)) (keys m).
Definition after (k : Z * Z) (m : gmap (Z * Z) Z) : option (Z * Z) := best key_lt (key_lt k) (keys m).
Definition before (k : Z * Z) (m : gmap (Z * Z) Z) : option (Z * Z) := best (fun a b => key_lt b a) (fun x => key_lt x k) (keys m).
Definition begin_ (m : gmap (Z * Z) Z) : option (Z * Z) := best key_lt (fun _ => true) (keys m).
Definition last_ (m : gmap (Z * Z) Z) : option (Z * Z) := best (fun a b => key_lt b a) (fun _ => true) (keys m).

(** [keyEnd] adds 1 to the last byte of a key; 255 becomes 0. *)
Definition last_byte_up (z : Z) : Z := 256 * (z / 256) + (z + 1) mod 256.

(** ** The iterator cache *)

Record iteratorCache (O : Type) : Type := mkCache {
  tableCache : gmap Z (TableIdObject * Z); endIteratorToTable : list TableIdObject; iteratorToObject : list (option O) }.
Arguments mkCache {O} _ _ _.
Arguments tableCache {O} _.
Arguments endIteratorToTable {O} _.
Arguments iteratorToObject {O} _.

Section Cache.
Context {O : Type}.

Definition NewIteratorCache : iteratorCache O := mkCache ∅ [] [].
Definition endIteratorToIndex (ei : Z) : Z := - ei - 2.
Definition IndexToEndIterator (index : Z) : Z := - (index + 2).

Definition cacheTable (tobj : TableIdObject) (c : iteratorCache O) : Z * iteratorCache O :=
  match tableCache c !! tabID tobj with
  | Some (_, iterator) => (iterator, mkCache (<[tabID tobj := (tobj, iterator)]> (tableCache c)) (endIteratorToTable c) (iteratorToObject c))
  | None =>
      if 8 <=? len (endIteratorToTable c) then (0, c)
      else
        let ei := IndexToEndIterator (len (endIteratorToTable c)) in
        (ei, mkCache (<[tabID tobj := (tobj, ei)]> (tableCache c)) (endIteratorToTable c ++ [tobj]) (iteratorToObject c))
  end.

Definition getTable (id : Z) (c : iteratorCache O) : result TableIdObject :=
  match tableCache c !! id with Some (t, _) => Ok t | None => Throw TableNotInCache end.

Definition getEndIteratorByTableID (id : Z) (c : iteratorCache O) : result Z :=
  match tableCache c !! id with Some (_, it) => Ok it | None => Throw TableNotInCache end.

Definition findTablebyEndIterator (ei : Z) (c : iteratorCache O) : result (option TableIdObject) :=
  _ ← EosAssert (ei <? -1) InvalidTableIterator;
  Ok (endIteratorToTable c !! Z.to_nat (endIteratorToIndex ei)).

Definition slot (iterator : Z) (c : iteratorCache O) : result (option O) :=
  _ ← EosAssert (negb (iterator =? -1)) InvalidTableIterator;
  _ ← EosAssert (0 <=? iterator) TableOperationNotPermitted;
  match iteratorToObject c !! Z.to_nat iterator with Some o => Ok o | None => Throw InvalidTableIterator end.

Definition cache_get (iterator : Z) (c : iteratorCache O) : result O :=
  o ← slot iterator c;
  match o with Some o => Ok o | None => Throw TableOperationNotPermitted end.

Definition set_slot (iterator : Z) (o : option O) (c : iteratorCache O) : iteratorCache O :=
  mkCache (tableCache c) (endIteratorToTable c) (<[Z.to_nat iterator := o]> (iteratorToObject c)).

Definition cache_remove (iterator : Z) (c : iteratorCache O) : result (iteratorCache O) :=
  o ← slot iterator c;
  match o with Some _ => Ok (set_slot iterator None c) | None => Ok c end.

(** The table a pointer of the cache holds. *)
Definition set_table (t : TableIdObject) (c : iteratorCache O) : iteratorCache O :=
  match tableCache c !! tabID t with
  | Some (_, it) => mkCache (<[tabID t := (t, it)]> (tableCache c)) (endIteratorToTable c) (iteratorToObject c)
  | None => c
  end.

(** [key] gives the first 32 bytes of the serialized object. *)
Fixpoint find_slot (same : O -> bool) (l : list (option O)) (i : Z) : option Z :=
  match l with
  | [] => None
  | Some o :: l' => if same o then Some i else find_slot same l' (i + 1)
  | None :: l' => find_slot same l' (i + 1)
  end.

Definition add {B} `{EqDecision B} (key : O -> B) (obj : O) (c : iteratorCache O) : Z * iteratorCache O :=
  match find_slot (fun o => bool_decide (key o = key obj)) (iteratorToObject c) 0 with
  | Some itr => (itr, c)
  | None =>
      if 32 <=? len (iteratorToObject c) then (-1, c)
      else (len (iteratorToObject c), mkCache (tableCache c) (endIteratorToTable c) (iteratorToObject c ++ [Some obj]))
  end.
End Cache.

(** The words of the id, the table, the primary key and the payer ([kv_cache_key]). *)
Definition kv_ident (o : KeyValueObject) : Z * Z * Z * Z := (kvID o, kvTId o, PrimaryKey o, kvPayer o).

Definition g_row (o : KeyValueObject) : gval :=
  VPtr (Some (VStruct [(NoTag, VInt64 (kvID o)); (NoTag, VInt64 (kvTId o)); (NoTag, VUint64 (PrimaryKey o)); (NoTag, VUint64 (kvPayer o));
    (NoTag, VSlice (map VUint8 (kvValue o)))])).

Lemma kv_cache_key o bs : in_s 64 (kvID o) -> 0 <= kvID o -> in_s 64 (kvTId o) -> 0 <= kvTId o -> in_u 64 (PrimaryKey o) -> in_u 64 (kvPayer o) ->
  EncodeToBytes (g_row o) false = Ok bs -> NewSha256Byte bs = Ok (mkSha256 (kvID o) (kvTId o) (PrimaryKey o) (kvPayer o)).
Proof.
  intros H1 H1' H2 H2' H3 H4. unfold EncodeToBytes, g_row. cbn -[le_bytes writeInt64 writeUint64 NewSha256Byte].
  assert (forall z, 0 <= z -> in_s 64 z -> writeInt64 z = le_bytes 8 z /\ in_u 64 z) as Hi.
  { unfold writeInt64, writeUint64, in_s. intros z ? ?. assert (in_u 64 z) by (unfold in_u; norm_pow; lia). by rewrite uwrap_id. }
  destruct (Hi _ H1' H1) as [-> Hw1], (Hi _ H2' H2) as [-> Hw2]. unfold writeUint64. remember 8%nat as n eqn:En.
  intros ([b0 s0] & Hr & [= ->])%bind_Ok. apply bind_Ok in Hr as ([b1 s1] & Hr & [= <- _]). apply bind_Ok in Hr as ([b2 s2] & Hr & [= <- _]).
  apply bind_Ok in Hr as ([b3 s3] & Hr & [= <- _]). apply bind_Ok in Hr as ([b4 s4] & _ & [= <- _]). subst n.
  rewrite <- (NewSha256Byte_Bytes (mkSha256 (kvID o) (kvTId o) (PrimaryKey o) (kvPayer o)) b4) by (unfold Sha256.wf, Sha256.Hash; by repeat apply Forall_cons_2).
  unfold to_Bytes. cbn [Hash0 Hash1 Hash2 Hash3]. by rewrite <- !app_assoc.
Qed.

(** ** The context of an action *)

Record ApplyContext : Type := mkApplyContext {
  actx : Context; Receiver : Z; actCode : Z; Privileged : bool; IsRamBillingInNotifyAllowed : bool;
  tabs : Indexed (Z * Z * Z) TableIdObject; kvs : Indexed (Z * Z) KeyValueObject; KeyvalCache : iteratorCache KeyValueObject }.

Definition set_actx (x : Context) (a : ApplyContext) : ApplyContext :=
  mkApplyContext x (Receiver a) (actCode a) (Privileged a) (IsRamBillingInNotifyAllowed a) (tabs a) (kvs a) (KeyvalCache a).
Definition set_tabs (t : Indexed (Z * Z * Z) TableIdObject) (a : ApplyContext) : ApplyContext :=
  mkApplyContext (actx a) (Receiver a) (actCode a) (Privileged a) (IsRamBillingInNotifyAllowed a) t (kvs a) (KeyvalCache a).
Definition set_kvs (t : Indexed (Z * Z) KeyValueObject) (a : ApplyContext) : ApplyContext :=
  mkApplyContext (actx a) (Receiver a) (actCode a) (Privileged a) (IsRamBillingInNotifyAllowed a) (tabs a) t (KeyvalCache a).
Definition set_cache (c : iteratorCache KeyValueObject) (a : ApplyContext) : ApplyContext :=
  mkApplyContext (actx a) (Receiver a) (actCode a) (Privileged a) (IsRamBillingInNotifyAllowed a) (tabs a) (kvs a) c.

Definition in_context {A} (m : M Context A) : M ApplyContext A := fun a => let '(x, r) := m (actx a) in (set_actx x a, r).
Definition with_cache {A} (f : iteratorCache KeyValueObject -> A * iteratorCache KeyValueObject) : M ApplyContext A :=
  fun a => let '(r, c) := f (KeyvalCache a) in (set_cache c a, Ok r).

Definition UpdateDbUsage (payer delta : Z) : M ApplyContext unit :=
  a ← get;
  _ ← (if (0 <? delta) && negb (Privileged a || (payer =? Receiver a)) then
         _ ← assertM (IsRamBillingInNotifyAllowed a || (Receiver a =? actCode a)) SubjectiveBlockProductionException;
         in_context (RequireAuthorization payer)
       else mret tt);
  in_context (AddRamUsage payer delta).

(** *** Tables *)

Definition FindTable (code scope table : Z) (a : ApplyContext) : option TableIdObject := db_Find (code, scope, table) (tabs a).

Definition insert_table (t : Z -> TableIdObject) : M ApplyContext TableIdObject :=
  fun a => let '(o, tabs') := db_Insert tabID table_key t (tabs a) in (set_tabs tabs' a, Ok o).
Definition modify_table (old new : TableIdObject) : M ApplyContext unit := modify (fun a => set_tabs (db_Modify tabID table_key old new (tabs a)) a).
Definition remove_table (t : TableIdObject) : M ApplyContext unit := modify (fun a => set_tabs (db_Remove tabID table_key t (tabs a)) a).

Definition FindOrCreateTable (code scope table payer : Z) : M ApplyContext TableIdObject :=
  a ← get;
  match FindTable code scope table a with
  | Some tab => mret tab
  | None =>
      _ ← UpdateDbUsage payer (i64 (Billable "table_id_object"));
      insert_table (fun id => mkTableIdObject id code scope table payer 0)
  end.

(** Nothing calls it. *)
Definition RemoveTable (tid : TableIdObject) : M ApplyContext unit :=
  _ ← UpdateDbUsage (tabPayer tid) (i64 (- i64 (Billable "table_id_object")));
  remove_table (mkTableIdObject (tabID tid) 0 0 0 0 0).

Definition with_count (n : Z) (t : TableIdObject) : TableIdObject :=
  mkTableIdObject (tabID t) (tabCode t) (tabScope t) (tabTable t) (tabPayer t) (u32 n).

(** *** Rows *)

Definition billable_row (value : bytes) : Z := i64 (len value + i64 (Billable "key_value_object")).

Definition insert_row (o : Z -> KeyValueObject) : M ApplyContext KeyValueObject :=
  fun a => let '(o, kvs') := db_Insert kvID row_key o (kvs a) in (set_kvs kvs' a, Ok o).

Definition dbStoreI64 (code scope table payer id : Z) (buffer : bytes) : M ApplyContext Z :=
  tab ← FindOrCreateTable code scope table payer;
  _ ← assertM (negb (payer =? 0)) InvalidTablePayer;
  obj ← insert_row (fun i => mkKeyValueObject i (tabID tab) id payer buffer);
  let tab' := with_count (tabCount tab + 1) tab in
  _ ← modify_table tab tab';
  _ ← UpdateDbUsage payer (billable_row buffer);
  _ ← with_cache (cacheTable tab');
  with_cache (add kv_ident obj).

Definition DbStoreI64 (scope table payer id : Z) (buffer : bytes) : M ApplyContext Z :=
  a ← get; dbStoreI64 (Receiver a) scope table payer id buffer.

Definition DbUpdateI64 (iterator payer : Z) (buffer : bytes) : M ApplyContext unit :=
  a ← get;
  obj ← lift (cache_get iterator (KeyvalCache a));
  objTable ← lift (getTable (kvTId obj) (KeyvalCache a));
  _ ← assertM (tabCode objTable =? Receiver a) TableAccessViolation;
  let oldSize := billable_row (kvValue obj) in
  let newSize := billable_row buffer in
  let payerAccount := if payer =? 0 then kvPayer obj else payer in
  _ ← (if negb (kvPayer obj =? payerAccount) then
         _ ← UpdateDbUsage (kvPayer obj) (i64 (- oldSize));
         UpdateDbUsage payerAccount newSize
       else if negb (oldSize =? newSize) then UpdateDbUsage (kvPayer obj) (i64 (newSize - oldSize))
       else mret tt);
  let obj' := mkKeyValueObject (kvID obj) (kvTId obj) (PrimaryKey obj) payerAccount buffer in
  _ ← modify (fun a => set_kvs (db_Modify kvID row_key obj obj' (kvs a)) a);
  modify (fun a => set_cache (set_slot iterator (Some obj') (KeyvalCache a)) a).

Definition DbRemoveI64 (iterator : Z) : M ApplyContext unit :=
  a ← get;
  obj ← lift (cache_get iterator (KeyvalCache a));
  objTable ← lift (getTable (kvTId obj) (KeyvalCache a));
  _ ← assertM (tabCode objTable =? Receiver a) TableAccessViolation;
  _ ← UpdateDbUsage (kvPayer obj) (i64 (- billable_row (kvValue obj)));
  let objTable' := with_count (tabCount objTable - 1) objTable in
  _ ← modify_table objTable objTable';
  _ ← modify (fun a => set_cache (set_table objTable' (KeyvalCache a)) a);
  _ ← modify (fun a => set_kvs (db_Remove kvID row_key obj (kvs a)) a);
  _ ← (if tabCount objTable' =? 0 then remove_table objTable' else mret tt);
  a ← get;
  c ← lift (cache_remove iterator (KeyvalCache a));
  modify (set_cache c).

(** The size, or the bytes that are copied. *)
Definition DbGetI64 (iterator bufferSize : Z) (a : ApplyContext) : result (Z * bytes) :=
  obj ← cache_get iterator (KeyvalCache a);
  let s := len (kvValue obj) in
  if bufferSize =? 0 then Ok (s, [])
  else
    let copySize := Z.min (u64 bufferSize) s in
    Ok (copySize, take (Z.to_nat copySize) (kvValue obj)).

(** The row an index entry leads to.  The iterator, and the primary key when it is set. *)
Definition row_at (k : Z * Z) (a : ApplyContext) : option KeyValueObject := db_Find k (kvs a).

Definition found (k : Z * Z) : M ApplyContext (Z * option Z) :=
  a ← get;
  match row_at k a with
  | Some o => it ← with_cache (add kv_ident o); mret (it, Some (PrimaryKey o))
  | None => lift (Throw NilDereference)
  end.

Definition DbNextI64 (iterator : Z) : M ApplyContext (Z * option Z) :=
  if iterator <? -1 then mret (-1, None)
  else
    a ← get;
    obj ← lift (cache_get iterator (KeyvalCache a));
    match seek (row_key obj) (ikeys (kvs a)) with
    | None => lift (Throw GoPanic)
    | Some k =>
        match after k (ikeys (kvs a)) with
        | Some k' => if k'.1 =? kvTId obj then found k' else it ← lift (getEndIteratorByTableID (kvTId obj) (KeyvalCache a)); mret (it, None)
        | None => it ← lift (getEndIteratorByTableID (kvTId obj) (KeyvalCache a)); mret (it, None)
        end
    end.

(** From the end of a table, the bound is sought behind the table's id, whose last byte is
    raised. *)
Definition DbPreviousI64 (iterator : Z) : M ApplyContext (Z * option Z) :=
  a ← get;
  let m := ikeys (kvs a) in
  if iterator <? -1 then
    tab ← lift (findTablebyEndIterator iterator (KeyvalCache a));
    match tab with
    | None => lift (Throw InvalidTableIterator)
    | Some tab =>
        let prev := match seek (last_byte_up (tabID tab), 0) m with
                    | Some k => if bool_decide (begin_ m = Some k) then None else before k m
                    | None => last_ m
                    end in
        match prev with
        | Some k => if k.1 =? tabID tab then found k else mret (-1, None)
        | None => mret (-1, None)
        end
    end
  else
    obj ← lift (cache_get iterator (KeyvalCache a));
    match seek (row_key obj) m with
    | None => lift (Throw GoPanic)
    | Some k =>
        match before k m with
        | Some k' => if k'.1 =? kvTId obj then found k' else mret (-1, None)
        | None => mret (-1, None)
        end
    end.

Definition DbFindI64 (code scope table id : Z) : M ApplyContext Z :=
  a ← get;
  match FindTable code scope table a with
  | None => mret (-1)
  | Some tab =>
      tableEndItr ← with_cache (cacheTable tab);
      a ← get;
      match row_at (tabID tab, id) a with
      | None => mret tableEndItr
      | Some obj => with_cache (add kv_ident obj)
      end
  end.

Definition bound_at (code scope table : Z) (bound : TableIdObject -> Z * Z) : M ApplyContext Z :=
  a ← get;
  match FindTable code scope table a with
  | None => mret (-1)
  | Some tab =>
      tableEndItr ← with_cache (cacheTable tab);
      a ← get;
      match seek (bound tab) (ikeys (kvs a)) with
      | Some k => if k.1 =? tabID tab then r ← found k; mret r.1 else mret tableEndItr
      | None => mret tableEndItr
      end
  end.

Definition DbLowerboundI64 (code scope table id : Z) : M ApplyContext Z := bound_at code scope table (fun tab => (tabID tab, id)).
Definition DbUpperboundI64 (code scope table id : Z) : M ApplyContext Z := bound_at code scope table (fun tab => (tabID tab, last_byte_up id)).

Definition DbEndI64 (code scope table : Z) : M ApplyContext Z :=
  a ← get;
  match FindTable code scope table a with
  | None => mret (-1)
  | Some tab => with_cache (cacheTable tab)
  end.

(** ** The order of the index *)

Lemma key_lt_iff a b : key_lt a b = true <-> a.1 < b.1 \/ a.1 = b.1 /\ a.2 < b.2.
Proof. unfold key_lt. rewrite orb_true_iff, andb_true_iff, !Z.ltb_lt, Z.eqb_eq. done. Qed.

Lemma key_lt_neg a b : key_lt a b = false <-> b.1 < a.1 \/ b.1 = a.1 /\ b.2 <= a.2.
Proof. rewrite <- not_true_iff_false, key_lt_iff. lia. Qed.

(** [le] is the order that [better] is the strict part of. *)
Section Best.
Context (better : Z * Z -> Z * Z -> bool) (ok : Z * Z -> bool) (le : Z * Z -> Z * Z -> Prop).
Context (better_le : forall a b, better a b = false <-> le b a) (le_refl : forall a, le a a)
  (le_total : forall a b, le a b \/ le b a) (le_trans : forall a b c, le a b -> le b c -> le a c).

Lemma best_Some l k : best better ok l = Some k -> k ∈ l /\ ok k = true /\ forall x, x ∈ l -> ok x = true -> le k x.
Proof.
  revert k. induction l as [|y l IH]; intros k; cbn; [done|]. destruct (ok y) eqn:Ey.
  - destruct (best better ok l) as [z|] eqn:Eb.
    + destruct (IH z eq_refl) as (Hz & Oz & Hm). destruct (better z y) eqn:Ezy; intros [= <-].
      * split_and!; [by right|done|]. intros x [->|Hx]%elem_of_cons Hox; [|by apply Hm].
        destruct (le_total z y) as [?|Hyz]; [done|]. apply better_le in Hyz. congruence.
      * split_and!; [by left|done|]. apply better_le in Ezy. intros x [->|Hx]%elem_of_cons Hox; [done|]. by eapply le_trans, Hm.
    + intros [= <-]. split_and!; [by left|done|]. intros x [->|Hx]%elem_of_cons Hox; [done|]. clear IH.
      exfalso. revert Eb. induction l as [|w l IHl]; [by apply elem_of_nil in Hx|]. cbn. apply elem_of_cons in Hx as [->|Hx].
      * rewrite Hox. by destruct (best better ok l) as [v|]; [destruct (better v w)|].
      * destruct (ok w); [by destruct (best better ok l) as [v|]; [destruct (better v w)|]|by apply IHl].
  - intros (Hk & Ok_ & Hm)%IH. split_and!; [by right|done|]. intros x [->|Hx]%elem_of_cons Hox; [congruence|by apply Hm].
Qed.

Lemma best_None l : best better ok l = None -> forall x, x ∈ l -> ok x = false.
Proof.
  induction l as [|y l IH]; intros Hb x Hx; [by apply elem_of_nil in Hx|]. cbn in Hb. destruct (ok y) eqn:Ey.
  - by destruct (best better ok l) as [v|]; [destruct (better v y)|].
  - apply elem_of_cons in Hx as [->|Hx]; [done|by apply IH].
Qed.
End Best.

Definition key_le (a b : Z * Z) : Prop := a.1 < b.1 \/ a.1 = b.1 /\ a.2 <= b.2.

Ltac key_lia := unfold key_le in *; rewrite ?key_lt_neg, ?key_lt_iff in *; try lia.

Lemma keys_elem (m : gmap (Z * Z) Z) k : k ∈ keys m <-> is_Some (m !! k).
Proof.
  unfold keys. rewrite list_elem_of_fmap. split.
  - intros ([k' i] & -> & Hk%elem_of_map_to_list). eauto.
  - intros [i Hi]. exists (k, i). split; [done|by apply elem_of_map_to_list].
Qed.

(** What a search over the index returns: the best key that passes the test. *)
Definition picks (le : Z * Z -> Z * Z -> Prop) (P : Z * Z -> Prop) (m : gmap (Z * Z) Z) (r : option (Z * Z)) : Prop :=
  match r with
  | Some k => is_Some (m !! k) /\ P k /\ forall x, is_Some (m !! x) -> P x -> le k x
  | None => forall x, is_Some (m !! x) -> ~ P x
  end.

Lemma best_picks better ok le (P : Z * Z -> Prop) m : (forall a b, better a b = false <-> le b a) -> (forall a, le a a) ->
  (forall a b, le a b \/ le b a) -> (forall a b c, le a b -> le b c -> le a c) -> (forall x, ok x = true <-> P x) ->
  picks le P m (best better ok (keys m)).
Proof.
  intros H1 H2 H3 H4 HP. destruct (best better ok (keys m)) as [k|] eqn:E.
  - apply (best_Some better ok le H1 H2 H3 H4) in E as (Hk & Hok & Hm). split_and!; [by apply keys_elem|by apply HP|].
    intros x Hx Px. apply Hm; [by apply keys_elem|by apply HP].
  - intros x Hx Px. apply HP in Px. rewrite (best_None _ _ _ E x) in Px; [done|by apply keys_elem].
Qed.

Lemma seek_picks k m : picks key_le (key_le k) m (seek k m).
Proof. apply best_picks; intros; rewrite ?negb_true_iff; key_lia. Qed.

Lemma after_picks k m : picks key_le (fun x => key_lt k x = true) m (after k m).
Proof. apply best_picks; intros; key_lia. Qed.

Lemma before_picks k m : picks (flip key_le) (fun x => key_lt x k = true) m (before k m).
Proof. apply best_picks; unfold flip; intros; key_lia. Qed.

Lemma begin_picks m : picks key_le (fun _ => True) m (begin_ m).
Proof. apply best_picks; intros; key_lia; tauto. Qed.

Lemma last_picks m : picks (flip key_le) (fun _ => True) m (last_ m).
Proof. apply best_picks; unfold flip; intros; key_lia; tauto. Qed.

(** ** Objects and their index *)

Section IndexedOk.
Context {K R : Type} `{Countable K} (id : R -> Z) (key : R -> K).

(** Every row is under its id and its key, and the index holds nothing else. *)
Record indexed_ok (t : Indexed K R) : Prop := {
  row_id i o : irows t !! i = Some o -> id o = i /\ 0 <= i < inext t /\ ikeys t !! key o = Some i;
  key_row k i : ikeys t !! k = Some i -> exists o, irows t !! i = Some o /\ key o = k;
  next_nonneg : 0 <= inext t }.

Lemma db_Find_Some t k o : indexed_ok t -> db_Find k t = Some o <-> irows t !! id o = Some o /\ key o = k.
Proof.
  intros Ht. unfold db_Find. split.
  - destruct (ikeys t !! k) as [i|] eqn:Ek; [|done]. cbn. intros Hi. destruct (key_row t Ht k i Ek) as (o' & Ho' & <-).
    assert (o' = o) as -> by congruence. destruct (row_id t Ht i o Hi) as (-> & _). done.
  - intros [Ho <-]. destruct (row_id t Ht _ o Ho) as (_ & _ & ->). done.
Qed.

Lemma db_Find_None t k : indexed_ok t -> db_Find k t = None <-> ikeys t !! k = None.
Proof.
  intros Ht. unfold db_Find. destruct (ikeys t !! k) as [i|] eqn:Ek; [|done]. cbn.
  destruct (key_row t Ht k i Ek) as (o & -> & _). done.
Qed.

Lemma db_Insert_ok t mk : indexed_ok t -> inext t < 2 ^ 63 - 1 -> (forall i, id (mk i) = i) -> ikeys t !! key (mk (inext t)) = None ->
  let '(o, t') := db_Insert id key mk t in
  indexed_ok t' /\ o = mk (inext t) /\ irows t !! inext t = None /\ irows t' = <[inext t := o]> (irows t) /\ ikeys t' = <[key o := inext t]> (ikeys t).
Proof.
  intros Ht Hn Hid Hk. cbn. rewrite Hid. destruct Ht as [Hr Hk' Hz].
  assert (Hfree : irows t !! inext t = None). { destruct (irows t !! inext t) as [o|] eqn:E; [|done]. apply Hr in E. lia. }
  split_and!; try done. split; cbn.
  - intros i o. rewrite i64_small by lia. intros [[<- <-]|[Hne Hi]]%lookup_insert_Some; [rewrite Hid, lookup_insert_eq; split_and!; done || lia|].
    apply Hr in Hi as (? & ? & Hi). split_and!; try lia. rewrite lookup_insert_ne; [done|]. intros E. congruence.
  - intros k i [[<- <-]|[Hne Hi]]%lookup_insert_Some; [exists (mk (inext t)); by rewrite lookup_insert_eq|].
    apply Hk' in Hi as (o & Ho & ?). exists o. split; [|done]. rewrite lookup_insert_ne; [done|]. intros E. congruence.
  - rewrite i64_small by lia. lia.
Qed.

(** A modification through a pointer that holds what is stored, which keeps id and key. *)
Lemma db_Modify_ok t old new : indexed_ok t -> irows t !! id old = Some old -> id new = id old -> key new = key old ->
  let t' := db_Modify id key old new t in
  indexed_ok t' /\ irows t' = <[id old := new]> (irows t) /\ ikeys t' = ikeys t /\ inext t' = inext t.
Proof.
  intros Ht Ho Ei Ek. cbn. rewrite Ei, Ek. pose proof (row_id t Ht _ _ Ho) as (_ & Hn & Hk).
  rewrite insert_delete_eq. assert (<[key old := id old]> (delete (key old) (ikeys t)) = ikeys t) as Em
    by (rewrite insert_delete_eq; by apply insert_id).
  split_and!; try done. destruct Ht as [Hr Hk' Hz]. split; cbn; rewrite ?Ei, ?Ek, ?insert_delete_eq, ?(insert_id _ _ _ Hk); [| |done].
  - intros i o [[<- <-]|[Hne Hi]]%lookup_insert_Some; [by rewrite Ei, Ek|by apply Hr].
  - intros k i Hi. destruct (Hk' k i Hi) as (o & Hi' & Eo). destruct (decide (i = id old)) as [->|Hne].
    + exists new. rewrite lookup_insert_eq. split; [done|]. assert (o = old) by congruence. congruence.
    + exists o. by rewrite lookup_insert_ne.
Qed.

Lemma db_Remove_ok t o : indexed_ok t -> irows t !! id o = Some o ->
  let t' := db_Remove id key o t in
  indexed_ok t' /\ irows t' = delete (id o) (irows t) /\ ikeys t' = delete (key o) (ikeys t) /\ inext t' = inext t.
Proof.
  intros Ht Ho. unfold db_Remove. rewrite Ho. cbn. pose proof (row_id t Ht _ _ Ho) as (_ & _ & Hk). split_and!; try done.
  destruct Ht as [Hr Hk' Hz]. split; cbn; [| |done].
  - intros i x [Hne Hi]%lookup_delete_Some. pose proof (Hr _ _ Hi) as (? & ? & Hx). split_and!; try lia.
    rewrite lookup_delete_ne; [done|]. intros E. congruence.
  - intros k i [Hne Hi]%lookup_delete_Some. destruct (Hk' k i Hi) as (x & Hx & <-). exists x. split; [|done].
    rewrite lookup_delete_ne; [done|]. intros E. subst i. congruence.
Qed.
End IndexedOk.

(** ** The cache agrees with the tables

    [T] and [R] are the stored tables and rows, [n] the next id of a table. *)
Record cache_ok (T : gmap Z TableIdObject) (n : Z) (R : gmap Z KeyValueObject) (c : iteratorCache KeyValueObject) : Prop := {
  c_slot i o : iteratorToObject c !! i = Some (Some o) -> R !! kvID o = Some o /\ is_Some (tableCache c !! kvTId o);
  c_unique i j o o' : iteratorToObject c !! i = Some (Some o) -> iteratorToObject c !! j = Some (Some o') -> kvID o = kvID o' -> i = j;
  c_table k t e : tableCache c !! k = Some (t, e) -> tabID t = k /\ 0 <= k < n /\ (T !! k = Some t \/ T !! k = None) /\
    exists j t', e = IndexToEndIterator (Z.of_nat j) /\ endIteratorToTable c !! j = Some t' /\ tabID t' = k;
  c_end j t : endIteratorToTable c !! j = Some t -> exists t', tableCache c !! tabID t = Some (t', IndexToEndIterator (Z.of_nat j)) }.

Lemma cache_ok_rows T n R R' c : cache_ok T n R c -> (forall i o, R !! i = Some o -> R' !! i = Some o) -> cache_ok T n R' c.
Proof. intros [H1 H2 H3 H4] HR. split; [|done..]. intros i o Hi. apply H1 in Hi as [Ho ?]. eauto. Qed.

Lemma cacheTable_ok T T' n n' R c t : cache_ok T n R c -> T' !! tabID t = Some t -> (forall i, i <> tabID t -> T' !! i = T !! i) ->
  n <= n' -> 0 <= tabID t < n' -> len (endIteratorToTable c) < 8 ->
  let '(e, c') := cacheTable t c in
  cache_ok T' n' R c' /\ e < -1 /\ tableCache c' !! tabID t = Some (t, e) /\ iteratorToObject c' = iteratorToObject c.
Proof.
  intros [H1 H2 H3 H4] Ht Ho Hn Hid Hl. unfold cacheTable. destruct (tableCache c !! tabID t) as [[t0 e]|] eqn:E.
  - destruct (H3 _ _ _ E) as (_ & _ & _ & j & t' & -> & Hj & Ej). split_and!; cbn; [|unfold IndexToEndIterator; lia|by rewrite lookup_insert_eq|done].
    split; cbn.
    + intros i o Hi. destruct (H1 _ _ Hi) as [? [x Hx]]. split; [done|]. destruct (decide (kvTId o = tabID t)) as [->|?]; [by rewrite lookup_insert_eq|].
      by rewrite lookup_insert_ne, Hx.
    + done.
    + intros k t1 e1 [[<- [= <- <-]]|[Hne Hk]]%lookup_insert_Some.
      * split_and!; [done|lia..|by left|]. by exists j, t'.
      * destruct (H3 _ _ _ Hk) as (? & ? & Hs & Hx). split_and!; [done|lia..| |done]. by rewrite Ho.
    + intros i x Hi. destruct (H4 _ _ Hi) as (t1 & Hx). destruct (decide (tabID x = tabID t)) as [Ex|?].
      * rewrite Ex in *. rewrite lookup_insert_eq. assert (IndexToEndIterator (Z.of_nat i) = IndexToEndIterator (Z.of_nat j)) as -> by congruence. by exists t.
      * exists t1. by rewrite lookup_insert_ne.
  - rewrite (proj2 (Z.leb_gt 8 _)) by lia. unfold len in *.
    split_and!; cbn; [|unfold IndexToEndIterator; lia|by rewrite lookup_insert_eq|done]. split; cbn.
    + intros i o Hi. destruct (H1 _ _ Hi) as [? [x Hx]]. split; [done|]. rewrite lookup_insert_ne; [by rewrite Hx|]. congruence.
    + done.
    + intros k t1 e1 [[<- [= <- <-]]|[Hne Hk]]%lookup_insert_Some.
      * split_and!; [done|lia..|by left|]. exists (length (endIteratorToTable c)), t. by rewrite list_lookup_middle.
      * destruct (H3 _ _ _ Hk) as (? & ? & Hs & j & t' & -> & Hj & ?). split_and!; [done|lia..|by rewrite Ho|].
        exists j, t'. split_and!; [done| |done]. by apply lookup_app_l_Some.
    + intros i x [Hi|[Hi Hx]]%lookup_app_Some.
      * destruct (H4 _ _ Hi) as (t1 & Hx). exists t1. rewrite lookup_insert_ne; [done|]. congruence.
      * apply list_lookup_singleton_Some in Hx as [Hi' <-]. exists t. rewrite lookup_insert_eq. do 4 f_equal. lia.
Qed.

Lemma find_slot_Some {O} same (l : list (option O)) i j : find_slot same l i = Some j ->
  exists n o, j = i + Z.of_nat n /\ l !! n = Some (Some o) /\ same o = true.
Proof.
  revert i. induction l as [|[o|] l IH]; intros i; cbn; [done|..].
  - destruct (same o) eqn:E; [intros [= <-]; exists 0%nat, o; split_and!; done || lia|]. intros (n & o' & -> & ? & ?)%IH. exists (S n), o'. split_and!; done || lia.
  - intros (n & o' & -> & ? & ?)%IH. exists (S n), o'. split_and!; done || lia.
Qed.

Lemma find_slot_None {O} same (l : list (option O)) i : find_slot same l i = None -> forall n o, l !! n = Some (Some o) -> same o = false.
Proof.
  revert i. induction l as [|[o|] l IH]; intros i; cbn; [done|..].
  - destruct (same o) eqn:E; [done|]. intros H [|n] o'; cbn; [by intros [= <-]|by eapply IH].
  - intros H [|n] o'; cbn; [done|by eapply IH].
Qed.

Lemma add_ok T n R c o : cache_ok T n R c -> R !! kvID o = Some o -> is_Some (tableCache c !! kvTId o) -> len (iteratorToObject c) < 32 ->
  let '(it, c') := add kv_ident o c in
  cache_ok T n R c' /\ 0 <= it /\ iteratorToObject c' !! Z.to_nat it = Some (Some o) /\ tableCache c' = tableCache c /\
  endIteratorToTable c' = endIteratorToTable c /\
  (forall i x, iteratorToObject c !! i = Some (Some x) -> iteratorToObject c' !! i = Some (Some x)).
Proof.
  intros Hc Ho Ht Hl. unfold add. destruct (find_slot _ _ _) as [it|] eqn:E.
  - apply find_slot_Some in E as (j & o' & -> & Hj & Hs%bool_decide_eq_true). pose proof (c_slot _ _ _ _ Hc _ _ Hj) as [Ho' _].
    unfold kv_ident in Hs. assert (kvID o' = kvID o) as Ei by congruence. assert (o' = o) as -> by congruence.
    split_and!; try done; [lia|]. by replace (Z.to_nat (0 + Z.of_nat j)) with j by lia.
  - rewrite (proj2 (Z.leb_gt 32 _)) by lia. cbn. unfold len. destruct Hc as [H1 H2 H3 H4].
    assert (Hnew : forall i x, iteratorToObject c !! i = Some (Some x) -> kvID x <> kvID o).
    { intros i x Hx Ex. pose proof (find_slot_None _ _ _ E _ _ Hx) as Hf%bool_decide_eq_false. apply Hf. destruct (H1 _ _ Hx) as [Hr _].
      by assert (x = o) as -> by congruence. }
    split_and!; try done; [|lia|rewrite Nat2Z.id; by apply list_lookup_middle|intros i x Hi; by apply lookup_app_l_Some]. split; cbn.
    + intros i x [Hi|[_ Hx]]%lookup_app_Some; [by eapply H1|]. by apply list_lookup_singleton_Some in Hx as [_ [= <-]].
    + intros i j x y [Hi|[Hi Hx]]%lookup_app_Some [Hj|[Hj Hy]]%lookup_app_Some Exy.
      * by eapply H2.
      * apply list_lookup_singleton_Some in Hy as [_ [= <-]]. by destruct (Hnew _ _ Hi).
      * apply list_lookup_singleton_Some in Hx as [_ [= <-]]. by destruct (Hnew _ _ Hj).
      * apply list_lookup_singleton_Some in Hx as [? _]. apply list_lookup_singleton_Some in Hy as [? _]. lia.
    + done.
    + done.
Qed.

(** ** The invariant of the tables *)

Definition rows_in (t : Z) (R : gmap Z KeyValueObject) : Z := sum_map (fun _ o => if kvTId o =? t then 1 else 0) R.

(** Rows and tables are under their ids and keys, a table counts its rows and is there as
    long as it has one, and the cache agrees with what is stored. *)
Record tables_ok (a : ApplyContext) : Prop := {
  t_tabs : indexed_ok tabID table_key (tabs a);
  t_kvs : indexed_ok kvID row_key (kvs a);
  t_count i t : irows (tabs a) !! i = Some t -> tabCount t = rows_in i (irows (kvs a)) /\ 0 < tabCount t < 2 ^ 32;
  t_table i o : irows (kvs a) !! i = Some o -> is_Some (irows (tabs a) !! kvTId o);
  t_cache : cache_ok (irows (tabs a)) (inext (tabs a)) (irows (kvs a)) (KeyvalCache a) }.

(** Ids are left, and the iterator cache of the action holds fewer than 8 tables and 32
    rows.  Beyond that its iterators are wrong ([ninth_table_end],
    [row_33_has_no_iterator]). *)
Record room (a : ApplyContext) : Prop := {
  room_tables : inext (tabs a) < 2 ^ 63 - 1;
  room_rows : inext (kvs a) < 2 ^ 32 - 1;
  room_ends : len (endIteratorToTable (KeyvalCache a)) < 8;
  room_slots : len (iteratorToObject (KeyvalCache a)) < 32 }.

Lemma rows_in_nonneg t R : 0 <= rows_in t R.
Proof. apply sum_nonneg. intros _ o. destruct (_ =? _); lia. Qed.

Lemma rows_in_zero t R i o : rows_in t R = 0 -> R !! i = Some o -> kvTId o <> t.
Proof.
  intros H0 Ho Et. unfold rows_in in H0. rewrite (sum_delete _ _ i o Ho), (proj2 (Z.eqb_eq _ _) Et) in H0.
  fold (rows_in t (delete i R)) in H0. pose proof (rows_in_nonneg t (delete i R)). lia.
Qed.

Lemma rows_in_le t R n : (forall i o, R !! i = Some o -> 0 <= i < n) -> 0 <= n -> rows_in t R <= n.
Proof.
  intros Hr Hn. assert (rows_in t R <= Z.of_nat (size R)) as Hs.
  { clear. induction R as [|i o R Hi IH] using map_ind; [by vm_compute|]. unfold rows_in in *. rewrite sum_insert, map_size_insert_None by done.
    destruct (_ =? _); lia. }
  assert (size R <= Z.to_nat n)%nat; [|lia]. rewrite <- size_dom.
  assert (dom R ⊆ (list_to_set (Z.of_nat <$> seq 0 (Z.to_nat n)) : gset Z)) as Hsub%subseteq_size.
  { intros i [o Hi]%elem_of_dom. apply Hr in Hi. apply elem_of_list_to_set, list_elem_of_fmap. exists (Z.to_nat i). rewrite elem_of_seq. lia. }
  rewrite size_list_to_set in Hsub by (apply NoDup_fmap_2; [intros ???; lia|apply NoDup_seq]). by rewrite length_fmap, length_seq in Hsub.
Qed.

(** *** What the operations run *)

Lemma run_in_context {A} (m : M Context A) a a' r : in_context m a = (a', Ok r) <-> exists x, m (actx a) = (x, Ok r) /\ a' = set_actx x a.
Proof. unfold in_context. destruct (m (actx a)). naive_solver. Qed.

Lemma run_with_cache {A} f a a' (r : A) : with_cache f a = (a', Ok r) <-> r = (f (KeyvalCache a)).1 /\ a' = set_cache (f (KeyvalCache a)).2 a.
Proof. unfold with_cache. destruct (f (KeyvalCache a)). naive_solver. Qed.

(** The RAM of an account changes by [delta]. *)
Definition billed (payer delta : Z) (x x' : Context) : Prop :=
  exists d, ResourceLimits.AddPendingRamUsage payer delta (resources (chain x)) = (d, Ok tt) /\ chain x' = set_resources d (chain x).

Lemma UpdateDbUsage_run payer delta a a' : UpdateDbUsage payer delta a = (a', Ok tt) ->
  exists x, a' = set_actx x a /\ billed payer delta (actx a) x.
Proof.
  unfold UpdateDbUsage. intros H. run_step H. apply run_bind in H as (a1 & [] & H1 & (x & Hx & ->)%run_in_context).
  assert (exists y, a1 = set_actx y a /\ chain y = chain (actx a)) as (y & -> & Ey).
  { destruct (_ && _); [|run_step H1; exists (actx a); by destruct a].
    apply run_bind in H1 as (a2 & [] & [_ ->]%run_assert & (y & (Ey & _)%RequireAuthorization_run & ->)%run_in_context). by exists y. }
  exists x. split; [done|]. apply AddRamUsage_run in Hx as (d & Hd & Ex). cbn in *. rewrite Ey in *. by exists d.
Qed.

Definition table_size : Z := i64 (Billable "table_id_object").

(** The table that is found, or a new one without rows. *)
Definition table_for (k : Z * Z * Z) (payer : Z) (a a' : ApplyContext) (t : TableIdObject) : Prop :=
  db_Find k (tabs a) = Some t /\ a' = a \/
  db_Find k (tabs a) = None /\ t = mkTableIdObject (inext (tabs a)) k.1.1 k.1.2 k.2 payer 0 /\
  exists x, billed payer table_size (actx a) x /\
    a' = set_tabs (mkIndexed (<[inext (tabs a) := t]> (irows (tabs a))) (<[k := inext (tabs a)]> (ikeys (tabs a))) (i64 (inext (tabs a) + 1))) (set_actx x a).

Lemma FindOrCreateTable_run code scope table payer a a' t : FindOrCreateTable code scope table payer a = (a', Ok t) ->
  table_for (code, scope, table) payer a a' t.
Proof.
  unfold FindOrCreateTable, FindTable. intros H. run_step H. destruct (db_Find _ (tabs a)) as [t0|] eqn:E; [run_step H; by left|].
  apply run_bind in H as (a1 & [] & (x & -> & Hb)%UpdateDbUsage_run & H). unfold insert_table in H. cbn in H. injection H as <- <-.
  right. split_and!; [done|done|]. exists x. done.
Qed.

Lemma table_for_ok k payer a a' t : tables_ok a -> inext (tabs a) < 2 ^ 63 - 1 -> table_for k payer a a' t ->
  indexed_ok tabID table_key (tabs a') /\ irows (tabs a') !! tabID t = Some t /\ table_key t = k /\
  tabCount t = rows_in (tabID t) (irows (kvs a)) /\ 0 <= tabCount t /\ inext (tabs a) <= inext (tabs a') /\
  kvs a' = kvs a /\ KeyvalCache a' = KeyvalCache a /\ Receiver a' = Receiver a /\
  (forall i, i <> tabID t -> irows (tabs a') !! i = irows (tabs a) !! i) /\
  (forall k', k' <> k -> ikeys (tabs a') !! k' = ikeys (tabs a) !! k') /\
  (irows (tabs a) !! tabID t = Some t \/ irows (tabs a) !! tabID t = None /\ forall i o, irows (kvs a) !! i = Some o -> kvTId o <> tabID t).
Proof.
  intros Ha Hn [[Hf ->]|(Hf & -> & x & _ & ->)]; pose proof (t_tabs a Ha) as Ht.
  - apply (db_Find_Some tabID table_key) in Hf as [Ho Hk]; [|done]. destruct (t_count a Ha _ _ Ho). split_and!; try done; [lia|by left].
  - apply (db_Find_None tabID table_key) in Hf; [|done].
    pose proof (db_Insert_ok tabID table_key (tabs a) (fun i => mkTableIdObject i k.1.1 k.1.2 k.2 payer 0) Ht Hn (fun i => eq_refl)) as Hi.
    destruct k as [[k1 k2] k3]. cbn in Hi. destruct (Hi Hf) as (Hok & _ & Hfree & _).
    assert (Hno : forall i o, irows (kvs a) !! i = Some o -> kvTId o <> inext (tabs a)).
    { intros i o Ho E. destruct (t_table a Ha _ _ Ho) as [y Hy]. congruence. }
    split_and!; cbn; try done.
    + by rewrite lookup_insert_eq.
    + unfold rows_in. symmetry. apply sum_zero. intros i o Ho. by rewrite (proj2 (Z.eqb_neq _ _) (Hno i o Ho)).
    + rewrite i64_small; [lia|]. pose proof (next_nonneg _ _ _ Ht). lia.
    + intros i Hne. by rewrite lookup_insert_ne.
    + intros k' Hne. by rewrite lookup_insert_ne.
    + right. done.
Qed.

(** What a store leaves: a new row in the table, one more in its count, and both in the
    cache. *)
Definition stored_row (code scope table payer id : Z) (buffer : bytes) (a a' : ApplyContext) (it : Z) : Prop :=
  exists a1 t x, let obj := mkKeyValueObject (inext (kvs a)) (tabID t) id payer buffer in
    let t' := with_count (tabCount t + 1) t in
    table_for (code, scope, table) payer a a1 t /\ payer <> 0 /\ billed payer (billable_row buffer) (actx a1) x /\
    it = (add kv_ident obj (cacheTable t' (KeyvalCache a)).2).1 /\
    a' = mkApplyContext x (Receiver a) (actCode a) (Privileged a) (IsRamBillingInNotifyAllowed a)
           (db_Modify tabID table_key t t' (tabs a1)) (db_Insert kvID row_key (fun i => mkKeyValueObject i (tabID t) id payer buffer) (kvs a)).2
           (add kv_ident obj (cacheTable t' (KeyvalCache a)).2).2.

Lemma dbStoreI64_run code scope table payer id buffer a a' it : dbStoreI64 code scope table payer id buffer a = (a', Ok it) ->
  stored_row code scope table payer id buffer a a' it.
Proof.
  unfold dbStoreI64. intros H. apply run_bind in H as (a1 & t & Ht%FindOrCreateTable_run & H).
  assert (Hk : kvs a1 = kvs a /\ KeyvalCache a1 = KeyvalCache a /\ Receiver a1 = Receiver a /\ actCode a1 = actCode a /\
    Privileged a1 = Privileged a /\ IsRamBillingInNotifyAllowed a1 = IsRamBillingInNotifyAllowed a).
  { destruct Ht as [[_ ->]|(_ & _ & x & _ & ->)]; done. }
  destruct Hk as (K1 & K2 & K3 & K4 & K5 & K6).
  apply run_bind in H as (a2 & [] & [Hp ->]%run_assert & H). apply negb_true_iff, Z.eqb_neq in Hp.
  apply run_bind in H as (a3 & obj & Ho & H). unfold insert_row in Ho. cbn in Ho. injection Ho as <- <-.
  apply run_bind in H as (a4 & [] & ->%run_modify & H). apply run_bind in H as (a5 & [] & (x & -> & Hb)%UpdateDbUsage_run & H).
  apply run_bind in H as (a6 & e & [_ ->]%run_with_cache & [-> ->]%run_with_cache).
  exists a1, t, x. cbn in *. rewrite <- K1, <- K2, <- K3, <- K4, <- K5, <- K6. split_and!; done.
Qed.

(** *** What the tables hold *)

(** The payer and the value of the row of table [k] under a primary key. *)
Definition content (a : ApplyContext) (k : Z * Z * Z) (pk : Z) : option (Z * bytes) :=
  ikeys (tabs a) !! k ≫= fun i => ikeys (kvs a) !! (i, pk) ≫= fun j => (fun o => (kvPayer o, kvValue o)) <$> irows (kvs a) !! j.

(** The iterator is at this row. *)
Definition at_row (it : Z) (o : KeyValueObject) (a : ApplyContext) : Prop :=
  0 <= it /\ iteratorToObject (KeyvalCache a) !! Z.to_nat it = Some (Some o).

Lemma cache_get_iff it o c : cache_get it c = Ok o <-> 0 <= it /\ iteratorToObject (c : iteratorCache KeyValueObject) !! Z.to_nat it = Some (Some o).
Proof.
  unfold cache_get, slot. destruct (Z.eqb_spec it (-1)) as [->|Hne]; cbn; [split; [done|lia]|].
  destruct (Z.leb_spec 0 it); cbn; [|split; [done|lia]]. destruct (iteratorToObject c !! Z.to_nat it) as [[x|]|]; cbn; naive_solver.
Qed.

Lemma at_row_stored it o a : tables_ok a -> at_row it o a -> irows (kvs a) !! kvID o = Some o /\
  exists t e, tableCache (KeyvalCache a) !! kvTId o = Some (t, e) /\ irows (tabs a) !! kvTId o = Some t /\ tabID t = kvTId o.
Proof.
  intros Ha [_ Ho]. destruct (c_slot _ _ _ _ (t_cache a Ha) _ _ Ho) as [Hr [[t e] Hc]]. split; [done|]. exists t, e.
  destruct (c_table _ _ _ _ (t_cache a Ha) _ _ _ Hc) as (Ei & _ & [Ht|Ht] & _); [done|]. destruct (t_table a Ha _ _ Hr). congruence.
Qed.

Section Store.
Context (code scope table payer id : Z) (buffer : bytes) (a a' : ApplyContext) (it : Z).
Context (Ha : tables_ok a) (Hroom : room a) (Hs : stored_row code scope table payer id buffer a a' it)
  (Hnew : content a (code, scope, table) id = None).

Lemma store_absent a1 t : table_for (code, scope, table) payer a a1 t -> ikeys (kvs a) !! (tabID t, id) = None.
Proof.
  intros Hf. pose proof (table_for_ok _ _ _ _ _ Ha (room_tables _ Hroom) Hf) as (_ & _ & _ & _ & _ & _ & _ & _ & _ & _ & _ & Hold).
  destruct (ikeys (kvs a) !! (tabID t, id)) as [j|] eqn:Ej; [|done]. destruct (key_row _ _ _ (t_kvs a Ha) _ _ Ej) as (o & Ho & Ek).
  destruct Hold as [Ht|[_ Hno]]; [|by destruct (Hno _ _ Ho); unfold row_key in Ek; congruence].
  destruct (row_id _ _ _ (t_tabs a Ha) _ _ Ht) as (_ & _ & Hkey). unfold content in Hnew.
  destruct Hf as [[Hf _]|(Hf & -> & _)].
  - apply (db_Find_Some tabID table_key) in Hf as [_ Hk]; [|apply Ha]. rewrite <- Hk, Hkey in Hnew. cbn in Hnew. by rewrite Ej in Hnew; cbn in Hnew; rewrite Ho in Hnew.
  - pose proof (row_id _ _ _ (t_tabs a Ha) _ _ Ht) as (_ & Hr & _). cbn in Hr. lia.
Qed.

(** The tables and rows after the store. *)
Lemma store_facts : exists i n obj,
  tables_ok a' /\ at_row it obj a' /\ row_key obj = (i, id) /\ kvPayer obj = payer /\ kvValue obj = buffer /\
  ikeys (tabs a') !! (code, scope, table) = Some i /\ (forall k, k <> (code, scope, table) -> ikeys (tabs a') !! k = ikeys (tabs a) !! k) /\
  (ikeys (tabs a) !! (code, scope, table) = Some i \/
   ikeys (tabs a) !! (code, scope, table) = None /\ forall j o, irows (kvs a) !! j = Some o -> kvTId o <> i) /\
  irows (kvs a') = <[n := obj]> (irows (kvs a)) /\ irows (kvs a) !! n = None.
Proof.
  destruct Hs as (a1 & t & x & Hf & Hp & Hb & Eit & Ea). pose proof (store_absent a1 t Hf) as Habs. destruct Hroom as [R1 R2 R3 R4].
  pose proof (table_for_ok _ _ _ _ _ Ha R1 Hf) as (Ht1 & Hst & Hk & Hcount & Hpos & Hnext & _ & _ & _ & Hoth & Hothk & Hold).
  set (t' := with_count (tabCount t + 1) t) in *. set (obj := mkKeyValueObject (inext (kvs a)) (tabID t) id payer buffer) in *.
  destruct (db_Modify_ok tabID table_key (tabs a1) t t' Ht1 Hst eq_refl eq_refl) as (Hm & Em1 & Em2 & Em3).
  destruct (db_Insert_ok kvID row_key (kvs a) (fun i => mkKeyValueObject i (tabID t) id payer buffer) (t_kvs a Ha) ltac:(lia) (fun i => eq_refl) Habs)
    as (Hi & _ & Hfree & Ei1 & _). fold obj in Hi, Ei1.
  set (T := db_Modify tabID table_key t t' (tabs a1)) in *. set (R := (db_Insert kvID row_key _ (kvs a)).2) in *.
  assert (ER1 : irows R = <[inext (kvs a) := obj]> (irows (kvs a))) by exact Ei1.
  assert (Hle : rows_in (tabID t) (irows (kvs a)) <= inext (kvs a)).
  { apply rows_in_le; [intros i o Ho; by apply (row_id _ _ _ (t_kvs a Ha)) in Ho as (_ & ? & _)|apply (next_nonneg _ _ _ (t_kvs a Ha))]. }
  assert (Ec : tabCount t' = tabCount t + 1) by (cbn; apply uwrap_id; unfold in_u; norm_pow; lia).
  assert (Hc1 : cache_ok (irows (tabs a)) (inext (tabs a)) (irows R) (KeyvalCache a)).
  { apply (cache_ok_rows _ _ _ _ _ (t_cache a Ha)). intros i o Ho. rewrite ER1, lookup_insert_ne; [done|]. intros E. congruence. }
  assert (Hin : 0 <= tabID t < inext (tabs a1)) by (by apply (row_id _ _ _ Ht1) in Hst as (_ & ? & _)).
  pose proof (cacheTable_ok _ (irows T) _ (inext (tabs a1)) _ _ t' Hc1) as Hct. cbn [tabID with_count t'] in Hct.
  destruct (cacheTable t' (KeyvalCache a)) as [e c1] eqn:Ect.
  destruct Hct as (Hc2 & _ & He & Eobj); [by rewrite Em1, lookup_insert_eq|intros i Hne; rewrite Em1, lookup_insert_ne by done; by apply Hoth|lia|done|done|].
  pose proof (add_ok _ _ _ c1 obj Hc2) as Hadd. cbn [snd] in *. destruct (add kv_ident obj c1) as [it' c2] eqn:Eadd.
  destruct Hadd as (Hc3 & Hit & Hslot & _); [by rewrite ER1; apply lookup_insert_eq|by exists (t', e)|by rewrite Eobj|]. cbn in Eit. subst it a'.
  pose proof (row_id _ _ _ Ht1 _ _ Hst) as (_ & _ & Hkey). rewrite Hk in Hkey.
  exists (tabID t), (inext (kvs a)), obj. cbn [tabs kvs]. split_and!; try done.
  - split; cbn [tabs kvs KeyvalCache snd]; [exact Hm|exact Hi| | |by rewrite Em3]; rewrite Em1, ER1.
    + unfold rows_in. intros i t0. rewrite sum_insert by done. cbn.
      intros [[<- <-]|[Hne Hi0]]%lookup_insert_Some; fold (rows_in (tabID t) (irows (kvs a))).
      * rewrite Z.eqb_refl, Ec. lia.
      * rewrite Hoth in Hi0 by done. rewrite (proj2 (Z.eqb_neq _ _)) by done. by apply (t_count a Ha) in Hi0.
    + intros i o [[<- <-]|[_ Ho]]%lookup_insert_Some; [cbn; by rewrite lookup_insert_eq|].
      destruct (decide (kvTId o = tabID t)) as [->|Hne]; [by rewrite lookup_insert_eq|]. rewrite lookup_insert_ne, Hoth by done. by eapply (t_table a Ha).
  - by rewrite <- Hkey, <- Em2.
  - intros k Hne. by rewrite <- Hothk, <- Em2.
  - destruct Hold as [Hold|[Hold Hno]]; [left|right; split; [|done]].
    + destruct (row_id _ _ _ (t_tabs a Ha) _ _ Hold) as (_ & _ & Hkey'). by rewrite Hk in Hkey'.
    + destruct Hf as [[Hf _]|(Hf & _)]; [apply (db_Find_Some tabID table_key) in Hf as [Hf _]; [congruence|apply Ha]|].
      by apply (db_Find_None tabID table_key) in Hf; [|apply Ha].
Qed.
End Store.

Lemma content_iff a k pk v : tables_ok a -> content a k pk = Some v <->
  exists i o, ikeys (tabs a) !! k = Some i /\ irows (kvs a) !! kvID o = Some o /\ row_key o = (i, pk) /\ v = (kvPayer o, kvValue o).
Proof.
  intros Ha. unfold content. split.
  - destruct (ikeys (tabs a) !! k) as [i|]; [|done]. cbn. destruct (ikeys (kvs a) !! (i, pk)) as [j|] eqn:Ej; [|done]. cbn.
    destruct (key_row _ _ _ (t_kvs a Ha) _ _ Ej) as (o & Ho & Ek). rewrite Ho. intros [= <-]. exists i, o.
    destruct (row_id _ _ _ (t_kvs a Ha) _ _ Ho) as (-> & _). done.
  - intros (i & o & -> & Ho & Ek & ->). cbn. destruct (row_id _ _ _ (t_kvs a Ha) _ _ Ho) as (_ & _ & Hk). rewrite <- Ek, Hk. cbn. by rewrite Ho.
Qed.

(** Two states whose tables and rows differ in one row have the same content elsewhere. *)
Lemma content_same a a' k pk : tables_ok a -> tables_ok a' ->
  (forall i, ikeys (tabs a) !! k = Some i ->
     (ikeys (tabs a') !! k = Some i \/ forall o, irows (kvs a) !! kvID o = Some o -> row_key o <> (i, pk)) /\
     forall o, row_key o = (i, pk) -> irows (kvs a) !! kvID o = Some o <-> irows (kvs a') !! kvID o = Some o) ->
  (forall i, ikeys (tabs a') !! k = Some i -> ikeys (tabs a) !! k = Some i \/ forall o, irows (kvs a') !! kvID o = Some o -> row_key o <> (i, pk)) ->
  content a' k pk = content a k pk.
Proof.
  intros Ha Ha' H1 H2. apply option_eq. intros v. rewrite !content_iff by done. split.
  - intros (i & o & Hi & Ho & Ek & ->). destruct (H2 i Hi) as [Hi'|Hno]; [|by destruct (Hno o Ho)]. destruct (H1 i Hi') as [_ Hr].
    exists i, o. split_and!; try done. by apply Hr.
  - intros (i & o & Hi & Ho & Ek & ->). destruct (H1 i Hi) as [[Hi'|Hno] Hr]; [|by destruct (Hno o Ho)]. exists i, o. split_and!; try done. by apply Hr.
Qed.

Lemma store_content code scope table payer id buffer a a' it : tables_ok a -> room a -> stored_row code scope table payer id buffer a a' it ->
  content a (code, scope, table) id = None ->
  tables_ok a' /\ (exists o, at_row it o a' /\ PrimaryKey o = id /\ kvPayer o = payer /\ kvValue o = buffer) /\
  forall k pk, content a' k pk = if decide (k = (code, scope, table) /\ pk = id) then Some (payer, buffer) else content a k pk.
Proof.
  intros Ha Hroom Hs Hnew. destruct (store_facts _ _ _ _ _ _ _ _ _ Ha Hroom Hs Hnew) as (i & n & obj & Ha' & Hat & Ek & Ep & Ev & Hi & Hoth & Hold & ER & Hfree).
  pose proof (at_row_stored _ _ _ Ha' Hat) as [Hst _]. assert (kvID obj = n) as En.
  { rewrite ER in Hst. apply lookup_insert_Some in Hst as [[E _]|[_ Hst]]; [done|]. exfalso.
    assert (irows (kvs a') !! n = Some obj) as Hn by (rewrite ER; apply lookup_insert_eq).
    by apply (row_id _ _ _ (t_kvs a' Ha')) in Hn as (<- & _); rewrite Hfree in Hst. }
  split_and!; [done|exists obj; unfold row_key in Ek; naive_solver|]. intros k pk. destruct (decide _) as [[-> ->]|Hne].
  - apply content_iff; [done|]. exists i, obj. split_and!; congruence.
  - assert (Hrows : forall j o, row_key o = (j, pk) -> (j = i -> pk <> id) -> irows (kvs a) !! kvID o = Some o <-> irows (kvs a') !! kvID o = Some o).
    { intros j o Eo Hd. rewrite ER, lookup_insert_Some. split; [|intros [[_ <-]|[_ ?]]; [|done]; rewrite Ek in Eo; exfalso; by injection Eo as -> ->; apply Hd].
      intros Ho. right. split; [|done]. intros E. congruence. }
    apply content_same; [done..| |].
    + intros j Hj. destruct (decide (k = (code, scope, table))) as [->|Hk].
      * destruct Hold as [Hold|[Hold _]]; [|congruence]. assert (j = i) as -> by congruence. split; [by left|]. intros o Eo. eapply Hrows; naive_solver.
      * split; [left; by rewrite Hoth|]. intros o Eo. apply (Hrows j); [done|]. intros -> _.
        destruct (key_row _ _ _ (t_tabs a' Ha') _ _ Hi) as (t1 & Ht1 & E1). rewrite <- (Hoth k Hk) in Hj.
        destruct (key_row _ _ _ (t_tabs a' Ha') _ _ Hj) as (t2 & Ht2 & E2). congruence.
    + intros j Hj. destruct (decide (k = (code, scope, table))) as [->|Hk]; [|left; by rewrite <- Hoth].
      assert (j = i) as -> by congruence. destruct Hold as [Hold|[_ Hno]]; [by left|right]. intros o Ho Eo.
      rewrite ER in Ho. apply lookup_insert_Some in Ho as [[_ <-]|[_ Ho]].
      * apply Hne. split; [done|]. congruence.
      * apply Hno in Ho. unfold row_key in Eo. congruence.
Qed.

(** *** Updates and removals *)

(** One slot's row is replaced or removed. *)
Lemma set_slot_ok T n R R' c it o s : cache_ok T n R c -> iteratorToObject c !! it = Some (Some o) ->
  (forall i, i <> kvID o -> R' !! i = R !! i) ->
  (forall o', s = Some o' -> kvID o' = kvID o /\ kvTId o' = kvTId o /\ R' !! kvID o = Some o') ->
  cache_ok T n R' (set_slot (Z.of_nat it) s c).
Proof.
  intros [H1 H2 H3 H4] Hit HR Hs. unfold set_slot. rewrite Nat2Z.id.
  assert (Hslots : forall i x, <[it := s]> (iteratorToObject c) !! i = Some (Some x) ->
    i = it /\ s = Some x \/ i <> it /\ iteratorToObject c !! i = Some (Some x)).
  { intros i x [(-> & -> & _)|(? & ?)]%list_lookup_insert_Some; naive_solver. }
  split; cbn; [| |done..].
  - intros i x [[-> ->]|[Hne Hx]]%Hslots.
    + destruct (Hs x eq_refl) as (-> & -> & HR'). split; [done|]. by eapply H1.
    + split; [|by eapply H1]. rewrite HR; [by eapply H1|]. intros E. by destruct Hne; eapply H2.
  - intros i j x y [[-> ->]|[Hi Hx]]%Hslots [[-> Ey]|[Hj Hy]]%Hslots E; [done| | |by eapply H2].
    + destruct (Hs x eq_refl) as (Ex & _). symmetry. eapply H2; [done..|congruence].
    + destruct (Hs y Ey) as (Ex & _). eapply H2; [done..|congruence].
Qed.

(** A cached table is changed, and stored so or removed. *)
Lemma set_table_ok T T' n R c t t0 e : cache_ok T n R c -> tableCache c !! tabID t = Some (t0, e) ->
  T' !! tabID t = Some t \/ T' !! tabID t = None -> (forall i, i <> tabID t -> T' !! i = T !! i) ->
  cache_ok T' n R (set_table t c).
Proof.
  intros [H1 H2 H3 H4] Hc Ht HT. unfold set_table. rewrite Hc. split; cbn.
  - intros i o Ho. destruct (H1 i o Ho) as [? [y Hy]]. split; [done|].
    destruct (decide (kvTId o = tabID t)) as [->|?]; [by rewrite lookup_insert_eq|by rewrite lookup_insert_ne, Hy].
  - done.
  - intros k t1 e1 [[<- [= <- <-]]|[Hne Hk]]%lookup_insert_Some.
    + destruct (H3 _ _ _ Hc) as (_ & Hn & _ & Hj). split_and!; [done|lia|lia|done|done].
    + rewrite HT by done. by apply H3.
  - intros j t1 Hj. destruct (H4 _ _ Hj) as (t2 & H2').
    destruct (decide (tabID t1 = tabID t)) as [E|?]; [|exists t2; by rewrite lookup_insert_ne].
    exists t. rewrite E, lookup_insert_eq. congruence.
Qed.

(** One row is changed or removed: the rest of the content stays. *)
Lemma content_other a a' o t k pk : tables_ok a -> tables_ok a' -> irows (kvs a) !! kvID o = Some o -> irows (tabs a) !! kvTId o = Some t ->
  (forall i, i <> kvID o -> irows (kvs a') !! i = irows (kvs a) !! i) ->
  (forall x, irows (kvs a') !! kvID o = Some x -> row_key x = row_key o) ->
  (ikeys (tabs a') = ikeys (tabs a) \/ ikeys (tabs a') = delete (table_key t) (ikeys (tabs a)) /\ rows_in (kvTId o) (irows (kvs a')) = 0) ->
  ~ (k = table_key t /\ pk = PrimaryKey o) -> content a' k pk = content a k pk.
Proof.
  intros Ha Ha' Ho Ht HR Hx HT Hne. destruct (row_id _ _ _ (t_tabs a Ha) _ _ Ht) as (_ & _ & Hkey).
  assert (Hd : forall i, ikeys (tabs a) !! k = Some i -> (i, pk) <> row_key o).
  { intros i Hi [= -> ->]. apply Hne. split; [|done]. destruct (key_row _ _ _ (t_tabs a Ha) _ _ Hi) as (t1 & Ht1 & <-). congruence. }
  apply content_same; [done..| |].
  - intros i Hi. split.
    + destruct HT as [->|[-> H0]]; [by left|]. destruct (decide (k = table_key t)) as [->|?]; [right|left; by rewrite lookup_delete_ne].
      intros x Hxx Ex. assert (i = kvTId o) as -> by congruence. assert (kvID x <> kvID o) as Hni.
      { intros E. assert (x = o) as -> by congruence. by destruct (Hd _ Hi). }
      rewrite <- HR in Hxx by done. by apply (rows_in_zero _ _ _ _ H0 Hxx); unfold row_key in Ex; injection Ex.
    + intros x Ex. destruct (decide (kvID x = kvID o)) as [E|E]; [|by rewrite HR]. rewrite E. split; intros Hxx; exfalso.
      * assert (x = o) as -> by congruence. by destruct (Hd _ Hi).
      * destruct (Hd _ Hi). rewrite <- Ex. by apply Hx.
  - intros i Hi. left. destruct HT as [E|[E _]]; rewrite E in Hi; [done|]. by apply lookup_delete_Some in Hi as [_ Hi].
Qed.

(** The row at an iterator, its table, and who may write it. *)
Definition own_row (it : Z) (o : KeyValueObject) (t : TableIdObject) (a : ApplyContext) : Prop :=
  at_row it o a /\ irows (tabs a) !! kvTId o = Some t /\ tabCode t = Receiver a.

Lemma own_row_run it o t a : tables_ok a -> cache_get it (KeyvalCache a) = Ok o -> getTable (kvTId o) (KeyvalCache a) = Ok t ->
  tabCode t =? Receiver a = true -> own_row it o t a /\ tabID t = kvTId o /\ exists e, tableCache (KeyvalCache a) !! kvTId o = Some (t, e).
Proof.
  intros Ha Hg%cache_get_iff Ht Hc%Z.eqb_eq. destruct (at_row_stored _ _ _ Ha Hg) as (_ & t1 & e & E & H1 & Ei).
  unfold getTable in Ht. rewrite E in Ht. injection Ht as ->. split_and!; [done..|by exists e].
Qed.

Definition updated (payer : Z) (buffer : bytes) (o : KeyValueObject) : KeyValueObject :=
  mkKeyValueObject (kvID o) (kvTId o) (PrimaryKey o) (if payer =? 0 then kvPayer o else payer) buffer.

(** What the update of a row bills. *)
Definition rebilled (o o' : KeyValueObject) (x x' : Context) : Prop :=
  let old := billable_row (kvValue o) in let new := billable_row (kvValue o') in
  if kvPayer o =? kvPayer o' then if old =? new then x' = x else billed (kvPayer o) (i64 (new - old)) x x'
  else exists y, billed (kvPayer o) (i64 (- old)) x y /\ billed (kvPayer o') new y x'.

Lemma DbUpdateI64_run it payer buffer a a' : tables_ok a -> DbUpdateI64 it payer buffer a = (a', Ok tt) ->
  exists o t x, let o' := updated payer buffer o in own_row it o t a /\ rebilled o o' (actx a) x /\
    a' = set_cache (set_slot it (Some o') (KeyvalCache a)) (set_kvs (db_Modify kvID row_key o o' (kvs a)) (set_actx x a)).
Proof.
  intros Ha. unfold DbUpdateI64. intros H. run_step H. apply run_bind in H as (a1 & o & [-> Ho]%run_lift & H).
  apply run_bind in H as (a1 & t & [-> Ht]%run_lift & H). apply run_bind in H as (a1 & [] & [Hc ->]%run_assert & H).
  destruct (own_row_run _ _ _ _ Ha Ho Ht Hc) as [Hown _]. apply run_bind in H as (a1 & [] & H1 & H).
  apply run_bind in H as (a2 & [] & ->%run_modify & ->%run_modify).
  assert (exists x, a1 = set_actx x a /\ rebilled o (updated payer buffer o) (actx a) x) as (x & -> & Hb).
  { unfold rebilled. cbn [updated kvPayer kvValue]. destruct (kvPayer o =? (if payer =? 0 then kvPayer o else payer)); cbn [negb] in H1.
    - destruct (billable_row (kvValue o) =? billable_row buffer); cbn [negb] in H1; [run_step H1; exists (actx a); by destruct a|]. by apply UpdateDbUsage_run in H1.
    - apply run_bind in H1 as (a3 & [] & (y & -> & Hy)%UpdateDbUsage_run & (x & -> & Hx)%UpdateDbUsage_run). exists x. split; [done|]. by exists y. }
  exists o, t, x. split_and!; done.
Qed.

Lemma update_ok it payer buffer o t x a : tables_ok a -> own_row it o t a -> let o' := updated payer buffer o in
  let a' := set_cache (set_slot it (Some o') (KeyvalCache a)) (set_kvs (db_Modify kvID row_key o o' (kvs a)) (set_actx x a)) in
  tables_ok a' /\ at_row it o' a' /\
  forall k pk, content a' k pk = if decide (k = table_key t /\ pk = PrimaryKey o) then Some (kvPayer o', buffer) else content a k pk.
Proof.
  intros Ha ((Hpos & Hit) & Ht & _) o' a'. pose proof (at_row_stored _ _ _ Ha (conj Hpos Hit)) as [Ho _].
  destruct (db_Modify_ok kvID row_key (kvs a) o o' (t_kvs a Ha) Ho eq_refl eq_refl) as (Hm & Em1 & Em2 & Em3).
  assert (Hcount : forall i, rows_in i (irows (kvs a')) = rows_in i (irows (kvs a))).
  { intros i. unfold rows_in. cbn [a' kvs set_cache set_kvs]. rewrite Em1, (sum_update _ _ _ o o' Ho). cbn. lia. }
  assert (Ha' : tables_ok a').
  { split; cbn [a' tabs kvs KeyvalCache set_cache set_kvs set_actx]; [apply Ha|done| | |].
    - intros i t1 Ht1. fold a'. change (db_Modify kvID row_key o o' (kvs a)) with (kvs a'). rewrite Hcount. by apply Ha.
    - rewrite Em1. intros i y [[<- <-]|[_ Hy]]%lookup_insert_Some; [by exists t|by eapply t_table].
    - rewrite <- (Z2Nat.id it Hpos). eapply set_slot_ok; [apply Ha|done|rewrite Em1; intros i Hne; by rewrite lookup_insert_ne|].
      intros y [= <-]. rewrite Em1. split_and!; try done. by rewrite lookup_insert_eq. }
  assert (at_row it o' a') as Hat.
  { split; [done|]. cbn. apply list_lookup_insert_eq. by eapply lookup_lt_Some. }
  split_and!; [done..|]. intros k pk. destruct (decide _) as [[-> ->]|Hne].
  - apply content_iff; [done|]. exists (kvTId o), o'. destruct (row_id _ _ _ (t_tabs a Ha) _ _ Ht) as (_ & _ & Hkey).
    split_and!; try done. by apply (at_row_stored _ _ _ Ha' Hat).
  - eapply content_other; try done; cbn [a' tabs kvs KeyvalCache set_cache set_kvs set_actx]; rewrite ?Em1.
    + intros i Hi. by rewrite lookup_insert_ne.
    + rewrite lookup_insert_eq. by intros y [= <-].
    + by left.
Qed.

Definition without_row (t : TableIdObject) (T : Indexed (Z * Z * Z) TableIdObject) : Indexed (Z * Z * Z) TableIdObject :=
  let t' := with_count (tabCount t - 1) t in
  let T' := db_Modify tabID table_key t t' T in
  if tabCount t' =? 0 then db_Remove tabID table_key t' T' else T'.

Definition removed (it : Z) (o : KeyValueObject) (t : TableIdObject) (x : Context) (a : ApplyContext) : ApplyContext :=
  mkApplyContext x (Receiver a) (actCode a) (Privileged a) (IsRamBillingInNotifyAllowed a) (without_row t (tabs a)) (db_Remove kvID row_key o (kvs a))
    (set_slot it None (set_table (with_count (tabCount t - 1) t) (KeyvalCache a))).

Lemma cache_remove_held it o c c' : 0 <= it -> iteratorToObject c !! Z.to_nat it = Some (Some o) ->
  cache_remove it (c : iteratorCache KeyValueObject) = Ok c' -> c' = set_slot it None c.
Proof.
  intros Hpos Hit. unfold cache_remove, slot. rewrite (proj2 (Z.eqb_neq it (-1))), (proj2 (Z.leb_le 0 it)) by lia. cbn. rewrite Hit. cbn. by intros [= <-].
Qed.

Lemma set_table_slots t c : iteratorToObject (set_table t c : iteratorCache KeyValueObject) = iteratorToObject c.
Proof. unfold set_table. by destruct (_ !! _) as [[]|]. Qed.

Lemma DbRemoveI64_run it a a' : tables_ok a -> DbRemoveI64 it a = (a', Ok tt) ->
  exists o t x, own_row it o t a /\ billed (kvPayer o) (i64 (- billable_row (kvValue o))) (actx a) x /\ a' = removed it o t x a.
Proof.
  intros Ha. unfold DbRemoveI64. intros H. run_step H. apply run_bind in H as (a1 & o & [-> Ho]%run_lift & H).
  apply run_bind in H as (a1 & t & [-> Ht]%run_lift & H). apply run_bind in H as (a1 & [] & [Hc ->]%run_assert & H).
  destruct (own_row_run _ _ _ _ Ha Ho Ht Hc) as [Hown _]. apply run_bind in H as (a1 & [] & (x & -> & Hb)%UpdateDbUsage_run & H).
  apply run_bind in H as (a2 & [] & ->%run_modify & H). apply run_bind in H as (a3 & [] & ->%run_modify & H).
  apply run_bind in H as (a4 & [] & ->%run_modify & H). apply run_bind in H as (a5 & [] & H1 & H). run_step H.
  apply run_bind in H as (a6 & c & [-> Hc']%run_lift & ->%run_modify).
  exists o, t, x. split_and!; [done..|]. destruct Hown as ((Hpos & Hit) & _). unfold removed, without_row.
  destruct (tabCount (with_count (tabCount t - 1) t) =? 0).
  - apply run_modify in H1 as ->. cbn in Hc'. apply (cache_remove_held _ o) in Hc' as ->; [done|done|by rewrite set_table_slots].
  - run_step H1. cbn in Hc'. apply (cache_remove_held _ o) in Hc' as ->; [done|done|by rewrite set_table_slots].
Qed.

(** The tables after the removal of a row. *)
Lemma without_row_ok it o t a : tables_ok a -> own_row it o t a ->
  let t' := with_count (tabCount t - 1) t in let T := without_row t (tabs a) in
  indexed_ok tabID table_key T /\ inext T = inext (tabs a) /\ tabCount t' = tabCount t - 1 /\
  (forall i, i <> tabID t -> irows T !! i = irows (tabs a) !! i) /\
  (irows T !! tabID t = Some t' /\ ikeys T = ikeys (tabs a) /\ 0 < tabCount t' \/
   irows T !! tabID t = None /\ ikeys T = delete (table_key t) (ikeys (tabs a)) /\ tabCount t' = 0).
Proof.
  intros Ha (_ & Ht & _). pose proof (row_id _ _ _ (t_tabs a Ha) _ _ Ht) as (Ei & _). destruct (t_count a Ha _ _ Ht) as [_ Hc].
  assert (Ec : tabCount (with_count (tabCount t - 1) t) = tabCount t - 1) by (cbn; apply uwrap_id; unfold in_u; norm_pow; lia).
  rewrite <- Ei in Ht. cbn zeta. unfold without_row.
  destruct (db_Modify_ok tabID table_key (tabs a) t (with_count (tabCount t - 1) t) (t_tabs a Ha) Ht eq_refl eq_refl) as (Hm & Em1 & Em2 & Em3).
  rewrite Ec. destruct (Z.eqb_spec (tabCount t - 1) 0) as [E0|E0].
  - destruct (db_Remove_ok tabID table_key _ (with_count (tabCount t - 1) t) Hm) as (Hr & Er1 & Er2 & Er3);
      [by rewrite Em1; apply lookup_insert_eq|]. rewrite Er1, Er2, Er3, Em1, Em2, Em3. split_and!; try done.
    + intros i Hne. cbn [tabID with_count]. by rewrite lookup_delete_ne, lookup_insert_ne.
    + right. cbn [tabID with_count]. split_and!; [apply lookup_delete_eq|done|lia].
  - rewrite Em1, Em2, Em3. split_and!; try done; [intros i Hne; by rewrite lookup_insert_ne|]. left. rewrite lookup_insert_eq. split_and!; [done..|lia].
Qed.

Lemma remove_ok it o t x a : tables_ok a -> own_row it o t a -> let a' := removed it o t x a in
  tables_ok a' /\ (forall i y, iteratorToObject (KeyvalCache a) !! i = Some (Some y) -> i <> Z.to_nat it -> iteratorToObject (KeyvalCache a') !! i = Some (Some y)) /\
  (forall j y, at_row j y a' -> j <> it) /\
  forall k pk, content a' k pk = if decide (k = table_key t /\ pk = PrimaryKey o) then None else content a k pk.
Proof.
  intros Ha Hown a'. pose proof (without_row_ok _ _ _ _ Ha Hown) as (HT & En & Ec & Hoth & Hcase). destruct Hown as ((Hpos & Hit) & Ht & _).
  pose proof (at_row_stored _ _ _ Ha (conj Hpos Hit)) as (Ho & t0 & e & Hce & Ht0 & Ei). assert (t0 = t) as -> by congruence.
  destruct (db_Remove_ok kvID row_key (kvs a) o (t_kvs a Ha) Ho) as (Hr & Er1 & Er2 & Er3).
  assert (Hrows : forall i, rows_in i (irows (kvs a')) = rows_in i (irows (kvs a)) - if kvTId o =? i then 1 else 0).
  { intros i. unfold rows_in. cbn [a' kvs removed]. rewrite Er1, (sum_delete _ _ (kvID o) o Ho). cbn. lia. }
  assert (Hzero : tabCount (with_count (tabCount t - 1) t) = 0 -> rows_in (kvTId o) (irows (kvs a')) = 0).
  { rewrite Hrows, Z.eqb_refl, Ec. destruct (t_count a Ha _ _ Ht). lia. }
  assert (Ha' : tables_ok a').
  { split; [done|done| | |]; cbn [a' tabs kvs KeyvalCache removed].
    - intros i t1 Ht1. change (db_Remove kvID row_key o (kvs a)) with (kvs a'). rewrite Hrows. destruct (Z.eqb_spec (kvTId o) i) as [<-|Hne].
      + rewrite <- Ei in Ht1. destruct Hcase as [(E & _ & Hp)|(E & _)]; rewrite E in Ht1; [|done]. injection Ht1 as <-. rewrite Ec in *.
        destruct (t_count a Ha _ _ Ht). lia.
      + rewrite Hoth in Ht1 by congruence. apply (t_count a Ha) in Ht1. lia.
    - rewrite Er1. intros i y [Hne Hy]%lookup_delete_Some. destruct (decide (kvTId y = tabID t)) as [E|?]; [|rewrite Hoth by done; by eapply t_table].
      destruct Hcase as [(E1 & _)|(_ & _ & H0%Hzero)]; [by rewrite E, E1|]. exfalso. apply (rows_in_zero _ _ i y H0); [|congruence].
      cbn [a' kvs removed]. rewrite Er1. by rewrite lookup_delete_ne by (intros <-; done).
    - rewrite <- (Z2Nat.id it Hpos), En. eapply set_slot_ok; [|by rewrite set_table_slots| |done].
      + eapply set_table_ok; [apply Ha|by rewrite <- Ei in Hce| |done]. cbn [tabID with_count]. tauto.
      + intros i Hne. by rewrite Er1, lookup_delete_ne. }
  split_and!; [done| | |].
  - intros i y Hi Hne. cbn. by rewrite set_table_slots, list_lookup_insert_ne.
  - intros j y [Hj Hy] ->. cbn in Hy. rewrite set_table_slots, list_lookup_insert_eq in Hy; [done|]. by eapply lookup_lt_Some.
  - intros k pk. destruct (decide _) as [[-> ->]|Hne].
    + destruct (content a' _ _) as [v|] eqn:E; [|done]. apply content_iff in E as (i & y & Hi & Hy & Ey & _); [|done].
      cbn [a' kvs tabs removed] in Hi, Hy. assert (i = kvTId o) as ->.
      { destruct (row_id _ _ _ (t_tabs a Ha) _ _ Ht) as (_ & _ & Hkey). destruct Hcase as [(_ & Ek & _)|(_ & Ek & _)]; rewrite Ek in Hi; [congruence|].
        by rewrite lookup_delete_eq in Hi. }
      rewrite Er1 in Hy. apply lookup_delete_Some in Hy as [Hne Hy]. apply (row_id _ _ _ (t_kvs a Ha)) in Hy as (_ & _ & Hy).
      apply (row_id _ _ _ (t_kvs a Ha)) in Ho as (_ & _ & Ho). unfold row_key in *. congruence.
    + eapply content_other; try done; cbn [a' tabs kvs removed]; rewrite ?Er1.
      * intros i Hi. by rewrite lookup_delete_ne.
      * by rewrite lookup_delete_eq.
      * destruct Hcase as [(_ & -> & _)|(_ & -> & H0%Hzero)]; [by left|right]. split; [done|]. cbn [a' kvs removed] in H0. by rewrite Er1 in H0.
Qed.

(** *** Searches *)

(** [r] is the best row of table [t] whose primary key passes the test. *)
Definition chosen (better : Z -> Z -> Prop) (P : Z -> Prop) (t : Z) (a : ApplyContext) (r : option KeyValueObject) : Prop :=
  let stored o := irows (kvs a) !! kvID o = Some o /\ kvTId o = t /\ P (PrimaryKey o) in
  match r with
  | Some o => stored o /\ forall x, stored x -> better (PrimaryKey o) (PrimaryKey x)
  | None => forall x, ~ stored x
  end.

(** A search over the whole index finds the row of one table. *)
Lemma picked_row a t le (Q : Z * Z -> Prop) (P : Z -> Prop) (better : Z -> Z -> Prop) s : tables_ok a -> picks le Q (ikeys (kvs a)) s ->
  (forall q, Q (t, q) <-> P q) -> (forall q q', le (t, q) (t, q') -> better q q') ->
  (forall k q, is_Some (ikeys (kvs a) !! k) -> Q k -> Q (t, q) -> le k (t, q) -> k.1 = t) ->
  exists r, chosen better P t a r /\ match r with Some o => s = Some (row_key o) | None => forall k, s = Some k -> k.1 <> t end.
Proof.
  intros Ha Hs HQ Hle Hin. assert (Hkey : forall x, irows (kvs a) !! kvID x = Some x -> is_Some (ikeys (kvs a) !! row_key x)).
  { intros x Hx. destruct (row_id _ _ _ (t_kvs a Ha) _ _ Hx) as (_ & _ & ->). done. }
  destruct s as [k|].
  - destruct Hs as ([i Hi] & Qk & Hm). destruct (key_row _ _ _ (t_kvs a Ha) _ _ Hi) as (o & Ho & Ek).
    destruct (row_id _ _ _ (t_kvs a Ha) _ _ Ho) as (<- & _). destruct (decide (k.1 = t)) as [E|E].
    + exists (Some o). split; [|by rewrite Ek]. assert (k = (t, PrimaryKey o)) as -> by (subst; unfold row_key; done).
      split; [split_and!; [done|unfold row_key in Ek; congruence|by apply HQ]|]. intros x (Hx & Et & HP). apply Hle.
      assert (row_key x = (t, PrimaryKey x)) as Ex by (unfold row_key; by rewrite Et). rewrite <- Ex. apply Hm; [by apply Hkey|rewrite Ex; by apply HQ].
    + exists None. split; [|congruence]. intros x (Hx & Et & HP). apply E. assert (row_key x = (t, PrimaryKey x)) as Ex by (unfold row_key; by rewrite Et).
      eapply Hin; [by exists (kvID o)|done|by apply HQ|]. rewrite <- Ex. apply Hm; [by apply Hkey|rewrite Ex; by apply HQ].
  - exists None. split; [|done]. intros x (Hx & Et & HP). apply (Hs (row_key x)); [by apply Hkey|]. unfold row_key. rewrite Et. by apply HQ.
Qed.

Lemma seek_row a t p : tables_ok a -> exists r, chosen Z.le (Z.le p) t a r /\
  match r with Some o => seek (t, p) (ikeys (kvs a)) = Some (row_key o) | None => forall k, seek (t, p) (ikeys (kvs a)) = Some k -> k.1 <> t end.
Proof. intros Ha. eapply picked_row; [done|apply seek_picks|..]; unfold key_le; cbn; intros; lia. Qed.

Lemma after_row a t p : tables_ok a -> exists r, chosen Z.le (Z.lt p) t a r /\
  match r with Some o => after (t, p) (ikeys (kvs a)) = Some (row_key o) | None => forall k, after (t, p) (ikeys (kvs a)) = Some k -> k.1 <> t end.
Proof. intros Ha. eapply picked_row; [done|apply after_picks|..]; intros *; rewrite ?key_lt_iff; unfold key_le; cbn; lia. Qed.

Lemma before_row a t p : tables_ok a -> exists r, chosen Z.ge (Z.gt p) t a r /\
  match r with Some o => before (t, p) (ikeys (kvs a)) = Some (row_key o) | None => forall k, before (t, p) (ikeys (kvs a)) = Some k -> k.1 <> t end.
Proof. intros Ha. eapply picked_row; [done|apply before_picks|..]; intros *; rewrite ?key_lt_iff; unfold flip, key_le; cbn; lia. Qed.

(** A key that is in the index is found where it is. *)
Lemma seek_self a o : tables_ok a -> irows (kvs a) !! kvID o = Some o -> seek (row_key o) (ikeys (kvs a)) = Some (row_key o).
Proof.
  intros Ha Ho. pose proof (seek_picks (row_key o) (ikeys (kvs a))) as Hs. destruct (row_id _ _ _ (t_kvs a Ha) _ _ Ho) as (_ & _ & Hk).
  destruct (seek _ _) as [k|]; cbn in Hs.
  - destruct Hs as (_ & H1 & H2). specialize (H2 (row_key o) ltac:(by rewrite Hk)). destruct k as [k1 k2], (row_key o) as [x1 x2].
    unfold key_le in *. cbn in *. f_equal. assert (k1 = x1 /\ k2 = x2) as [-> ->] by lia. done.
  - exfalso. apply (Hs (row_key o)); [by rewrite Hk|]. unfold key_le. lia.
Qed.

(** *** Reads *)

(** Only the cache changes, and the iterators in use stay. *)
Record reads (a a' : ApplyContext) : Prop := {
  reads_ok : tables_ok a';
  reads_rest : a' = set_cache (KeyvalCache a') a;
  reads_slots it o : at_row it o a -> at_row it o a' }.

Definition cached (t : Z) (a : ApplyContext) : Prop := is_Some (tableCache (KeyvalCache a) !! t).

Lemma found_run o a : tables_ok a -> len (iteratorToObject (KeyvalCache a)) < 32 -> irows (kvs a) !! kvID o = Some o -> cached (kvTId o) a ->
  exists a' it, found (row_key o) a = (a', Ok (it, Some (PrimaryKey o))) /\ reads a a' /\ at_row it o a'.
Proof.
  intros Ha Hl Ho Hc. unfold found, mbind, M_bind, get. unfold row_at.
  rewrite (proj2 (db_Find_Some kvID row_key (kvs a) (row_key o) o (t_kvs a Ha)) (conj Ho eq_refl)).
  unfold with_cache, mret, M_ret. pose proof (add_ok _ _ _ _ o (t_cache a Ha) Ho Hc Hl) as H. destruct (add kv_ident o (KeyvalCache a)) as [it c].
  destruct H as (Hc' & Hpos & Hit & _ & _ & Hs). eexists _, it. split; [done|]. split; [|done].
  split; [|done|intros i x [? Hx]; split; [done|by apply Hs]]. destruct Ha. by split.
Qed.

Lemma getEnd_run t a : cached t a -> tables_ok a -> exists e, getEndIteratorByTableID t (KeyvalCache a) = Ok e /\ e < -1.
Proof.
  intros [[t0 e] Hc] Ha. unfold getEndIteratorByTableID. rewrite Hc. exists e. split; [done|].
  destruct (c_table _ _ _ _ (t_cache a Ha) _ _ _ Hc) as (_ & _ & _ & j & _ & -> & _). unfold IndexToEndIterator. lia.
Qed.

Lemma cacheTable_run i t a : tables_ok a -> len (endIteratorToTable (KeyvalCache a)) < 8 -> irows (tabs a) !! i = Some t ->
  exists a' e, with_cache (cacheTable t) a = (a', Ok e) /\ reads a a' /\ e < -1 /\ getEndIteratorByTableID i (KeyvalCache a') = Ok e /\
    cached i a' /\ iteratorToObject (KeyvalCache a') = iteratorToObject (KeyvalCache a).
Proof.
  intros Ha Hl Ht. destruct (row_id _ _ _ (t_tabs a Ha) _ _ Ht) as (<- & Hn & _).
  pose proof (cacheTable_ok _ (irows (tabs a)) _ (inext (tabs a)) _ _ t (t_cache a Ha) Ht (fun _ _ => eq_refl) ltac:(lia) Hn Hl) as H.
  unfold with_cache. destruct (cacheTable t (KeyvalCache a)) as [e c]. destruct H as (Hc & He & Hte & Hs). eexists _, e. split; [done|].
  unfold getEndIteratorByTableID, cached. cbn. rewrite Hte, Hs. split_and!; try done.
  split; [|done|intros j x [? Hx]; split; [done|by cbn; rewrite Hs]]. destruct Ha. by split.
Qed.

Lemma reads_trans a b c : reads a b -> reads b c -> reads a c.
Proof. intros [H1 H2 H3] [K1 K2 K3]. split; [done| |eauto]. rewrite K2, H2. done. Qed.

Lemma reads_chosen better P t a a' r : reads a a' -> chosen better P t a' r <-> chosen better P t a r.
Proof. intros [_ E _]. rewrite E. done. Qed.

Lemma chosen_ext better (P P' : Z -> Prop) t a r : (forall q, P' q <-> P q) -> chosen better P t a r -> chosen better P' t a r.
Proof.
  intros E. destruct r as [o|]; cbn.
  - intros ((Ho & Et & HP%E) & Hb). split; [done|]. intros x (Hx & Ex & HPx%E). by apply Hb.
  - intros H x (Hx & Ex & HPx%E). by apply (H x).
Qed.

Lemma picks_unique le P m r r' : (forall x y, le x y -> le y x -> x = y) -> picks le P m r -> picks le P m r' -> r = r'.
Proof.
  intros Has. destruct r as [x|], r' as [y|]; cbn; [|naive_solver..]. intros (H1 & H2 & H3) (K1 & K2 & K3). f_equal. apply Has; eauto.
Qed.

Lemma key_le_antisym x y : key_le x y -> key_le y x -> x = y.
Proof. unfold key_le. destruct x as [x1 x2], y as [y1 y2]. cbn. intros. assert (x1 = y1 /\ x2 = y2) as [-> ->] by lia. done. Qed.

(** One step back from a bound is the last key below the bound. *)
Lemma step_back b m : (match seek b m with Some k => if bool_decide (begin_ m = Some k) then None else before k m | None => last_ m end) = before b m.
Proof.
  apply (picks_unique (flip key_le) (fun x => key_lt x b = true) m); [intros x y ? ?; by apply key_le_antisym| |apply before_picks].
  pose proof (seek_picks b m) as Hs. destruct (seek b m) as [k|]; cbn in Hs.
  - destruct Hs as (Hk & Hle & Hmin).
    assert (Hiff : forall x, is_Some (m !! x) -> key_lt x b = true <-> key_lt x k = true).
    { intros x Hx. specialize (Hmin x Hx). split; [key_lia|]. intros Hlt. apply not_false_iff_true. intros Hge. apply key_lt_neg in Hge.
      assert (key_le b x) as Hbx by (unfold key_le; lia). apply Hmin in Hbx. key_lia. }
    case_bool_decide as Hb.
    + intros x Hx Hlt%Hiff; [|done]. pose proof (begin_picks m) as Hbeg. rewrite Hb in Hbeg. destruct Hbeg as (_ & _ & Hall).
      specialize (Hall x Hx I). key_lia.
    + pose proof (before_picks k m) as Hp. destruct (before k m) as [y|]; cbn in *.
      * destruct Hp as (H1 & H2 & H3). split_and!; [done|by apply Hiff|]. intros x Hx Hlt. apply H3; [done|by apply Hiff].
      * intros x Hx Hlt. apply (Hp x Hx). by apply Hiff.
  - pose proof (last_picks m) as Hl. assert (Hall : forall x, is_Some (m !! x) -> key_lt x b = true).
    { intros x Hx. apply not_false_iff_true. intros Hge%key_lt_neg. apply (Hs x Hx). unfold key_le. lia. }
    destruct (last_ m) as [y|]; cbn in *; [|naive_solver]. destruct Hl as (H1 & _ & H3). split_and!; [done|by apply Hall|]. intros x Hx _. by apply H3.
Qed.

(** *** What the searches return *)

(** The end iterator of a table. *)
Definition ends_at (it t : Z) (a : ApplyContext) : Prop := it < -1 /\ getEndIteratorByTableID t (KeyvalCache a) = Ok it.

Definition leads (it t : Z) (r : option KeyValueObject) (a : ApplyContext) : Prop :=
  match r with Some o => at_row it o a | None => ends_at it t a end.

Definition leads_back (it : Z) (r : option KeyValueObject) (a : ApplyContext) : Prop :=
  match r with Some o => at_row it o a | None => it = -1 end.

(** -1 without the table, else the iterator of the best row that passes the test, or the
    end of the table. *)
Definition search_of (op : M ApplyContext Z) (P : Z -> Prop) (k : Z * Z * Z) (a : ApplyContext) : Prop :=
  match ikeys (tabs a) !! k with
  | None => op a = (a, Ok (-1))
  | Some t => exists a' it r, op a = (a', Ok it) /\ reads a a' /\ chosen Z.le P t a r /\ leads it t r a'
  end.

Section Searches.
Context (a : ApplyContext) (Ha : tables_ok a) (Hroom : room a).

Lemma FindTable_run code scope table : match ikeys (tabs a) !! (code, scope, table) with
  | None => FindTable code scope table a = None
  | Some t => exists tab, FindTable code scope table a = Some tab /\ irows (tabs a) !! t = Some tab /\ tabID tab = t
  end.
Proof.
  unfold FindTable. destruct (ikeys (tabs a) !! _) as [t|] eqn:E.
  - destruct (key_row _ _ _ (t_tabs a Ha) _ _ E) as (tab & Ht & Ek). destruct (row_id _ _ _ (t_tabs a Ha) _ _ Ht) as (Ei & _).
    exists tab. split_and!; [|done..]. apply (db_Find_Some tabID table_key); [apply Ha|]. by rewrite Ei.
  - by apply (db_Find_None tabID table_key); [apply Ha|].
Qed.

Lemma bound_at_run code scope table bound p P : (forall tab, bound tab = (tabID tab, p)) -> (forall q, P q <-> p <= q) ->
  search_of (bound_at code scope table bound) P (code, scope, table) a.
Proof.
  intros Hb HP. unfold search_of, bound_at. pose proof (FindTable_run code scope table) as Hf. unfold mbind, M_bind, get.
  destruct (ikeys (tabs a) !! _) as [t|]; [|by rewrite Hf]. destruct Hf as (tab & -> & Ht & Ei).
  destruct (cacheTable_run t tab a Ha (room_ends _ Hroom) Ht) as (a1 & e & -> & Hr & He & Hend & Hc & Hs). rewrite Hb, Ei.
  pose proof (reads_ok _ _ Hr) as Ha1. destruct (seek_row a1 t p Ha1) as (r & Hch & Hseek).
  assert (Hch' : chosen Z.le P t a r).
  { apply (reads_chosen _ _ _ a a1 r Hr). by apply (chosen_ext _ (Z.le p)). }
  destruct r as [o|].
  - rewrite Hseek. destruct Hch as ((Ho & Et & _) & _). cbn. rewrite Et, Z.eqb_refl. rewrite <- Et in Hc.
    destruct (found_run o a1 Ha1 ltac:(rewrite Hs; apply Hroom) Ho Hc) as (a2 & it & -> & Hr2 & Hat). exists a2, it, (Some o).
    split_and!; [done|by eapply reads_trans|done|done].
  - exists a1, e, None. split_and!; [|done..]. destruct (seek _ _) as [k|]; [|done]. by rewrite (proj2 (Z.eqb_neq _ _) (Hseek k eq_refl)).
Qed.

Lemma DbFindI64_search code scope table id : search_of (DbFindI64 code scope table id) (eq id) (code, scope, table) a.
Proof.
  unfold search_of, DbFindI64. pose proof (FindTable_run code scope table) as Hf. unfold mbind, M_bind, get.
  destruct (ikeys (tabs a) !! _) as [t|]; [|by rewrite Hf]. destruct Hf as (tab & -> & Ht & Ei).
  destruct (cacheTable_run t tab a Ha (room_ends _ Hroom) Ht) as (a1 & e & -> & Hr & He & Hend & Hc & Hs). rewrite Ei. unfold row_at.
  pose proof (reads_ok _ _ Hr) as Ha1. destruct (db_Find (t, id) (kvs a1)) as [o|] eqn:E.
  - pose proof E as [Ho Ek]%(db_Find_Some kvID row_key); [|apply Ha1]. unfold row_key in Ek.
    destruct (found_run o a1 Ha1 ltac:(rewrite Hs; apply Hroom) Ho ltac:(unfold row_key in Ek; by injection Ek as -> _)) as (a2 & it & Hfound & Hr2 & Hat).
    exists a2, it, (Some o). unfold found, mbind, M_bind, get, row_at in Hfound. unfold row_key in Hfound. rewrite Ek, E in Hfound.
    destruct (with_cache (add kv_ident o) a1) as [a3 [it3|]]; [|done]. injection Hfound as -> ->. split_and!; [done|by eapply reads_trans| |done].
    apply (reads_chosen _ _ _ a a1 _ Hr). split; [injection Ek as -> ->; done|]. injection Ek as Et Ep. intros x (_ & _ & <-). lia.
  - exists a1, e, None. split_and!; try done. apply (reads_chosen _ _ _ a a1 _ Hr). intros x (Hx & Et & Ep).
    apply (db_Find_None kvID row_key) in E; [|apply Ha1]. destruct (row_id _ _ _ (t_kvs a1 Ha1) _ _ Hx) as (_ & _ & Hk). unfold row_key in Hk. congruence.
Qed.
End Searches.

Lemma last_byte_up_small z : z mod 256 <> 255 -> last_byte_up z = z + 1.
Proof.
  intros H. unfold last_byte_up. pose proof (Z.div_mod z 256 ltac:(done)). pose proof (Z.mod_pos_bound z 256 ltac:(done)).
  rewrite <- Z.add_mod_idemp_l, (Z.mod_small (z mod 256 + 1)) by lia. lia.
Qed.

Section Steps.
Context (a : ApplyContext) (Ha : tables_ok a) (Hslots : len (iteratorToObject (KeyvalCache a)) < 32).

Lemma at_row_cached it o : at_row it o a -> irows (kvs a) !! kvID o = Some o /\ cached (kvTId o) a.
Proof. intros Hat. destruct (at_row_stored _ _ _ Ha Hat) as (Ho & t & e & Hc & _). split; [done|]. by exists (t, e). Qed.

Lemma DbNextI64_search it o : at_row it o a -> exists a' it' r, DbNextI64 it a = (a', Ok (it', PrimaryKey <$> r)) /\ reads a a' /\
  chosen Z.le (Z.lt (PrimaryKey o)) (kvTId o) a r /\ leads it' (kvTId o) r a'.
Proof.
  intros Hat. destruct (at_row_cached it o Hat) as [Ho Hc]. unfold DbNextI64.
  rewrite (proj2 (Z.ltb_ge it (-1))) by (destruct Hat; lia). unfold mbind, M_bind, get, lift.
  rewrite (proj2 (cache_get_iff it o _) Hat), (seek_self a o Ha Ho). destruct (after_row a (kvTId o) (PrimaryKey o) Ha) as (r & Hch & Hr).
  fold (row_key o) in Hr. destruct r as [o'|].
  - rewrite Hr. destruct Hch as ((Ho' & Et & ?) & ?). cbn. rewrite Et, Z.eqb_refl. rewrite <- Et in Hc.
    destruct (found_run o' a Ha Hslots Ho' Hc) as (a' & it' & Hf & Hrd & Hat'). exists a', it', (Some o'). cbn in Hf. split_and!; done.
  - destruct (getEnd_run _ a Hc Ha) as (e & He & Hneg). exists a, e, None. split_and!; [|by split; [done|by destruct a|]|done|done].
    destruct (after _ _) as [k|]; [rewrite (proj2 (Z.eqb_neq _ _) (Hr k eq_refl))|]; by rewrite He.
Qed.

Lemma DbPreviousI64_search it o : at_row it o a -> exists a' it' r, DbPreviousI64 it a = (a', Ok (it', PrimaryKey <$> r)) /\ reads a a' /\
  chosen Z.ge (Z.gt (PrimaryKey o)) (kvTId o) a r /\ leads_back it' r a'.
Proof.
  intros Hat. destruct (at_row_cached it o Hat) as [Ho Hc]. unfold DbPreviousI64, mbind, M_bind, get, lift.
  rewrite (proj2 (Z.ltb_ge it (-1))) by (destruct Hat; lia).
  rewrite (proj2 (cache_get_iff it o _) Hat), (seek_self a o Ha Ho). destruct (before_row a (kvTId o) (PrimaryKey o) Ha) as (r & Hch & Hr).
  fold (row_key o) in Hr. destruct r as [o'|].
  - rewrite Hr. destruct Hch as ((Ho' & Et & ?) & ?). cbn. rewrite Et, Z.eqb_refl. rewrite <- Et in Hc.
    destruct (found_run o' a Ha Hslots Ho' Hc) as (a' & it' & Hf & Hrd & Hat'). exists a', it', (Some o'). cbn in Hf. split_and!; done.
  - exists a, (-1), None. split_and!; [|by split; [done|by destruct a|]|done|done].
    destruct (before _ _) as [k|]; [by rewrite (proj2 (Z.eqb_neq _ _) (Hr k eq_refl))|done].
Qed.

Lemma end_table it t : ends_at it t a -> exists tab, findTablebyEndIterator it (KeyvalCache a) = Ok (Some tab) /\ tabID tab = t.
Proof.
  intros [Hneg He]. unfold getEndIteratorByTableID in He. destruct (tableCache (KeyvalCache a) !! t) as [[t0 e]|] eqn:Hc; [|done]. injection He as ->.
  destruct (c_table _ _ _ _ (t_cache a Ha) _ _ _ Hc) as (_ & _ & _ & j & tab & Ee & Hj & Ei). exists tab. split; [|done].
  unfold findTablebyEndIterator. rewrite (proj2 (Z.ltb_lt it (-1))) by lia. cbn. unfold endIteratorToIndex, IndexToEndIterator in *.
  by replace (Z.to_nat (- it - 2)) with j by lia; rewrite Hj.
Qed.

(** A table whose id does not end in 255 is left at its last row. *)
Lemma DbPreviousI64_end it t : ends_at it t a -> t mod 256 <> 255 -> (forall i o, irows (kvs a) !! i = Some o -> 0 <= PrimaryKey o) ->
  exists a' it' r, DbPreviousI64 it a = (a', Ok (it', PrimaryKey <$> r)) /\ reads a a' /\ chosen Z.ge (fun _ => True) t a r /\ leads_back it' r a'.
Proof.
  intros Hend Hb Hw. destruct (end_table it t Hend) as (tab & Hf & Ei). unfold DbPreviousI64, mbind, M_bind, get, lift.
  rewrite (proj2 (Z.ltb_lt it (-1))) by apply Hend. rewrite Hf, step_back, Ei.
  rewrite last_byte_up_small by done.
  destruct (picked_row a t (flip key_le) (fun x => key_lt x (t + 1, 0) = true) (fun _ => True) Z.ge (before (t + 1, 0) (ikeys (kvs a)))) as (r & Hch & Hr);
    [done|apply before_picks|intros q; rewrite key_lt_iff; cbn; lia|unfold flip, key_le; cbn; lia| |].
  { intros k q [i Hi]. destruct (key_row _ _ _ (t_kvs a Ha) _ _ Hi) as (o & Ho%Hw & <-). rewrite !key_lt_iff. unfold flip, key_le, row_key. cbn. lia. }
  assert (Hc : cached t a). { destruct Hend as [_ He]. unfold getEndIteratorByTableID in He. unfold cached. by destruct (tableCache (KeyvalCache a) !! t). }
  destruct r as [o'|].
  - rewrite Hr. destruct Hch as ((Ho' & Et & ?) & ?). cbn. rewrite Et, Z.eqb_refl. rewrite <- Et in Hc.
    destruct (found_run o' a Ha Hslots Ho' Hc) as (a' & it' & Hfd & Hrd & Hat'). exists a', it', (Some o'). cbn in Hfd. split_and!; done.
  - exists a, (-1), None. split_and!; [|by split; [done|by destruct a|]|done|done].
    destruct (before _ _) as [k|]; [by rewrite (proj2 (Z.eqb_neq _ _) (Hr k eq_refl))|done].
Qed.
End Steps.

(** *** RAM *)

Definition usages_u64 (x : Context) : Prop := forall n u, ResourceLimits.usages (resources (chain x)) !! n = Some u -> in_u 64 (ResourceLimits.RamUsage u).

Lemma billed_ram payer delta x x' name : usages_u64 x -> in_s 64 delta -> billed payer delta x x' ->
  usages_u64 x' /\ ram_used (chain x') name = ram_used (chain x) name + (if name =? payer then delta else 0).
Proof.
  intros Hx Hd (d & H & Ex). unfold usages_u64, ram_used. rewrite Ex. cbn [resources set_resources].
  destruct (ResourceLimits.usages (resources (chain x)) !! payer) as [u|] eqn:Eu.
  - rewrite (ResourceLimits.ram_usage_exact payer delta _ u Eu (Hx _ _ Eu) Hd) in H. case_bool_decide as Hin; [|done]. injection H as <-. cbn. split.
    + intros n v [[<- <-]|[_ Hv]]%lookup_insert_Some; [done|by eapply Hx].
    + destruct (Z.eqb_spec name payer) as [->|Hne]; [by rewrite lookup_insert_eq, Eu|]. rewrite lookup_insert_ne by done. lia.
  - unfold ResourceLimits.AddPendingRamUsage in H. destruct (Z.eqb_spec delta 0) as [->|Hne].
    + run_step H. split; [done|]. destruct (name =? payer); lia.
    + apply run_bind in H as (d1 & u & Hu & _). unfold ResourceLimits.find_usage in Hu. run_step Hu. rewrite Eu in Hu. by run_step Hu.
Qed.

(** The RAM of the rows an account pays for, and what it is billed beyond them. *)
Definition rows_ram (name : Z) (R : gmap Z KeyValueObject) : Z := sum_map (fun _ o => if name =? kvPayer o then billable_row (kvValue o) else 0) R.
Definition ram_beyond (a : ApplyContext) (name : Z) : Z := ram_used (chain (actx a)) name - rows_ram name (irows (kvs a)).

Definition small (value : bytes) : Prop := len value < 2 ^ 40.

Lemma billable_row_small value : small value -> billable_row value = len value + 112 /\ 0 < billable_row value < 2 ^ 41.
Proof.
  unfold small, billable_row. intros H. change (i64 (Billable "key_value_object")) with 112. pose proof (len_nonneg value).
  rewrite i64_small by lia. norm_pow. lia.
Qed.

Lemma table_size_range : in_s 64 table_size.
Proof. assert (table_size = 112) as -> by (vm_compute; reflexivity). by_decide. Qed.

Section Ram.
Context (a : ApplyContext) (Ha : tables_ok a) (Hx : usages_u64 (actx a)) (Hsmall : forall i o, irows (kvs a) !! i = Some o -> small (kvValue o)).
Context (name : Z).

Lemma store_ram code scope table payer id buffer a' it : small buffer -> stored_row code scope table payer id buffer a a' it ->
  ram_beyond a' name = ram_beyond a name +
    match ikeys (tabs a) !! (code, scope, table) with None => if name =? payer then table_size else 0 | Some _ => 0 end.
Proof.
  intros Hb (a1 & t & x & Hf & _ & Hbill & _ & ->). destruct (billable_row_small _ Hb) as [_ Hsz].
  assert (Hfree : irows (kvs a) !! inext (kvs a) = None).
  { destruct (irows (kvs a) !! inext (kvs a)) as [o|] eqn:E; [|done]. apply (row_id _ _ _ (t_kvs a Ha)) in E. lia. }
  unfold ram_beyond, rows_ram. cbn [actx kvs db_Insert snd irows kvID]. rewrite sum_insert by done. cbn [kvPayer kvValue].
  assert (Hin : in_s 64 (billable_row buffer)) by (unfold in_s; norm_pow; lia).
  destruct Hf as [[Hf ->]|(Hf & -> & y & Hy & ->)].
  - destruct (billed_ram _ _ _ _ name Hx Hin Hbill) as [_ ->]. apply (db_Find_Some tabID table_key) in Hf as [Ht Hk]; [|apply Ha].
    destruct (row_id _ _ _ (t_tabs a Ha) _ _ Ht) as (_ & _ & Hkey). rewrite <- Hk, Hkey. lia.
  - destruct (billed_ram _ _ _ _ name Hx table_size_range Hy) as [Hy' Ey]. cbn [actx set_tabs set_actx] in Hbill.
    destruct (billed_ram _ _ _ _ name Hy' Hin Hbill) as [_ ->]. rewrite Ey. apply (db_Find_None tabID table_key) in Hf as ->; [|apply Ha]. lia.
Qed.

Lemma update_ram it payer buffer o t x c : small buffer -> own_row it o t a -> rebilled o (updated payer buffer o) (actx a) x ->
  ram_beyond (set_cache c (set_kvs (db_Modify kvID row_key o (updated payer buffer o) (kvs a)) (set_actx x a))) name = ram_beyond a name.
Proof.
  intros Hb (Hat & _) Hr. destruct (at_row_stored _ _ _ Ha Hat) as [Ho _].
  destruct (db_Modify_ok kvID row_key (kvs a) o (updated payer buffer o) (t_kvs a Ha) Ho eq_refl eq_refl) as (_ & Em & _).
  unfold ram_beyond, rows_ram. cbn [actx kvs set_cache set_kvs set_actx]. rewrite Em, (sum_update _ _ _ o _ Ho).
  destruct (billable_row_small _ Hb) as [_ Hn]. destruct (billable_row_small _ (Hsmall _ _ Ho)) as [_ Hol].
  unfold rebilled in Hr. set (o' := updated payer buffer o) in *. change (kvValue o') with buffer in *.
  destruct (Z.eqb_spec (kvPayer o) (kvPayer o')) as [Ep|Ep].
  - rewrite <- Ep. destruct (Z.eqb_spec (billable_row (kvValue o)) (billable_row buffer)) as [Es|Es].
    + rewrite Hr, Es. lia.
    + rewrite i64_small in Hr by lia. apply (billed_ram _ _ _ _ name) in Hr as [_ ->]; [|done|unfold in_s; norm_pow; lia]. destruct (name =? kvPayer o); lia.
  - destruct Hr as (y & Hy & Hr). rewrite i64_small in Hy by lia. apply (billed_ram _ _ _ _ name) in Hy as [Hy' Ey]; [|done|unfold in_s; norm_pow; lia].
    apply (billed_ram _ _ _ _ name) in Hr as [_ ->]; [|done|unfold in_s; norm_pow; lia]. rewrite Ey.
    destruct (name =? kvPayer o), (name =? kvPayer o'); lia.
Qed.

Lemma remove_ram it o t x : own_row it o t a -> billed (kvPayer o) (i64 (- billable_row (kvValue o))) (actx a) x ->
  ram_beyond (removed it o t x a) name = ram_beyond a name.
Proof.
  intros (Hat & _) Hr. destruct (at_row_stored _ _ _ Ha Hat) as [Ho _]. destruct (db_Remove_ok kvID row_key (kvs a) o (t_kvs a Ha) Ho) as (_ & Er & _).
  unfold ram_beyond, rows_ram. cbn [actx kvs removed]. rewrite Er. destruct (billable_row_small _ (Hsmall _ _ Ho)) as [_ Hol].
  rewrite i64_small in Hr by lia. apply (billed_ram _ _ _ _ name) in Hr as [_ ->]; [|done|unfold in_s; norm_pow; lia].
  rewrite (sum_delete _ _ _ o Ho). destruct (name =? kvPayer o); lia.
Qed.
End Ram.

(** ** Sequences of operations *)

(** What contracts do to their tables: each operation at any input for which it succeeds,
    in any order, over the actions of any number of contracts, with the ids from 0 as the
    database hands them out.  A store is under a free key, and a store or a search is made
    with [room]. *)
Inductive reached : ApplyContext -> Prop :=
| reached_empty x receiver code privileged notify :
    reached (mkApplyContext x receiver code privileged notify (mkIndexed ∅ ∅ 0) (mkIndexed ∅ ∅ 0) NewIteratorCache)
| reached_action a x receiver code privileged notify : reached a ->
    reached (mkApplyContext x receiver code privileged notify (tabs a) (kvs a) NewIteratorCache)
| reached_store a a' scope table payer id buffer it : reached a -> room a -> content a (Receiver a, scope, table) id = None ->
    DbStoreI64 scope table payer id buffer a = (a', Ok it) -> reached a'
| reached_update a a' it payer buffer : reached a -> DbUpdateI64 it payer buffer a = (a', Ok tt) -> reached a'
| reached_remove a a' it : reached a -> DbRemoveI64 it a = (a', Ok tt) -> reached a'
| reached_find a a' code scope table id it : reached a -> room a -> DbFindI64 code scope table id a = (a', Ok it) -> reached a'
| reached_lower a a' code scope table id it : reached a -> room a -> DbLowerboundI64 code scope table id a = (a', Ok it) -> reached a'
| reached_upper a a' code scope table id it : reached a -> room a -> DbUpperboundI64 code scope table id a = (a', Ok it) -> reached a'
| reached_end a a' code scope table it : reached a -> room a -> DbEndI64 code scope table a = (a', Ok it) -> reached a'
| reached_next a a' it r : reached a -> room a -> DbNextI64 it a = (a', Ok r) -> reached a'
| reached_previous a a' it r : reached a -> room a -> DbPreviousI64 it a = (a', Ok r) -> reached a'.

Lemma new_cache_ok T n R : cache_ok T n R NewIteratorCache.
Proof. by split; intros; cbn in *. Qed.

Lemma empty_ok {K R} `{Countable K} (id : R -> Z) (key : R -> K) : indexed_ok id key (mkIndexed ∅ ∅ 0).
Proof. by split; cbn; intros *; rewrite ?lookup_empty. Qed.

Lemma no_tables_ok x receiver code privileged notify :
  tables_ok (mkApplyContext x receiver code privileged notify (mkIndexed ∅ ∅ 0) (mkIndexed ∅ ∅ 0) NewIteratorCache).
Proof. split; cbn; [apply empty_ok|apply empty_ok|intros *; by rewrite lookup_empty|intros *; by rewrite lookup_empty|apply new_cache_ok]. Qed.

Lemma new_context_ok a x receiver code privileged notify : tables_ok a ->
  tables_ok (mkApplyContext x receiver code privileged notify (tabs a) (kvs a) NewIteratorCache).
Proof. intros [H1 H2 H3 H4 _]. by split. Qed.

Lemma search_of_ok op P k a a' it : tables_ok a -> search_of op P k a -> op a = (a', Ok it) -> tables_ok a'.
Proof.
  intros Ha. unfold search_of. destruct (ikeys (tabs a) !! k) as [t|]; [|intros ->; by intros [= <- _]].
  intros (a1 & it1 & r & -> & Hr & _) [= <- _]. apply Hr.
Qed.

Lemma DbStoreI64_ok scope table payer id buffer a a' it : tables_ok a -> room a -> content a (Receiver a, scope, table) id = None ->
  DbStoreI64 scope table payer id buffer a = (a', Ok it) -> tables_ok a'.
Proof. intros Ha Hroom Hnew H. unfold DbStoreI64 in H. run_step H. apply dbStoreI64_run in H. by eapply store_content. Qed.

Lemma DbEndI64_ok code scope table a a' it : tables_ok a -> room a -> DbEndI64 code scope table a = (a', Ok it) -> tables_ok a'.
Proof.
  intros Ha Hroom. unfold DbEndI64. intros H. run_step H. pose proof (FindTable_run a Ha code scope table) as Hf.
  destruct (ikeys (tabs a) !! _) as [t|]; [|rewrite Hf in H; by run_step H]. destruct Hf as (tab & Hf & Ht & _). rewrite Hf in H.
  destruct (cacheTable_run t tab a Ha (room_ends _ Hroom) Ht) as (a1 & e & E & Hr & _). rewrite E in H. injection H as <- _. apply Hr.
Qed.

Lemma found_ok k a a' r : tables_ok a -> room a -> cached k.1 a -> found k a = (a', Ok r) -> tables_ok a'.
Proof.
  intros Ha Hroom Hc H. assert (exists o, irows (kvs a) !! kvID o = Some o /\ row_key o = k) as (o & Ho & <-).
  { unfold found in H. run_step H. unfold row_at in H. destruct (db_Find k (kvs a)) as [o|] eqn:E; [|by run_step H]. exists o.
    by apply (db_Find_Some kvID row_key) in E; [|apply Ha]. }
  destruct (found_run o a Ha (room_slots _ Hroom) Ho Hc) as (a1 & it & E & Hr & _). rewrite E in H. injection H as <- _. apply Hr.
Qed.

Lemma DbNextI64_ok it a a' r : tables_ok a -> room a -> DbNextI64 it a = (a', Ok r) -> tables_ok a'.
Proof.
  intros Ha Hroom H. destruct (it <? -1) eqn:Hlt; [unfold DbNextI64 in H; rewrite Hlt in H; by run_step H|].
  assert (exists o, at_row it o a) as [o Hat].
  { unfold DbNextI64 in H. rewrite Hlt in H. run_step H. apply run_bind in H as (a1 & o & [-> Ho%cache_get_iff]%run_lift & _). by exists o. }
  destruct (DbNextI64_search a Ha (room_slots _ Hroom) it o Hat) as (a1 & it1 & r1 & E & Hr & _). rewrite E in H. injection H as <- _. apply Hr.
Qed.

Lemma DbPreviousI64_ok it a a' r : tables_ok a -> room a -> DbPreviousI64 it a = (a', Ok r) -> tables_ok a'.
Proof.
  intros Ha Hroom H. destruct (it <? -1) eqn:Hlt; unfold DbPreviousI64 in H; run_step H; rewrite Hlt in H.
  - apply run_bind in H as (a1 & tab & [-> Ht]%run_lift & H). destruct tab as [tab|]; [|by run_step H].
    assert (cached (tabID tab) a) as Hc.
    { unfold findTablebyEndIterator in Ht. rewrite Hlt in Ht. cbn in Ht. injection Ht as Ht.
      destruct (c_end _ _ _ _ (t_cache a Ha) _ _ Ht) as (t' & E). unfold cached. by rewrite E. }
    rewrite step_back in H. destruct (before _ _) as [k|]; [|by run_step H].
    destruct (Z.eqb_spec k.1 (tabID tab)) as [E|E]; [|by run_step H]. rewrite <- E in Hc. by eapply found_ok.
  - apply run_bind in H as (a1 & o & [-> Ho%cache_get_iff]%run_lift & H). destruct (at_row_cached a Ha it o Ho) as [_ Hc].
    destruct (seek _ _) as [k|]; [|by run_step H]. destruct (before _ _) as [k'|]; [|by run_step H].
    destruct (Z.eqb_spec k'.1 (kvTId o)) as [E|E]; [|by run_step H]. rewrite <- E in Hc. by eapply found_ok.
Qed.

(** ** What the table functions promise *)

(** C23. The tables of contracts are maps from primary keys to payers and values.  A store
    that succeeds, under a key that is free and while ids are left and the iterator cache
    of the action holds fewer than 8 tables and 32 rows ([room]), adds exactly its row,
    for the payer it names, and returns an iterator at it (a taken key and a full cache
    are the divergences [taken_key_stored], [ninth_table_end] and
    [row_33_has_no_iterator]).  An update and a removal that succeed, whatever the cache
    holds, change exactly the row of their iterator, which is one of a table of the
    receiver; an update without a payer keeps the payer; the iterator of a removed row is
    dead and the other iterators stay.  All three leave the tables well formed. *)
Theorem table_operations_exact a : tables_ok a ->
  (forall scope table payer id buffer a' it, room a -> DbStoreI64 scope table payer id buffer a = (a', Ok it) ->
     let k := (Receiver a, scope, table) in content a k id = None ->
     tables_ok a' /\ payer <> 0 /\ (exists o, at_row it o a' /\ PrimaryKey o = id /\ kvPayer o = payer /\ kvValue o = buffer) /\
     forall k' pk, content a' k' pk = if decide (k' = k /\ pk = id) then Some (payer, buffer) else content a k' pk) /\
  (forall it payer buffer a', DbUpdateI64 it payer buffer a = (a', Ok tt) ->
     exists o t, own_row it o t a /\ tables_ok a' /\ at_row it (updated payer buffer o) a' /\
       forall k pk, content a' k pk = if decide (k = table_key t /\ pk = PrimaryKey o) then Some (if payer =? 0 then kvPayer o else payer, buffer) else content a k pk) /\
  (forall it a', DbRemoveI64 it a = (a', Ok tt) ->
     exists o t, own_row it o t a /\ tables_ok a' /\ (forall i y, at_row i y a' <-> i <> it /\ at_row i y a) /\
       forall k pk, content a' k pk = if decide (k = table_key t /\ pk = PrimaryKey o) then None else content a k pk).
Proof.
  intros Ha. split_and!.
  - unfold DbStoreI64. intros scope table payer id buffer a' it Hroom H Hnew. run_step H. apply dbStoreI64_run in H as Hs.
    pose proof (store_content _ _ _ _ _ _ _ _ _ Ha Hroom Hs Hnew) as (? & ? & ?). split_and!; try done. by destruct Hs as (? & ? & ? & _ & ? & _).
  - intros it payer buffer a' H. apply DbUpdateI64_run in H as (o & t & x & Hown & _ & ->); [|done].
    destruct (update_ok it payer buffer o t x a Ha Hown) as (? & ? & ?). exists o, t. done.
  - intros it a' H. apply DbRemoveI64_run in H as (o & t & x & Hown & _ & ->); [|done].
    destruct (remove_ok it o t x a Ha Hown) as (? & Hkeep & Hdead & ?). exists o, t. split_and!; try done.
    intros i y. split; [intros Hi; split; [by eapply Hdead|]|intros [Hne [Hpos Hi]]; split; [done|apply Hkeep; [done|destruct Hown as [[] _]; lia]]].
    split; [apply Hi|]. pose proof (Hdead _ _ Hi) as Hne. destruct Hi as [Hpos Hi]. cbn in Hi. destruct Hown as [[Hp _] _].
    by rewrite set_table_slots, list_lookup_insert_ne in Hi by lia.
Qed.

(** C25. The searches over a table, while the iterator cache of the action holds fewer than
    8 tables and 32 rows ([room]; a full cache gives wrong iterators, [ninth_table_end]
    and [row_33_has_no_iterator]): find, lower bound, upper bound, next and previous each
    return, change nothing but the cache, and lead to the row of that table alone with
    the least (for previous the greatest) primary key that passes the test, or, when there
    is none, to the end of the table (for previous to -1), or to -1 without the table.
    For the upper bound the key, and for the step back from the end the table id, must not
    end in the byte 255 ([upperbound_wraps]). *)
Theorem table_searches_exact a : tables_ok a -> room a ->
  (forall code scope table id, let k := (code, scope, table) in
     search_of (DbFindI64 code scope table id) (eq id) k a /\ search_of (DbLowerboundI64 code scope table id) (Z.le id) k a /\
     (id mod 256 <> 255 -> search_of (DbUpperboundI64 code scope table id) (Z.lt id) k a)) /\
  (forall it o, at_row it o a ->
     (exists a' it' r, DbNextI64 it a = (a', Ok (it', PrimaryKey <$> r)) /\ reads a a' /\
        chosen Z.le (Z.lt (PrimaryKey o)) (kvTId o) a r /\ leads it' (kvTId o) r a') /\
     (exists a' it' r, DbPreviousI64 it a = (a', Ok (it', PrimaryKey <$> r)) /\ reads a a' /\
        chosen Z.ge (Z.gt (PrimaryKey o)) (kvTId o) a r /\ leads_back it' r a')) /\
  (forall it t, ends_at it t a -> t mod 256 <> 255 -> (forall i o, irows (kvs a) !! i = Some o -> 0 <= PrimaryKey o) ->
     exists a' it' r, DbPreviousI64 it a = (a', Ok (it', PrimaryKey <$> r)) /\ reads a a' /\ chosen Z.ge (fun _ => True) t a r /\ leads_back it' r a').
Proof.
  intros Ha Hroom. pose proof (room_slots _ Hroom) as Hs. split_and!.
  - intros code scope table id k. split_and!; [by apply DbFindI64_search|by eapply bound_at_run|].
    intros Hb. eapply bound_at_run; [done..|]. intros q. rewrite last_byte_up_small by done. lia.
  - intros it o Hat. split; [by apply DbNextI64_search|by apply DbPreviousI64_search].
  - intros it t Hend Hb Hw. by apply DbPreviousI64_end.
Qed.

(** C26. RAM of the tables: whatever an account is billed for changes by exactly what the
    rows it pays for gain or lose, with a store, an update (the old payer is refunded the
    old size, the new one pays the new size) and a removal alike; a store into a table
    that does not exist bills its payer the size of a table in addition. *)
Theorem table_ram_exact a name : tables_ok a -> usages_u64 (actx a) -> (forall i o, irows (kvs a) !! i = Some o -> small (kvValue o)) ->
  (forall scope table payer id buffer a' it, small buffer -> DbStoreI64 scope table payer id buffer a = (a', Ok it) ->
     ram_beyond a' name = ram_beyond a name +
       match ikeys (tabs a) !! (Receiver a, scope, table) with None => if name =? payer then table_size else 0 | Some _ => 0 end) /\
  (forall it payer buffer a', small buffer -> DbUpdateI64 it payer buffer a = (a', Ok tt) -> ram_beyond a' name = ram_beyond a name) /\
  (forall it a', DbRemoveI64 it a = (a', Ok tt) -> ram_beyond a' name = ram_beyond a name).
Proof.
  intros Ha Hx Hsm. split_and!.
  - unfold DbStoreI64. intros scope table payer id buffer a' it Hb H. run_step H. apply dbStoreI64_run in H. by eapply store_ram.
  - intros it payer buffer a' Hb H. apply DbUpdateI64_run in H as (o & t & x & Hown & Hr & ->); [|done]. by eapply update_ram.
  - intros it a' H. apply DbRemoveI64_run in H as (o & t & x & Hown & Hr & ->); [|done]. by eapply remove_ram.
Qed.

(** C24. The invariant of the tables: from empty tables, after any sequence of actions and of
    successful table operations in which stores are under free keys and stores and
    searches are made while ids are left and the iterator cache of the action holds fewer
    than 8 tables and 32 rows ([reached]), every row and every table is found under its id
    and under its key and nothing else is, a table counts its rows exactly and exists just
    as long as it has one, and every live iterator of the cache is at a stored row, as it
    is stored, of a cached table, and no two at the same row.  A store under a taken key
    breaks the invariant ([taken_key_stored]); what a full cache does is shown by
    [ninth_table_end] and [row_33_has_no_iterator]. *)
Theorem tables_invariant a : reached a -> tables_ok a.
Proof.
  induction 1 as [| |a a' scope table payer id buffer it _ IH Hroom Hnew H|a a' it payer buffer _ IH H|a a' it _ IH H|
    a a' code scope table id it _ IH Hroom H|a a' code scope table id it _ IH Hroom H|a a' code scope table id it _ IH Hroom H|a a' code scope table it _ IH Hroom H|
    a a' it r _ IH Hroom H|a a' it r _ IH Hroom H].
  - apply no_tables_ok.
  - by apply new_context_ok.
  - by eapply DbStoreI64_ok.
  - apply DbUpdateI64_run in H as (o & t & x & Hown & _ & ->); [|done]. by apply (update_ok it payer buffer o t x a).
  - apply DbRemoveI64_run in H as (o & t & x & Hown & _ & ->); [|done]. by apply (remove_ok it o t x a).
  - eapply search_of_ok; [done|by apply DbFindI64_search|done].
  - eapply search_of_ok; [done| |done]. by eapply bound_at_run.
  - eapply search_of_ok; [done| |done]. by eapply bound_at_run.
  - by eapply DbEndI64_ok.
  - by eapply DbNextI64_ok.
  - by eapply DbPreviousI64_ok.
Qed.

(** *** An example: alice stores three rows in a table of hers *)

Definition no_rows : ApplyContext :=
  mkApplyContext (context_of [alice_active] with_alice) alice_name alice_name false true (mkIndexed ∅ ∅ 0) (mkIndexed ∅ ∅ 0) NewIteratorCache.
Definition store (id : Z) (buffer : bytes) : M ApplyContext Z := DbStoreI64 1 2 alice_name id buffer.
Definition one_row : ApplyContext := Eval vm_compute in (store 10 [7] no_rows).1.
Definition two_rows : ApplyContext := Eval vm_compute in (store 300 [8; 9] one_row).1.
Definition three_rows : ApplyContext := Eval vm_compute in (store 20 [] two_rows).1.

Lemma no_rows_ok : tables_ok no_rows /\ room no_rows.
Proof. split; [apply no_tables_ok|]. by split; vm_compute. Qed.

Lemma one_row_ok : tables_ok one_row /\ room one_row.
Proof.
  split; [|by split; vm_compute]. eapply (DbStoreI64_ok 1 2 alice_name 10 [7] no_rows _ 0); [apply no_rows_ok|apply no_rows_ok|by_eval|by_eval].
Qed.

Lemma two_rows_ok : tables_ok two_rows /\ room two_rows.
Proof.
  split; [|by split; vm_compute]. eapply (DbStoreI64_ok 1 2 alice_name 300 [8; 9] one_row _ 1); [apply one_row_ok|apply one_row_ok|by_eval|by_eval].
Qed.

Lemma three_rows_ok : tables_ok three_rows /\ room three_rows.
Proof.
  split; [|by split; vm_compute]. eapply (DbStoreI64_ok 1 2 alice_name 20 [] two_rows _ 2); [apply two_rows_ok|apply two_rows_ok|by_eval|by_eval].
Qed.

Definition without_300 : ApplyContext := Eval vm_compute in (DbRemoveI64 1 three_rows).1.

Lemma table_operations_exact_witness :
  tables_ok three_rows /\ room three_rows /\ DbRemoveI64 1 three_rows = (without_300, Ok tt) /\
  content three_rows (alice_name, 1, 2) 300 = Some (alice_name, [8; 9]) /\ content without_300 (alice_name, 1, 2) 300 = None /\
  exists o t, own_row 1 o t three_rows /\ tables_ok without_300.
Proof.
  destruct three_rows_ok as [Ha Hroom]. assert (E : DbRemoveI64 1 three_rows = (without_300, Ok tt)) by by_eval.
  split_and!; [done|done|done|by_eval|by_eval|]. destruct (table_operations_exact three_rows Ha) as (_ & _ & Hr).
  destruct (Hr 1 without_300 E) as (o & t & Ho & Hok & _). by exists o, t.
Defined.

Lemma table_searches_exact_witness :
  search_of (DbUpperboundI64 alice_name 1 2 10) (Z.lt 10) (alice_name, 1, 2) three_rows /\
  (DbUpperboundI64 alice_name 1 2 10 three_rows).2 = Ok 2 /\ (DbNextI64 2 three_rows).2 = Ok (1, Some 300).
Proof.
  destruct three_rows_ok as [Ha Hroom]. split_and!; [|by_eval|by_eval]. destruct (table_searches_exact three_rows Ha Hroom) as (Hs & _).
  apply (Hs alice_name 1 2 10). done.
Defined.

Lemma table_ram_exact_witness :
  ram_beyond one_row alice_name = ram_beyond no_rows alice_name + table_size /\ ram_beyond without_300 alice_name = ram_beyond three_rows alice_name.
Proof.
  assert (Hu : forall a, a = no_rows \/ a = three_rows -> usages_u64 (actx a)).
  { intros a Ha. change (map_Forall (fun _ u => in_u 64 (ResourceLimits.RamUsage u)) (ResourceLimits.usages (resources (chain (actx a))))).
    destruct Ha as [-> | ->]; by_decide. }
  assert (Hs : forall a, a = no_rows \/ a = three_rows -> forall i o, irows (kvs a) !! i = Some o -> small (kvValue o)).
  { intros a Ha. change (map_Forall (fun _ o => len (kvValue o) < 2 ^ 40) (irows (kvs a))). destruct Ha as [-> | ->]; by_decide. }
  split.
  - destruct (table_ram_exact no_rows alice_name (proj1 no_rows_ok) (Hu _ (or_introl eq_refl)) (Hs _ (or_introl eq_refl))) as (Hst & _ & _).
    apply (Hst 1 2 alice_name 10 [7] one_row 0); [by vm_compute|by_eval].
  - destruct (table_ram_exact three_rows alice_name (proj1 three_rows_ok) (Hu _ (or_intror eq_refl)) (Hs _ (or_intror eq_refl))) as (_ & _ & Hr).
    apply (Hr 1). by_eval.
Defined.

Lemma tables_invariant_witness : reached one_row /\ tables_ok one_row /\ content one_row (alice_name, 1, 2) 10 = Some (alice_name, [7]).
Proof.
  assert (H : reached one_row).
  { apply (reached_store no_rows one_row 1 2 alice_name 10 [7] 0); [apply reached_empty|apply no_rows_ok|by_eval|by_eval]. }
  split_and!; [exact H|exact (tables_invariant one_row H)|by_eval].
Defined.

(** ** Divergences *)

(** The end iterators of the first eight tables are -2 to -9.  That of the ninth is 0: it
    is taken for the iterator of the first row of the cache. *)
Theorem ninth_table_end :
  let tables := foldl (fun c i => (cacheTable (mkTableIdObject i 0 0 0 0 1) c).2) (NewIteratorCache : iteratorCache KeyValueObject) (Z.of_nat <$> seq 1 8) in
  (cacheTable (mkTableIdObject 9 0 0 0 0 1) tables).1 = 0 /\ endIteratorToIndex 0 = -2.
Proof. vm_compute. done. Qed.

(** The cache holds 32 rows.  The iterator of a further row is -1, which is no iterator
    of a row: the row is stored, but can neither be read nor changed in the action. *)
Theorem row_33_has_no_iterator (o : KeyValueObject) c : 32 <= len (iteratorToObject c) -> (forall i x, iteratorToObject c !! i = Some (Some x) -> kvID x <> kvID o) ->
  add kv_ident o c = (-1, c) /\ cache_get (-1) c = Throw InvalidTableIterator.
Proof.
  intros Hl Hne. split; [|done]. unfold add. rewrite (proj2 (Z.leb_le 32 _) Hl). destruct (find_slot _ _ _) as [j|] eqn:E; [|done].
  apply find_slot_Some in E as (n & x & _ & Hx & Hk%bool_decide_eq_true). unfold kv_ident in Hk. destruct (Hne n x Hx). congruence.
Qed.

(** The upper bound of a key that ends in 255 wraps to the start of its block of 256: it
    leads to a row below the key. *)
Theorem upperbound_wraps :
  let rows := (store 255 [] (store 5 [] no_rows).1).1 in
  (DbUpperboundI64 alice_name 1 2 255 rows).2 = Ok 0 /\ (DbUpperboundI64 alice_name 1 2 254 rows).2 = Ok 1.
Proof. vm_compute. done. Qed.

(** The RAM of a table stays billed when its last row goes and the table with it. *)
Theorem table_ram_not_refunded :
  let stored := (store 10 [7] no_rows).1 in let gone := (DbRemoveI64 0 stored).1 in
  FindTable alice_name 1 2 stored <> None /\ FindTable alice_name 1 2 gone = None /\
  ram_used (chain (actx gone)) alice_name = ram_used (chain (actx no_rows)) alice_name + table_size.
Proof. split_and!; vm_compute; done. Qed.

(** A store under a key that is taken is accepted: the table counts both rows, and only the
    last one is found. *)
Theorem taken_key_stored :
  let twice := (store 10 [8] (store 10 [7] no_rows).1).1 in
  tabCount <$> FindTable alice_name 1 2 twice = Some 2 /\ size (irows (kvs twice)) = 2%nat /\
  content twice (alice_name, 1, 2) 10 = Some (alice_name, [8]) /\ size (ikeys (kvs twice)) = 1%nat.
Proof. vm_compute. done. Qed.
