(* ===== verification/TransactionContext.v ===== *)
(** * TransactionContext: the limits, the timer and the bill of a transaction

    [chain/transaction_context.go] with [chain/types/chain_config.go].  The clock is an
    argument: [now] is what [common.Now()] returns in the call.  The configuration of the
    chain, the flags of the pending block, the grey list and the block summaries do not
    change while a transaction runs and are variables of the section.  The trace, the
    undo session ([DbSession]) and the execution of contracts are left out. *)

From S2P Require Import Prelude Uint128 Bytes Rlp Sha256 Ecc Name Time BlockHeader Authority Permissions NativeActions Transaction Controller.
From S2P Require ResourceLimits.
Notation Min := ResourceLimits.Min.
Notation Max := ResourceLimits.Max.

(** ** The configuration of the chain *)

Record ChainConfig : Type := mkChainConfig {
  MaxBlockNetUsage : Z; TargetBlockNetUsagePct : Z; MaxTransactionNetUsage : Z; BasePerTransactionNetUsage : Z;
  NetUsageLeeway : Z; ContextFreeDiscountNetUsageNum : Z; ContextFreeDiscountNetUsageDen : Z;
  MaxBlockCpuUsage : Z; TargetBlockCpuUsagePct : Z; MaxTransactionCpuUsage : Z; MinTransactionCpuUsage : Z;
  MaxTrxLifetime : Z; DeferredTrxExpirationWindow : Z; cfgMaxTrxDelay : Z; MaxInlineActionSize : Z;
  MaxInlineActionDepth : Z; cfgMaxAuthorityDepth : Z }.

(** The values of [DefaultConfig]. *)
Definition DefaultConfig : ChainConfig :=
  mkChainConfig (1024 * 1024) 1000 (1024 * 1024 / 2) 12 500 20 100 200000 1000 (3 * 200000 / 4) 100
    (60 * 60) (10 * 60) (45 * 24 * 3600) (4 * 1024) 4 6.
Definition Percent_100 : Z := 10000.
Definition Percent_1 : Z := 100.
Definition TransactionIdNetUsage : Z := 32.
Definition MinNetUsageDeltaBetweenBaseAndMaxForTrx : Z := 10 * 1024.

(** The second operand of most comparisons is the default, not the field. *)
Definition config_Validate (c : ChainConfig) : result unit :=
  let D := DefaultConfig in
  _ ← EosAssert (TargetBlockNetUsagePct c <=? Percent_100) ActionValidateException;
  _ ← EosAssert (Percent_1 / 10 <=? TargetBlockNetUsagePct c) ActionValidateException;
  _ ← EosAssert (TargetBlockCpuUsagePct c <=? Percent_100) ActionValidateException;
  _ ← EosAssert (Percent_1 / 10 <=? TargetBlockCpuUsagePct c) ActionValidateException;
  _ ← EosAssert (MaxTransactionNetUsage c <? MaxBlockNetUsage D) ActionValidateException;
  _ ← EosAssert (MaxTransactionCpuUsage c <? MaxBlockCpuUsage D) ActionValidateException;
  _ ← EosAssert (BasePerTransactionNetUsage c <? MaxTransactionNetUsage D) ActionValidateException;
  _ ← EosAssert (MinNetUsageDeltaBetweenBaseAndMaxForTrx <=? u32 (MaxTransactionNetUsage c - BasePerTransactionNetUsage D)) ActionValidateException;
  _ ← EosAssert (0 <? ContextFreeDiscountNetUsageDen c) ActionValidateException;
  _ ← EosAssert (ContextFreeDiscountNetUsageNum c <=? ContextFreeDiscountNetUsageDen D) ActionValidateException;
  _ ← EosAssert (MinTransactionCpuUsage c <=? MaxTransactionCpuUsage D) ActionValidateException;
  _ ← EosAssert (MaxTransactionCpuUsage c <? MaxBlockCpuUsage D - MinTransactionCpuUsage D) ActionValidateException;
  EosAssert (1 <=? cfgMaxAuthorityDepth c) ActionValidateException.

Definition config_IsEmpty (c : ChainConfig) : bool :=
  forallb (fun z => z =? 0) [MaxBlockNetUsage c; TargetBlockNetUsagePct c; MaxTransactionNetUsage c; BasePerTransactionNetUsage c;
    NetUsageLeeway c; ContextFreeDiscountNetUsageNum c; ContextFreeDiscountNetUsageDen c; MaxBlockCpuUsage c; TargetBlockCpuUsagePct c;
    MaxTransactionCpuUsage c; MinTransactionCpuUsage c; MaxTrxLifetime c; DeferredTrxExpirationWindow c; cfgMaxTrxDelay c;
    MaxInlineActionSize c; MaxInlineActionDepth c; cfgMaxAuthorityDepth c].

(** ** The context *)

(** The fields of [TransactionContext] on network usage. *)
Record NetLimits : Type := mkNetLimits {
  netLimit : Z; netLimitDueToBlock : bool; netLimitDueToGreylist : bool; eagerNetLimit : Z; netUsage : Z }.

(** Its fields on time; the exception codes stand for themselves. *)
Record Timer : Type := mkTimer {
  objectiveDurationLimit : Z; deadline : Z; deadlineExceptionCode : exn; billingTimerExceptionCode : exn;
  cpuLimitDueToGreylist : bool; pseudoStart : Z; billedTime : Z; billingTimerDurationLimit : Z }.

Record TransactionContext : Type := mkTransactionContext {
  Start : Z; tcPublished : Z; BillToAccounts : list Z; tcValidateRamUsage : list Z; Delay : Z; IsInput : bool; ApplyContextFree : bool;
  Deadline : Z; Leeway : Z; BilledCpuTimeUs : Z; ExplicitBilledCpuTime : bool; isInitialized : bool; net : NetLimits; timer : Timer }.

Definition NewTransactionContext (trx : Transaction) (s : Z) : result TransactionContext :=
  _ ← EosAssert (len (TransactionExtensions trx) =? 0) UnsupportedFeature;
  Ok (mkTransactionContext s 0 [] [] 0 false true MaxMicroseconds 100000 0 false false
        (mkNetLimits 0 true false 0 0)
        (mkTimer 0 MaxMicroseconds BlockCpuUsageExceeded BlockCpuUsageExceeded false s 0 0)).

Definition set_net (n : NetLimits) (t : TransactionContext) : TransactionContext :=
  mkTransactionContext (Start t) (tcPublished t) (BillToAccounts t) (tcValidateRamUsage t) (Delay t) (IsInput t) (ApplyContextFree t) (Deadline t) (Leeway t)
    (BilledCpuTimeUs t) (ExplicitBilledCpuTime t) (isInitialized t) n (timer t).
Definition set_timer (r : Timer) (t : TransactionContext) : TransactionContext :=
  mkTransactionContext (Start t) (tcPublished t) (BillToAccounts t) (tcValidateRamUsage t) (Delay t) (IsInput t) (ApplyContextFree t) (Deadline t) (Leeway t)
    (BilledCpuTimeUs t) (ExplicitBilledCpuTime t) (isInitialized t) (net t) r.
Definition set_billed (us : Z) (t : TransactionContext) : TransactionContext :=
  mkTransactionContext (Start t) (tcPublished t) (BillToAccounts t) (tcValidateRamUsage t) (Delay t) (IsInput t) (ApplyContextFree t) (Deadline t) (Leeway t)
    us (ExplicitBilledCpuTime t) (isInitialized t) (net t) (timer t).
Definition set_accounts_billed (l : list Z) (t : TransactionContext) : TransactionContext :=
  mkTransactionContext (Start t) (tcPublished t) l (tcValidateRamUsage t) (Delay t) (IsInput t) (ApplyContextFree t) (Deadline t) (Leeway t)
    (BilledCpuTimeUs t) (ExplicitBilledCpuTime t) (isInitialized t) (net t) (timer t).
Definition set_ram_accounts (l : list Z) (t : TransactionContext) : TransactionContext :=
  mkTransactionContext (Start t) (tcPublished t) (BillToAccounts t) l (Delay t) (IsInput t) (ApplyContextFree t) (Deadline t) (Leeway t)
    (BilledCpuTimeUs t) (ExplicitBilledCpuTime t) (isInitialized t) (net t) (timer t).
Definition set_kind (published : Z) (input contextFree : bool) (t : TransactionContext) : TransactionContext :=
  mkTransactionContext (Start t) published (BillToAccounts t) (tcValidateRamUsage t) (Delay t) input contextFree (Deadline t) (Leeway t)
    (BilledCpuTimeUs t) (ExplicitBilledCpuTime t) (isInitialized t) (net t) (timer t).
Definition set_initialized (t : TransactionContext) : TransactionContext :=
  mkTransactionContext (Start t) (tcPublished t) (BillToAccounts t) (tcValidateRamUsage t) (Delay t) (IsInput t) (ApplyContextFree t) (Deadline t) (Leeway t)
    (BilledCpuTimeUs t) (ExplicitBilledCpuTime t) true (net t) (timer t).

(** [AccountNameSet.AddItem]: the names in ascending order. *)
Fixpoint AddAccount (a : Z) (l : list Z) : list Z :=
  match l with
  | [] => [a]
  | b :: l' => if a <? b then a :: l else if a =? b then l else b :: AddAccount a l'
  end.

(** A transaction with the chain and the transactions seen. *)
Record State : Type := mkState { tc : TransactionContext; node : Chain; seenTrx : Seen }.
Definition set_tc (t : TransactionContext) (s : State) : State := mkState t (node s) (seenTrx s).
Definition on_tc (f : TransactionContext -> TransactionContext) : M State unit := modify (fun s => set_tc (f (tc s)) s).
Definition at_node {A} (m : M Chain A) : M State A := fun s => let '(c, r) := m (node s) in (mkState (tc s) c (seenTrx s), r).

Section Trx.
Context (cfg : ChainConfig) (flags : Flags) (ResourceGreylist : list Z) (summaries : gmap Z Sha256).

(** *** Network usage *)

(** The assertions of the three branches are of [true]. *)
Definition CheckNetUsage (t : TransactionContext) : result unit :=
  if negb (SkipTrxChecks flags) then
    if eagerNetLimit (net t) <? netUsage (net t) then
      if netLimitDueToBlock (net t) then EosAssert true BlockNetUsageExceeded
      else if netLimitDueToGreylist (net t) then EosAssert true GreylistNetUsageExceeded
      else EosAssert true TxNetUsageExceeded
    else Ok tt
  else Ok tt.

Definition AddNetUsage (u : Z) : M State unit :=
  _ ← on_tc (fun t => let n := net t in
        set_net (mkNetLimits (netLimit n) (netLimitDueToBlock n) (netLimitDueToGreylist n) (eagerNetLimit n) (u64 (netUsage n + u))) t);
  s ← get; lift (CheckNetUsage (tc s)).

(** *** Time *)

Definition CheckTime (now : Z) (t : TransactionContext) : result unit :=
  let r := timer t in
  if deadline r <? now then
    if ExplicitBilledCpuTime t || bool_decide (deadlineExceptionCode r = DeadlineException) then Throw DeadlineException
    else if bool_decide (deadlineExceptionCode r = BlockCpuUsageExceeded) then Throw BlockCpuUsageExceeded
    else if bool_decide (deadlineExceptionCode r = TxCpuUsageExceeded) then
      if cpuLimitDueToGreylist r then Throw GreylistCpuUsageExceeded else Throw TxCpuUsageExceeded
    else if bool_decide (deadlineExceptionCode r = LeewayDeadlineException) then Throw LeewayDeadlineException
    else Throw TransactionException
  else Ok tt.

(** A start of 0 marks a timer that is paused. *)
Definition PauseBillingTimer (now : Z) (t : TransactionContext) : TransactionContext :=
  let r := timer t in
  if ExplicitBilledCpuTime t || (pseudoStart r =? 0) then t
  else set_timer (mkTimer (objectiveDurationLimit r) (deadline r) DeadlineException (billingTimerExceptionCode r) (cpuLimitDueToGreylist r)
         0 (i64 (now - pseudoStart r)) (billingTimerDurationLimit r)) t.

Definition ResumeBillingTimer (now : Z) (t : TransactionContext) : TransactionContext :=
  let r := timer t in
  if ExplicitBilledCpuTime t || negb (pseudoStart r =? 0) then t
  else
    let start := i64 (now - billedTime r) in
    if i64 (start + billingTimerDurationLimit r) <=? Deadline t
    then set_timer (mkTimer (objectiveDurationLimit r) (i64 (start + billingTimerDurationLimit r)) (billingTimerExceptionCode r)
           (billingTimerExceptionCode r) (cpuLimitDueToGreylist r) start (billedTime r) (billingTimerDurationLimit r)) t
    else set_timer (mkTimer (objectiveDurationLimit r) (Deadline t) DeadlineException
           (billingTimerExceptionCode r) (cpuLimitDueToGreylist r) start (billedTime r) (billingTimerDurationLimit r)) t.

(** The check of the minimum is a comment in the source. *)
Definition validateCpuUsageToBill (billedUs : Z) (t : TransactionContext) : result unit :=
  let r := timer t in
  if negb (SkipTrxChecks flags) then
    if bool_decide (billingTimerExceptionCode r = BlockCpuUsageExceeded) then EosAssert (billedUs <=? objectiveDurationLimit r) BlockCpuUsageExceeded
    else if cpuLimitDueToGreylist r then EosAssert (billedUs <=? objectiveDurationLimit r) GreylistCpuUsageExceeded
    else EosAssert (billedUs <=? objectiveDurationLimit r) TxCpuUsageExceeded
  else Ok tt.

Definition UpdateBilledCpuTime (now : Z) (t : TransactionContext) : TransactionContext :=
  if ExplicitBilledCpuTime t then t
  else set_billed (i64 (Max (u64 (i64 (now - pseudoStart (timer t)))) (MinTransactionCpuUsage cfg))) t.

(** *** What the billed accounts can pay *)

Definition largeNumberNoOverflow : Z := (2 ^ 63 - 1) / 2.

(** The limits are compared as unsigned integers, so every account enters the minimum:
    the -1 of an account without a limit is the greatest of them. *)
Fixpoint max_bandwidth (forceElasticLimits : bool) (accounts : list Z) (r : Z * Z * bool * bool) : M ResourceLimits.Db (Z * Z * bool * bool) :=
  match accounts with
  | [] => mret r
  | account :: accounts' =>
      let '(accountNetLimit, accountCpuLimit, greylistedNet, greylistedCpu) := r in
      let elastic := forceElasticLimits || negb (IsProducingBlock flags && bool_decide (account ∈ ResourceGreylist)) in
      nl ← ResourceLimits.GetAccountNetLimit account elastic;
      let netLimit := u64 nl in
      let '(accountNetLimit, greylistedNet) := if 0 <=? netLimit then (i64 (Min (u64 accountNetLimit) netLimit), greylistedNet || negb elastic)
                                               else (accountNetLimit, greylistedNet) in
      cl ← ResourceLimits.GetAccountCpuLimit account elastic;
      let cpuLimit := u64 cl in
      let '(accountCpuLimit, greylistedCpu) := if 0 <=? cpuLimit then (i64 (Min (u64 accountCpuLimit) cpuLimit), greylistedCpu || negb elastic)
                                               else (accountCpuLimit, greylistedCpu) in
      max_bandwidth forceElasticLimits accounts' (accountNetLimit, accountCpuLimit, greylistedNet, greylistedCpu)
  end.

Definition MaxBandwidthBilledAccountsCanPay (forceElasticLimits : bool) : M State (Z * Z * bool * bool) :=
  s ← get;
  at_node (in_resources (max_bandwidth forceElasticLimits (BillToAccounts (tc s)) (largeNumberNoOverflow, largeNumberNoOverflow, false, false))).

(** *** [init] *)

Definition actors (trx : Transaction) : list Z := foldl (fun l d => AddAccount (Actor d) l) [] (concat (map Authorization (Actions trx))).

(** The limit of the block, lowered to that of a transaction and to that of its header. *)
Definition objective_net (h : TransactionHeader) (block : Z) (n : NetLimits) : NetLimits :=
  let n := mkNetLimits block (netLimitDueToBlock n) (netLimitDueToGreylist n) (eagerNetLimit n) (netUsage n) in
  let lower l n := mkNetLimits l false (netLimitDueToGreylist n) (eagerNetLimit n) (netUsage n) in
  let n := if MaxTransactionNetUsage cfg <=? netLimit n then lower (MaxTransactionNetUsage cfg) n else n in
  let trxSpecifiedNetUsageLimit := u32 (MaxNetUsageWords h * 8) in
  if (0 <? trxSpecifiedNetUsageLimit) && (trxSpecifiedNetUsageLimit <=? netLimit n) then lower trxSpecifiedNetUsageLimit n else n.

Definition objective_time (h : TransactionHeader) (start block : Z) (r : Timer) : Timer :=
  let at_limit l code r := mkTimer l (i64 (start + l)) (deadlineExceptionCode r) code (cpuLimitDueToGreylist r) (pseudoStart r) (billedTime r)
                             (billingTimerDurationLimit r) in
  let r := at_limit (i64 block) (billingTimerExceptionCode r) r in
  let r := if MaxTransactionCpuUsage cfg <=? u64 (objectiveDurationLimit r) then at_limit (MaxTransactionCpuUsage cfg) TxCpuUsageExceeded r else r in
  if 0 <? MaxCpuUsageMS h then
    let trxSpecifiedCpuUsageLimit := Milliseconds (MaxCpuUsageMS h) in
    if trxSpecifiedCpuUsageLimit <=? objectiveDurationLimit r then at_limit trxSpecifiedCpuUsageLimit TxCpuUsageExceeded r else r
  else r.

(** The limit that is checked early, lowered to what the accounts can pay with a leeway. *)
Definition eager_net (accountNetLimit : Z) (greylisted : bool) (n : NetLimits) : NetLimits :=
  let newEagerNetLimit := Min (netLimit n) (u64 (i64 (accountNetLimit + NetUsageLeeway cfg))) in
  let '(eager, due) := if newEagerNetLimit <? netLimit n then (newEagerNetLimit, false) else (netLimit n, netLimitDueToBlock n) in
  mkNetLimits (netLimit n) due (netLimitDueToGreylist n || greylisted) (eager / 8 * 8) (netUsage n).

Definition account_deadline (t : TransactionContext) (accountCpuLimit : Z) (greylisted : bool) (r : Timer) : Timer :=
  let '(d, code) := if i64 (accountCpuLimit + Leeway t) <=? i64 (deadline r - Start t)
                    then (i64 (i64 (Start t + accountCpuLimit) + Leeway t), LeewayDeadlineException) else (deadline r, billingTimerExceptionCode r) in
  let limit := i64 (d - Start t) in
  let '(d', dcode) := if ExplicitBilledCpuTime t || (Deadline t <? d) then (Deadline t, DeadlineException) else (d, code) in
  mkTimer (objectiveDurationLimit r) d' dcode code (cpuLimitDueToGreylist r || greylisted) (pseudoStart r) (billedTime r) limit.

Definition init (trx : Transaction) (initialNetUsage now : Z) : M State unit :=
  s ← get;
  _ ← assertM (negb (isInitialized (tc s))) TransactionException;
  let d := resources (node s) in
  _ ← on_tc (fun t => set_timer (objective_time (trxHeader trx) (Start t) (ResourceLimits.GetBlockCpuLimit d) (timer t))
                        (set_net (objective_net (trxHeader trx) (ResourceLimits.GetBlockNetLimit d) (net t)) t));
  s ← get;
  _ ← (if 0 <? BilledCpuTimeUs (tc s) then lift (validateCpuUsageToBill (BilledCpuTimeUs (tc s)) (tc s)) else mret tt);
  _ ← on_tc (set_accounts_billed (actors trx));
  _ ← at_node (in_resources (ResourceLimits.UpdateAccountUsage (actors trx) (NewBlockTimeStamp (PendingBlockTime (perms (node s))))));
  r ← MaxBandwidthBilledAccountsCanPay false;
  let '(accountNetLimit, accountCpuLimit, greylistedNet, greylistedCpu) := r in
  _ ← on_tc (fun t => set_timer (account_deadline t accountCpuLimit greylistedCpu (timer t))
                        (set_net (eager_net accountNetLimit greylistedNet (net t)) t));
  _ ← (if 0 <? initialNetUsage then AddNetUsage initialNetUsage else mret tt);
  s ← get;
  _ ← lift (CheckTime now (tc s));
  on_tc set_initialized.

Definition InitForImplicitTrx (trx : Transaction) (initialNetUsage now : Z) : M State unit :=
  s ← get;
  _ ← on_tc (fun t => set_kind (PendingBlockTime (perms (node s))) (IsInput t) (ApplyContextFree t) t);
  init trx initialNetUsage now.

(** The bytes that can be pruned count less. *)
Definition discountedSizeForPrunedData (packeTrxPrunableSize : Z) : Z :=
  if (0 <? ContextFreeDiscountNetUsageDen cfg) && (ContextFreeDiscountNetUsageNum cfg <? ContextFreeDiscountNetUsageDen cfg)
  then u64 (u64 (u64 (packeTrxPrunableSize * ContextFreeDiscountNetUsageNum cfg) + ContextFreeDiscountNetUsageDen cfg) - 1)
         / ContextFreeDiscountNetUsageDen cfg
  else packeTrxPrunableSize.

Definition input_net_usage (h : TransactionHeader) (packeTrxUnprunableSize packeTrxPrunableSize : Z) : Z :=
  let initialNetUsage := u64 (u64 (BasePerTransactionNetUsage cfg + packeTrxUnprunableSize) + discountedSizeForPrunedData packeTrxPrunableSize) in
  if 0 <? DelaySec h then u64 (u64 (initialNetUsage + BasePerTransactionNetUsage cfg) + TransactionIdNetUsage) else initialNetUsage.

Definition record_input (id : Sha256) (expire : Z) : M State unit :=
  fun s => match recordTransaction id expire (seenTrx s) with
           | Ok seen => (mkState (tc s) (node s) seen, Ok tt)
           | Throw e => (s, Throw e)
           end.

Definition InitForInputTrx (trx : Transaction) (id : Sha256) (packeTrxUnprunableSize packeTrxPrunableSize : Z) (skipRecording : bool) (now : Z) : M State unit :=
  s ← get;
  _ ← on_tc (fun t => set_kind (PendingBlockTime (perms (node s))) true (ApplyContextFree t) t);
  _ ← (if negb (SkipTrxChecks flags) then
         _ ← lift (ValidateExpiration (PendingBlockTime (perms (node s))) (MaxTrxLifetime cfg) (trxHeader trx));
         _ ← lift (ValidateTapos summaries (trxHeader trx));
         lift (ValidateReferencedAccounts (node s) trx)
       else mret tt);
  _ ← init trx (input_net_usage (trxHeader trx) packeTrxUnprunableSize packeTrxPrunableSize) now;
  if negb skipRecording then record_input id (Expiration (trxHeader trx)) else mret tt.

Definition InitForDeferredTrx (trx : Transaction) (published now : Z) : M State unit :=
  _ ← on_tc (fun t => set_kind published (IsInput t) false t);
  init trx 0 now.

(** *** [Finalize] *)

Fixpoint use_permissions (l : list PermissionLevel) : M Perms unit :=
  match l with
  | [] => mret tt
  | auth :: l' =>
      s ← get;
      permission ← lift (GetPermission s auth);
      _ ← UpdatePermissionUsage permission;
      use_permissions l'
  end.

Fixpoint verify_ram (l : list Z) : M ResourceLimits.Db unit :=
  match l with [] => mret tt | a :: l' => _ ← ResourceLimits.VerifyAccountRamUsage a; verify_ram l' end.

Definition final_net (accountNetLimit : Z) (greylisted : bool) (n : NetLimits) : NetLimits :=
  let '(l, due) := if accountNetLimit <=? i64 (netLimit n) then (u64 accountNetLimit, false) else (netLimit n, netLimitDueToBlock n) in
  mkNetLimits l due (netLimitDueToGreylist n || greylisted) l (u64 (netUsage n + 7) / 8 * 8).

Definition final_time (accountCpuLimit : Z) (greylisted : bool) (r : Timer) : Timer :=
  let '(l, code) := if accountCpuLimit <=? objectiveDurationLimit r then (accountCpuLimit, TxCpuUsageExceeded)
                    else (objectiveDurationLimit r, billingTimerExceptionCode r) in
  mkTimer l (deadline r) (deadlineExceptionCode r) code (cpuLimitDueToGreylist r || greylisted) (pseudoStart r) (billedTime r) (billingTimerDurationLimit r).

Definition Finalize (trx : Transaction) (now : Z) : M State unit :=
  s ← get;
  _ ← assertM (isInitialized (tc s)) TransactionException;
  _ ← (if IsInput (tc s) then at_node (in_perms (use_permissions (concat (map Authorization (Actions trx))))) else mret tt);
  _ ← at_node (in_resources (verify_ram (tcValidateRamUsage (tc s))));
  r ← MaxBandwidthBilledAccountsCanPay false;
  let '(accountNetLimit, accountCpuLimit, greylistedNet, greylistedCpu) := r in
  _ ← on_tc (fun t => set_timer (final_time accountCpuLimit greylistedCpu (timer t)) (set_net (final_net accountNetLimit greylistedNet (net t)) t));
  s ← get;
  _ ← lift (CheckNetUsage (tc s));
  _ ← on_tc (UpdateBilledCpuTime now);
  s ← get;
  _ ← lift (validateCpuUsageToBill (BilledCpuTimeUs (tc s)) (tc s));
  at_node (in_resources (ResourceLimits.AddTransactionUsage (BillToAccounts (tc s)) (u64 (BilledCpuTimeUs (tc s))) (netUsage (net (tc s)))
                           (NewBlockTimeStamp (PendingBlockTime (perms (node s)))))).

(** *** RAM and delayed transactions *)

(** The accounts whose RAM is verified at the end. *)
Definition AddRamUsage (account ramDelta : Z) : M State unit :=
  _ ← at_node (in_resources (ResourceLimits.AddPendingRamUsage account ramDelta));
  if 0 <? ramDelta then on_tc (fun t => set_ram_accounts (AddAccount account (tcValidateRamUsage t)) t) else mret tt.

(** [trxSize] is the length of the encoded transaction, which [Set] stores.  An insertion
    that meets a transaction of the same sender and id is an error the source drops. *)
Definition scheduleTransaction (trx : Transaction) (id : Sha256) : M State unit :=
  _ ← (if DelaySec (trxHeader trx) =? 0 then AddNetUsage (u32 (BasePerTransactionNetUsage cfg + TransactionIdNetUsage)) else mret tt);
  s ← get;
  let published := PendingBlockTime (perms (node s)) in
  let delayUntil := i64 (published + Delay (tc s)) in
  let expiration := i64 (delayUntil + Seconds (DeferredTrxExpirationWindow cfg)) in
  let trxSize := u32 (len (encoded (g_transaction trx))) in
  let payer := FirstAuthorizor trx in
  let senderId := transactionIdToSenderId id in
  _ ← at_node (in_perms (modify (fun p =>
        if match find_generated 0 senderId p with Some _ => true | None => false end ||
           existsb (fun g => bool_decide (genTrxId g = id)) (map_to_list (generated p)).*2 then p
        else set_generated (<[nextGenerated p := mkGenerated (nextGenerated p) id 0 senderId payer delayUntil expiration published trxSize
                                                  (map Authorization (Actions trx))]> (generated p)) (i64 (nextGenerated p + 1)) p)));
  AddRamUsage payer (i64 (u64 (Billable "generated_transaction_object" + trxSize))).

(** ** What the limits are *)

Lemma run_at_node {A} (m : M Chain A) s s' a : at_node m s = (s', Ok a) <-> exists c, m (node s) = (c, Ok a) /\ s' = mkState (tc s) c (seenTrx s).
Proof. unfold at_node. destruct (m (node s)). naive_solver. Qed.

Lemma run_on_tc f s s' u : on_tc f s = (s', Ok u) <-> s' = set_tc (f (tc s)) s.
Proof. unfold on_tc, modify. destruct u. naive_solver. Qed.

Lemma Min_spec x y : Min x y = Z.min x y.
Proof. unfold ResourceLimits.Min. destruct (Z.ltb_spec x y); lia. Qed.

Lemma Max_spec x y : Max x y = Z.max x y.
Proof. unfold ResourceLimits.Max. destruct (Z.ltb_spec y x); lia. Qed.

Lemma find_usage_read a d d' u : ResourceLimits.find_usage a d = (d', Ok u) -> d' = d.
Proof. unfold ResourceLimits.find_usage. intros H. run_step H. by run_step H. Qed.

Lemma GetAccountLimits_read a d d' l : ResourceLimits.GetAccountLimits a d = (d', Ok l) -> d' = d.
Proof.
  unfold ResourceLimits.GetAccountLimits. intros H. run_step H. destruct (ResourceLimits.limits d !! (true, a)); [by run_step H|].
  unfold ResourceLimits.find_limits in H. run_step H. by run_step H.
Qed.

Lemma resource_limit_range w t n l v : in_s 64 (ResourceLimits.Available (ResourceLimits.resource_limit w t n l v)).
Proof.
  unfold ResourceLimits.resource_limit. destruct (_ || _); [by_decide|]. cbn. destruct (negb _); [by_decide|]. apply swrap_range. lia.
Qed.

Lemma GetAccountCpuLimit_read a e d d' x : ResourceLimits.GetAccountCpuLimit a e d = (d', Ok x) -> d' = d /\ in_s 64 x.
Proof.
  unfold ResourceLimits.GetAccountCpuLimit, ResourceLimits.GetAccountCpuLimitEx. intros H.
  apply run_bind in H as (d1 & arl & H1 & H). run_step H. run_step H1.
  apply run_bind in H1 as (d2 & u & ->%find_usage_read & H1). apply run_bind in H1 as (d3 & l & ->%GetAccountLimits_read & H1). run_step H1.
  split; [done|apply resource_limit_range].
Qed.

Lemma GetAccountNetLimit_read a e d d' x : ResourceLimits.GetAccountNetLimit a e d = (d', Ok x) -> d' = d /\ in_s 64 x.
Proof.
  unfold ResourceLimits.GetAccountNetLimit, ResourceLimits.GetAccountNetLimitEx. intros H.
  apply run_bind in H as (d1 & arl & H1 & H). run_step H. run_step H1.
  apply run_bind in H1 as (d2 & u & ->%find_usage_read & H1). apply run_bind in H1 as (d3 & l & ->%GetAccountLimits_read & H1). run_step H1.
  split; [done|apply resource_limit_range].
Qed.

(** An unsigned minimum with a limit of an account; -1 and other negative limits do not count. *)
Lemma account_min x l : 0 <= x < 2 ^ 63 -> in_s 64 l -> 0 <= i64 (Min (u64 x) (u64 l)) <= x /\ (0 <= l -> i64 (Min (u64 x) (u64 l)) <= l).
Proof.
  intros Hx [Hl0 Hl1]. rewrite Min_spec, (uwrap_id 64 x) by (unfold in_u; norm_pow; lia).
  assert (H : 0 <= Z.min x (u64 l) <= x /\ (0 <= l -> Z.min x (u64 l) <= l)).
  { pose proof (uwrap_range 64 l ltac:(lia)) as [Hu _]. split; [lia|]. intros H0. rewrite uwrap_id; [lia|]. unfold in_u; norm_pow. cbn in *; lia. }
  by rewrite i64_small by lia.
Qed.

Definition elastic (a : Z) : bool := negb (IsProducingBlock flags && bool_decide (a ∈ ResourceGreylist)).

Lemma max_bandwidth_spec l nl cl gn gc d d' nl' cl' gn' gc' : 0 <= nl < 2 ^ 63 -> 0 <= cl < 2 ^ 63 ->
  max_bandwidth false l (nl, cl, gn, gc) d = (d', Ok (nl', cl', gn', gc')) ->
  d' = d /\ 0 <= nl' <= nl /\ 0 <= cl' <= cl /\
  Forall (fun a => exists x, ResourceLimits.GetAccountCpuLimit a (elastic a) d = (d, Ok x) /\ (0 <= x -> cl' <= x)) l.
Proof.
  revert nl cl gn gc. induction l as [|a l IH]; intros nl cl gn gc Hn Hc; cbn [max_bandwidth]; intros H; [run_step H; by simplify_eq; split_and!; try lia|].
  apply run_bind in H as (d1 & x & [-> Hx]%GetAccountNetLimit_read & H).
  assert (E : forall z, (0 <=? u64 z) = true) by (intros z; apply Z.leb_le, uwrap_range; lia). rewrite E in H.
  apply run_bind in H as (d2 & y & Hy0 & H). pose proof Hy0 as [-> Hy]%GetAccountCpuLimit_read. rewrite E in H.
  pose proof (account_min nl x Hn Hx) as [B1 _]. pose proof (account_min cl y Hc Hy) as [B2 B3].
  apply IH in H as (-> & ? & ? & Hf); [|lia..]. split_and!; [done|lia..|]. constructor; [|done].
  exists y. split; [exact Hy0|]. intros Hpos. specialize (B3 Hpos). lia.
Qed.

Lemma bandwidth_run s s' nl cl gn gc : MaxBandwidthBilledAccountsCanPay false s = (s', Ok (nl, cl, gn, gc)) ->
  s' = s /\ 0 <= nl <= largeNumberNoOverflow /\ 0 <= cl <= largeNumberNoOverflow /\
  Forall (fun a => exists x, ResourceLimits.GetAccountCpuLimit a (elastic a) (resources (node s)) = (resources (node s), Ok x) /\ (0 <= x -> cl <= x))
    (BillToAccounts (tc s)).
Proof.
  unfold MaxBandwidthBilledAccountsCanPay. intros H. run_step H. apply run_at_node in H as (c & (d & H & ->)%run_in_resources & ->).
  apply max_bandwidth_spec in H as (-> & ? & ? & Hf); [|by vm_compute..]. split_and!; try lia; [|done]. by destruct s as [? []].
Qed.

(** The fields fit the types of the source. *)
Definition config_ok : Prop := in_u 32 (MaxTransactionCpuUsage cfg) /\ in_u 32 (MinTransactionCpuUsage cfg).
Definition header_cpu_ok (h : TransactionHeader) : Prop := in_u 8 (MaxCpuUsageMS h).

Lemma u64_i64 z : u64 (i64 z) = u64 z.
Proof. unfold uwrap, swrap. rewrite Zminus_mod_idemp_l. f_equal. lia. Qed.

Lemma objective_time_spec h start block r : config_ok -> header_cpu_ok h -> in_u 64 block ->
  let r' := objective_time h start block r in
  objectiveDurationLimit r' = Z.min (Z.min block (MaxTransactionCpuUsage cfg)) (if 0 <? MaxCpuUsageMS h then 1000 * MaxCpuUsageMS h else MaxTransactionCpuUsage cfg) /\
  deadline r' = i64 (start + objectiveDurationLimit r') /\ pseudoStart r' = pseudoStart r.
Proof.
  intros [[Hm0 Hm1] _] [Hh0 Hh1] Hb. unfold objective_time. norm_pow.
  assert (Eb : u64 (i64 block) = block) by (rewrite u64_i64; by apply uwrap_id). cbn [objectiveDurationLimit].
  rewrite Eb. destruct Hb as [Hb0 Hb1]. assert (Em : Milliseconds (MaxCpuUsageMS h) = 1000 * MaxCpuUsageMS h) by (unfold Milliseconds; rewrite i64_small; lia).
  destruct (Z.leb_spec (MaxTransactionCpuUsage cfg) block) as [L|L]; [|rewrite (i64_small block) by lia];
    (destruct (Z.ltb_spec 0 (MaxCpuUsageMS h)); [rewrite Em; cbn [objectiveDurationLimit]|cbn; split_and!; [lia|done..]]);
    case_match eqn:L'; (apply Z.leb_le in L' || apply Z.leb_gt in L'); cbn in *; split_and!; done || lia.
Qed.

Lemma AddNetUsage_run u s : exists n, AddNetUsage u s = (set_tc (set_net n (tc s)) s, Ok tt).
Proof.
  unfold AddNetUsage, CheckNetUsage. eexists. unfold mbind, M_bind, on_tc, modify, get, lift. cbn.
  destruct (negb _); [|done]. case_match; [|done]. by destruct (netLimitDueToBlock _), (netLimitDueToGreylist _).
Qed.

(** What a context keeps from its initialization to its end. *)
Definition same_terms (t t' : TransactionContext) : Prop :=
  Start t' = Start t /\ Deadline t' = Deadline t /\ ExplicitBilledCpuTime t' = ExplicitBilledCpuTime t /\ IsInput t' = IsInput t.

Lemma init_run trx u now s s' : init trx u now s = (s', Ok tt) ->
  exists cl g n d, let t := tc s in
    let r := objective_time (trxHeader trx) (Start t) (ResourceLimits.GetBlockCpuLimit (resources (node s))) (timer t) in
    0 <= cl <= largeNumberNoOverflow /\ CheckTime now (tc s') = Ok tt /\
    s' = mkState (set_initialized (set_timer (account_deadline t cl g r) (set_net n (set_accounts_billed (actors trx) t))))
           (set_resources d (node s)) (seenTrx s).
Proof.
  unfold init. intros H. run_step H. apply run_bind in H as (s1 & [] & [_ ->]%run_assert & H).
  apply run_bind in H as (s2 & [] & ->%run_on_tc & H). run_step H.
  apply run_bind in H as (s3 & [] & H3 & H). assert (s3 = set_tc (set_timer (objective_time (trxHeader trx) (Start (tc s))
    (ResourceLimits.GetBlockCpuLimit (resources (node s))) (timer (tc s))) (set_net (objective_net (trxHeader trx)
    (ResourceLimits.GetBlockNetLimit (resources (node s))) (net (tc s))) (tc s))) s) as ->.
  { destruct (0 <? _); by run_step H3. }
  clear H3. apply run_bind in H as (s4 & [] & ->%run_on_tc & H).
  apply run_bind in H as (s5 & [] & (c & (d & _ & ->)%run_in_resources & ->)%run_at_node & H).
  apply run_bind in H as (s6 & [[[nl cl] gn] gc] & (-> & _ & Hc & _)%bandwidth_run & H).
  apply run_bind in H as (s7 & [] & ->%run_on_tc & H).
  match type of H with (mbind _ _ ?s0 = _) => set (s8 := s0) in H end.
  assert (exists n, (if 0 <? u then AddNetUsage u else mret tt) s8 = (set_tc (set_net n (tc s8)) s8, Ok tt)) as [n En].
  { destruct (0 <? u); [apply AddNetUsage_run|]. exists (net (tc s8)). by destruct s8 as [[]]. }
  apply run_bind in H as (s9 & [] & H9 & H). rewrite En in H9. simplify_eq. run_step H.
  apply run_bind in H as (s10 & [] & [-> Ht]%run_lift & H%run_on_tc). subst s'.
  exists cl, gc, n, d. split_and!; [lia..|exact Ht|reflexivity].
Qed.

(** ** While the actions run

    The timer is paused and resumed, the transaction uses the network and RAM, schedules
    another one, and its actions change the chain. *)
Inductive trx_step : State -> State -> Prop :=
| step_pause now s : trx_step s (set_tc (PauseBillingTimer now (tc s)) s)
| step_resume now s : trx_step s (set_tc (ResumeBillingTimer now (tc s)) s)
| step_net u s s' : AddNetUsage u s = (s', Ok tt) -> trx_step s s'
| step_ram account delta s s' : AddRamUsage account delta s = (s', Ok tt) -> trx_step s s'
| step_schedule trx id s s' : scheduleTransaction trx id s = (s', Ok tt) -> trx_step s s'
| step_action c s : trx_step s (mkState (tc s) c (seenTrx s)).

(** What the steps leave alone. *)
Definition kept (t t' : TransactionContext) : Prop :=
  objectiveDurationLimit (timer t') = objectiveDurationLimit (timer t) /\ BillToAccounts t' = BillToAccounts t /\
  BilledCpuTimeUs t' = BilledCpuTimeUs t.

Lemma billed_ram_run account delta s s' : AddRamUsage account delta s = (s', Ok tt) ->
  exists l c, s' = mkState (set_ram_accounts l (tc s)) c (seenTrx s).
Proof.
  unfold AddRamUsage. intros H. apply run_bind in H as (s1 & [] & (c & _ & ->)%run_at_node & H).
  destruct (0 <? delta); [apply run_on_tc in H as ->; by exists (AddAccount account (tcValidateRamUsage (tc s))), c|].
  run_step H. exists (tcValidateRamUsage (tc s)), c. by destruct s as [[]].
Qed.

Lemma scheduleTransaction_run trx id s s' : scheduleTransaction trx id s = (s', Ok tt) ->
  exists n l c, s' = mkState (set_ram_accounts l (set_net n (tc s))) c (seenTrx s).
Proof.
  unfold scheduleTransaction. intros H. apply run_bind in H as (s1 & [] & H1 & H).
  assert (exists n, s1 = set_tc (set_net n (tc s)) s) as [n ->].
  { destruct (_ =? 0); [|run_step H1; exists (net (tc s)); by destruct s as [[]]].
    match type of H1 with (AddNetUsage ?u _ = _) => destruct (AddNetUsage_run u s) as [n En] end. exists n. congruence. }
  run_step H. apply run_bind in H as (s2 & [] & (c & _ & ->)%run_at_node & (l & c' & ->)%billed_ram_run). by exists n, l, c'.
Qed.

Lemma trx_step_kept s s' : trx_step s s' -> kept (tc s) (tc s').
Proof.
  intros H. destruct H as [now s|now s|u s s' H|account delta s s' H|trx id s s' H|c s].
  - cbn. unfold PauseBillingTimer. by destruct (_ || _).
  - cbn. unfold ResumeBillingTimer. destruct (_ || _); [done|]. by destruct (_ <=? _).
  - destruct (AddNetUsage_run u s) as [n En]. by replace s' with (set_tc (set_net n (tc s)) s) by congruence.
  - by apply billed_ram_run in H as (l & c & ->).
  - by apply scheduleTransaction_run in H as (n & l & c & ->).
  - done.
Qed.

Lemma trx_steps_kept s s' : rtc trx_step s s' -> kept (tc s) (tc s').
Proof.
  induction 1 as [s|s1 s2 s3 H _ IH]; [done|]. apply trx_step_kept in H. unfold kept in *. destruct H as (? & ? & ?), IH as (? & ? & ?). by split_and!; congruence.
Qed.

(** ** The end of a transaction *)

Lemma verify_ram_read l d d' : verify_ram l d = (d', Ok tt) -> d' = d.
Proof.
  revert d. induction l as [|a l IH]; intros d; cbn [verify_ram]; intros H; [by run_step H|].
  apply run_bind in H as (d1 & [] & H1 & H). rewrite (IH _ H). unfold ResourceLimits.VerifyAccountRamUsage in H1.
  apply run_bind in H1 as (d2 & x & ->%GetAccountLimits_read & H1). apply run_bind in H1 as (d3 & y & ->%find_usage_read & H1).
  destruct (0 <=? _); by run_step H1.
Qed.

Lemma AddTransactionUsage_pending l cpu netu slot d d' : ResourceLimits.AddTransactionUsage l cpu netu slot d = (d', Ok tt) ->
  ResourceLimits.PendingCpuUsage (ResourceLimits.state d') = u64 (ResourceLimits.PendingCpuUsage (ResourceLimits.state d) + cpu).
Proof.
  unfold ResourceLimits.AddTransactionUsage. intros H. run_step H. apply run_bind in H as (d1 & [] & _ & H).
  apply run_bind in H as (d2 & [] & ->%run_modify & H). apply run_bind in H as (d3 & [] & [_ ->]%run_assert & [_ ->]%run_assert). done.
Qed.

Lemma Finalize_run trx now s s' : Finalize trx now s = (s', Ok tt) ->
  exists cl g n d, let t := UpdateBilledCpuTime now (set_timer (final_time cl g (timer (tc s))) (set_net n (tc s))) in
    0 <= cl <= largeNumberNoOverflow /\ validateCpuUsageToBill (BilledCpuTimeUs t) t = Ok tt /\
    Forall (fun a => exists x, ResourceLimits.GetAccountCpuLimit a (elastic a) (resources (node s)) = (resources (node s), Ok x) /\ (0 <= x -> cl <= x))
      (BillToAccounts (tc s)) /\
    ResourceLimits.PendingCpuUsage (ResourceLimits.state d) =
      u64 (ResourceLimits.PendingCpuUsage (ResourceLimits.state (resources (node s))) + u64 (BilledCpuTimeUs t)) /\
    tc s' = t /\ resources (node s') = d.
Proof.
  unfold Finalize. intros H. run_step H. apply run_bind in H as (s1 & [] & [_ ->]%run_assert & H).
  apply run_bind in H as (s2 & [] & H2 & H).
  assert (exists p, s2 = mkState (tc s) (set_perms p (node s)) (seenTrx s)) as [p ->].
  { destruct (IsInput (tc s)); [apply run_at_node in H2 as (c & (p & _ & ->)%run_in_perms & ->); by exists p|].
    run_step H2. exists (perms (node s)). by destruct s as [? []]. }
  apply run_bind in H as (s3 & [] & (c & (d1 & ->%verify_ram_read & ->)%run_in_resources & ->)%run_at_node & H).
  apply run_bind in H as (s4 & [[[nl cl] gn] gc] & (-> & _ & Hc & Hf)%bandwidth_run & H).
  apply run_bind in H as (s5 & [] & ->%run_on_tc & H). run_step H. apply run_bind in H as (s6 & [] & [-> _]%run_lift & H).
  apply run_bind in H as (s7 & [] & ->%run_on_tc & H). run_step H. apply run_bind in H as (s8 & [] & [-> Hv]%run_lift & H).
  apply run_at_node in H as (c & (d & Hd%AddTransactionUsage_pending & ->)%run_in_resources & ->).
  exists cl, gc, (final_net nl gn (net (tc s))), d. split_and!; [lia..|exact Hv|exact Hf|exact Hd|reflexivity|reflexivity].
Qed.

Lemma validateCpuUsageToBill_iff us t : SkipTrxChecks flags = false -> validateCpuUsageToBill us t = Ok tt <-> us <= objectiveDurationLimit (timer t).
Proof.
  intros E. unfold validateCpuUsageToBill. rewrite E. cbn [negb].
  destruct (bool_decide _); [|destruct (cpuLimitDueToGreylist _)]; by rewrite EosAssert_Ok, Z.leb_le.
Qed.

(** C20. The CPU time a transaction is billed for is within every limit that applies to
    it: when a transaction that was initialized, ran its steps and was finalized is
    accepted with checks on, the time billed is at most what was left of the block when
    it started, at most [MaxTransactionCpuUsage], at most the milliseconds its header
    allows if it names any, and at most what each authorizing account has available at
    the end; and this time is what the block's pending usage grows by. *)
Theorem billed_cpu_within_limits trx u now0 now s0 s1 s2 s3 :
  config_ok -> header_cpu_ok (trxHeader trx) -> SkipTrxChecks flags = false ->
  init trx u now0 s0 = (s1, Ok tt) -> rtc trx_step s1 s2 -> Finalize trx now s2 = (s3, Ok tt) ->
  let billed := BilledCpuTimeUs (tc s3) in
  billed <= ResourceLimits.GetBlockCpuLimit (resources (node s0)) /\ billed <= MaxTransactionCpuUsage cfg /\
  (0 < MaxCpuUsageMS (trxHeader trx) -> billed <= 1000 * MaxCpuUsageMS (trxHeader trx)) /\
  Forall (fun a => exists x, ResourceLimits.GetAccountCpuLimit a (elastic a) (resources (node s2)) = (resources (node s2), Ok x) /\ (0 <= x -> billed <= x))
    (actors trx) /\
  ResourceLimits.PendingCpuUsage (ResourceLimits.state (resources (node s3))) =
    u64 (ResourceLimits.PendingCpuUsage (ResourceLimits.state (resources (node s2))) + u64 billed).
Proof.
  intros Hcfg Hh Hskip (cl0 & g0 & n0 & d0 & _ & _ & E1)%init_run Hsteps%trx_steps_kept Hf. cbn zeta in E1. cbn zeta.
  apply Finalize_run in Hf as (cl & g & n & d & Hcl & Hv & Hacc & Hp & E3 & E4). rewrite E3, E4. cbn zeta in *. rewrite <- E3 in Hv, Hp |- *.
  apply validateCpuUsageToBill_iff in Hv; [|done]. destruct Hsteps as (K1 & K2 & _).
  assert (Eb : BillToAccounts (tc s1) = actors trx) by (by rewrite E1). rewrite K2, Eb in Hacc.
  assert (Eo : objectiveDurationLimit (timer (tc s3)) = Z.min cl (objectiveDurationLimit (timer (tc s2)))).
  { rewrite E3. unfold UpdateBilledCpuTime, final_time. destruct (ExplicitBilledCpuTime _); destruct (Z.leb_spec cl (objectiveDurationLimit (timer (tc s2)))); cbn; lia. }
  assert (Ei : objectiveDurationLimit (timer (tc s1)) = objectiveDurationLimit (objective_time (trxHeader trx) (Start (tc s0))
      (ResourceLimits.GetBlockCpuLimit (resources (node s0))) (timer (tc s0)))).
  { rewrite E1. cbn [tc timer set_initialized set_timer]. unfold account_deadline. by repeat (case_match). }
  destruct (objective_time_spec (trxHeader trx) (Start (tc s0)) (ResourceLimits.GetBlockCpuLimit (resources (node s0))) (timer (tc s0)) Hcfg Hh)
    as [Es _]; [apply uwrap_range; lia|]. rewrite Es in Ei. rewrite K1, Ei in Eo. clear - Hv Eo Hacc Hp Hcl.
  destruct (Z.ltb_spec 0 (MaxCpuUsageMS (trxHeader trx))); split_and!; try lia; try exact Hp.
  all: eapply Forall_impl; [exact Hacc|]; intros a (x & Hx & Hle); exists x; split; [exact Hx|]; intros Hpos; specialize (Hle Hpos); lia.
Qed.
End Trx.

(** ** The billing timer *)

Inductive timer_event : Type := Pause (at_ : Z) | Resume (at_ : Z).
Definition event_time (e : timer_event) : Z := match e with Pause t | Resume t => t end.
Definition run_event (t : TransactionContext) (e : timer_event) : TransactionContext :=
  match e with Pause now => PauseBillingTimer now t | Resume now => ResumeBillingTimer now t end.
Definition run_events : TransactionContext -> list timer_event -> TransactionContext := foldl run_event.

(** A stop watch: the time since when it runs, and the time it ran before. *)
Definition watch : Type := option Z * Z.
Definition watch_event (w : watch) (e : timer_event) : watch :=
  match e, w with
  | Pause now, (Some since, ran) => (None, ran + (now - since))
  | Resume now, (None, ran) => (Some now, ran)
  | _, _ => w
  end.
Definition run_watch : watch -> list timer_event -> watch := foldl watch_event.

(** The events come in the order of time. *)
Fixpoint in_order (from : Z) (l : list timer_event) (now : Z) : Prop :=
  match l with [] => from <= now | e :: l' => from <= event_time e /\ in_order (event_time e) l' now end.

(** The timer shows what the stop watch does, and the deadline is where it reaches its limit. *)
Definition timer_is (start limit last : Z) (t : TransactionContext) (w : watch) : Prop :=
  let r := timer t in
  ExplicitBilledCpuTime t = false /\ billingTimerDurationLimit r = limit /\ 0 <= w.2 <= last - start /\
  match w.1 with
  | Some since => start + w.2 <= since <= last /\ pseudoStart r = since - w.2 /\ deadline r = Z.min (since - w.2 + limit) (Deadline t)
  | None => pseudoStart r = 0 /\ billedTime r = w.2 /\ deadlineExceptionCode r = DeadlineException
  end.

Lemma timer_is_event start limit last t w e : 0 < start -> 0 <= limit < 2 ^ 61 -> event_time e < 2 ^ 61 -> last <= event_time e ->
  timer_is start limit last t w -> timer_is start limit (event_time e) (run_event t e) (watch_event w e).
Proof.
  intros Hs Hl He Hle (Ex & El & Hran & Hw). destruct w as [[since|] ran], e as [now|now]; cbn [fst snd event_time] in *; cbn [run_event watch_event].
  - destruct Hw as (Hr & Hp & Hd). unfold PauseBillingTimer. rewrite Ex, Hp, (proj2 (Z.eqb_neq _ 0)) by lia. cbn [orb].
    unfold timer_is; cbn; split_and!; try done; try lia.
    rewrite i64_small by lia. lia.
  - destruct Hw as (Hr & Hp & Hd). unfold ResumeBillingTimer. rewrite Ex, Hp, (proj2 (Z.eqb_neq _ 0)) by lia. cbn [orb negb].
    unfold timer_is; cbn; split_and!; try done; lia.
  - destruct Hw as (Hp & Hb & Hx). unfold PauseBillingTimer. rewrite Ex, Hp. cbn. unfold timer_is; cbn; split_and!; try done; lia.
  - destruct Hw as (Hp & Hb & _). unfold ResumeBillingTimer. rewrite Ex, Hp, Hb, El, (i64_small (now - ran)) by lia. cbn [orb negb Z.eqb].
    rewrite (i64_small (now - ran + limit)) by lia. destruct (Z.leb_spec (now - ran + limit) (Deadline t)); unfold timer_is; cbn; split_and!; try done; lia.
Qed.

Lemma run_event_deadline t e : Deadline (run_event t e) = Deadline t.
Proof.
  destruct e; cbn; [unfold PauseBillingTimer; by destruct (_ || _)|]. unfold ResumeBillingTimer. destruct (_ || _); [done|]. by destruct (_ <=? _).
Qed.

Lemma timer_is_events start limit l now last t w : 0 < start -> 0 <= limit < 2 ^ 61 -> now < 2 ^ 61 -> in_order last l now ->
  timer_is start limit last t w ->
  exists last', last' <= now /\ timer_is start limit last' (run_events t l) (run_watch w l) /\ Deadline (run_events t l) = Deadline t.
Proof.
  intros Hs Hl Hn. revert last t w. induction l as [|e l IH]; intros last t w Ho Ht; cbn in *; [by exists last|]. destruct Ho as [H1 H2].
  assert (He : event_time e <= now). { clear -H2. revert H2. generalize (event_time e). induction l as [|x l IH]; intros z; cbn; [done|]. intros [? H]. apply IH in H. lia. }
  destruct (IH (event_time e) (run_event t e) (watch_event w e)) as (last' & ? & ? & E); [done|by eapply timer_is_event; eauto; lia|].
  exists last'. by rewrite E, run_event_deadline.
Qed.

Lemma CheckTime_iff now t : CheckTime now t = Ok tt <-> now <= deadline (timer t).
Proof.
  unfold CheckTime. destruct (Z.ltb_spec (deadline (timer t)) now); [|split; [done|done]]. split; [|lia].
  destruct (_ || _); [done|]. destruct (bool_decide _); [done|]. destruct (bool_decide _); [by destruct (cpuLimitDueToGreylist _)|]. by destruct (bool_decide _).
Qed.

Section BillingTimer.
Context (cfg : ChainConfig) (flags : Flags) (ResourceGreylist : list Z).

(** The timer of a transaction once it is initialized. *)
Lemma init_timer trx u now s s' : config_ok cfg -> header_cpu_ok (trxHeader trx) ->
  0 < Start (tc s) < 2 ^ 60 -> 0 <= Leeway (tc s) < 2 ^ 60 -> ExplicitBilledCpuTime (tc s) = false -> pseudoStart (timer (tc s)) = Start (tc s) ->
  init cfg flags ResourceGreylist trx u now s = (s', Ok tt) ->
  let limit := billingTimerDurationLimit (timer (tc s')) in
  0 <= limit <= MaxTransactionCpuUsage cfg /\ timer_is (Start (tc s)) limit (Start (tc s)) (tc s') (Some (Start (tc s)), 0) /\
  Deadline (tc s') = Deadline (tc s).
Proof.
  intros Hcfg Hh Hs Hlw Ex Ep (cl & g & n & d & Hcl & _ & ->)%init_run. cbn zeta. cbn [tc timer set_initialized set_timer].
  change largeNumberNoOverflow with (2 ^ 62 - 1) in Hcl.
  destruct (objective_time_spec cfg (trxHeader trx) (Start (tc s)) (ResourceLimits.GetBlockCpuLimit (resources (node s))) (timer (tc s)) Hcfg Hh)
    as (Eo & Ed & Eps); [apply uwrap_range; lia|].
  pose proof (uwrap_range 64 (ResourceLimits.MaxLimit (ResourceLimits.CpuLimitParameters (ResourceLimits.config (resources (node s))))
     - ResourceLimits.PendingCpuUsage (ResourceLimits.state (resources (node s)))) ltac:(lia)) as [Hb _].
  fold (ResourceLimits.GetBlockCpuLimit (resources (node s))) in Hb.
  set (r := objective_time _ _ _ _ _) in *. destruct Hcfg as [[Hm0 Hm1] _], Hh as [Hh0 Hh1]. norm_pow.
  assert (Ho : 0 <= objectiveDurationLimit r <= MaxTransactionCpuUsage cfg) by (destruct (0 <? MaxCpuUsageMS (trxHeader trx)); lia).
  clear Eo Hb. rewrite i64_small in Ed by lia. unfold account_deadline. rewrite Ed, Ex.
  rewrite (i64_small (cl + _)), (i64_small (Start (tc s) + objectiveDurationLimit r - _)) by lia. cbn [orb].
  unfold timer_is. cbn [tc timer set_initialized set_timer ExplicitBilledCpuTime Deadline fst snd].
  destruct (Z.leb_spec (cl + Leeway (tc s)) (Start (tc s) + objectiveDurationLimit r - Start (tc s))) as [L|L].
  - rewrite !(i64_small (Start (tc s) + cl)), !(i64_small (_ + Leeway (tc s))), !i64_small by lia. cbn [billingTimerDurationLimit].
    destruct (Z.ltb_spec (Deadline (tc s)) (Start (tc s) + cl + Leeway (tc s))); cbn; rewrite Eps; split_and!; try done; lia.
  - rewrite !i64_small by lia. cbn [billingTimerDurationLimit].
    destruct (Z.ltb_spec (Deadline (tc s)) (Start (tc s) + objectiveDurationLimit r)); cbn; rewrite Eps; split_and!; try done; lia.
Qed.

End BillingTimer.

(** ** No transaction is accepted twice *)

Section Replay.
Context (cfg : ChainConfig) (flags : Flags) (ResourceGreylist : list Z).

(** The time of the pending block, the transactions seen, and those accepted so far. *)
Record history : Type := mkHistory { blockTime : Z; seenSoFar : Seen; accepted : list Transaction }.

(** A transaction from a client or a block, checked and recorded; the expired ones are
    cleared; time goes on.  What the transaction does to the rest of the chain does not
    matter. *)
Inductive history_step : history -> history -> Prop :=
| step_accept trx id summaries p q now s s' h : ID trx = Ok id ->
    PendingBlockTime (perms (node s)) = blockTime h -> seenTrx s = seenSoFar h ->
    InitForInputTrx cfg flags ResourceGreylist summaries trx id p q false now s = (s', Ok tt) ->
    history_step h (mkHistory (blockTime h) (seenTrx s') (trx :: accepted h))
| step_clear h : history_step h (mkHistory (blockTime h) (clearExpiredInputTransactions (blockTime h) (seenSoFar h)) (accepted h))
| step_time t h : blockTime h <= t -> history_step h (mkHistory t (seenSoFar h) (accepted h)).

(** An accepted transaction that has not expired is still in the table. *)
Definition remembered (h : history) : Prop :=
  NoDup (accepted h) /\ forall trx, trx ∈ accepted h -> blockTime h <= TimePointSec.ToTimePoint (Expiration (trxHeader trx)) ->
    exists id, ID trx = Ok id /\ mkTransactionObject (Expiration (trxHeader trx)) id ∈ seenSoFar h.

Lemma clear_keeps now seen o : o ∈ seen -> now <= TimePointSec.ToTimePoint (toExpiration o) -> o ∈ clearExpiredInputTransactions now seen.
Proof.
  intros Ho Ht. induction seen as [|t seen IH]; cbn; [done|]. destruct (Z.ltb_spec (TimePointSec.ToTimePoint (toExpiration t)) now); [|done].
  apply elem_of_cons in Ho as [->|Ho]; [lia|by apply IH].
Qed.

Lemma input_run summaries trx id p q now s s' : SkipTrxChecks flags = false ->
  InitForInputTrx cfg flags ResourceGreylist summaries trx id p q false now s = (s', Ok tt) ->
  ValidateExpiration (PendingBlockTime (perms (node s))) (MaxTrxLifetime cfg) (trxHeader trx) = Ok tt /\
  ValidateTapos summaries (trxHeader trx) = Ok tt /\ ValidateReferencedAccounts (node s) trx = Ok tt /\
  recordTransaction id (Expiration (trxHeader trx)) (seenTrx s) = Ok (seenTrx s').
Proof.
  unfold InitForInputTrx. intros E H. rewrite E in H. cbn [negb] in H. run_step H. apply run_bind in H as (s1 & [] & ->%run_on_tc & H).
  apply run_bind in H as (s2 & [] & H2 & H). apply run_bind in H2 as (s3 & [] & [-> He]%run_lift & H2).
  apply run_bind in H2 as (s4 & [] & [-> Ht]%run_lift & [-> Ha]%run_lift).
  apply run_bind in H as (s5 & [] & (cl & g & n & d & _ & _ & ->)%init_run & H). split_and!; [exact He|exact Ht|exact Ha|].
  unfold record_input in H. cbn [seenTrx set_tc] in H. by destruct (recordTransaction _ _ _) as [seen|e]; [injection H as <-|].
Qed.

Lemma recordTransaction_Ok id e seen seen' : recordTransaction id e seen = Ok seen' ->
  (forall o, o ∈ seen -> toTrxID o <> id) /\ seen' = seen ++ [mkTransactionObject e id].
Proof.
  unfold recordTransaction, IsKnownUnexpiredTransaction. destruct (existsb _ seen) eqn:E; intros H; [done|]. injection H as <-. split; [|done].
  intros o Ho Heq. apply not_true_iff_false in E. apply E, existsb_exists. exists o. rewrite <- list_elem_of_In. by rewrite bool_decide_eq_true.
Qed.

(** C16. No transaction is accepted twice: from an empty history, through any sequence of
    input transactions that were checked and recorded, of clearings of the expired ones
    and of blocks whose time does not go back, the accepted transactions are distinct.
    (The table loses a transaction only when it has expired, and from then on its
    expiration keeps it out.) *)
Theorem no_replay t h : SkipTrxChecks flags = false -> rtc history_step (mkHistory t [] []) h -> NoDup (accepted h).
Proof.
  intros Hskip H. cut (remembered h); [by intros []|].
  remember (mkHistory t [] []) as h0 eqn:E0. assert (H0 : remembered h0) by (subst; split; [constructor|by intros trx Htrx%elem_of_nil]). clear E0.
  induction H as [h0|h0 h1 h2 Hstep _ IH]; [done|]. apply IH. clear IH. destruct H0 as [Hnd Hrem].
  destruct Hstep as [trx id summaries p q now s s' h Hid Et Es Hacc|h|t' h Ht].
  - apply input_run in Hacc as (He & _ & _ & (Hnew & ->)%recordTransaction_Ok); [|done]. rewrite Es, Et in *.
    unfold ValidateExpiration in He. apply bind_Ok in He as ([] & He%EosAssert_Ok & _). apply Z.leb_le in He. split; cbn.
    + constructor; [|done]. intros Hin. destruct (Hrem trx Hin He) as (id' & Hid' & Ho). apply Hnew in Ho. cbn in Ho. congruence.
    + intros trx' [->|Hin]%elem_of_cons Hlive; [exists id; split; [done|set_solver]|]. destruct (Hrem trx' Hin Hlive) as (id' & ? & ?). exists id'. set_solver.
  - split; [done|]. cbn. intros trx Hin Hlive. destruct (Hrem trx Hin Hlive) as (id & ? & Ho). exists id. split; [done|]. by apply clear_keeps.
  - split; [done|]. cbn. intros trx Hin Hlive. apply Hrem; [done|lia].
Qed.
End Replay.

(** ** Examples *)

Definition example_flags : Flags := mkFlags (Some Incomplete) false false false FULL false.
Definition example_start : Z := 1000000000000000.
Definition example_trx : Transaction := mkTransaction (mkTransactionHeader 1000000100 0 0 0 0 0) [] [create_action] [].
Definition example_context : TransactionContext :=
  mkTransactionContext example_start 0 [] [] 0 false true MaxMicroseconds 100000 0 false false (mkNetLimits 0 true false 0 0)
    (mkTimer 0 MaxMicroseconds BlockCpuUsageExceeded BlockCpuUsageExceeded false example_start 0 0).

Example example_context_new : NewTransactionContext example_trx example_start = Ok example_context.
Proof. reflexivity. Qed.

Definition example_state : State := mkState example_context new_chain [].
Definition example_started : State := Eval vm_compute in (init DefaultConfig example_flags [] example_trx 200 (example_start + 10) example_state).1.
(** It runs for 100 us, pauses for 300 us and runs for another 200 us. *)
Definition example_events : list timer_event := [Pause (example_start + 100); Resume (example_start + 400)].
Definition example_ran : State := Eval vm_compute in set_tc (run_events (tc example_started) example_events) example_started.
Definition example_done : State := Eval vm_compute in (Finalize DefaultConfig example_flags [] example_trx (example_start + 600) example_ran).1.

Lemma example_init : init DefaultConfig example_flags [] example_trx 200 (example_start + 10) example_state = (example_started, Ok tt).
Proof. by_eval. Qed.

Lemma billed_cpu_within_limits_witness :
  Finalize DefaultConfig example_flags [] example_trx (example_start + 600) example_ran = (example_done, Ok tt) /\
  BilledCpuTimeUs (tc example_done) = 300 /\ 300 <= MaxTransactionCpuUsage DefaultConfig.
Proof.
  assert (Hf : Finalize DefaultConfig example_flags [] example_trx (example_start + 600) example_ran = (example_done, Ok tt)) by by_eval.
  assert (Hr : rtc (trx_step DefaultConfig example_flags) example_started example_ran).
  { eapply rtc_l; [apply (step_pause _ _ (example_start + 100))|]. eapply rtc_l; [apply (step_resume _ _ (example_start + 400))|].
    assert (example_ran = set_tc (ResumeBillingTimer (example_start + 400) (tc (set_tc (PauseBillingTimer (example_start + 100) (tc example_started)) example_started)))
      (set_tc (PauseBillingTimer (example_start + 100) (tc example_started)) example_started)) as -> by (vm_compute; reflexivity). constructor. }
  split_and!; [exact Hf|vm_compute; reflexivity|].
  assert (E : BilledCpuTimeUs (tc example_done) = 300) by (vm_compute; reflexivity). rewrite <- E.
  refine (proj1 (proj2 (billed_cpu_within_limits DefaultConfig example_flags [] example_trx 200 (example_start + 10) (example_start + 600)
    example_state example_started example_ran example_done _ _ _ example_init Hr Hf))); [split; by_decide|by_decide|vm_compute; reflexivity].
Defined.


Definition example_id : Sha256 := Eval vm_compute in match ID example_trx with Ok id => id | Throw _ => NewSha256Nil end.
Definition example_input (now : Z) : M State unit := InitForInputTrx DefaultConfig example_flags [] ∅ example_trx example_id 150 60 false now.
Definition example_recorded : State := Eval vm_compute in (example_input (example_start + 10) example_state).1.

Lemma no_replay_witness :
  NoDup [example_trx] /\ (example_input (example_start + 20) (mkState example_context new_chain (seenTrx example_recorded))).2 = Throw TxDuplicate.
Proof.
  split; [|vm_compute; reflexivity].
  refine (no_replay DefaultConfig example_flags [] example_start (mkHistory example_start (seenTrx example_recorded) [example_trx]) _ _); [vm_compute; reflexivity|].
  eapply rtc_l; [|constructor]. apply (step_accept _ _ _ example_trx example_id ∅ 150 60 (example_start + 10) example_state example_recorded
    (mkHistory example_start [] [])); [by_eval|vm_compute; reflexivity|reflexivity|by_eval].
Defined.

(** ** Divergences *)

(** Network usage is never refused: [CheckNetUsage] asserts [true] where the limit is
    exceeded. *)
Theorem net_usage_never_refused flags u s : (AddNetUsage flags u s).2 = Ok tt.
Proof. by destruct (AddNetUsage_run flags u s) as [n ->]. Qed.

(** A configuration is compared with the defaults, not with itself: one whose minimum CPU
    time of a transaction is above its maximum is valid, and under it every transaction
    that does not set its own CPU time is refused. *)
Definition inverted_config : ChainConfig :=
  mkChainConfig (1024 * 1024) 1000 (1024 * 1024 / 2) 12 500 20 100 200000 1000 200 150000 (60 * 60) (10 * 60) (45 * 24 * 3600) (4 * 1024) 4 6.

Theorem inverted_config_valid :
  config_Validate inverted_config = Ok tt /\ MaxTransactionCpuUsage inverted_config < MinTransactionCpuUsage inverted_config /\
  (Finalize inverted_config example_flags [] example_trx (example_start + 20)
     (init inverted_config example_flags [] example_trx 200 (example_start + 10) example_state).1).2 = Throw TxCpuUsageExceeded.
Proof. by vm_compute. Qed.

(** Expired transactions stay while an earlier one has not expired: the index the clearing
    walks is in the order of the ids. *)
Theorem expired_kept_behind : exists seen,
  clearExpiredInputTransactions 5000000000 seen = seen /\
  Exists (fun o => TimePointSec.ToTimePoint (toExpiration o) < 5000000000) seen.
Proof.
  exists [mkTransactionObject 9000 NewSha256Nil; mkTransactionObject 10 NewSha256Nil]. split; [by vm_compute|]. right. left. by vm_compute.
Qed.
