(* ===== verification/Blocks.v ===== *)
(** * Blocks: the life of a block in the controller

    The part of [chain/controller.go] that builds, applies, commits and aborts blocks,
    executes transactions in them and follows the fork database, with [chain/pending.go]
    and [chain/maybe_session.go].  It composes the header states ([BlockHeaderState]), the
    fork database ([ForkDatabase]), the context of a transaction ([TransactionContext]),
    authorization ([Permissions]), the resource limits and the receipts ([Receipts]).

    The database is that of [Database], with its undo stack: sessions are opened, undone,
    squashed and committed by its own operations, with what they fail to restore
    ([DbSession.undo_stale_index], [DbSession.undo_modify_remove],
    [DbSession.undo_ids_not_restored]).  How the objects of the program lie in it is an
    argument ([StateStore]): the code reads a [World] from it and writes one back by calls
    of [Insert], [Modify] and [Remove].  The execution of the actions of a transaction is
    an argument, which can change all of the world and the context; [wRest] is the part
    of the world it alone knows.  The clock is an argument: each
    reading of [common.Now()] takes its next value.  The subscribers of the signals are
    left out, but for [OnIrreversible], which runs for the blocks the fork database has
    emitted once the operation on it is over.  The read mode in which the node follows
    irreversible blocks only is left out. *)

From stdpp Require Import sorting.
From S2P Require Import Prelude Uint128 Bytes Rlp Sha256 Merkle Ecc Time BlockHeader BlockHeaderState OrderedIndex Authority Permissions NativeActions.
From S2P Require Import Transaction Receipts Controller TransactionContext.
From S2P Require ResourceLimits ForkDatabase Name Database DbTable DbUndo DbSession.

Notation LDataBase := Database.LDataBase.
Notation reversion := Database.reversion.
Notation containers := DbSession.containers.

Notation SignedBlock := (@ForkDatabase.SignedBlock TransactionReceipt).
Notation BlockState := (@ForkDatabase.BlockState TransactionReceipt TransactionMetadata).
Notation ForkDb := (@ForkDatabase.ForkDatabase TransactionReceipt TransactionMetadata).

(** ** The native handlers *)

(** The key of a handler is the sum of three names. *)
Definition handlerKey (receiver contract action : Z) : result bytes := Name.to_String (u64 (receiver + contract + action)).

Definition SetApplayHandler {H} (receiver contract action : Z) (handler : H) (m : gmap bytes H) : result (gmap bytes H) :=
  k ← handlerKey receiver contract action; Ok (<[k := handler]> m).
Definition FindApplyHandler {H} (receiver scope act : Z) (m : gmap bytes H) : result (option H) :=
  k ← handlerKey receiver scope act; Ok (m !! k).

(** ** Failures *)

Definition failureIsSubjective (e : exn) : bool :=
  bool_decide (e ∈ [SubjectiveBlockProductionException; BlockNetUsageExceeded; GreylistNetUsageExceeded; BlockCpuUsageExceeded; GreylistCpuUsageExceeded;
    DeadlineException; LeewayDeadlineException; ActorWhitelistException; ActorBlacklistException; ContractWhitelistException;
    ContractBlacklistException; ActionBlacklistException; KeyBlacklistException]).

Definition scheduledFailureIsSubjective (e : exn) : bool := bool_decide (e = TxCpuUsageExceeded) || failureIsSubjective e.

(** [Catch(func(Exception))] does not see a panic with a message. *)
Definition caught (e : exn) : bool := negb (bool_decide (e = GoPanic)).

Definition attempt {S A} (m : M S A) : M S (result A) := fun s => let '(s', r) := m s in (s', Ok r).
(** A deferred call: it runs whatever happens, and its own panic replaces the result. *)
Definition finally {S A} (m : M S A) (d : M S unit) : M S A := fun s =>
  let '(s1, r) := m s in let '(s2, r2) := d s1 in (s2, match r2 with Ok _ => r | Throw e => Throw e end).
Definition try_catch {S A} (m : M S A) (h : exn -> M S A) : M S A :=
  r ← attempt m; match r with Ok a => mret a | Throw e => if caught e then h e else lift (Throw e) end.

(** ** State *)

(** What the program keeps in the database. *)
Record World {T : Type} : Type := mkWorld {
  wChain : Chain; wSeen : Seen; wSummaries : gmap Z Sha256; wProposal : Proposal; wConfig : ChainConfig; wRest : T }.
Arguments World : clear implicits.
Arguments mkWorld {T}.

Definition set_wChain {T} (c : Chain) (w : World T) : World T := mkWorld c (wSeen w) (wSummaries w) (wProposal w) (wConfig w) (wRest w).
Definition set_wSeen {T} (s : Seen) (w : World T) : World T := mkWorld (wChain w) s (wSummaries w) (wProposal w) (wConfig w) (wRest w).
Definition set_wSummaries {T} (s : gmap Z Sha256) (w : World T) : World T := mkWorld (wChain w) (wSeen w) s (wProposal w) (wConfig w) (wRest w).
Definition set_wProposal {T} (p : Proposal) (w : World T) : World T := mkWorld (wChain w) (wSeen w) (wSummaries w) p (wConfig w) (wRest w).

(** How the objects lie in the database: what is read from it, and the database after the
    calls that write a changed world back. *)
Class StateStore (D T : Type) : Type := { load : LDataBase D -> World T; save : World T -> LDataBase D -> LDataBase D }.

(** The program writes by [Insert], [Modify] and [Remove] only, whatever they return. *)
Class StateStoreLaws (D T : Type) `{Database.LevelDB D, !StateStore D T} : Prop :=
  save_writes w d : rtc DbSession.db_write d (save w d).

Section Node.
Context {D ActionReceipt : Type}.

(** [DbSession] is nil, or holds a session, which is open until it is pushed or undone.
    The field [Valid] of [MaybeSession] is never read. *)
Record PendingState : Type := mkPending {
  psSession : option bool; PendingBlock : option BlockState; psActions : list ActionReceipt; psStatus : BlockStatus;
  ProducerBlockId : Sha256; PendingValid : bool }.

Record Node : Type := mkNode {
  DB : LDataBase D; Pending : option PendingState; HeadBlock : ptr; ForkDB : ForkDb; ReversibleBlocks : gmap Z SignedBlock; Blog : list SignedBlock;
  UnappliedTransactions : gmap Sha256 TransactionMetadata; RePlaying : bool; ReplayHeadTime : Z; InTrx : bool; TrustedLight : bool;
  keyCache : gmap bytes CachedPubKey; ticks : nat; nextBlock : ptr }.

Definition set_DB (v : LDataBase D) (n : Node) : Node :=
  mkNode v (Pending n) (HeadBlock n) (ForkDB n) (ReversibleBlocks n) (Blog n) (UnappliedTransactions n) (RePlaying n) (ReplayHeadTime n) (InTrx n)
    (TrustedLight n) (keyCache n) (ticks n) (nextBlock n).
Definition set_Pending (v : option PendingState) (n : Node) : Node :=
  mkNode (DB n) v (HeadBlock n) (ForkDB n) (ReversibleBlocks n) (Blog n) (UnappliedTransactions n) (RePlaying n) (ReplayHeadTime n) (InTrx n)
    (TrustedLight n) (keyCache n) (ticks n) (nextBlock n).
Definition set_HeadBlock (v : ptr) (n : Node) : Node :=
  mkNode (DB n) (Pending n) v (ForkDB n) (ReversibleBlocks n) (Blog n) (UnappliedTransactions n) (RePlaying n) (ReplayHeadTime n) (InTrx n)
    (TrustedLight n) (keyCache n) (ticks n) (nextBlock n).
Definition set_ForkDB (v : ForkDb) (n : Node) : Node :=
  mkNode (DB n) (Pending n) (HeadBlock n) v (ReversibleBlocks n) (Blog n) (UnappliedTransactions n) (RePlaying n) (ReplayHeadTime n) (InTrx n)
    (TrustedLight n) (keyCache n) (ticks n) (nextBlock n).
Definition set_Reversible (v : gmap Z SignedBlock) (n : Node) : Node :=
  mkNode (DB n) (Pending n) (HeadBlock n) (ForkDB n) v (Blog n) (UnappliedTransactions n) (RePlaying n) (ReplayHeadTime n) (InTrx n)
    (TrustedLight n) (keyCache n) (ticks n) (nextBlock n).
Definition set_Blog (v : list SignedBlock) (n : Node) : Node :=
  mkNode (DB n) (Pending n) (HeadBlock n) (ForkDB n) (ReversibleBlocks n) v (UnappliedTransactions n) (RePlaying n) (ReplayHeadTime n) (InTrx n)
    (TrustedLight n) (keyCache n) (ticks n) (nextBlock n).
Definition set_Unapplied (v : gmap Sha256 TransactionMetadata) (n : Node) : Node :=
  mkNode (DB n) (Pending n) (HeadBlock n) (ForkDB n) (ReversibleBlocks n) (Blog n) v (RePlaying n) (ReplayHeadTime n) (InTrx n)
    (TrustedLight n) (keyCache n) (ticks n) (nextBlock n).
Definition set_InTrx (v : bool) (n : Node) : Node :=
  mkNode (DB n) (Pending n) (HeadBlock n) (ForkDB n) (ReversibleBlocks n) (Blog n) (UnappliedTransactions n) (RePlaying n) (ReplayHeadTime n) v
    (TrustedLight n) (keyCache n) (ticks n) (nextBlock n).
Definition set_TrustedLight (v : bool) (n : Node) : Node :=
  mkNode (DB n) (Pending n) (HeadBlock n) (ForkDB n) (ReversibleBlocks n) (Blog n) (UnappliedTransactions n) (RePlaying n) (ReplayHeadTime n) (InTrx n)
    v (keyCache n) (ticks n) (nextBlock n).
Definition set_keyCache (v : gmap bytes CachedPubKey) (n : Node) : Node :=
  mkNode (DB n) (Pending n) (HeadBlock n) (ForkDB n) (ReversibleBlocks n) (Blog n) (UnappliedTransactions n) (RePlaying n) (ReplayHeadTime n) (InTrx n)
    (TrustedLight n) v (ticks n) (nextBlock n).
Definition set_ticks (v : nat) (n : Node) : Node :=
  mkNode (DB n) (Pending n) (HeadBlock n) (ForkDB n) (ReversibleBlocks n) (Blog n) (UnappliedTransactions n) (RePlaying n) (ReplayHeadTime n) (InTrx n)
    (TrustedLight n) (keyCache n) v (nextBlock n).
Definition set_nextBlock (v : ptr) (n : Node) : Node :=
  mkNode (DB n) (Pending n) (HeadBlock n) (ForkDB n) (ReversibleBlocks n) (Blog n) (UnappliedTransactions n) (RePlaying n) (ReplayHeadTime n) (InTrx n)
    (TrustedLight n) (keyCache n) (ticks n) v.

Definition on_world {T} `{StateStore D T} (f : World T -> World T) (n : Node) : Node := set_DB (save (f (load (DB n))) (DB n)) n.

Definition head (n : Node) : BlockState := ForkDatabase.heap (ForkDB n) (HeadBlock n).

(** The operator's settings.  The mode IRREVERSIBLE, in which [OnIrreversible] applies a
    block while the fork database is being pruned, is left out. *)
Inductive DBReadMode : Type := SPECULATIVE | HEADER | READONLY.
#[export] Instance DBReadMode_eq_dec : EqDecision DBReadMode.
Proof. solve_decision. Defined.

Record Config : Type := mkConfig {
  ReadMode : DBReadMode; cfForceAllChecks : bool; cfDisableReplayOpts : bool; cfValidationMode : ValidationMode; TrustedProducers : list Z;
  cfLists : Lists; ResourceGreylist : list Z; ChainID : Sha256; SubjectiveCpuLeeway : Z }.
End Node.
Arguments PendingState : clear implicits.
Arguments Node : clear implicits.

(** ** Frames

    What a computation leaves alone, whatever its outcome. *)

Lemma attempt_bind {S A B} (m : M S A) (k : result A -> M S B) s : (attempt m ≫= k) s = k (m s).2 (m s).1.
Proof. unfold mbind, M_bind, attempt. by destruct (m s). Qed.

Lemma bind_eq {S A B} (m : M S A) (k : A -> M S B) s s1 a : m s = (s1, Ok a) -> (m ≫= k) s = k a s1.
Proof. unfold mbind, M_bind. by intros ->. Qed.

Lemma bind_throw {S A B} (m : M S A) (k : A -> M S B) s s1 e : m s = (s1, Throw e) -> (m ≫= k) s = (s1, Throw e).
Proof. unfold mbind, M_bind. by intros ->. Qed.

Lemma try_catch_eq {S A} (m : M S A) h s :
  try_catch m h s = match m s with (s1, Ok a) => (s1, Ok a) | (s1, Throw e) => if caught e then h e s1 else (s1, Throw e) end.
Proof. unfold try_catch. rewrite attempt_bind. destruct (m s) as [s1 [a|e]]; [done|]. cbn. by destruct (caught e). Qed.

Definition keeps {S A} (R : relation S) (m : M S A) : Prop := forall s, R s (m s).1.

Section Keeps.
Context {S : Type} (R : relation S) `{!PreOrder R}.

Lemma kept_ret {A} (a : A) : keeps R (mret a).
Proof. intros s. reflexivity. Qed.
Lemma kept_lift {A} (r : result A) : keeps R (lift r).
Proof. intros s. reflexivity. Qed.
Lemma kept_get : keeps R get.
Proof. intros s. reflexivity. Qed.
Lemma keeps_assert c e : keeps R (assertM c e).
Proof. intros s. reflexivity. Qed.
Lemma kept_bind {A B} (m : M S A) (k : A -> M S B) : keeps R m -> (forall a, keeps R (k a)) -> keeps R (m ≫= k).
Proof.
  intros Hm Hk s. specialize (Hm s). unfold mbind, M_bind. destruct (m s) as [s1 [a|e]]; [|done].
  etrans; [done|]. apply Hk.
Qed.
Lemma keeps_attempt {A} (m : M S A) : keeps R m -> keeps R (attempt m).
Proof. intros Hm s. specialize (Hm s). unfold attempt. by destruct (m s). Qed.
Lemma keeps_finally {A} (m : M S A) d : keeps R m -> keeps R d -> keeps R (finally m d).
Proof.
  intros Hm Hd s. specialize (Hm s). unfold finally. destruct (m s) as [s1 r]. specialize (Hd s1). destruct (d s1). by etrans.
Qed.
Lemma keeps_if {A} (b : bool) (m m' : M S A) : keeps R m -> keeps R m' -> keeps R (if b then m else m').
Proof. by destruct b. Qed.
Lemma keeps_option {A B} (o : option B) (f : B -> M S A) (m : M S A) :
  (forall b, keeps R (f b)) -> keeps R m -> keeps R (match o with Some b => f b | None => m end).
Proof. by destruct o. Qed.
End Keeps.
Create HintDb framed.
#[export] Hint Resolve kept_ret kept_lift kept_get keeps_assert : framed.

Section Controller.
Context {zlib : Zlib} {ripemd : Ripemd160} (publicKey : Z -> bytes -> bytes -> result PublicKey).
Context (decodeUpdateAuth : bytes -> UpdateAuth) (decodeDeleteAuth : bytes -> DeleteAuth) (decodeLinkAuth : bytes -> LinkAuth)
  (decodeUnLinkAuth : bytes -> UnLinkAuth) (decodeCancelDelay : bytes -> CancelDelay) (range : gmap PermissionLevel Z -> list (PermissionLevel * Z)).
Context {D T ActionReceipt : Type} {leveldb : Database.LevelDB D} {laws : Database.LevelDBLaws D}
  {rangeOrder : Database.RangeOrder} {stateStore : StateStore D T} {stateLaws : StateStoreLaws D T}.
Context (action_digest : ActionReceipt -> Sha256) (clock : nat -> Z) (cfg : Config).
Abbreviation Node := (Node D ActionReceipt).
Abbreviation World := (World T).

(** *** Execution *)

(** A transaction at work: the database, its context and the cache of recovered keys. *)
Record Work : Type := mkWork { wkWorld : World; wkContext : TransactionContext; wkKeys : gmap bytes CachedPubKey }.

(** [Exec] of a transaction context, [DispatchAction] of one action for a receiver, the
    packed bytes of the deferred transaction of an id, and the transaction that bytes
    decode to. *)
Context (exec : Transaction -> M Work (list ActionReceipt)) (dispatch : Action -> Z -> M Work (list ActionReceipt))
  (packed_generated : World -> Z -> bytes) (decode_signed : bytes -> SignedTransaction).

Definition on_state {A} (m : World -> M State A) : M Work A := fun k =>
  let w := wkWorld k in
  let '(s, r) := m w (mkState (wkContext k) (wChain w) (wSeen w)) in (mkWork (set_wSeen (seenTrx s) (set_wChain (node s) w)) (tc s) (wkKeys k), r).
Definition in_keys {A} (m : M (gmap bytes CachedPubKey) A) : M Work A := fun k =>
  let '(c, r) := m (wkKeys k) in (mkWork (wkWorld k) (wkContext k) c, r).

Definition flags (n : Node) : Flags :=
  mkFlags (psStatus <$> Pending n) (InTrx n) (cfDisableReplayOpts cfg) (cfForceAllChecks cfg) (cfValidationMode cfg) (TrustedLight n).

Definition Now : M Node Z := n ← get; _ ← modify (set_ticks (S (ticks n))); mret (clock (ticks n)).

Definition pending : M Node (PendingState ActionReceipt) :=
  n ← get; lift (match Pending n with Some p => Ok p | None => Throw NilDereference end).
Definition pending_block : M Node BlockState :=
  p ← pending; lift (match PendingBlock p with Some b => Ok b | None => Throw NilDereference end).
Definition pending_time : M Node Z :=
  n ← get;
  _ ← assertM (match Pending n with Some _ => true | None => false end) BlockValidateException;
  b ← pending_block; mret (Time.ToTimePoint (Timestamp (hdr (ForkDatabase.bhs b)))).
Definition on_pending (f : PendingState ActionReceipt -> PendingState ActionReceipt) : M Node unit :=
  modify (fun n => set_Pending (f <$> Pending n) n).
Definition set_PendingBlock (b : BlockState) (p : PendingState ActionReceipt) : PendingState ActionReceipt :=
  mkPending (psSession p) (Some b) (psActions p) (psStatus p) (ProducerBlockId p) (PendingValid p).
Definition on_block (f : BlockState -> BlockState) : M Node unit :=
  on_pending (fun p => match PendingBlock p with Some b => set_PendingBlock (f b) p | None => p end).
Definition set_PendingValid (v : bool) (p : PendingState ActionReceipt) : PendingState ActionReceipt :=
  mkPending (psSession p) (PendingBlock p) (psActions p) (psStatus p) (ProducerBlockId p) v.
Definition add_actions (l : list ActionReceipt) (p : PendingState ActionReceipt) : PendingState ActionReceipt :=
  mkPending (psSession p) (PendingBlock p) (psActions p ++ l) (psStatus p) (ProducerBlockId p) (PendingValid p).

(** *** Sessions *)

Definition in_db {A} (m : M (LDataBase D) A) : M Node A := fun n => let '(d, r) := m (DB n) in (set_DB d n, r).

(** A session is opened unless sessions are skipped. *)
Definition start_session (live : bool) : M Node unit := if live then _ ← in_db Database.StartSession; mret tt else mret tt.
(** The end of a session that was opened. *)
Definition close_session (live : bool) (how : M (LDataBase D) unit) : M Node unit := if live then in_db how else mret tt.

(** *** Abort *)

(** [c.Pending = c.Pending.Reset()]: without a session the receiver of [Undo] is nil. *)
Definition Reset : M Node unit :=
  p ← pending;
  match psSession p with
  | None => lift (Throw NilDereference)
  | Some live => _ ← close_session live Database.Undo_; modify (set_Pending None)
  end.

Definition add_unapplied (l : list TransactionMetadata) (n : Node) : Node :=
  set_Unapplied (foldl (fun m t => <[SignedID t := t]> m) (UnappliedTransactions n) l) n.
Definition drop_unapplied (t : TransactionMetadata) (n : Node) : Node := set_Unapplied (delete (SignedID t) (UnappliedTransactions n)) n.

Definition AbortBlock : M Node unit :=
  n ← get;
  match Pending n with
  | None => mret tt
  | Some p =>
      _ ← (if bool_decide (ReadMode cfg = SPECULATIVE)
           then match PendingBlock p with Some b => modify (add_unapplied (ForkDatabase.Trxs b)) | None => mret tt end
           else mret tt);
      Reset
  end.

(** The deferred function of [startBlock] and [CommitBlock]. *)
Definition reset_if_valid : M Node unit :=
  n ← get; match Pending n with Some p => if PendingValid p then Reset else mret tt | None => mret tt end.

(** *** Transactions *)

Record Trace : Type := mkTrace { trReceipt : TransactionReceiptHeader; trExcept : option exn }.

(** The session is open before the extensions are looked at. *)
Definition new_context (t : Transaction) (start : Z) : M Node TransactionContext :=
  n ← get;
  _ ← start_session (negb (SkipDbSessions (flags n)));
  _ ← pending_block;
  lift (NewTransactionContext t start).

Definition prepare (leeway deadLine billed : Z) (explicit : bool) (t : TransactionContext) : TransactionContext :=
  mkTransactionContext (Start t) (tcPublished t) (BillToAccounts t) (tcValidateRamUsage t) (Delay t) (IsInput t) (ApplyContextFree t) deadLine leeway
    billed explicit (isInitialized t) (net t) (timer t).
Definition set_Delay (d : Z) (t : TransactionContext) : TransactionContext :=
  mkTransactionContext (Start t) (tcPublished t) (BillToAccounts t) (tcValidateRamUsage t) d (IsInput t) (ApplyContextFree t) (Deadline t) (Leeway t)
    (BilledCpuTimeUs t) (ExplicitBilledCpuTime t) (isInitialized t) (net t) (timer t).
Definition on_context (f : TransactionContext -> TransactionContext) : M Work unit := modify (fun k => mkWork (wkWorld k) (f (wkContext k)) (wkKeys k)).

Definition in_trx {A} (t : TransactionContext) (m : M Work A) : M Node (TransactionContext * result A) := fun n =>
  let '(k, r) := m (mkWork (load (DB n)) t (keyCache n)) in (set_keyCache (wkKeys k) (on_world (fun _ => wkWorld k) n), Ok (wkContext k, r)).

Definition pushReceipt (trx : TransactionWithID) (status : TransactionStatus) (cpuUsageUs netUsage : Z) : M Node TransactionReceiptHeader :=
  let netUsageWords := netUsage / 8 in
  _ ← assertM (u64 (netUsageWords * 8) =? netUsage) TransactionException;
  let h := mkReceiptHeader status (u32 cpuUsageUs) (u32 netUsageWords) in
  _ ← pending_block;
  _ ← on_block (fun b => let s := ForkDatabase.Block b in
        ForkDatabase.mkBlockState (ForkDatabase.bhs b)
          (ForkDatabase.mkSignedBlock (ForkDatabase.sbHeader s) (ForkDatabase.Transactions s ++ [mkReceipt h trx]) (ForkDatabase.BlockExtensions s))
          (ForkDatabase.Validated b) (ForkDatabase.InCurrentChain b) (ForkDatabase.Trxs b));
  mret h.

Definition add_trx (t : TransactionMetadata) (b : BlockState) : BlockState :=
  ForkDatabase.mkBlockState (ForkDatabase.bhs b) (ForkDatabase.Block b) (ForkDatabase.Validated b) (ForkDatabase.InCurrentChain b) (ForkDatabase.Trxs b ++ [t]).

Definition authorize (s : Perms) (actions : list Action) (keys : list PublicKey) (delay : Z) : result unit :=
  (CheckAuthorization decodeUpdateAuth decodeDeleteAuth decodeLinkAuth decodeUnLinkAuth decodeCancelDelay (fun _ => Ok tt) range
     s actions keys [] delay false 0%nat).2.

(** What [pushTransaction] does with the database. *)
Definition run_transaction (f : Flags) (trx : TransactionMetadata) (skipRecording : bool) (now1 now2 : Z) : M Work (list ActionReceipt) :=
  let t := sTransaction (tmTrx trx) in
  _ ← (if Implicit trx then on_state (fun w => InitForImplicitTrx (wConfig w) f (ResourceGreylist cfg) t 0 now1)
       else
         unprunable ← lift (GetUnprunableSize (tmPacked trx));
         prunable ← lift (GetPrunableSize (tmPacked trx));
         on_state (fun w => InitForInputTrx (wConfig w) f (ResourceGreylist cfg) (wSummaries w) t (tmID trx) unprunable prunable skipRecording now1));
  k ← get;
  _ ← (if negb (Implicit trx) && IsProducingBlock f then lift (CheckActorList (cfLists cfg) (BillToAccounts (wkContext k))) else mret tt);
  _ ← on_context (set_Delay (Seconds (DelaySec (trxHeader t))));
  _ ← (if negb (SkipAuthCheck f) && negb (Implicit trx) then
         keys ← in_keys (RecoverKeys publicKey (ChainID cfg) trx);
         k ← get;
         lift (authorize (perms (wChain (wkWorld k))) (Actions t) keys (Delay (wkContext k)))
       else mret tt);
  executed ← exec t;
  _ ← on_state (fun w => Finalize (wConfig w) f (ResourceGreylist cfg) t now2);
  mret executed.

(** Up to the end of the session. *)
Definition push_inner (trx : TransactionMetadata) (t : TransactionContext) : M Node Trace :=
  now1 ← Now;
  now2 ← Now;
  n ← get;
  let skipRecording := negb (ReplayHeadTime n =? 0) && (TimePointSec.ToTimePoint (Expiration (trxHeader (sTransaction (tmTrx trx)))) <=? ReplayHeadTime n) in
  r ← in_trx t (run_transaction (flags n) trx skipRecording now1 now2);
  let '(t, r) := r in
  executed ← lift r;
  h ← (if Implicit trx then mret (mkReceiptHeader TransactionStatusExecuted (u32 (BilledCpuTimeUs t)) (u32 (netUsage (net t) / 8)))
       else
         let s := if Delay t =? 0 then TransactionStatusExecuted else TransactionStatusDelayed in
         h ← pushReceipt (mkWithID (Some (tmPacked trx)) NewSha256Nil) s (u64 (BilledCpuTimeUs t)) (netUsage (net t));
         _ ← on_block (add_trx trx);
         mret h);
  _ ← on_pending (add_actions executed);
  mret (mkTrace h None).

Definition empty_receipt : TransactionReceiptHeader := mkReceiptHeader TransactionStatusExecuted 0 0.

Definition pushTransaction (trx : TransactionMetadata) (deadLine billedCpuTimeUs : Z) (explicitBilledCpuTime : bool) : M Node Trace :=
  _ ← assertM (negb (deadLine =? 0)) TransactionException;
  start ← Now;
  n ← get;
  let live := negb (SkipDbSessions (flags n)) in
  t ← new_context (sTransaction (tmTrx trx)) start;
  let producing := IsProducingBlock (flags n) in
  let leeway := if negb (SubjectiveCpuLeeway cfg =? 0) && producing then SubjectiveCpuLeeway cfg else Leeway t in
  r ← attempt (push_inner trx (prepare leeway deadLine billedCpuTimeUs explicitBilledCpuTime t));
  match r with
  | Ok tr =>
      _ ← close_session live (if negb (bool_decide (ReadMode cfg = SPECULATIVE)) && producing then Database.Undo_ else Database.Squash);
      _ ← (if Implicit trx then mret tt else modify (drop_unapplied trx));
      mret tr
  | Throw e =>
      _ ← close_session live Database.Undo_;
      if caught e then
        _ ← (if failureIsSubjective e then mret tt else modify (drop_unapplied trx));
        mret (mkTrace empty_receipt (Some e))
      else lift (Throw e)
  end.

Definition PushTransaction (trx : option TransactionMetadata) (deadLine billedCpuTimeUs : Z) : M Node Trace :=
  _ ← assertM (negb (bool_decide (ReadMode cfg = READONLY))) TransactionTypeException;
  match trx with
  | Some t =>
      _ ← assertM (negb (Implicit t) && negb (Scheduled t)) TransactionTypeException;
      pushTransaction t deadLine billedCpuTimeUs (0 <? billedCpuTimeUs)
  | None => lift (Throw TransactionTypeException)
  end.

(** *** Deferred transactions *)

Definition in_chain {A} (m : M Chain A) : M Node A := fun n =>
  let w := load (DB n) in let '(c, r) := m (wChain w) in (on_world (set_wChain c) n, r).

(** [Find("byTrxId", ...)], with the packed bytes.  That a transaction is not there is
    logged only: the object it was sought with, of id 0 and otherwise empty, is taken. *)
Definition find_scheduled (id : Sha256) (w : World) : Generated * bytes :=
  match list_find (fun g => genTrxId g = id) (map_to_list (generated (perms (wChain w)))).*2 with
  | Some (_, g) => (g, packed_generated w (genID g))
  | None => (mkGenerated 0 id 0 (mkUint128 0 0) 0 0 0 0 0 [], [])
  end.

Definition RemoveScheduledTransaction (gto : Generated) : M Chain unit :=
  _ ← in_resources (ResourceLimits.AddPendingRamUsage (genPayer gto) (i64 (9 + PackedSize gto)));
  in_perms (remove_generated gto).

(** A transaction the node makes itself: one action, which refers to the head block. *)
Definition implicit_transaction (a : Action) (blockId : Sha256) (pendingTime : Z) : Transaction :=
  let h := SetReferenceBlock blockId (mkTransactionHeader 0 0 0 0 0 0) in
  mkTransaction (mkTransactionHeader (TimePointSec.NewTimePointSecTp (TimePoint.AddUs pendingTime 999999)) (RefBlockNum h) (RefBlockPrefix h)
    (MaxNetUsageWords h) (MaxCpuUsageMS h) (DelaySec h)) [] [a] [].

Definition onerror_action (gtrx : Generated) (packed : bytes) : Action :=
  mkAction SystemAccountName (named "onerror") [mkPermissionLevel (genSender gtrx) ActiveName]
    (encoded (VPtr (Some (VStruct [(NoTag, VStruct [(NoTag, VUint64 (Low (genSenderId gtrx))); (NoTag, VUint64 (High (genSenderId gtrx)))]); (NoTag, g_bytes packed)])))).

(** The end of the function that ran a transaction in its own session: the session stays
    for a result and is undone for a failure. *)
Definition or_undo {A} (live : bool) (m : M Node A) : M Node (result A) :=
  r ← attempt m;
  match r with
  | Ok a => _ ← close_session live Database.Squash; mret (Ok a)
  | Throw e => _ ← close_session live Database.Undo_; if caught e then mret (Throw e) else lift (Throw e)
  end.

(** The time that [applyOnerror] is handed to bill is a pointer that it overwrites, so the
    caller does not see the time of the failed handler. *)
Definition applyOnerror (gtrx : Generated) (packed : bytes) (deadline start billedCpuTimeUs : Z) (explicitBilledCpuTime : bool) : M Node Trace :=
  now ← pending_time;
  n ← get;
  let action := onerror_action gtrx packed in
  let etrx := implicit_transaction action (ForkDatabase.bsId (head n)) now in
  _ ← lift (ID etrx);
  let live := negb (SkipDbSessions (flags n)) in
  t ← new_context etrx start;
  now1 ← Now;
  now2 ← Now;
  n ← get;
  r ← or_undo live (
    r ← in_trx (prepare (Leeway t) deadline billedCpuTimeUs explicitBilledCpuTime t) (
      _ ← on_state (fun w => InitForImplicitTrx (wConfig w) (flags n) (ResourceGreylist cfg) etrx 0 now1);
      _ ← on_context (fun t => set_kind (Published gtrx) (IsInput t) (ApplyContextFree t) t);
      _ ← dispatch action (genSender gtrx);
      on_state (fun w => Finalize (wConfig w) (flags n) (ResourceGreylist cfg) etrx now2));
    let '(t, r) := r in
    _ ← lift r;
    pushReceipt (mkWithID None (genTrxId gtrx)) TransactionStatusSoftFail (u64 (BilledCpuTimeUs t)) (netUsage (net t)));
  mret (match r with Ok h => mkTrace h None | Throw e => mkTrace empty_receipt (Some e) end).

(** What a failed deferred transaction is billed when the block does not say. *)
Definition hard_fail_cpu (f : Flags) (t : TransactionContext) (timeSlot cpuTimeToBillUs : Z) : M Chain Z :=
  _ ← in_resources (ResourceLimits.UpdateAccountUsage (BillToAccounts t) timeSlot);
  r ← in_resources (max_bandwidth f (ResourceGreylist cfg) true (BillToAccounts t) (largeNumberNoOverflow, largeNumberNoOverflow, false, false));
  let '(_, accountCpuLimit, _, _) := r in
  let tmp := if cpuTimeToBillUs <? u32 accountCpuLimit then cpuTimeToBillUs else u32 accountCpuLimit in
  mret (if tmp <? u32 (objectiveDurationLimit (timer t)) then tmp else cpuTimeToBillUs).

(** After the failure [e] of a deferred transaction: the trace, and whether what happened
    stays. *)
Definition failed_scheduled (gtrx : Generated) (packed : bytes) (deadLine billedCpuTimeUs cpuTimeToBillUs : Z) (explicitBilledCpuTime : bool)
    (t : TransactionContext) (e : exn) : M Node (Trace * bool) :=
  tr ← (if negb (failureIsSubjective e) && negb (genSender gtrx =? 0)
        then applyOnerror gtrx packed deadLine (pseudoStart (timer t)) billedCpuTimeUs explicitBilledCpuTime
        else mret (mkTrace empty_receipt (Some e)));
  match trExcept tr with
  | None => mret (tr, true)
  | Some e =>
      if if explicitBilledCpuTime then failureIsSubjective e else scheduledFailureIsSubjective e then mret (tr, false)
      else
        now ← pending_time;
        n ← get;
        let timeSlot := NewBlockTimeStamp now in
        cpu ← (if explicitBilledCpuTime then mret cpuTimeToBillUs else in_chain (hard_fail_cpu (flags n) t timeSlot cpuTimeToBillUs));
        _ ← in_chain (in_resources (ResourceLimits.AddTransactionUsage (BillToAccounts t) cpu 0 timeSlot));
        h ← pushReceipt (mkWithID None (genTrxId gtrx)) TransactionStatusHardFail cpu 0;
        mret (mkTrace h (Some e), true)
  end.

Definition execute_scheduled (gtrx : Generated) (packed : bytes) (dtrx : SignedTransaction) (deadLine billedCpuTimeUs : Z) (explicitBilledCpuTime : bool) :
    M Node (Trace * bool) :=
  start ← Now;
  n ← get;
  let live := negb (SkipDbSessions (flags n)) in
  let trx := sTransaction dtrx in
  t ← new_context trx start;
  now1 ← Now;
  now2 ← Now;
  n ← get;
  r ← in_trx (prepare 0 deadLine billedCpuTimeUs explicitBilledCpuTime t) (
    _ ← on_state (fun w => InitForDeferredTrx (wConfig w) (flags n) (ResourceGreylist cfg) trx (Published gtrx) now1);
    executed ← exec trx;
    _ ← on_state (fun w => Finalize (wConfig w) (flags n) (ResourceGreylist cfg) trx now2);
    mret executed);
  let '(t, r) := r in
  n ← get;
  now3 ← Now;
  let cpuTimeToBillUs := u32 (BilledCpuTimeUs (UpdateBilledCpuTime (wConfig (load (DB n))) now3 t)) in
  r ← or_undo live (
    executed ← lift r;
    h ← pushReceipt (mkWithID None (genTrxId gtrx)) TransactionStatusExecuted (u64 (BilledCpuTimeUs t)) (netUsage (net t));
    _ ← on_pending (add_actions executed);
    mret h);
  match r with
  | Ok h => mret (mkTrace h None, true)
  | Throw e => failed_scheduled gtrx packed deadLine billedCpuTimeUs cpuTimeToBillUs explicitBilledCpuTime t e
  end.

Definition pushScheduledTransactionByObject (gto : Generated) (packed : bytes) (deadLine billedCpuTimeUs : Z) (explicitBilledCpuTime : bool) : M Node Trace :=
  n ← get;
  let live := negb (SkipDbSessions (flags n)) in
  _ ← start_session live;
  r ← attempt (
    _ ← in_chain (RemoveScheduledTransaction gto);
    now ← pending_time;
    _ ← assertM (DelayUntil gto <=? now) TransactionException;
    let dtrx := decode_signed packed in
    _ ← lift (NewTransactionMetadataBySignedTrx dtrx 0);
    if genExpiration gto <? now then
      h ← pushReceipt (mkWithID None (genTrxId gto)) TransactionStatusExpired billedCpuTimeUs 0;
      mret (mkTrace h None, true)
    else
      inTrx ← get;
      _ ← modify (set_InTrx true);
      finally (execute_scheduled gto packed dtrx deadLine billedCpuTimeUs explicitBilledCpuTime) (modify (set_InTrx (InTrx inTrx))));
  match r with
  | Ok (tr, keep) => _ ← close_session live (if keep : bool then Database.Squash else Database.Undo_); mret tr
  | Throw e => _ ← close_session live Database.Undo_; lift (Throw e)
  end.

Definition PushScheduledTransaction (trxId : Sha256) (deadLine billedCpuTimeUs : Z) : M Node Trace :=
  n ← get;
  let '(gto, packed) := find_scheduled trxId (load (DB n)) in
  pushScheduledTransactionByObject gto packed deadLine billedCpuTimeUs (0 <? billedCpuTimeUs).

(** The index [byDelay] starts with the id ([DbIndex.expiration_index_by_id]), and so the
    transactions come in the order of their ids. *)
Definition id_le (a b : Generated) : Prop := genID a <= genID b.
#[local] Instance id_le_dec a b : Decision (id_le a b).
Proof. unfold id_le. apply _. Defined.
Definition GetScheduledTransactions : M Node (list Sha256) :=
  n ← get;
  match merge_sort id_le (map_to_list (generated (perms (wChain (load (DB n)))))).*2 with
  | [] => mret []
  | l => now ← pending_time; mret (map genTrxId (filter (fun g => DelayUntil g <= now) l))
  end.

(** *** The start of a block *)

Definition GetOnBlockTransaction : M Node SignedTransaction :=
  n ← get;
  now ← pending_time;
  let h := ForkDatabase.bhs (head n) in
  let action := mkAction SystemAccountName (named "onblock") [mkPermissionLevel SystemAccountName ActiveName] (encoded (VPtr (Some (gval_BlockHeader (hdr h))))) in
  mret (mkSignedTransaction (implicit_transaction action (BlockId h) now) [] []).

Definition as_implicit (t : TransactionMetadata) : TransactionMetadata :=
  mkMetadata (tmID t) (SignedID t) (tmTrx t) (tmPacked t) (SigningKeys t) (Accepted t) true (Scheduled t).

Definition in_header {A} (m : M BlockHeaderState A) : M Node A :=
  b ← pending_block;
  let '(h, r) := m (ForkDatabase.bhs b) in
  _ ← on_block (ForkDatabase.set_bhs h);
  lift r.

(** The proposed schedule becomes the pending one once its block is irreversible. *)
Definition promote_proposed (wasPendingPromoted : bool) : M Node unit :=
  n ← get;
  b ← pending_block;
  let gpo := wProposal (load (DB n)) in
  if negb (ProposedScheduleBlockNum gpo =? 0) && (ProposedScheduleBlockNum gpo <=? ForkDatabase.bsDpos b) &&
     (len (Producers (PendingSchedule (ForkDatabase.bhs b))) =? 0) && negb wasPendingPromoted then
    _ ← in_header (SetNewProducers (mkProducerScheduleType (ProposedVersion gpo) (ProposedProducers gpo)));
    modify (on_world (set_wProposal (mkProposal 0 0 [])))
  else mret tt.

Definition push_onblock : M Node unit :=
  n ← get;
  signedTransaction ← GetOnBlockTransaction;
  onbtrx ← lift (NewTransactionMetadataBySignedTrx signedTransaction 0);
  _ ← modify (set_InTrx true);
  finally (_ ← pushTransaction (as_implicit onbtrx) MaxMicroseconds (MinTransactionCpuUsage (wConfig (load (DB n)))) true; mret tt)
    (modify (set_InTrx (InTrx n))).

(** What the handlers see of the pending block. *)
Definition publish (now : Z) (producing : bool) (c : Chain) : Chain :=
  let c := set_perms (set_block_time now (perms c)) c in
  mkChain (perms c) (accounts c) (nextAccount c) (sequences c) (nextSequence c) (resources c) producing (KeyBlacklist c).

Definition open_pending (s : BlockStatus) (producerBlockId : Sha256) : M Node unit :=
  n ← get;
  if SkipDbSession (flags n) s then modify (set_Pending (Some (mkPending None None [] s producerBlockId true)))
  else
    _ ← assertM (u32 (Database.Revision (DB n)) =? ForkDatabase.bsNum (head n)) DatabaseException;
    _ ← start_session true;
    modify (set_Pending (Some (mkPending (Some true) None [] s producerBlockId true))).

Definition prepare_block (when confirmBlockCount : Z) (s : BlockStatus) : M Node unit :=
  n ← get;
  b ← lift (ForkDatabase.NewBlockState2 (ForkDatabase.bhs (head n)) when);
  _ ← on_pending (set_PendingBlock (ForkDatabase.set_InCurrentChain true b));
  now ← pending_time;
  _ ← in_chain (modify (publish now (bool_decide (s = Incomplete))));
  _ ← in_header (modify (SetConfirmed confirmBlockCount));
  wasPendingPromoted ← in_header (fun h => let '(h, p) := MaybePromotePending h in (h, Ok p));
  _ ← (if bool_decide (ReadMode cfg = SPECULATIVE) || negb (bool_decide (s = Incomplete)) then
         _ ← promote_proposed wasPendingPromoted;
         _ ← push_onblock;
         _ ← modify (on_world (fun w => set_wSeen (clearExpiredInputTransactions now (wSeen w)) w));
         b ← pending_block;
         in_chain (updateProducersAuthority (map ProducerName (Producers (ActiveSchedule (ForkDatabase.bhs b)))))
       else mret tt);
  on_pending (set_PendingValid false).

Definition startBlock (when confirmBlockCount : Z) (s : BlockStatus) (producerBlockId : Sha256) : M Node unit :=
  n ← get;
  _ ← assertM (match Pending n with None => true | Some _ => false end) BlockValidateException;
  finally (_ ← open_pending s producerBlockId; prepare_block when confirmBlockCount s) reset_if_valid.

Definition StartBlock (when confirmBlockCount : Z) : M Node unit := startBlock when confirmBlockCount Incomplete NewSha256Nil.

(** *** The end of a block *)

Definition setActionMerkle : M Node unit :=
  p ← pending;
  root ← lift (Merkle (map action_digest (psActions p)));
  in_header (modify (fun h => set_Header (set_roots (TransactionMRoot (hdr h)) root (Header h)) h)).

Definition setTrxMerkle : M Node unit :=
  b ← pending_block;
  digests ← lift (mapM receipt_Digest (ForkDatabase.Transactions (ForkDatabase.Block b)));
  root ← lift (Merkle digests);
  in_header (modify (fun h => set_Header (set_roots root (ActionMRoot (hdr h)) (Header h)) h)).

Definition elastic_parameters (max pct : Z) : ResourceLimits.ElasticLimitParameters :=
  ResourceLimits.mkElastic (ResourceLimits.EosPercent max pct) max (60 * 1000 / u32 BlockIntervalMs) 1000 (ResourceLimits.mkRatio 99 100) (ResourceLimits.mkRatio 1000 999).

Definition FinalizeBlock : M Node unit :=
  n ← get;
  _ ← assertM (match Pending n with Some _ => true | None => false end) BlockValidateException;
  _ ← in_chain (in_resources ResourceLimits.ProcessAccountLimitUpdates);
  let c := wConfig (load (DB n)) in
  _ ← in_chain (in_resources (ResourceLimits.SetBlockParameters (elastic_parameters (MaxBlockCpuUsage c) (TargetBlockCpuUsagePct c))
                                (elastic_parameters (MaxBlockNetUsage c) (TargetBlockNetUsagePct c))));
  b ← pending_block;
  _ ← in_chain (in_resources (ResourceLimits.ProcessBlockUsage (ForkDatabase.bsNum b)));
  _ ← setActionMerkle;
  _ ← setTrxMerkle;
  b ← pending_block;
  id ← lift (BlockID (hdr (ForkDatabase.bhs b)));
  _ ← in_header (modify (set_BlockId id));
  n ← get;
  s ← lift (createBlockSummary id (wSummaries (load (DB n))));
  modify (on_world (set_wSummaries s)).

Definition set_block_header (h : SignedBlockHeader) (b : BlockState) : BlockState :=
  let s := ForkDatabase.Block b in
  ForkDatabase.mkBlockState (ForkDatabase.bhs b) (ForkDatabase.mkSignedBlock h (ForkDatabase.Transactions s) (ForkDatabase.BlockExtensions s))
    (ForkDatabase.Validated b) (ForkDatabase.InCurrentChain b) (ForkDatabase.Trxs b).

Definition SignBlock (signerCallback : Sha256 -> Signature) : M Node unit :=
  _ ← in_header (Sign publicKey signerCallback);
  on_block (fun b => set_block_header (Header (ForkDatabase.bhs b)) b).

(** *** Irreversible blocks *)

(** The block log: the index file has eight bytes for each block of the log. *)
Definition log_Append (block : SignedBlock) (l : list SignedBlock) : result (list SignedBlock) :=
  let indexPos := 8 * len l in
  _ ← EosAssert (indexPos =? u32 (8 * u32 (BlockNumber (Embedded (ForkDatabase.sbHeader block)) - 1))) BlockLogAppendFail;
  Ok (l ++ [block]).

Definition ReadBlockByNum (blockNum : Z) (l : list SignedBlock) : result (option SignedBlock) :=
  match last l with
  | None => Ok None
  | Some h =>
      headId ← BlockID (Embedded (ForkDatabase.sbHeader h));
      if (blockNum <=? NumFromID headId) && (0 <? blockNum) then
        match l !! Z.to_nat (blockNum - 1) with
        | None => Throw NilDereference
        | Some block => _ ← EosAssert (BlockNumber (Embedded (ForkDatabase.sbHeader block)) =? blockNum) ReversibleBlocksException; Ok (Some block)
        end
      else Ok None
  end.

Definition OnIrreversible (s : BlockState) : M Node unit :=
  n ← get;
  match last (Blog n) with
  | None => lift (Throw BlockLogException)
  | Some logHead =>
      let lhBlockNum := BlockNumber (Embedded (ForkDatabase.sbHeader logHead)) in
      let num := ForkDatabase.bsNum s in
      _ ← in_db (Database.Commit num);
      if num <=? lhBlockNum then mret tt
      else
        _ ← assertM (u32 (num - 1) =? lhBlockNum) UnlinkableBlockException;
        id ← lift (BlockID (Embedded (ForkDatabase.sbHeader logHead)));
        _ ← assertM (bool_decide (Previous (Embedded (ForkDatabase.sbHeader (ForkDatabase.Block s))) = id)) UnlinkableBlockException;
        log ← lift (log_Append (ForkDatabase.Block s) (Blog n));
        _ ← modify (set_Blog log);
        modify (fun n => set_Reversible (filter (fun kv => num < kv.1) (ReversibleBlocks n)) n)
  end.

Fixpoint on_irreversible (l : list ptr) : M Node unit :=
  match l with
  | [] => mret tt
  | p :: l' => n ← get; _ ← OnIrreversible (ForkDatabase.heap (ForkDB n) p); on_irreversible l'
  end.

(** An operation on the fork database, then [OnIrreversible] for what it has emitted. *)
Definition in_fork {A} (m : M ForkDb A) : M Node A :=
  n ← get;
  let '(f, r) := m (ForkDB n) in
  _ ← modify (set_ForkDB f);
  _ ← on_irreversible (drop (length (ForkDatabase.Irreversible (ForkDB n))) (ForkDatabase.Irreversible f));
  lift r.

(** *** Commit *)

(** The pending block state becomes an object of the fork database; a block that is there
    under its number stays ([Insert] fails, which the source drops). *)
Definition CommitBlock (addToForkDb : bool) : M Node unit :=
  finally (
    _ ← try_catch (
      _ ← (if addToForkDb then
             _ ← pending_block;
             _ ← on_block (ForkDatabase.set_Validated true);
             b ← pending_block;
             n ← get;
             let p := nextBlock n in
             _ ← modify (set_nextBlock (Pos.succ p));
             newBsp ← in_fork (_ ← modify (ForkDatabase.store p b); ForkDatabase.AddBlockState p);
             n ← get;
             match ForkDatabase.Head (ForkDB n) with
             | None => lift (Throw ForkDatabaseException)
             | Some h => _ ← modify (set_HeadBlock h); assertM (bool_decide (newBsp = h)) ForkDatabaseException
             end
           else mret tt);
      n ← get;
      if RePlaying n then mret tt
      else
        b ← pending_block;
        let num := ForkDatabase.bsNum b in
        modify (fun n => match ReversibleBlocks n !! num with
                         | Some _ => n
                         | None => set_Reversible (<[num := ForkDatabase.Block b]> (ReversibleBlocks n)) n
                         end))
      (fun e => _ ← on_pending (set_PendingValid true); _ ← AbortBlock; lift (Throw e));
    _ ← pending;
    on_pending (fun p => mkPending ((fun _ => false) <$> psSession p) (PendingBlock p) (psActions p) (psStatus p) (ProducerBlockId p) true))
  reset_if_valid.

(** *** Application *)

(** Of a transaction without anything the unpacked one is looked at. *)
Definition packed_IsEmpty (p : PackedTransaction) : result bool :=
  if (len (ptSignatures p) =? 0) && (Compression p =? 0) && (len (PackedContextFreeData p) =? 0) && (len (PackedTrx p) =? 0) then
    match UnpackedTrx p with None => Throw NilDereference | Some t => Ok (header_IsEmpty (trxHeader t)) end
  else Ok false.

Definition pending_receipts : M Node (list TransactionReceipt) := b ← pending_block; mret (ForkDatabase.Transactions (ForkDatabase.Block b)).

(** The transaction of a receipt, as the producer says it went. *)
Definition replay_receipt (receipt : TransactionReceipt) : M Node Trace :=
  let trx := rTrx receipt in
  let cpu := CpuUsageUs (rHeader receipt) in
  packed ← lift (match wiPacked trx with Some p => e ← packed_IsEmpty p; Ok (if e : bool then None else Some p) | None => Ok None end);
  match packed with
  | Some pt => mtrx ← lift (NewTransactionMetadata pt); pushTransaction mtrx MaxMicroseconds cpu true
  | None =>
      if negb (Sha256.IsEmpty (wiID trx)) then PushScheduledTransaction (wiID trx) MaxMicroseconds cpu
      else lift (Throw BlockValidateException)
  end.

Definition apply_receipt (receipt : TransactionReceipt) : M Node unit :=
  before ← pending_receipts;
  trace ← replay_receipt receipt;
  let transactionCanFail := bool_decide (Status (rHeader receipt) = TransactionStatusHardFail) && match wiPacked (rTrx receipt) with None => true | Some _ => false end in
  _ ← (match trExcept trace with Some e => if transactionCanFail then mret tt else lift (Throw e) | None => mret tt end);
  after ← pending_receipts;
  _ ← assertM (0 <? len after) BlockValidateException;
  _ ← assertM (len after =? len before + 1) BlockValidateException;
  match last after with
  | Some trxReceipt => assertM (bool_decide (rHeader trxReceipt = rHeader receipt)) BlockValidateException
  | None => mret tt
  end.

Fixpoint apply_receipts (l : list TransactionReceipt) : M Node unit :=
  match l with [] => mret tt | r :: l' => _ ← apply_receipt r; apply_receipts l' end.

Definition apply_body (b : SignedBlock) (s : BlockStatus) : M Node unit :=
  let h := ForkDatabase.sbHeader b in
  _ ← assertM (len (ForkDatabase.BlockExtensions b) =? 0) BlockValidateException;
  producerBlockId ← lift (BlockID (Embedded h));
  _ ← startBlock (Timestamp (Embedded h)) (Confirmed (Embedded h)) s producerBlockId;
  _ ← apply_receipts (ForkDatabase.Transactions b);
  _ ← FinalizeBlock;
  p ← pending_block;
  id ← lift (BlockID (hdr (ForkDatabase.bhs p)));
  _ ← assertM (bool_decide (producerBlockId = id)) BlockValidateException;
  _ ← in_header (modify (fun x => set_Header (set_Signature (ProducerSignature h) (Header x)) x));
  CommitBlock false.

Definition applyBlock (b : SignedBlock) (s : BlockStatus) : M Node unit := try_catch (apply_body b s) (fun e => _ ← AbortBlock; lift (Throw e)).

(** *** Forks *)

Definition signed_block_IsEmpty (s : SignedBlock) : bool :=
  (len (ForkDatabase.Transactions s) =? 0) && (len (ForkDatabase.BlockExtensions s) =? 0) && Signed_IsEmpty (ForkDatabase.sbHeader s).
Definition block_state_IsEmpty (b : BlockState) : bool :=
  signed_block_IsEmpty (ForkDatabase.Block b) && negb (ForkDatabase.Validated b) && negb (ForkDatabase.InCurrentChain b) && (len (ForkDatabase.Trxs b) =? 0).

Definition PopBlock : M Node unit :=
  n ← get;
  let h := head n in
  match ForkDatabase.GetBlock (ForkDatabase.bsPrevious h) (ForkDB n) with
  | None => lift (Throw BlockValidateException)
  | Some prev =>
      _ ← assertM (negb (block_state_IsEmpty (ForkDatabase.heap (ForkDB n) prev))) BlockValidateException;
      _ ← modify (fun n => set_Reversible (delete (ForkDatabase.bsNum h) (ReversibleBlocks n)) n);
      _ ← (if bool_decide (ReadMode cfg = SPECULATIVE) then modify (add_unapplied (ForkDatabase.Trxs h)) else mret tt);
      _ ← modify (set_HeadBlock prev);
      in_db Database.Undo_
  end.

Definition is_previous (branch : list ptr) : M Node unit :=
  n ← get;
  match last branch with
  | None => lift (Throw IndexOutOfRange)
  | Some p => assertM (bool_decide (ForkDatabase.bsId (head n) = ForkDatabase.bsPrevious (ForkDatabase.heap (ForkDB n) p))) ForkDatabaseException
  end.

(** Newest first. *)
Fixpoint pop_branch (l : list ptr) : M Node unit :=
  match l with [] => mret tt | p :: l' => _ ← in_fork (ForkDatabase.MarkInCurrentChain p false); _ ← PopBlock; pop_branch l' end.

Definition apply_at (p : ptr) (s : BlockState -> BlockStatus) : M Node unit :=
  n ← get;
  let b := ForkDatabase.heap (ForkDB n) p in
  _ ← applyBlock (ForkDatabase.Block b) (s b);
  _ ← modify (set_HeadBlock p);
  in_fork (ForkDatabase.MarkInCurrentChain p true).

(** Oldest first. *)
Fixpoint apply_again (l : list ptr) : M Node unit :=
  match l with [] => mret tt | p :: l' => _ ← apply_at p (fun _ => Controller.Validated); apply_again l' end.

(** The blocks of the new branch, oldest first; [done] are those applied, newest first.
    When one fails they go, and the old branch [second] is applied again. *)
Fixpoint apply_branch (todo done second : list ptr) : M Node unit :=
  match todo with
  | [] => mret tt
  | p :: todo' =>
      r ← attempt (apply_at p (fun b => if ForkDatabase.Validated b then Controller.Validated else Complete));
      match r with
      | Ok _ => apply_branch todo' (p :: done) second
      | Throw e =>
          if caught e then
            _ ← in_fork (ForkDatabase.SetValidity p false);
            _ ← pop_branch done;
            _ ← is_previous second;
            _ ← apply_again (rev second);
            lift (Throw e)
          else lift (Throw e)
      end
  end.

Definition maybeSwitchForks (s : BlockStatus) : M Node unit :=
  n ← get;
  match ForkDatabase.Head (ForkDB n) with
  | None => lift (Throw NilDereference)
  | Some newHead =>
      let b := ForkDatabase.heap (ForkDB n) newHead in
      if bool_decide (ForkDatabase.bsPrevious b = ForkDatabase.bsId (head n)) then
        try_catch (
          _ ← applyBlock (ForkDatabase.Block b) s;
          _ ← in_fork (ForkDatabase.MarkInCurrentChain newHead true);
          _ ← in_fork (ForkDatabase.SetValidity newHead true);
          modify (set_HeadBlock newHead))
        (fun e => _ ← in_fork (ForkDatabase.SetValidity newHead false); lift (Throw e))
      else if bool_decide (ForkDatabase.bsId b <> ForkDatabase.bsId (head n)) then
        branches ← lift (ForkDatabase.FetchBranchFrom (ForkDatabase.bsId b) (ForkDatabase.bsId (head n)) (ForkDB n));
        let '(first, second) := branches in
        _ ← pop_branch second;
        _ ← is_previous second;
        apply_branch (rev first) [] second
      else mret tt
  end.

Definition no_pending : M Node unit :=
  n ← get; assertM (match Pending n with None => true | Some _ => false end) BlockValidateException.

Definition PushBlock (b : option SignedBlock) (s : BlockStatus) : M Node unit :=
  _ ← no_pending;
  finally (
    match b with
    | None => lift (Throw BlockValidateException)
    | Some block =>
        _ ← assertM (negb (bool_decide (s = Incomplete))) BlockLogException;
        let trust := negb (cfForceAllChecks cfg) && (bool_decide (s = Controller.Irreversible) || bool_decide (s = Controller.Validated)) in
        n ← get;
        _ ← modify (set_nextBlock (Pos.succ (nextBlock n)));
        _ ← in_fork (ForkDatabase.AddSignedBlock publicKey (nextBlock n) b trust);
        _ ← (if bool_decide (Producer (Embedded (ForkDatabase.sbHeader block)) ∈ TrustedProducers cfg) then modify (set_TrustedLight true) else mret tt);
        maybeSwitchForks s
    end)
  (modify (set_TrustedLight false)).

Definition PushConfirmation (hc : HeaderConfirmation) : M Node unit :=
  _ ← no_pending;
  _ ← in_fork (ForkDatabase.AddConfirmation publicKey hc);
  maybeSwitchForks Complete.

(** *** What the node reports *)

Definition LastIrreversibleBlockNum (n : Node) : Z :=
  let h := head n in if ForkDatabase.bsDpos h <? ForkDatabase.bsBft h then ForkDatabase.bsBft h else ForkDatabase.bsDpos h.

Definition ActiveProducers (n : Node) : result ProducerScheduleType :=
  match Pending n with
  | None => Ok (ActiveSchedule (ForkDatabase.bhs (head n)))
  | Some p => match PendingBlock p with Some b => Ok (ActiveSchedule (ForkDatabase.bhs b)) | None => Throw NilDereference end
  end.

Definition PendingProducers (n : Node) : result ProducerScheduleType :=
  match Pending n with
  | None => Ok (PendingSchedule (ForkDatabase.bhs (head n)))
  | Some p => match PendingBlock p with Some b => Ok (PendingSchedule (ForkDatabase.bhs b)) | None => Throw NilDereference end
  end.

Definition GetProposedProducers (n : Node) : ProducerScheduleType :=
  let gpo := wProposal (load (DB n)) in
  if ProposedScheduleBlockNum gpo =? 0 then ProducerScheduleType_zero else mkProducerScheduleType (ProposedVersion gpo) (ProposedProducers gpo).

(** The pointers that are returned are all to the variable of the loop over the map, whose
    values are [order] in the order of the iteration. *)
Definition GetUnappliedTransactions (order : gmap Sha256 TransactionMetadata -> list TransactionMetadata) (n : Node) : result (list TransactionMetadata) :=
  if bool_decide (ReadMode cfg = SPECULATIVE) then
    let l := order (UnappliedTransactions n) in
    Ok (match last l with Some v => replicate (length l) v | None => [] end)
  else
    _ ← EosAssert (Z.of_nat (size (UnappliedTransactions n)) =? 0) TransactionException;
    Ok [].

Definition FetchBlockByNumber (blockNum : Z) (n : Node) : result (option SignedBlock) :=
  match ForkDatabase.GetBlockInCurrentChainByNum blockNum (ForkDB n) with
  | Some p => Ok (Some (ForkDatabase.Block (ForkDatabase.heap (ForkDB n) p)))
  | None => ReadBlockByNum blockNum (Blog n)
  end.

Definition FetchBlockById (id : Sha256) (n : Node) : result (option SignedBlock) :=
  match ForkDatabase.GetBlock id (ForkDB n) with
  | Some p => Ok (Some (ForkDatabase.Block (ForkDatabase.heap (ForkDB n) p)))
  | None =>
      bptr ← FetchBlockByNumber (NumFromID id) n;
      match bptr with
      | None => Ok None
      | Some b => i ← BlockID (Embedded (ForkDatabase.sbHeader b)); Ok (if bool_decide (i = id) then Some b else None)
      end
  end.

Definition GetBlockIdForNum (blockNum : Z) (n : Node) : result Sha256 :=
  match ForkDatabase.GetBlockInCurrentChainByNum blockNum (ForkDB n) with
  | Some p => Ok (ForkDatabase.bsId (ForkDatabase.heap (ForkDB n) p))
  | None =>
      signedBlk ← ReadBlockByNum blockNum (Blog n);
      match signedBlk with
      | Some b => _ ← EosAssert (negb (signed_block_IsEmpty b)) UnknownBlockException; BlockID (Embedded (ForkDatabase.sbHeader b))
      | None => Throw UnknownBlockException
      end
  end.

Definition LastIrreversibleBlockId (n : Node) : result Sha256 :=
  let libNum := LastIrreversibleBlockNum n in
  let id := default NewSha256Nil (wSummaries (load (DB n)) !! u16 libNum) in
  if NumFromID id =? libNum then Ok id
  else
    b ← FetchBlockByNumber libNum n;
    match b with Some b => BlockID (Embedded (ForkDatabase.sbHeader b)) | None => Throw NilDereference end.

(** *** What a block leaves alone *)

(** The chain of the node. *)
Record same_chain (n n' : Node) : Prop := {
  sc_head : HeadBlock n' = HeadBlock n; sc_fork : ForkDB n' = ForkDB n; sc_reversible : ReversibleBlocks n' = ReversibleBlocks n;
  sc_blog : Blog n' = Blog n; sc_replaying : RePlaying n' = RePlaying n; sc_replay_time : ReplayHeadTime n' = ReplayHeadTime n;
  sc_light : TrustedLight n' = TrustedLight n; sc_next : nextBlock n' = nextBlock n }.

#[local] Instance same_chain_preorder : PreOrder same_chain.
Proof. split; [done|]. intros a b c [] []. split; congruence. Qed.

Definition receipts (b : BlockState) : list TransactionReceipt := ForkDatabase.Transactions (ForkDatabase.Block b).

(** How the block that is built may change: its number stays, and its receipts stay, or
    only grow. *)
Definition block_step (same : bool) (b b' : BlockState) : Prop :=
  ForkDatabase.bsNum b' = ForkDatabase.bsNum b /\ if same then receipts b' = receipts b else receipts b `prefix_of` receipts b'.

#[local] Instance block_step_preorder same : PreOrder (block_step same).
Proof.
  split.
  - intros b. split; [done|]. by destruct same.
  - intros a b c [H1 H2] [H3 H4]. split; [congruence|]. destruct same; [congruence|by etrans].
Qed.

Definition building (n : Node) (b : BlockState) : Prop := exists p, Pending n = Some p /\ PendingBlock p = Some b.

(** The session of the block, its status and its mark stay. *)
Definition pending_step (same : bool) (p p' : PendingState ActionReceipt) : Prop :=
  psSession p' = psSession p /\ psStatus p' = psStatus p /\ ProducerBlockId p' = ProducerBlockId p /\ PendingValid p' = PendingValid p /\
  match PendingBlock p with Some b => exists b', PendingBlock p' = Some b' /\ block_step same b b' | None => PendingBlock p' = None end.

#[local] Instance pending_step_preorder same : PreOrder (pending_step same).
Proof.
  split.
  - intros p. repeat split. destruct (PendingBlock p) as [b|]; [|done]. exists b. by split.
  - intros p q r (H1 & H2 & H3 & H4 & H5) (H6 & H7 & H8 & H9 & H10). repeat split; [congruence..|].
    destruct (PendingBlock p) as [b|]; [|by rewrite H5 in H10]. destruct H5 as (b' & H5 & H11). rewrite H5 in H10.
    destruct H10 as (b'' & H10 & H12). exists b''. split; [done|]. by etrans.
Qed.

#[local] Existing Instance DbSession.top_step_preorder.

(** Undoing an empty session changes nothing. *)
Lemma undo_at_new k r i v : DbUndo.undo_at k (Database.newUndoContainer r i) v = v.
Proof.
  unfold DbUndo.undo_at. cbn [Database.Undo Database.newUndoContainer]. replace (Database.range_types ∅) with (@nil (string * Database.undoState)); [done|].
  symmetry. apply Permutation_nil_r. by rewrite Database.range_types_perm, map_to_list_empty.
Qed.

(** The sessions of a database with a well-formed stack: those below the top one are
    untouched, the top one is there with its number, and the revision is the same. *)
Definition db_stays (d d' : LDataBase D) : Prop := exists l l', containers d l /\ containers d' l' /\ DbSession.top_step l l' /\
  i64 (reversion d') = i64 (reversion d) /\ Database.nextId d' = Database.nextId d.

Lemma containers_inj (d : LDataBase D) l l' : containers d l -> containers d l' -> l = l'.
Proof. unfold DbSession.containers. intros -> [= Hm]. revert l' Hm. induction l as [|c l IH]; intros [|c' l']; try done. cbn. intros [= -> Hm]. f_equal. by apply IH. Qed.

Lemma db_stays_refl d l : containers d l -> db_stays d d.
Proof. intros Hl. exists l, l. split_and!; [done|done|reflexivity|done|done]. Qed.

Lemma db_stays_trans d1 d2 d3 : db_stays d1 d2 -> db_stays d2 d3 -> db_stays d1 d3.
Proof.
  intros (l1 & l2 & H1 & H2 & Ht & Hr & Hn) (l2' & l3 & H2' & H3 & Ht' & Hr' & Hn'). rewrite (containers_inj _ _ _ H2' H2) in Ht'.
  exists l1, l3. split_and!; [done|done|by etrans|congruence..].
Qed.

(** What writing does to a database. *)
Definition written (d d' : LDataBase D) : Prop := (exists l, containers d l) -> db_stays d d'.

Lemma written_refl d : written d d.
Proof. intros [l Hl]. by eapply db_stays_refl. Qed.
Lemma save_written w d : written d (save w d).
Proof.
  intros [l Hl]. destruct (DbSession.db_writes_top _ _ l (save_writes w d) Hl) as (l' & Hl' & Ht & Hr & Hn).
  exists l, l'. rewrite Hr. by split_and!.
Qed.

(** The work in a block, with the sessions that are open. *)
Record stays (same : bool) (n n' : Node) : Prop := {
  st_chain : same_chain n n'; st_db : db_stays (DB n) (DB n');
  st_pending : exists p p', Pending n = Some p /\ Pending n' = Some p' /\ is_Some (PendingBlock p) /\ pending_step same p p' }.

(** There is a block, and the stack is well formed. *)
Definition ready (n : Node) : Prop := (exists b, building n b) /\ exists l, containers (DB n) l.

Definition inside (same : bool) (n n' : Node) : Prop := ready n -> stays same n n'.

Lemma stays_ready same n n' : stays same n n' -> ready n'.
Proof.
  intros [_ (l & l' & _ & Hl' & _) (p & p' & Hp & Hp' & [b Hb] & (_ & _ & _ & _ & Hs))]. rewrite Hb in Hs. destruct Hs as (b' & Hb' & _).
  split; [by exists b', p'|by exists l'].
Qed.

Lemma stays_trans same n1 n2 n3 : stays same n1 n2 -> stays same n2 n3 -> stays same n1 n3.
Proof.
  intros [H1 H2 (p & p' & Hp & Hp' & Hb & Hs)] [H4 H5 (q & q' & Hq & Hq' & Hb' & Hs')].
  split; [by etrans|by eapply db_stays_trans|]. exists p, q'. split; [done|]. split; [done|]. split; [done|]. etrans; [done|]. by simplify_eq.
Qed.

(** A step that only writes to the database, or in the node's own books. *)
Lemma inside_refl_like same n n' : same_chain n n' -> written (DB n) (DB n') -> Pending n' = Pending n -> inside same n n'.
Proof.
  intros Hc Hs Hp [(b & p & Hb & Hpb) Hl]. split; [done|by apply Hs|]. exists p, p. rewrite Hp. split; [done|]. split; [done|].
  split; [by exists b|]. reflexivity.
Qed.

#[local] Instance inside_preorder same : PreOrder (inside same).
Proof.
  split.
  - intros n. by apply inside_refl_like; [|apply written_refl|].
  - intros n1 n2 n3 H1 H2 H. specialize (H1 H). eapply stays_trans; [done|]. apply H2. by eapply stays_ready.
Qed.

Lemma keeps_step same (f : Node -> Node) :
  (forall n, same_chain n (f n) /\ written (DB n) (DB (f n)) /\ Pending (f n) = Pending n) -> keeps (inside same) (modify f).
Proof. intros Hf n. destruct (Hf n) as (? & ? & ?). by apply inside_refl_like. Qed.

Lemma keeps_on_pending same f : (forall p, pending_step same p (f p)) -> keeps (inside same) (on_pending f).
Proof.
  intros Hf n [(b & p & Hp & Hb) [l Hl]]. split; [done|by eapply db_stays_refl|]. exists p, (f p). cbn. rewrite Hp. split; [done|]. split; [done|].
  split; [by exists b|]. apply Hf.
Qed.

Lemma on_block_stays same f n b l : building n b -> containers (DB n) l -> block_step same b (f b) -> stays same n (on_block f n).1.
Proof.
  intros (p & Hp & Hb) Hl Hf. split; [done|by eapply db_stays_refl|]. exists p, (set_PendingBlock (f b) p). unfold on_block, on_pending, modify. cbn. rewrite Hp. cbn. rewrite Hb.
  split; [done|]. split; [done|]. split; [by exists b|]. repeat split. rewrite Hb. by exists (f b).
Qed.

Lemma keeps_on_block same f : (forall b, block_step same b (f b)) -> keeps (inside same) (on_block f).
Proof. intros Hf n [[b Hb] [l Hl]]. by eapply on_block_stays. Qed.

Lemma keeps_in_trx {A} same t (m : M Work A) : keeps (inside same) (in_trx t m).
Proof. intros n. unfold in_trx. destruct (m _) as [k r]. apply inside_refl_like; [done|apply save_written|done]. Qed.
Lemma keeps_in_chain {A} same (m : M Chain A) : keeps (inside same) (in_chain m).
Proof. intros n. unfold in_chain. destruct (m _) as [c r]. apply inside_refl_like; [done|apply save_written|done]. Qed.

#[local] Hint Resolve keeps_in_trx keeps_in_chain : framed.

(** Solves [keeps] goals for code without sessions: one step for each construct, and the
    database of what is known of the operations. *)
Ltac framed_step :=
  first [ solve [auto 2 with framed typeclass_instances] | match goal with
  | |- keeps _ (mbind _ _) => apply kept_bind; [apply _| |intros ?]
  | |- keeps _ (if _ then _ else _) => apply keeps_if
  | |- keeps _ (attempt _) => apply keeps_attempt
  | |- keeps _ (finally _ _) => apply keeps_finally; [apply _|..]
  | |- keeps _ (modify _) => apply keeps_step; intros ?; split_and!; [done|first [apply written_refl|apply save_written]|done]
  | |- keeps _ (match ?x with _ => _ end) => destruct x
  end ].
Ltac framed := repeat framed_step.

Lemma keeps_pending_block same : keeps (inside same) pending_block.
Proof. unfold pending_block, pending. framed. Qed.
Lemma keeps_pending_time same : keeps (inside same) pending_time.
Proof. unfold pending_time, pending_block, pending. framed. Qed.
Lemma keeps_Now same : keeps (inside same) Now.
Proof. unfold Now. framed. Qed.
#[local] Hint Resolve keeps_pending_block keeps_pending_time keeps_Now : framed.

Lemma keeps_add_trx same t : keeps (inside same) (on_block (add_trx t)).
Proof. apply keeps_on_block. intros b. repeat split. by destruct same. Qed.
Lemma keeps_add_actions same l : keeps (inside same) (on_pending (add_actions l)).
Proof. apply keeps_on_pending. intros p. repeat split. cbn. destruct (PendingBlock p) as [b|]; [|done]. exists b. split; [done|reflexivity]. Qed.
Lemma keeps_pushReceipt trx s cpu net : keeps (inside false) (pushReceipt trx s cpu net).
Proof.
  unfold pushReceipt. framed. apply keeps_on_block. intros b. split; [done|]. by exists [mkReceipt (mkReceiptHeader s (u32 cpu) (u32 (net / 8))) trx].
Qed.
#[local] Hint Resolve keeps_add_trx keeps_add_actions keeps_pushReceipt : framed.

(** *** Sessions *)

Definition opened_db (d : LDataBase D) : LDataBase D := (Database.StartSession d).1.
Definition started (live : bool) (n : Node) : Node := if live then set_DB (opened_db (DB n)) n else n.

Lemma start_session_run live n : start_session live n = (started live n, Ok tt).
Proof. by destruct live. Qed.

Lemma opened_db_containers d l : containers d l ->
  containers (opened_db d) (l ++ [Database.newUndoContainer (i64 (reversion d + 1)) (Database.nextId d)]) /\
  reversion (opened_db d) = i64 (reversion d + 1) /\ Database.nextId (opened_db d) = Database.nextId d.
Proof.
  intros Hl. destruct (DbSession.StartSession_exec d l Hl) as (d' & E & Hc & _ & Hr & Hn & _). unfold opened_db. by rewrite E.
Qed.

(** A session that was opened on [d] is on top in [d']. *)
Record own_session (l : list Database.undoContainer) (c : Database.undoContainer) (d d' : LDataBase D) : Prop := {
  os_below : containers d l; os_containers : containers d' (l ++ [c]);
  os_number : Database.Reversion c = i64 (reversion d + 1); os_old_ids : Database.OldIds c = Database.nextId d;
  os_revision : i64 (reversion d') = i64 (reversion d + 1); os_ids : Database.nextId d' = Database.nextId d }.

Lemma own_session_intro d d' l : containers d l -> db_stays (opened_db d) d' -> exists c, own_session l c d d'.
Proof.
  intros Hl (l1 & l2 & H1 & H2 & Ht & Hr & Hn). destruct (opened_db_containers d l Hl) as (Ho & Hro & Hno).
  rewrite (containers_inj _ _ _ H1 Ho) in Ht. apply DbSession.top_step_snoc in Ht as (c & -> & Hc1 & Hc2). exists c. split; [done..| |congruence].
  rewrite Hr, Hro. word_lia.
Qed.

Lemma i64_succ_pred r r' : i64 r' = i64 (r + 1) -> i64 (i64 (r' - 1)) = i64 r.
Proof. word_lia. Qed.

(** Undoing or squashing it gives back the sessions there were. *)
Lemma own_session_Undo l c d d' : own_session l c d d' -> exists d2, Database.Undo_ d' = (d2, Ok tt) /\ containers d2 l /\
  i64 (reversion d2) = i64 (reversion d) /\ Database.nextId d2 = Database.nextId d.
Proof.
  intros [H1 H2 H3 H4 H5 H6]. destruct (DbSession.Undo_exec d' l c H2) as (x & E & _). eexists. split; [exact E|]. cbn.
  split_and!; [done|by apply i64_succ_pred|done].
Qed.

Lemma own_session_Squash l c d d' : own_session l c d d' -> exists d2, Database.Squash d' = (d2, Ok tt) /\ db_stays d d2.
Proof.
  intros [H1 H2 H3 H4 H5 H6]. destruct l as [|c1 l _] using rev_ind.
  - assert (Database.Squash d' = Database.pop_container d') as -> by (unfold Database.Squash, mbind, M_bind, get; by rewrite H2).
    eexists. split; [reflexivity|]. exists [], []. split_and!; [done|unfold DbSession.containers; cbn; by rewrite H2|reflexivity|by apply i64_succ_pred|done].
  - rewrite <- app_assoc in H2. destruct (DbSession.Squash_exec _ _ _ _ H2) as (d2 & E & Hl & _ & Hr & Hn & _). exists d2. split; [done|].
    eexists _, _. split_and!; [done|exact Hl|by constructor|rewrite Hr; by apply i64_succ_pred|congruence].
Qed.

(** The session of a transaction is open. *)
Definition opened (same live : bool) (n n' : Node) : Prop := ready n /\ stays same (started live n) n'.

Lemma opened_inside same live n n1 n2 : opened same live n n1 -> inside same n1 n2 -> opened same live n n2.
Proof. intros [H0 H1] H2. split; [done|]. eapply stays_trans; [done|]. apply H2. by eapply stays_ready. Qed.

Lemma started_opened same live n : ready n -> opened same live n (started live n).
Proof.
  intros Hn. split; [done|]. apply inside_preorder. destruct Hn as [(b & p & Hb) [l Hl]]. destruct live; [|by split; [exists b, p|exists l]].
  split; [by exists b, p|]. eexists. by apply opened_db_containers.
Qed.

(** Closing it gives back the sessions there were, the transaction undone or kept. *)
Lemma closed same live n n' how : how = Database.Undo_ \/ how = Database.Squash -> opened same live n n' ->
  exists n2, close_session live how n' = (n2, Ok tt) /\ stays same n n2.
Proof.
  intros Hhow [[_ [l Hl]] Hs]. unfold close_session, started in *. destruct live; [|by exists n'].
  destruct Hs as [H1 H2 H3]. cbn in H2. destruct (own_session_intro _ _ l Hl H2) as [c Hc].
  assert (exists d2, how (DB n') = (d2, Ok tt) /\ db_stays (DB n) d2) as (d2 & E & Hd2).
  { destruct Hhow as [->| ->]; [|by eapply own_session_Squash]. destruct (own_session_Undo _ _ _ _ Hc) as (d2 & E & Hl2 & Hr2 & Hn2). exists d2.
    split; [done|]. exists l, l. split_and!; [done|done|reflexivity|done|done]. }
  exists (set_DB d2 n'). unfold in_db. rewrite E. split; [done|]. split; [|done..]. by destruct H1.
Qed.

Lemma new_context_opened same (t : Transaction) start n :
  TransactionExtensions t = [] -> ready n ->
  exists c n1, new_context t start n = (n1, Ok c) /\ opened same (negb (SkipDbSessions (flags n))) n n1.
Proof.
  intros Ht Hn. set (live := negb _). pose proof (started_opened same live n Hn) as Ho.
  exists (mkTransactionContext start 0 [] [] 0 false true MaxMicroseconds 100000 0 false false (mkNetLimits 0 true false 0 0)
    (mkTimer 0 MaxMicroseconds BlockCpuUsageExceeded BlockCpuUsageExceeded false start 0 0)), (started live n). split; [|done].
  unfold new_context, NewTransactionContext. rewrite Ht. rewrite (bind_eq _ _ _ n n) by done. fold live.
  rewrite (bind_eq _ _ _ _ _ (start_session_run live n)). destruct Hn as [(b & p & Hp & Hb) _].
  assert (pending_block (started live n) = (started live n, Ok b)) as Hpb.
  { unfold pending_block, pending, mbind, M_bind, get, lift. assert (Pending (started live n) = Some p) as -> by (by destruct live). cbn. by rewrite Hb. }
  by rewrite (bind_eq _ _ _ _ _ Hpb).
Qed.

(** A computation in a session of its own, which it closes. *)
Lemma or_undo_closed {A} same live n n1 (m : M Node A) : keeps (inside same) m -> opened same live n n1 -> stays same n (or_undo live m n1).1.
Proof.
  intros Hm Ho. unfold or_undo. rewrite attempt_bind. assert (opened same live n (m n1).1) as H1 by (eapply opened_inside; [done|apply Hm]).
  destruct (m n1) as [n2 [a|e]]; cbn [fst snd] in *.
  - destruct (closed same live n n2 Database.Squash (or_intror eq_refl) H1) as (n3 & E & H2). by rewrite (bind_eq _ _ _ _ _ E).
  - destruct (closed same live n n2 Database.Undo_ (or_introl eq_refl) H1) as (n3 & E & H2). rewrite (bind_eq _ _ _ _ _ E). by destruct (caught e).
Qed.

Lemma keeps_push_inner same trx t : Implicit trx = true \/ same = false -> keeps (inside same) (push_inner trx t).
Proof.
  intros Hs. unfold push_inner. destruct (Implicit trx); [framed|]. destruct Hs as [| ->]; [done|]. framed.
Qed.

Lemma keeps_pushTransaction same trx deadLine billed explicit :
  TransactionExtensions (sTransaction (tmTrx trx)) = [] -> Implicit trx = true \/ same = false ->
  keeps (inside same) (pushTransaction trx deadLine billed explicit).
Proof.
  intros Ht Hs. unfold pushTransaction. apply kept_bind; [apply _|framed|intros _]. apply kept_bind; [apply _|framed|intros start].
  intros n Hn. rewrite (bind_eq _ _ _ n n) by done.
  destruct (new_context_opened same (sTransaction (tmTrx trx)) start n Ht Hn) as (c & n1 & Hc & Ho). rewrite (bind_eq _ _ _ _ _ Hc).
  set (live := negb (SkipDbSessions (flags n))) in *. rewrite attempt_bind.
  set (t := prepare _ _ _ _ _). assert (opened same live n (push_inner trx t n1).1) as H1 by (eapply opened_inside; [done|by apply keeps_push_inner]).
  destruct (push_inner trx t n1) as [n2 [tr|e]]; cbn [fst snd] in *.
  - match goal with |- context [close_session live ?h] => set (how := h) end.
    destruct (closed same live n n2 how) as (n3 & Hn3 & H2); [unfold how; case_match; auto|done|]. rewrite (bind_eq _ _ _ _ _ Hn3). eapply stays_trans; [done|].
    assert (keeps (inside same) (_ ← (if Implicit trx then mret tt else modify (drop_unapplied trx)); mret tr : M Node Trace)) as Hk by framed.
    apply Hk. by eapply stays_ready.
  - destruct (closed same live n n2 Database.Undo_) as (n3 & Hn3 & H2); [auto|done|]. rewrite (bind_eq _ _ _ _ _ Hn3). eapply stays_trans; [done|].
    match goal with |- stays _ _ (?m n3).1 => assert (keeps (inside same) m) as Hk by framed end. apply Hk. by eapply stays_ready.
Qed.

(** A step in an open session that never fails leaves it open. *)
Lemma opened_bind {A B} same live n n1 (m : M Node A) (k : A -> M Node B) :
  keeps (inside same) m -> (forall s, exists s' a, m s = (s', Ok a)) -> opened same live n n1 ->
  (forall a n2, opened same live n n2 -> stays same n (k a n2).1) -> stays same n ((m ≫= k) n1).1.
Proof.
  intros Hm Ht Ho Hk. destruct (Ht n1) as (n2 & a & Ha). rewrite (bind_eq _ _ _ _ _ Ha). apply Hk. eapply opened_inside; [done|].
  specialize (Hm n1). by rewrite Ha in Hm.
Qed.
Lemma in_trx_Ok {A} t (m : M Work A) n : exists n' p, in_trx t m n = (n', Ok p).
Proof. unfold in_trx. destruct (m _) as [k r]. by eexists _, _. Qed.

Lemma closed_bind {A B} same live n n1 (m : M Node A) (k : result A -> M Node B) :
  keeps (inside same) m -> opened same live n n1 -> (forall r, keeps (inside same) (k r)) -> stays same n ((or_undo live m ≫= k) n1).1.
Proof.
  intros Hm Ho Hk. pose proof (or_undo_closed same live n n1 m Hm Ho) as Hc. unfold mbind at 1, M_bind at 1.
  destruct (or_undo live m n1) as [n2 [r|e]]; [|done]. eapply stays_trans; [done|]. apply Hk. by eapply stays_ready.
Qed.

(** Deferred transactions and their error handler. *)
Lemma keeps_applyOnerror gtrx packed deadline start billed explicit : keeps (inside false) (applyOnerror gtrx packed deadline start billed explicit).
Proof.
  unfold applyOnerror. apply kept_bind; [apply _|framed|intros now]. intros n Hn. rewrite (bind_eq _ _ _ n n) by done.
  set (etrx := implicit_transaction _ _ _). destruct (ID etrx) as [id|e] eqn:Hid; [|by rewrite (bind_throw _ _ _ n e) by done; apply inside_preorder].
  rewrite (bind_eq _ _ _ n id) by done.
  destruct (new_context_opened false etrx start n eq_refl Hn) as (c & n1 & Hc & Ho). rewrite (bind_eq _ _ _ _ _ Hc).
  eapply opened_bind; [framed|intros ?; by eexists _, _|done|intros now1 n2 H2]. eapply opened_bind; [framed|intros ?; by eexists _, _|done|intros now2 n3 H3].
  eapply opened_bind; [framed|intros ?; by eexists _, _|done|intros n' n4 H4]. apply closed_bind; [framed|done|intros ?; framed].
Qed.
#[local] Hint Resolve keeps_applyOnerror : framed.

Lemma keeps_failed_scheduled gtrx packed deadLine billed cpu explicit t e : keeps (inside false) (failed_scheduled gtrx packed deadLine billed cpu explicit t e).
Proof. unfold failed_scheduled. framed. Qed.
#[local] Hint Resolve keeps_failed_scheduled : framed.

Lemma keeps_execute_scheduled gtrx packed dtrx deadLine billed explicit :
  TransactionExtensions (sTransaction dtrx) = [] -> keeps (inside false) (execute_scheduled gtrx packed dtrx deadLine billed explicit).
Proof.
  intros Ht. unfold execute_scheduled. apply kept_bind; [apply _|framed|intros start]. intros n Hn. rewrite (bind_eq _ _ _ n n) by done.
  destruct (new_context_opened false (sTransaction dtrx) start n Ht Hn) as (c & n1 & Hc & Ho). rewrite (bind_eq _ _ _ _ _ Hc).
  eapply opened_bind; [framed|intros ?; by eexists _, _|done|intros now1 n2 H2]. eapply opened_bind; [framed|intros ?; by eexists _, _|done|intros now2 n3 H3].
  eapply opened_bind; [framed|intros ?; by eexists _, _|done|intros n' n4 H4]. eapply opened_bind; [framed|apply in_trx_Ok|done|intros [t r] n5 H5].
  eapply opened_bind; [framed|intros ?; by eexists _, _|done|intros n'' n6 H6]. eapply opened_bind; [framed|intros ?; by eexists _, _|done|intros now3 n7 H7].
  apply closed_bind; [framed|done|intros ?; framed].
Qed.

Lemma keeps_pushScheduledTransactionByObject gto packed deadLine billed explicit :
  (forall b, TransactionExtensions (sTransaction (decode_signed b)) = []) ->
  keeps (inside false) (pushScheduledTransactionByObject gto packed deadLine billed explicit).
Proof.
  intros Hd n Hn. unfold pushScheduledTransactionByObject. rewrite (bind_eq _ _ _ n n) by done. set (live := negb _).
  pose proof (started_opened false live n Hn) as Ho. rewrite (bind_eq _ _ _ _ _ (start_session_run live n)), attempt_bind.
  match goal with |- context [snd (?m _)] => assert (keeps (inside false) m) as Hm; [framed; by apply keeps_execute_scheduled|];
    assert (opened false live n (m (started live n)).1) as H1 by (eapply opened_inside; [done|apply Hm]); destruct (m (started live n)) as [n2 [[tr keep]|e]] end;
    cbn [fst snd] in *.
  - destruct (closed false live n n2 (if keep then Database.Squash else Database.Undo_)) as (n3 & E & H2); [destruct keep; auto|done|].
    by rewrite (bind_eq _ _ _ _ _ E).
  - destruct (closed false live n n2 Database.Undo_) as (n3 & E & H2); [auto|done|]. by rewrite (bind_eq _ _ _ _ _ E).
Qed.

Lemma pending_block_run n b : building n b -> pending_block n = (n, Ok b).
Proof. intros (p & Hp & Hb). unfold pending_block, pending, mbind, M_bind, get, lift. rewrite Hp. cbn. by rewrite Hb. Qed.

Lemma keeps_in_header {A} same (m : M BlockHeaderState A) : (forall h, BlockNum (m h).1 = BlockNum h) -> keeps (inside same) (in_header m).
Proof.
  intros Hm n [(b & p & Hp & Hb) [l Hl]]. unfold in_header. rewrite (bind_eq _ _ _ n b) by (apply pending_block_run; by exists p).
  specialize (Hm (ForkDatabase.bhs b)). destruct (m (ForkDatabase.bhs b)) as [h r].
  apply (on_block_stays same (ForkDatabase.set_bhs h) n b l); [by exists p|done|]. split; [exact Hm|]. by destruct same.
Qed.

Lemma SetConfirmed_num k h : BlockNum (SetConfirmed k h) = BlockNum h.
Proof.
  unfold SetConfirmed. cbv zeta. set (y := set_Header _ h). change (BlockNum h) with (BlockNum y). generalize (u16 (k + 1)). generalize (length (ConfirmCount y)).
  intros i. generalize y. induction i as [|i IH]; intros z btc; [done|]. cbn [SetConfirmed_loop]. case_match; [done|]. case_match; [by case_match|by rewrite IH].
Qed.
Lemma MaybePromotePending_num h : BlockNum (MaybePromotePending h).1 = BlockNum h.
Proof. destruct (MaybePromotePending h) as [c p] eqn:E. cbn. by apply MaybePromotePending_frame in E as (_ & -> & _). Qed.
Definition same_num (h h' : BlockHeaderState) : Prop := BlockNum h' = BlockNum h.
#[local] Instance same_num_preorder : PreOrder same_num.
Proof. split; [done|]. unfold same_num. intros a b c. congruence. Qed.
Lemma SetNewProducers_num p : keeps same_num (SetNewProducers p).
Proof. unfold SetNewProducers. repeat (apply kept_bind; [apply _| |intros ?]); framed; by intros h. Qed.

Lemma keeps_setActionMerkle same : keeps (inside same) setActionMerkle.
Proof. unfold setActionMerkle, pending. framed; by apply keeps_in_header. Qed.
Lemma keeps_setTrxMerkle same : keeps (inside same) setTrxMerkle.
Proof. unfold setTrxMerkle. framed. by apply keeps_in_header. Qed.
#[local] Hint Resolve keeps_setActionMerkle keeps_setTrxMerkle : framed.

Lemma keeps_FinalizeBlock same : keeps (inside same) FinalizeBlock.
Proof. unfold FinalizeBlock. framed. by apply keeps_in_header. Qed.

Lemma keeps_promote_proposed same b : keeps (inside same) (promote_proposed b).
Proof. unfold promote_proposed. framed. apply keeps_in_header, SetNewProducers_num. Qed.

Lemma keeps_GetOnBlockTransaction same : keeps (inside same) GetOnBlockTransaction.
Proof. unfold GetOnBlockTransaction. framed. Qed.
#[local] Hint Resolve keeps_GetOnBlockTransaction keeps_promote_proposed keeps_FinalizeBlock : framed.

Lemma metadata_trx t c m : NewTransactionMetadataBySignedTrx t c = Ok m -> tmTrx m = t.
Proof. unfold NewTransactionMetadataBySignedTrx. intros Hm. by inv_ok. Qed.

(** The first transaction of a block leaves no receipt. *)
Lemma keeps_push_onblock : keeps (inside true) push_onblock.
Proof.
  unfold push_onblock. apply kept_bind; [apply _|framed|intros n0]. intros n Hn.
  pose proof (keeps_GetOnBlockTransaction true n Hn) as Hk. destruct (GetOnBlockTransaction n) as [n1 [st|e]] eqn:Hg; [|by rewrite (bind_throw _ _ _ _ _ Hg)].
  assert (TransactionExtensions (sTransaction st) = []) as Ht.
  { unfold GetOnBlockTransaction in Hg. apply run_bind in Hg as (? & ? & _ & Hg). apply run_bind in Hg as (? & ? & _ & Hg). by apply run_ret in Hg as [_ ->]. }
  rewrite (bind_eq _ _ _ _ _ Hg). eapply stays_trans; [by apply Hk|].
  destruct (NewTransactionMetadataBySignedTrx st 0) as [m|e] eqn:Hm; [|by rewrite (bind_throw _ _ _ n1 e) by done; apply inside_preorder; by eapply stays_ready].
  rewrite (bind_eq _ _ _ n1 m) by done. match goal with |- stays _ _ (?k n1).1 => assert (keeps (inside true) k) as Hk2 end; [|apply Hk2; by eapply stays_ready].
  framed. apply keeps_pushTransaction; [|by left]. cbn. by rewrite (metadata_trx _ _ _ Hm).
Qed.

(** *** The start *)

(** The node in a block of status [s], of which [n] was the start. *)
Record in_block (s : BlockStatus) (valid : bool) (l : list TransactionReceiptHeader) (n n' : Node) : Prop := {
  ib_chain : same_chain n n';
  ib_db : db_stays (opened_db (DB n)) (DB n');
  ib_pending : exists p b, Pending n' = Some p /\ psSession p = Some true /\ psStatus p = s /\ PendingValid p = valid /\ PendingBlock p = Some b /\
    ForkDatabase.bsNum b = u32 (ForkDatabase.bsNum (head n) + 1) /\ map rHeader (receipts b) = l }.

(** The database [d'] is what undoing the own session of a block leaves of [d1], for a block
    that was started on [d]: every key is as it was if the container of the session leads
    from the objects there are back to those there were ([DbUndo.tracks]). *)
Definition undone (d d' : LDataBase D) : Prop := exists l c d1, own_session l c d d1 /\ Database.Undo_ d1 = (d', Ok tt) /\
  forall tbl0 tbl, DbTable.represents (DbTable.view d) tbl0 -> DbTable.represents (DbTable.view d1) tbl -> DbUndo.tracks c tbl0 tbl ->
    (forall k, DbTable.type_of k = None -> DbTable.view d1 k = DbTable.view d k) -> forall k, DbTable.view d' k = DbTable.view d k.

(** The node without the block. *)
Record restored (n n' : Node) : Prop := {
  re_chain : same_chain n n'; re_pending : Pending n' = None;
  re_sessions : Database.stack (DB n') = Database.stack (DB n); re_revision : i64 (reversion (DB n')) = i64 (reversion (DB n));
  re_ids : Database.nextId (DB n') = Database.nextId (DB n); re_undone : DB n' = DB n \/ undone (DB n) (DB n') }.

Lemma restored_refl n : Pending n = None -> restored n n.
Proof. intros Hp. split; try done. by left. Qed.

Lemma in_block_stays s valid l n n1 n2 : in_block s valid l n n1 -> stays true n1 n2 -> in_block s valid l n n2.
Proof.
  intros [H1 H2 (p & b & Hp & Hs & Hst & Hv & Hb & Hn & Hl)] [H4 H5 (q & q' & Hq & Hq' & _ & (E1 & E2 & E3 & E4 & E5))].
  simplify_eq. rewrite Hb in E5. destruct E5 as (b' & Hb' & Hn' & Hr'). split; [by etrans|by eapply db_stays_trans|].
  exists q', b'. repeat split; try congruence. 
Qed.

Lemma in_block_ready s valid l n n' : in_block s valid l n n' -> ready n'.
Proof. intros [_ (? & l' & _ & Hl' & _) (p & b & Hp & _ & _ & _ & Hb & _)]. split; [by exists b, p|by exists l']. Qed.

Lemma in_block_keeps {A} s valid l n n1 (m : M Node A) : in_block s valid l n n1 -> keeps (inside true) m -> in_block s valid l n (m n1).1.
Proof. intros H1 Hm. eapply in_block_stays; [done|]. apply Hm. by eapply in_block_ready. Qed.

(** The session of a block is open. *)
Record in_session (n n' : Node) : Prop := {
  is_chain : same_chain n n'; is_db : db_stays (opened_db (DB n)) (DB n');
  is_pending : exists p, Pending n' = Some p /\ psSession p = Some true }.

Lemma in_block_session s valid l n n' : in_block s valid l n n' -> in_session n n'.
Proof. intros [H1 H2 (p & b & Hp & Hs & _)]. split; [done..|]. by exists p. Qed.

Lemma opened_below (d d' : LDataBase D) : db_stays (opened_db d) d' -> (exists l, containers d l) -> exists l c, own_session l c d d'.
Proof. intros Hd [l Hl]. exists l. by apply own_session_intro. Qed.

Lemma own_session_undone l c (d d1 d' : LDataBase D) : own_session l c d d1 -> Database.Undo_ d1 = (d', Ok tt) -> undone d d'.
Proof.
  intros Ho E. exists l, c, d1. split_and!; [done|done|]. intros tbl0 tbl H0 H1 Ht Hn.
  destruct (DbSession.Undo_tracks d1 l c tbl0 tbl (DbTable.view d) (os_containers _ _ _ _ Ho) H1 Ht H0 Hn) as (d2 & E2 & Hv & _).
  rewrite E in E2. by injection E2 as <-.
Qed.

Lemma Reset_restored n n1 : (exists l, containers (DB n) l) -> in_session n n1 ->
  exists n2, Reset n1 = (n2, Ok tt) /\ restored n n2 /\ undone (DB n) (DB n2).
Proof.
  intros Hl [H1 H2 (p & Hp & Hs)]. destruct (opened_below _ _ H2 Hl) as (l & c & Ho).
  destruct (own_session_Undo _ _ _ _ Ho) as (d2 & E & Hl2 & Hr2 & Hn2). exists (set_Pending None (set_DB d2 n1)). split.
  - unfold Reset, pending, mbind, M_bind, get, lift, modify. rewrite Hp. cbn. rewrite Hs. unfold close_session, in_db. by rewrite E.
  - pose proof (own_session_undone _ _ _ _ _ Ho E) as Hu. split; [|done]. split; [by destruct H1; split|done| |done|done|by right].
    cbn. rewrite Hl2. symmetry. exact (os_below _ _ _ _ Ho).
Qed.

Definition start_post (s : BlockStatus) (n : Node) (x : Node * result unit) : Prop :=
  match x.2 with Ok _ => in_block s false [] n x.1 | Throw _ => in_block s true [] n x.1 end.

Lemma start_bind {A} s n n1 (m : M Node A) k : keeps (inside true) m -> in_block s true [] n n1 ->
  (forall a n2, in_block s true [] n n2 -> start_post s n (k a n2)) -> start_post s n ((m ≫= k) n1).
Proof.
  intros Hm H1 Hk. pose proof (in_block_keeps _ _ _ _ _ _ H1 Hm) as H2. unfold mbind, M_bind. destruct (m n1) as [n2 [a|e]]; [by apply Hk|done].
Qed.

Lemma NewBlockState2_run h when b : ForkDatabase.NewBlockState2 h when = Ok b ->
  BlockNum (ForkDatabase.bhs b) = u32 (BlockNum h + 1) /\ receipts b = [].
Proof.
  unfold ForkDatabase.NewBlockState2. intros Hb. apply bind_Ok in Hb as (h' & Hh & Hb). injection Hb as <-. split; [|done].
  apply GenerateNext_inv in Hh as (t & key & m & root & _ & _ & _ & ->). done.
Qed.

#[local] Hint Resolve keeps_push_onblock : framed.

Lemma reset_if_valid_none n : Pending n = None -> reset_if_valid n = (n, Ok tt).
Proof. intros Hp. unfold reset_if_valid, mbind, M_bind, get. by rewrite Hp. Qed.

Lemma reset_if_valid_some n p : Pending n = Some p -> reset_if_valid n = if PendingValid p then Reset n else (n, Ok tt).
Proof. intros Hp. unfold reset_if_valid, mbind, M_bind, get. rewrite Hp. by destruct (PendingValid p). Qed.

Lemma prepare_block_run when k s id n n1 :
  n1 = set_Pending (Some (mkPending (Some true) None [] s id true)) (started true n) -> (exists l, containers (DB n) l) ->
  let x := prepare_block when k s n1 in
  match x.2 with Ok _ => in_block s false [] n x.1 | Throw _ => in_session n x.1 /\ exists p, Pending x.1 = Some p /\ PendingValid p = true end.
Proof.
  intros Hn1 Hst. assert (db_stays (opened_db (DB n)) (DB n1)) as Hdb.
  { subst n1. destruct Hst as [l Hl]. eapply db_stays_refl. by apply opened_db_containers. }
  unfold prepare_block. rewrite (bind_eq _ _ _ n1 n1) by done.
  assert (head n1 = head n) as -> by by subst n1.
  destruct (ForkDatabase.NewBlockState2 (ForkDatabase.bhs (head n)) when) as [b|e] eqn:Hb.
  - rewrite (bind_eq _ _ _ n1 b) by done. apply NewBlockState2_run in Hb as [Hnum Hrec].
    match goal with |- context [on_pending ?f ≫= ?k] => rewrite (bind_eq (on_pending f) k n1 (on_pending f n1).1 tt) by done end.
    match goal with |- context [(on_pending ?f n1).1] => set (n2 := (on_pending f n1).1) end.
    assert (in_block s true [] n n2) as H2.
    { subst n2 n1. split; [done|exact Hdb|]. eexists _, _. repeat split; [exact Hnum|]. change (map rHeader (receipts b) = []). by rewrite Hrec. }
    clearbody n2. cbv zeta. match goal with |- context [snd ?y] => enough (start_post s n y) as Hpost; [destruct y as [n3 [u|e]]|] end.
    + done.
    + split; [exact (in_block_session _ _ _ _ _ Hpost)|]. destruct Hpost as [_ _ (p & b' & Hp & _ & _ & Hv & _)]. by exists p.
    + eapply start_bind; [framed|done|intros now n3 H3]. eapply start_bind; [framed|done|intros ? n4 H4].
      eapply start_bind; [apply keeps_in_header; intros h; apply SetConfirmed_num|done|intros ? n5 H5].
      eapply start_bind; [apply keeps_in_header; intros h; rewrite <- (MaybePromotePending_num h); by destruct (MaybePromotePending h)|done|intros promoted n6 H6].
      eapply start_bind; [framed|done|intros ? n7 H7]. destruct H7 as [E1 E2 (p & b' & Hp & Hs & Hst' & Hv & Hb' & Hn' & Hl)].
      split; [by destruct E1; split|done..|]. exists (set_PendingValid false p), b'. cbn. by rewrite Hp.
  - rewrite (bind_throw _ _ _ n1 e) by done. split; [|by subst n1; eexists]. split; [by subst n1|done|by subst n1; eexists].
Qed.

Lemma startBlock_spec when k s id n : (exists l, containers (DB n) l) -> Pending n = None -> SkipDbSession (flags n) s = false ->
  let x := startBlock when k s id n in match x.2 with Ok _ => in_block s false [] n x.1 | Throw _ => restored n x.1 end.
Proof.
  intros Hst Hp Hskip. unfold startBlock. rewrite (bind_eq _ _ _ n n) by done. rewrite Hp. rewrite (bind_eq _ _ _ n tt) by done. unfold finally.
  destruct (u32 (Database.Revision (DB n)) =? ForkDatabase.bsNum (head n)) eqn:Hr.
  - set (n1 := set_Pending (Some (mkPending (Some true) None [] s id true)) (started true n)).
    assert (open_pending s id n = (n1, Ok tt)) as Ho by (unfold open_pending, mbind, M_bind, get, assertM, lift, modify; by rewrite Hskip, Hr).
    rewrite (bind_eq _ _ _ _ _ Ho). pose proof (prepare_block_run when k s id n n1 eq_refl Hst) as H1. cbv zeta in H1.
    destruct (prepare_block when k s n1) as [n2 [u|e]]; cbn in H1.
    + pose proof H1 as [_ _ (p & b & Hp2 & _ & _ & Hv & _)]. by rewrite (reset_if_valid_some n2 p), Hv.
    + destruct H1 as [H1 (p & Hp2 & Hv)]. rewrite (reset_if_valid_some n2 p), Hv by done. by destruct (Reset_restored n n2 Hst H1) as (n3 & -> & ? & _).
  - assert (open_pending s id n = (n, Throw DatabaseException)) as Ho by (unfold open_pending, mbind, M_bind, get, assertM, lift; by rewrite Hskip, Hr).
    rewrite (bind_throw _ _ _ _ _ Ho), reset_if_valid_none by done. by apply restored_refl.
Qed.

(** *** The receipts of a block *)

(** The transactions of a block have no extensions: with one a context fails after it has
    opened its session ([extension_leaks_session]). *)
Definition plain_receipt (r : TransactionReceipt) : Prop :=
  forall p m, wiPacked (rTrx r) = Some p -> NewTransactionMetadata p = Ok m -> TransactionExtensions (sTransaction (tmTrx m)) = [].
Definition plain_block (b : SignedBlock) : Prop := Forall plain_receipt (ForkDatabase.Transactions b).
Definition plain_deferred : Prop := forall b, TransactionExtensions (sTransaction (decode_signed b)) = [].

Lemma in_block_grows s valid l n n1 n2 : in_block s valid l n n1 -> stays false n1 n2 -> exists l', in_block s valid (l ++ l') n n2.
Proof.
  intros [H1 H2 (p & b & Hp & Hs & Hst & Hv & Hb & Hn & Hl)] [H4 H5 (q & q' & Hq & Hq' & _ & (E1 & E2 & E3 & E4 & E5))].
  simplify_eq. rewrite Hb in E5. destruct E5 as (b' & Hb' & Hn' & [l' Hr']). exists (map rHeader l'). split; [by etrans|by eapply db_stays_trans|].
  exists q', b'. rewrite Hr', map_app. repeat split; congruence.
Qed.

Lemma keeps_replay_receipt r : plain_deferred -> plain_receipt r -> keeps (inside false) (replay_receipt r).
Proof.
  intros Hd Hr. unfold replay_receipt. intros n Hn.
  match goal with |- stays _ _ ((lift ?x ≫= _) _).1 => destruct x as [[pt|]|e] eqn:Hx end; [|rewrite (bind_eq _ _ _ n None) by done|by rewrite (bind_throw _ _ _ n e) by done; apply inside_preorder].
  - rewrite (bind_eq _ _ _ n (Some pt)) by done.
    destruct (wiPacked (rTrx r)) as [p|] eqn:Hp; [|done]. apply bind_Ok in Hx as (em & _ & Hx). destruct em; [done|]. injection Hx as ->.
    destruct (NewTransactionMetadata pt) as [m|e] eqn:Hm; [|by rewrite (bind_throw _ _ _ n e) by done; apply inside_preorder].
    rewrite (bind_eq _ _ _ n m) by done. apply keeps_pushTransaction; [by eapply Hr|by right|done].
  - destruct (negb _); [|by apply inside_preorder]. unfold PushScheduledTransaction. rewrite (bind_eq _ _ _ n n) by done.
    destruct (find_scheduled _ _) as [gto packed]. by apply keeps_pushScheduledTransactionByObject.
Qed.

Lemma pending_receipts_run n b : building n b -> pending_receipts n = (n, Ok (receipts b)).
Proof. intros Hb. unfold pending_receipts. by rewrite (bind_eq _ _ _ _ _ (pending_block_run n b Hb)). Qed.

Lemma last_snoc_prefix {A} (l l' : list A) x : l `prefix_of` l' -> len l' = len l + 1 -> last l' = Some x -> l' = l ++ [x].
Proof.
  intros [k ->] Hl Hx. unfold len in Hl. rewrite length_app in Hl. destruct k as [|y [|z k]]; cbn in *; [lia| |lia].
  rewrite last_snoc in Hx. by simplify_eq.
Qed.

Lemma keeps_apply_receipt r : plain_deferred -> plain_receipt r -> keeps (inside false) (apply_receipt r).
Proof. intros Hd Hr. pose proof (keeps_replay_receipt r Hd Hr). unfold apply_receipt, pending_receipts. framed. Qed.

Lemma keeps_apply_receipts l : plain_deferred -> Forall plain_receipt l -> keeps (inside false) (apply_receipts l).
Proof. intros Hd Hl. induction Hl as [|r l Hr Hl IH]; cbn; framed. by apply keeps_apply_receipt. Qed.

(** A receipt that is accepted is the one the node has made. *)
Lemma apply_receipt_Ok s n n1 n2 l r : plain_deferred -> plain_receipt r -> in_block s false l n n1 -> apply_receipt r n1 = (n2, Ok tt) ->
  in_block s false (l ++ [rHeader r]) n n2.
Proof.
  intros Hd Hr H1 Hrun. unfold apply_receipt in Hrun.
  pose proof H1 as [_ _ (p & b & Hp & _ & _ & _ & Hb & _ & Hl)]. assert (building n1 b) as Hb1 by by exists p.
  rewrite (bind_eq _ _ _ _ _ (pending_receipts_run n1 b Hb1)) in Hrun.
  apply run_bind in Hrun as (n3 & tr & Hrep & Hrun).
  pose proof (keeps_replay_receipt r Hd Hr n1 (in_block_ready _ _ _ _ _ H1)) as Hk. rewrite Hrep in Hk. cbn [fst] in Hk.
  apply run_bind in Hrun as (n4 & [] & Hexc & Hrun). assert (n4 = n3) as ->.
  { destruct (trExcept tr); [|by apply run_ret in Hexc as [-> _]]. destruct (_ && _); [by apply run_ret in Hexc as [-> _]|by apply run_lift in Hexc as [_ ?]]. }
  pose proof H1 as [E1 E2 _]. pose proof Hk as [E4 E5 (q & q' & Hq & Hq' & _ & (F1 & F2 & F3 & F4 & F5))].
  assert (q = p) as -> by congruence. rewrite Hb in F5. destruct F5 as (b' & Hb' & Hn' & Hpre).
  rewrite (bind_eq _ _ _ _ _ (pending_receipts_run n3 b' (ex_intro _ q' (conj Hq' Hb')))) in Hrun.
  apply run_bind in Hrun as (n5 & [] & Ha & Hrun). apply run_assert in Ha as [_ ->].
  apply run_bind in Hrun as (n6 & [] & Ha & Hrun). apply run_assert in Ha as [Hlen%Z.eqb_eq ->].
  destruct (last (receipts b')) as [x|] eqn:Hx.
  - apply run_assert in Hrun as [Hh%bool_decide_eq_true ->]. pose proof (last_snoc_prefix _ _ _ Hpre Hlen Hx) as Hr'.
    destruct H1 as [_ _ (p0 & b0 & Hp0 & Hs0 & Hst0 & Hv0 & Hb0 & Hn0 & Hl0)]. simplify_eq.
    split; [by etrans|by eapply db_stays_trans|]. exists q', b'. rewrite Hr', map_app. cbn. repeat split; congruence.
  - apply last_None in Hx. rewrite Hx in Hlen. unfold len in Hlen. cbn in Hlen. lia.
Qed.

Lemma apply_receipts_Ok s n rs : plain_deferred -> Forall plain_receipt rs -> forall l n1 n2, in_block s false l n n1 -> apply_receipts rs n1 = (n2, Ok tt) ->
  in_block s false (l ++ map rHeader rs) n n2.
Proof.
  intros Hd Hrs. induction Hrs as [|r rs Hr Hrs IH]; intros l n1 n2 H1 Hrun; cbn in *.
  - apply run_ret in Hrun as [-> _]. by rewrite app_nil_r.
  - apply run_bind in Hrun as (n3 & [] & H2 & H3). pose proof (apply_receipt_Ok _ _ _ _ _ _ Hd Hr H1 H2) as H4.
    specialize (IH _ _ _ H4 H3). by rewrite <- app_assoc in IH.
Qed.

(** *** Applied blocks *)

Lemma AbortBlock_restored n n1 : (exists l, containers (DB n) l) -> in_session n n1 ->
  exists n2, AbortBlock n1 = (n2, Ok tt) /\ restored n n2 /\ undone (DB n) (DB n2).
Proof.
  intros Hst Hs. pose proof Hs as [H1 H2 (p & Hp & Hps)]. unfold AbortBlock. rewrite (bind_eq _ _ _ n1 n1) by done. rewrite Hp.
  match goal with |- context [(?m ≫= _) n1] => assert (exists n2, m n1 = (n2, Ok tt) /\ in_session n n2) as (n2 & Hm & Hs2) end.
  { destruct (bool_decide _); [|by exists n1]. destruct (PendingBlock p); [|by exists n1]. eexists. split; [done|]. split; [by destruct H1; split|done..|by exists p]. }
  rewrite (bind_eq _ _ _ _ _ Hm). by apply Reset_restored.
Qed.

Lemma AbortBlock_none n : Pending n = None -> AbortBlock n = (n, Ok tt).
Proof. intros Hp. unfold AbortBlock. rewrite (bind_eq _ _ _ n n) by done. by rewrite Hp. Qed.

Definition record_reversible (num : Z) (blk : SignedBlock) (n : Node) : Node :=
  match ReversibleBlocks n !! num with Some _ => n | None => set_Reversible (<[num := blk]> (ReversibleBlocks n)) n end.

(** The node after a block: its session stays, and the block is among those that can be
    reversed. *)
Record committed (l : list TransactionReceiptHeader) (n n' : Node) : Prop := {
  co_head : HeadBlock n' = HeadBlock n; co_fork : ForkDB n' = ForkDB n; co_blog : Blog n' = Blog n; co_pending : Pending n' = None;
  co_session : exists l c, own_session l c (DB n) (DB n');
  co_reversible : exists blk, map rHeader (ForkDatabase.Transactions blk) = l /\
    ReversibleBlocks n' = (if RePlaying n then ReversibleBlocks n else ReversibleBlocks (record_reversible (u32 (ForkDatabase.bsNum (head n) + 1)) blk n)) }.

Lemma CommitBlock_false_run s l n n1 : (exists l, containers (DB n) l) -> in_block s false l n n1 ->
  exists n2, CommitBlock false n1 = (n2, Ok tt) /\ committed l n n2 /\ DB n2 = DB n1.
Proof.
  intros Hst0 [H1 H2 (p & b & Hp & Hs & Hst & Hv & Hb & Hn & Hl)]. unfold CommitBlock, finally.
  set (n2 := if RePlaying n1 then n1 else record_reversible (ForkDatabase.bsNum b) (ForkDatabase.Block b) n1).
  assert (Pending n2 = Some p /\ DB n2 = DB n1) as [Hp2 Hdb] by (unfold n2, record_reversible; destruct (RePlaying n1); [done|]; by destruct (ReversibleBlocks n1 !! _)).
  match goal with |- context [try_catch ?m ?h] => assert (try_catch m h n1 = (n2, Ok tt)) as Hm end.
  { rewrite try_catch_eq. rewrite (bind_eq _ _ _ n1 tt) by done. rewrite (bind_eq _ _ _ n1 n1) by done. unfold n2, record_reversible.
    destruct (RePlaying n1); [done|]. rewrite (bind_eq _ _ _ _ _ (pending_block_run n1 b (ex_intro _ p (conj Hp Hb)))). unfold modify. cbv zeta.
    by destruct (ReversibleBlocks n1 !! ForkDatabase.bsNum b). }
  rewrite (bind_eq _ _ _ _ _ Hm). assert (pending n2 = (n2, Ok p)) as Hpp by (unfold pending, mbind, M_bind, get, lift; by rewrite Hp2).
  rewrite (bind_eq _ _ _ _ _ Hpp). unfold on_pending, modify. rewrite Hp2. cbn [fmap option_fmap option_map]. rewrite Hs.
  exists (set_Pending None n2). cbn. split; [|split].
  - done.
  - assert (ReversibleBlocks n2 = if RePlaying n then ReversibleBlocks n else ReversibleBlocks (record_reversible (u32 (ForkDatabase.bsNum (head n) + 1)) (ForkDatabase.Block b) n)) as Hrev.
    { unfold n2, record_reversible. rewrite (sc_replaying _ _ H1), (sc_reversible _ _ H1), Hn. destruct (RePlaying n); [by apply H1|]. destruct (ReversibleBlocks n !! _); [by apply H1|done]. }
    assert (same_chain n (set_Reversible (ReversibleBlocks n) n2)) as Hc.
    { destruct H1. unfold n2, record_reversible. destruct (RePlaying n1) eqn:?; [by split; cbn; congruence|]. destruct (ReversibleBlocks n1 !! _); by split; cbn; congruence. }
    destruct Hc. split; [done..|cbn; rewrite Hdb; by apply opened_below|]. exists (ForkDatabase.Block b). done.
  - by rewrite Hdb.
Qed.

Lemma in_header_run {A} (m : M BlockHeaderState A) n b : building n b ->
  in_header m n = ((on_block (ForkDatabase.set_bhs (m (ForkDatabase.bhs b)).1) n).1, (m (ForkDatabase.bhs b)).2) /\
  building (in_header m n).1 (ForkDatabase.set_bhs (m (ForkDatabase.bhs b)).1 b) /\ DB (in_header m n).1 = DB n.
Proof.
  intros Hb. unfold in_header. rewrite (bind_eq _ _ _ _ _ (pending_block_run n b Hb)). destruct (m (ForkDatabase.bhs b)) as [h r].
  rewrite (bind_eq (on_block (ForkDatabase.set_bhs h)) _ n (on_block (ForkDatabase.set_bhs h) n).1 tt) by done. cbn [fst snd]. split; [done|]. split; [|done].
  destruct Hb as (p & Hp & Hb). exists (set_PendingBlock (ForkDatabase.set_bhs h b) p). unfold lift, on_block, on_pending, modify. cbn. rewrite Hp. cbn. by rewrite Hb.
Qed.

Lemma createBlockSummary_lookup id s s' : createBlockSummary id s = Ok s' -> s' !! Z.land (NumFromID id) 0xffff = Some id.
Proof.
  unfold createBlockSummary. generalize (Z.land (NumFromID id) 0xffff). cbv zeta. intros k Hs. destruct (s !! k); [|done].
  injection Hs as Hs. rewrite <- Hs. apply lookup_insert_eq.
Qed.

(** The last world that was written has the id under its number. *)
Definition summary_written (id : Sha256) (d : LDataBase D) : Prop :=
  exists w d0, d = save w d0 /\ wSummaries w !! Z.land (NumFromID id) 0xffff = Some id.

(** The id of a finalized block is recorded under its number. *)
Lemma FinalizeBlock_Ok n1 n2 : FinalizeBlock n1 = (n2, Ok tt) -> exists b id, building n2 b /\ BlockID (hdr (ForkDatabase.bhs b)) = Ok id /\
  summary_written id (DB n2).
Proof.
  unfold FinalizeBlock. intros Hrun.
  apply run_bind in Hrun as (m1 & c1 & _ & Hrun). apply run_bind in Hrun as (m2 & c2 & _ & Hrun). apply run_bind in Hrun as (m3 & c3 & _ & Hrun).
  apply run_bind in Hrun as (m4 & c4 & _ & Hrun). apply run_bind in Hrun as (m5 & c5 & _ & Hrun). apply run_bind in Hrun as (m6 & c6 & _ & Hrun).
  apply run_bind in Hrun as (m7 & c7 & _ & Hrun). apply run_bind in Hrun as (m8 & c8 & _ & Hrun). apply run_bind in Hrun as (m9 & b & Hb & Hrun).
  assert (building m8 b /\ m9 = m8) as [Hbb ->].
  { unfold pending_block, pending in Hb. apply run_bind in Hb as (? & p & Hb1 & Hb). apply run_bind in Hb1 as (? & ? & Hb0 & Hb1).
    apply run_get in Hb0 as [-> ->]. apply run_lift in Hb1 as [-> Hb1]. apply run_lift in Hb as [-> Hb]. destruct (Pending m8) as [q|] eqn:Hq; [|done].
    injection Hb1 as ->. destruct (PendingBlock p) as [b'|] eqn:Hb'; [|done]. injection Hb as ->. split; [by exists p|done]. }
  apply run_bind in Hrun as (m10 & id & Hid & Hrun). apply run_lift in Hid as [-> Hid].
  apply run_bind in Hrun as (m11 & u & Hset & Hrun). destruct (in_header_run (modify (set_BlockId id)) m8 b Hbb) as (_ & Hbb2 & Hdb). rewrite Hset in Hbb2, Hdb.
  apply run_bind in Hrun as (m12 & n' & Hg & Hrun). apply run_get in Hg as [-> ->]. apply run_bind in Hrun as (m13 & sum & Hsum & Hrun). apply run_lift in Hsum as [-> Hsum].
  apply run_modify in Hrun as ->. exists (ForkDatabase.set_bhs (set_BlockId id (ForkDatabase.bhs b)) b), id. split; [done|]. split; [done|].
  apply createBlockSummary_lookup in Hsum. by eexists _, _.
Qed.

(** The block that was asked for has been applied. *)
Definition applied (b : SignedBlock) (n n' : Node) : Prop :=
  committed (map rHeader (ForkDatabase.Transactions b)) n n' /\
  exists id, BlockID (Embedded (ForkDatabase.sbHeader b)) = Ok id /\ summary_written id (DB n').

Definition body_post (b : SignedBlock) (n : Node) (x : Node * result unit) : Prop :=
  match x.2 with Ok _ => applied b n x.1 | Throw _ => restored n x.1 \/ in_session n x.1 end.

Lemma in_block_throw {A} (b : SignedBlock) s l n n1 (m : M Node A) (k : A -> M Node unit) : keeps (inside false) m -> in_block s false l n n1 ->
  (forall a n2, m n1 = (n2, Ok a) -> body_post b n (k a n2)) -> body_post b n ((m ≫= k) n1).
Proof.
  intros Hm H1 Hk. pose proof (Hm n1 (in_block_ready _ _ _ _ _ H1)) as Hs. unfold mbind, M_bind. destruct (m n1) as [n2 [a|e]]; [by apply Hk|].
  right. destruct (in_block_grows _ _ _ _ _ _ H1 Hs) as [l' H2]. by eapply in_block_session.
Qed.

Lemma apply_body_run b s n : (exists l, containers (DB n) l) -> plain_deferred -> plain_block b -> Pending n = None -> SkipDbSession (flags n) s = false -> body_post b n (apply_body b s n).
Proof.
  intros Hst Hd Hb Hp Hskip. assert (restored n n) as Hn by by apply restored_refl. unfold apply_body. cbv zeta.
  destruct (len (ForkDatabase.BlockExtensions b) =? 0); [rewrite (bind_eq _ _ _ n tt) by done|by rewrite (bind_throw _ _ _ n BlockValidateException) by done; left].
  destruct (BlockID (Embedded (ForkDatabase.sbHeader b))) as [pid|e] eqn:Hid; [rewrite (bind_eq _ _ _ n pid) by done|by rewrite (bind_throw _ _ _ n e) by done; left].
  match goal with |- context [startBlock ?w ?k s pid] => pose proof (startBlock_spec w k s pid n Hst Hp Hskip) as H1; cbv zeta in H1; destruct (startBlock w k s pid n) as [n1 [[]|e]] eqn:Hs end;
    [rewrite (bind_eq _ _ _ _ _ Hs)|rewrite (bind_throw _ _ _ _ _ Hs); by left]. cbn [fst snd] in H1.
  eapply in_block_throw; [by apply keeps_apply_receipts|done|intros [] n2 H2]. pose proof (apply_receipts_Ok _ _ _ Hd Hb _ _ _ H1 H2) as H3. cbn [app] in H3.
  eapply in_block_throw; [framed|done|intros [] n3 H4]. destruct (FinalizeBlock_Ok _ _ H4) as (b3 & id3 & Hb3 & Hid3 & Hsum).
  pose proof (in_block_keeps _ _ _ _ _ _ H3 (keeps_FinalizeBlock true)) as H5. rewrite H4 in H5. cbn [fst] in H5.
  rewrite (bind_eq _ _ _ _ _ (pending_block_run _ _ Hb3)), Hid3. rewrite (bind_eq _ _ _ n3 id3) by done.
  destruct (bool_decide (pid = id3)) eqn:Heq; [|rewrite (bind_throw _ _ _ n3 BlockValidateException) by done; right; by eapply in_block_session].
  apply bool_decide_eq_true in Heq as <-. rewrite (bind_eq _ _ _ n3 tt) by done.
  match goal with |- context [in_header ?m ≫= ?k] => destruct (in_header_run m n3 b3 Hb3) as (Hr & _ & Hdb); pose proof (in_block_keeps _ _ _ _ _ (in_header m) H5) as H6 end.
  rewrite (bind_eq _ _ _ _ _ Hr). rewrite Hr in H6, Hdb. cbn [fst snd] in *.
  specialize (H6 ltac:(by apply keeps_in_header)). destruct (CommitBlock_false_run s _ n _ Hst H6) as (n4 & -> & Hc & Hw). split; [done|]. exists pid. split; [done|].
  cbn [fst]. by rewrite Hw, Hdb.
Qed.

(** A block is applied or it leaves no trace, whatever its transactions do. *)
Lemma applyBlock_run b s n : (exists l, containers (DB n) l) -> plain_deferred -> plain_block b -> Pending n = None -> SkipDbSession (flags n) s = false ->
  match applyBlock b s n with (n', Ok _) => applied b n n' | (n', Throw e) => caught e = true -> restored n n' end.
Proof.
  intros Hst Hd Hb Hp Hskip. unfold applyBlock. rewrite try_catch_eq. pose proof (apply_body_run b s n Hst Hd Hb Hp Hskip) as Hpost. unfold body_post in Hpost.
  destruct (apply_body b s n) as [n1 [[]|e]]; [done|]. cbn [fst snd] in Hpost. destruct (caught e) eqn:Hc; [|by rewrite Hc].
  destruct Hpost as [Hr|Hs].
  - rewrite (bind_eq _ _ _ _ _ (AbortBlock_none n1 (re_pending _ _ Hr))). cbn. by intros _.
  - destruct (AbortBlock_restored n n1 Hst Hs) as (n2 & Ha & Hr & _). rewrite (bind_eq _ _ _ _ _ Ha). cbn. by intros _.
Qed.

(** *** Forks *)

(** The marks of the blocks change, and some may go; none becomes irreversible. *)
Record marks_only (f f' : ForkDb) : Prop := {
  mo_irreversible : ForkDatabase.Irreversible f' = ForkDatabase.Irreversible f;
  mo_bhs p : ForkDatabase.bhs (ForkDatabase.heap f' p) = ForkDatabase.bhs (ForkDatabase.heap f p);
  mo_block p : ForkDatabase.Block (ForkDatabase.heap f' p) = ForkDatabase.Block (ForkDatabase.heap f p) }.

#[local] Instance marks_only_preorder : PreOrder marks_only.
Proof. split; [done|]. intros f g h [H1 H2 H3] [H4 H5 H6]. split; [congruence|intros p; by rewrite H5|intros p; by rewrite H6]. Qed.

Lemma store_marks p b f : ForkDatabase.bhs b = ForkDatabase.bhs (ForkDatabase.heap f p) -> ForkDatabase.Block b = ForkDatabase.Block (ForkDatabase.heap f p) ->
  marks_only f (ForkDatabase.store p b f).
Proof. intros Hb Hl. split; [done|intros q|intros q]; cbn; by destruct (decide (q = p)) as [->|]. Qed.

Lemma keeps_MarkInCurrentChain p v : keeps marks_only (ForkDatabase.MarkInCurrentChain p v).
Proof.
  unfold ForkDatabase.MarkInCurrentChain. apply kept_bind; [apply _|framed|intros f]. apply keeps_if; [framed|].
  destruct (ForkDatabase.Find _ f) as [q|]; [|framed]. intros g. etrans; [by apply (store_marks q (ForkDatabase.set_InCurrentChain v (ForkDatabase.heap g q)))|]. by split.
Qed.

Lemma keeps_remove_loop fuel : forall q, keeps marks_only (ForkDatabase.remove_loop (Receipt := TransactionReceipt) (Trx := TransactionMetadata) fuel q).
Proof.
  induction fuel as [|fuel IH]; intros [|id q]; cbn; [framed..|]. apply kept_bind; [apply _| |intros _].
  - intros f. cbn. by case_match; split.
  - apply kept_bind; [apply _|framed|intros f]. apply IH.
Qed.

Lemma keeps_SetValidity p v : keeps marks_only (ForkDatabase.SetValidity p v).
Proof.
  unfold ForkDatabase.SetValidity, ForkDatabase.Remove. intros f. rewrite (bind_eq _ _ _ f f) by done. destruct (negb v); [|by apply store_marks].
  match goal with |- marks_only _ (?m f).1 => assert (keeps marks_only m) as Hm end; [|apply Hm].
  apply kept_bind; [apply _|framed|intros g]. apply kept_bind; [apply _|apply keeps_remove_loop|intros _].
  apply kept_bind; [apply _|framed|intros h]. apply kept_bind; [apply _|framed|intros q]. by intros k.
Qed.

(** Such an operation changes the fork database only. *)
Lemma in_fork_marks {A} (m : M ForkDb A) n : keeps marks_only m -> in_fork m n = (set_ForkDB (m (ForkDB n)).1 n, (m (ForkDB n)).2).
Proof.
  intros Hm. specialize (Hm (ForkDB n)). unfold in_fork. rewrite (bind_eq _ _ _ n n) by done. destruct (m (ForkDB n)) as [f r]. cbn [fst snd] in *.
  rewrite (bind_eq _ _ _ (set_ForkDB f n) tt) by done. rewrite (mo_irreversible _ _ Hm), drop_all. done.
Qed.

Definition plain_fork (f : ForkDb) : Prop := forall p, plain_block (ForkDatabase.Block (ForkDatabase.heap f p)).
Lemma plain_fork_marks f f' : marks_only f f' -> plain_fork f -> plain_fork f'.
Proof. intros Hm Hp p. rewrite (mo_block _ _ Hm). apply Hp. Qed.

(** The sessions up to a block, and the revision after it. *)
Definition Base : Type := list Database.undoContainer * Z.

(** The sessions of [base] as they are, and those of [k] blocks on top of them. *)
Definition over (base : Base) (k : nat) (n : Node) : Prop :=
  Pending n = None /\ plain_fork (ForkDB n) /\ i64 (reversion (DB n)) = i64 (base.2 + Z.of_nat k) /\
  exists l, length l = k /\ containers (DB n) (base.1 ++ l).

(** After a failure there are at least [lo] blocks. *)
Definition fork_post (base : Base) (lo : nat) (P : Node -> Prop) (x : Node * result unit) : Prop :=
  match x.2 with Ok _ => P x.1 | Throw e => caught e = true -> exists j, over base (lo + j) x.1 end.

Lemma fork_bind base lo (P Q : Node -> Prop) (m : M Node unit) k n :
  fork_post base lo P (m n) -> (forall n', P n' -> fork_post base lo Q (k tt n')) -> fork_post base lo Q ((m ≫= k) n).
Proof. unfold fork_post at 1, mbind, M_bind. destruct (m n) as [n' [[]|e]]; cbn; [|done]. intros HP Hk. by apply Hk. Qed.

Lemma fork_weaken base lo lo' (P Q : Node -> Prop) x : (lo' <= lo)%nat -> (forall n, P n -> Q n) -> fork_post base lo P x -> fork_post base lo' Q x.
Proof.
  unfold fork_post. intros Hlo HPQ. destruct (x.2); [auto|]. intros Hj Hc. destruct (Hj Hc) as [j Ho]. exists (lo - lo' + j)%nat.
  by replace (lo' + (lo - lo' + j))%nat with (lo + j)%nat by lia.
Qed.

Lemma fork_lower base lo lo' (P : Node -> Prop) x : (lo' <= lo)%nat -> fork_post base lo P x -> fork_post base lo' P x.
Proof. intros Hlo. by apply fork_weaken. Qed.

Lemma over_add base k n : over base k n -> exists j, over base (k + j) n.
Proof. exists 0%nat. by rewrite Nat.add_0_r. Qed.
Lemma over_any base k n : over base k n -> exists j, over base (0 + j) n.
Proof. by exists k. Qed.

Lemma over_marks base k n f : over base k n -> marks_only (ForkDB n) f -> over base k (set_ForkDB f n).
Proof. intros (H1 & H2 & H3) Hm. split; [done|]. split; [by eapply plain_fork_marks|done]. Qed.

Lemma in_fork_over base k n (m : M ForkDb unit) h : keeps marks_only m -> over base k n -> HeadBlock n = h ->
  fork_post base k (fun n' => over base k n' /\ HeadBlock n' = h) (in_fork m n).
Proof.
  intros Hm Ho Hh. rewrite in_fork_marks by done. unfold fork_post. cbn [fst snd]. pose proof (over_marks _ _ _ _ Ho (Hm (ForkDB n))) as Ho'.
  destruct (_.2); [done|]. intros _. by apply over_add.
Qed.

Lemma applyBlock_over base k n b s : plain_deferred -> over base k n -> plain_block b -> s <> Controller.Irreversible ->
  fork_post base k (over base (S k)) (applyBlock b s n).
Proof.
  intros Hd (Hp & Hf & Hrev & l & Hl & Hst) Hb Hs. pose proof (applyBlock_run b s n (ex_intro _ _ Hst) Hd Hb Hp) as Ha.
  assert (SkipDbSession (flags n) s = false) as Hskip by (unfold SkipDbSession; by rewrite bool_decide_eq_false_2). specialize (Ha Hskip).
  unfold fork_post. destruct (applyBlock b s n) as [n' [[]|e]]; cbn.
  - destruct Ha as [[H1 H2 H3 H4 (l' & c & Ho) _] _]. split; [done|]. rewrite H2. split; [done|]. destruct Ho as [Hl' Hc _ _ Hr _].
    split; [rewrite Hr; revert Hrev; rewrite Nat2Z.inj_succ; word_lia|]. rewrite (containers_inj _ _ _ Hl' Hst), <- app_assoc in Hc.
    exists (l ++ [c]). split; [rewrite length_app; cbn; lia|done].
  - intros Hc. destruct (Ha Hc) as [Hch H2 H3 H4 _ _]. apply over_add. split; [done|]. split; [by rewrite (sc_fork _ _ Hch)|]. split; [by rewrite H4|].
    exists l. split; [done|]. unfold DbSession.containers. by rewrite H3.
Qed.

Lemma apply_at_over base k n p s : plain_deferred -> over base k n -> (forall b, s b <> Controller.Irreversible) ->
  fork_post base k (fun n' => over base (S k) n' /\ HeadBlock n' = p) (apply_at p s n).
Proof.
  intros Hd Ho Hs. unfold apply_at. rewrite (bind_eq _ _ _ n n) by done. eapply fork_bind; [apply (applyBlock_over base k); [done|done|apply Ho|apply Hs]|].
  intros n1 H1. rewrite (bind_eq _ _ _ (set_HeadBlock p n1) tt) by done. eapply (fork_lower base (S k)); [lia|].
  by apply in_fork_over; [apply keeps_MarkInCurrentChain|..].
Qed.

(** A pop takes the topmost block away. *)
Lemma PopBlock_over base k n : over base (S k) n -> fork_post base 0 (over base k) (PopBlock n).
Proof.
  intros Ho. unfold PopBlock. rewrite (bind_eq _ _ _ n n) by done. destruct (ForkDatabase.GetBlock _ _) as [prev|]; [|intros _; by eapply over_any].
  destruct (negb _); [rewrite (bind_eq _ _ _ n tt) by done|intros _; by eapply over_any].
  match goal with |- context [(modify ?f ≫= _) n] => rewrite (bind_eq _ _ _ (f n) tt) by done; set (n1 := f n) end.
  assert (over base (S k) n1) as H1 by done. clearbody n1.
  match goal with |- context [(?m ≫= _) n1] => assert (exists n2, m n1 = (n2, Ok tt) /\ over base (S k) n2) as (n2 & Hm & H2) end.
  { destruct (bool_decide _); eexists; by split. }
  rewrite (bind_eq _ _ _ _ _ Hm), (bind_eq _ _ _ (set_HeadBlock prev n2) tt) by done. destruct H2 as (Hp & Hf & Hrev & l & Hl & Hst).
  destruct l as [|c l _] using rev_ind; [done|]. rewrite length_app in Hl. cbn in Hl. rewrite app_assoc in Hst.
  destruct (DbSession.Undo_exec (DB n2) _ _ Hst) as (x & E & _). unfold in_db. cbn [DB set_HeadBlock]. rewrite E.
  split; [done|]. split; [done|]. split; [cbn; revert Hrev; rewrite Nat2Z.inj_succ; word_lia|]. exists l. split; [lia|done].
Qed.

Lemma pop_branch_over base k bl : forall n, over base (length bl + k) n -> fork_post base 0 (over base k) (pop_branch bl n).
Proof.
  induction bl as [|p bl IH]; intros n Ho; [done|]. cbn [pop_branch].
  eapply fork_bind; [eapply fork_lower; [|by eapply in_fork_over; [apply keeps_MarkInCurrentChain|..]]; lia|]. intros n1 [H1 _].
  eapply fork_bind; [by apply (PopBlock_over base (length bl + k))|]. intros n2 H2. by apply IH.
Qed.

Lemma is_previous_over base k n bl : over base k n -> fork_post base 0 (fun n' => n' = n) (is_previous bl n).
Proof.
  intros Ho. unfold is_previous. rewrite (bind_eq _ _ _ n n) by done. destruct (last bl); [|intros _; by eapply over_any]. unfold assertM, lift, EosAssert.
  destruct (bool_decide _); [done|]. intros _. by eapply over_any.
Qed.

Lemma apply_again_over base bl : plain_deferred -> forall k n, over base k n -> fork_post base 0 (fun n' => exists k', over base k' n') (apply_again bl n).
Proof.
  intros Hd. induction bl as [|p bl IH]; intros k n Ho; [by exists k|]. cbn [apply_again].
  eapply fork_bind; [eapply fork_lower; [|by apply (apply_at_over base k)]; lia|]. intros n1 [H1 _]. by eapply IH.
Qed.

Lemma apply_branch_over base second : plain_deferred -> forall todo done_ n, over base (length done_) n ->
  fork_post base 0 (fun n' => over base (length todo + length done_) n' /\ HeadBlock n' = default (HeadBlock n) (last todo)) (apply_branch todo done_ second n).
Proof.
  intros Hd. induction todo as [|p todo IH]; intros done_ n Ho; [done|]. cbn [apply_branch]. rewrite attempt_bind.
  set (m := apply_at p _). assert (fork_post base (length done_) (fun n' => over base (S (length done_)) n' /\ HeadBlock n' = p) (m n)) as Hm.
  { apply apply_at_over; [done..|]. intros b. by destruct (ForkDatabase.Validated b). }
  destruct (m n) as [n1 [[]|e]]; unfold fork_post in Hm; cbn [fst snd] in *.
  - destruct Hm as [H1 H2]. eapply fork_weaken; [done| |by apply (IH (p :: done_))]. cbn. intros n2 [H3 H4]. rewrite Nat.add_succ_r in H3. split; [done|].
    rewrite H4, H2, last_cons. by destruct (last todo).
  - destruct (caught e) eqn:Hc; [|by unfold fork_post; cbn; rewrite Hc]. destruct (Hm eq_refl) as [j H1].
    eapply fork_bind; [eapply fork_lower; [|by eapply in_fork_over; [apply keeps_SetValidity|..]]; lia|]. intros n2 [H2 _].
    eapply fork_bind; [by apply (pop_branch_over base j)|]. intros n3 H3. eapply fork_bind; [by eapply is_previous_over|]. intros n4 ->.
    eapply fork_bind; [by eapply apply_again_over|]. intros n5 [k' H5]. intros _. by eapply over_any.
Qed.

(** *** Produced blocks *)

(** What a producer does with a pending block. *)
Inductive work : Type :=
| WPush (trx : option TransactionMetadata) (deadLine billed : Z) | WScheduled (id : Sha256) (deadLine billed : Z)
| WFinalize | WSign (signer : Sha256 -> Signature).
Definition run_work (w : work) : M Node unit :=
  match w with
  | WPush trx deadLine billed => _ ← PushTransaction trx deadLine billed; mret tt
  | WScheduled id deadLine billed => _ ← PushScheduledTransaction id deadLine billed; mret tt
  | WFinalize => FinalizeBlock
  | WSign signer => SignBlock signer
  end.
Definition plain_work (w : work) : Prop :=
  match w with WPush (Some t) _ _ => TransactionExtensions (sTransaction (tmTrx t)) = [] | _ => True end.
(** One after the other; a failure is the producer's to handle. *)
Definition run_works : Node -> list work -> Node := foldl (fun n w => (run_work w n).1).

Lemma Sign_num signer : keeps same_num (Sign publicKey signer).
Proof. unfold Sign. repeat (apply kept_bind; [apply _| |intros ?]); framed; by intros h. Qed.

Lemma keeps_SignBlock signer : keeps (inside false) (SignBlock signer).
Proof.
  unfold SignBlock. apply kept_bind; [apply _|apply keeps_in_header, Sign_num|intros _]. apply keeps_on_block. intros b. split; [done|]. by exists []; rewrite app_nil_r.
Qed.

Lemma keeps_run_work w : plain_deferred -> plain_work w -> keeps (inside false) (run_work w).
Proof.
  intros Hd Hw. destruct w as [[t|] deadLine billed|id deadLine billed| |signer]; cbn.
  - unfold PushTransaction. framed. by apply keeps_pushTransaction; [|right].
  - unfold PushTransaction. framed.
  - unfold PushScheduledTransaction. framed. by apply keeps_pushScheduledTransactionByObject.
  - framed.
  - apply keeps_SignBlock.
Qed.

Lemma run_works_in_block s n ws : plain_deferred -> Forall plain_work ws -> forall l n1, in_block s false l n n1 -> exists l', in_block s false l' n (run_works n1 ws).
Proof.
  intros Hd Hws. induction Hws as [|w ws Hw Hws IH]; intros l n1 H1; [by exists l|]. cbn.
  pose proof (keeps_run_work w Hd Hw n1 (in_block_ready _ _ _ _ _ H1)) as Hs. destruct (in_block_grows _ _ _ _ _ _ H1 Hs) as [l2 H2]. by eapply IH.
Qed.

Lemma add_unapplied_lookup l t n : t ∈ l -> is_Some (UnappliedTransactions (add_unapplied l n) !! SignedID t).
Proof.
  unfold add_unapplied. cbn. generalize (UnappliedTransactions n) as m.
  assert (forall l (m : gmap Sha256 TransactionMetadata) k, is_Some (m !! k) -> is_Some (foldl (fun m t => <[SignedID t := t]> m) m l !! k)) as Hmono.
  { clear. induction l as [|x l IH]; intros m k Hk; [done|]. cbn. apply IH. destruct (decide (SignedID x = k)) as [<-|Hne]; [by rewrite lookup_insert_eq|by rewrite lookup_insert_ne]. }
  induction l as [|x l IH]; intros m Ht; [by apply not_elem_of_nil in Ht|]. cbn. apply elem_of_cons in Ht as [->|Ht]; [|by apply IH].
  apply Hmono. by rewrite lookup_insert_eq.
Qed.

Lemma AbortBlock_unapplied n n' p b : Pending n = Some p -> PendingBlock p = Some b -> ReadMode cfg = SPECULATIVE -> AbortBlock n = (n', Ok tt) ->
  forall t, t ∈ ForkDatabase.Trxs b -> is_Some (UnappliedTransactions n' !! SignedID t).
Proof.
  intros Hp Hb Hm Ha t Ht. unfold AbortBlock in Ha. rewrite (bind_eq _ _ _ n n) in Ha by done. rewrite Hp, Hb, Hm in Ha. cbn in Ha.
  rewrite (bind_eq _ _ _ (add_unapplied (ForkDatabase.Trxs b) n) tt) in Ha by done. unfold Reset in Ha.
  apply run_bind in Ha as (n1 & q & Hq & Ha). unfold pending in Hq. apply run_bind in Hq as (n2 & ? & Hg & Hq). apply run_get in Hg as [-> ->].
  apply run_lift in Hq as [-> _]. destruct (psSession q) as [live|]; [|by apply run_lift in Ha as [_ ?]].
  apply run_bind in Ha as (n3 & u & Hu & Ha). apply run_modify in Ha as ->. cbn. unfold close_session, in_db in Hu. destruct live.
  - destruct (Database.Undo_ _) as [d r]. injection Hu as <- _. by apply add_unapplied_lookup.
  - apply run_ret in Hu as [-> _]. by apply add_unapplied_lookup.
Qed.

Lemma accept_head n p : ForkDatabase.GetBlock (ForkDatabase.bsId (ForkDatabase.heap (ForkDB n) p)) (ForkDB n) = Some p ->
  exists f', (_ ← in_fork (ForkDatabase.MarkInCurrentChain p true); _ ← in_fork (ForkDatabase.SetValidity p true); modify (set_HeadBlock p)) n =
    (set_HeadBlock p (set_ForkDB f' n), Ok tt) /\ ForkDatabase.Validated (ForkDatabase.heap f' p) = true /\ ForkDatabase.InCurrentChain (ForkDatabase.heap f' p) = true.
Proof.
  intros Hf. set (f := ForkDB n). assert (exists f1, ForkDatabase.MarkInCurrentChain p true f = (f1, Ok tt) /\ ForkDatabase.InCurrentChain (ForkDatabase.heap f1 p) = true) as (f1 & Hm & Hc).
  { unfold ForkDatabase.MarkInCurrentChain. rewrite (bind_eq _ _ _ f f) by done. destruct (ForkDatabase.InCurrentChain (ForkDatabase.heap f p)) eqn:E; [by exists f|].
    unfold f. unfold ForkDatabase.GetBlock in Hf. rewrite Hf. eexists. split; [done|]. cbn. by rewrite decide_True. }
  exists (ForkDatabase.store p (ForkDatabase.set_Validated true (ForkDatabase.heap f1 p)) f1). split; [|cbn; by rewrite decide_True].
  pose proof (in_fork_marks _ n (keeps_MarkInCurrentChain p true)) as H1. fold f in H1. rewrite Hm in H1. rewrite (bind_eq _ _ _ _ _ H1).
  pose proof (in_fork_marks _ (set_ForkDB f1 n) (keeps_SetValidity p true)) as H2. cbn in H2. by rewrite (bind_eq _ _ _ _ _ H2).
Qed.

(** *** What the controller promises *)



Lemma take_drop_over n k l : plain_fork (ForkDB n) -> Pending n = None -> containers (DB n) l -> (k <= length l)%nat ->
  over (take (length l - k) l, reversion (DB n) - Z.of_nat k) (k + 0) n.
Proof.
  intros Hf Hp Hl Hk. split; [done|]. split; [done|]. cbn [fst snd]. split; [f_equal; lia|].
  exists (drop (length l - k) l). rewrite take_drop, length_drop. split; [lia|done].
Qed.


(** ** Where the code does not do what it means to *)

(** The key of a native handler is a sum, so the handler of an action is also found for
    another receiver and another action: with the names of the receiver and of the action
    exchanged, an ordinary account named like a native action runs it. *)
Theorem handler_found_for_others {H} receiver contract action (h : H) m m' :
  SetApplayHandler receiver contract action h m = Ok m' -> FindApplyHandler action contract receiver m' = Ok (Some h).
Proof.
  unfold SetApplayHandler, FindApplyHandler, handlerKey. intros Hs. apply bind_Ok in Hs as (k & Hk & Hs). injection Hs as <-.
  replace (action + contract + receiver) with (receiver + contract + action) by lia. rewrite Hk, Ok_bind. by rewrite lookup_insert_eq.
Qed.

(** A deferred transaction that is taken out of the database is billed to its payer again
    and not given back. *)
Theorem remove_scheduled_charges gto c c' : 0 <= PackedSize gto < 2 ^ 32 ->
  RemoveScheduledTransaction gto c = (c', Ok tt) -> exists u u', ResourceLimits.usages (resources c) !! genPayer gto = Some u /\
    ResourceLimits.usages (resources c') !! genPayer gto = Some u' /\
    ResourceLimits.RamUsage u' = u64 (ResourceLimits.RamUsage u + (9 + PackedSize gto)).
Proof.
  intros Hsize Hrun. unfold RemoveScheduledTransaction in Hrun. apply run_bind in Hrun as (c1 & [] & H1 & H2).
  apply run_in_resources in H1 as (d & H1 & ->). apply run_in_perms in H2 as (q & _ & ->). unfold ResourceLimits.AddPendingRamUsage in H1.
  assert (i64 (9 + PackedSize gto) = 9 + PackedSize gto) as E by word_lia. rewrite E in H1.
  rewrite (proj2 (Z.eqb_neq _ _)) in H1 by lia. apply run_bind in H1 as (d1 & u & Hu & H1). unfold ResourceLimits.find_usage in Hu.
  apply run_bind in Hu as (d2 & d3 & Hg & Hu). apply run_get in Hg as [-> ->]. apply run_lift in Hu as [-> Hu].
  destruct (ResourceLimits.usages (resources c) !! genPayer gto) as [u0|] eqn:Hl; [|done]. injection Hu as ->.
  apply run_bind in H1 as (d4 & [] & Ha & H1). apply run_assert in Ha as [_ ->]. apply run_bind in H1 as (d5 & [] & Ha & H1). apply run_assert in Ha as [_ ->].
  apply run_modify in H1 as ->. eexists u, _. split; [done|]. cbn. rewrite lookup_insert_eq. split; [done|]. cbn. word_lia.
Qed.

(** A transaction with an extension is refused after its session is open: the session stays,
    and the end of the block undoes that one instead of its own.  After the block is aborted
    its session is still there, and the store holds what the block wrote. *)
Theorem extension_leaks_session s l n n1 trx deadLine billed explicit : in_block s false l n n1 -> SkipDbSessions (flags n1) = false ->
  TransactionExtensions (sTransaction (tmTrx trx)) <> [] -> deadLine <> 0 ->
  exists n2 n3, pushTransaction trx deadLine billed explicit n1 = (n2, Throw UnsupportedFeature) /\ AbortBlock n2 = (n3, Ok tt) /\ Pending n3 = None /\
    Database.stack (DB n3) = Database.stack (DB n1) /\ forall k, DbTable.view (DB n3) k = DbTable.view (DB n1) k.
Proof.
  intros [H1 (l1 & l2 & _ & Hl2 & _) (p & b & Hp & Hs & Hst & Hv & Hb & Hn & Hl)] Hskip Hext Hd.
  set (n2 := started true (set_ticks (S (ticks n1)) n1)). exists n2.
  assert (pushTransaction trx deadLine billed explicit n1 = (n2, Throw UnsupportedFeature)) as Hpush.
  { unfold pushTransaction. rewrite (bind_eq _ _ _ n1 tt) by (unfold assertM, lift; by rewrite (proj2 (Z.eqb_neq _ _))).
    rewrite (bind_eq _ _ _ (set_ticks (S (ticks n1)) n1) (clock (ticks n1))) by done. set (n0 := set_ticks _ n1). rewrite (bind_eq _ _ _ n0 n0) by done.
    apply bind_throw. unfold new_context. rewrite (bind_eq _ _ _ n0 n0) by done. change (SkipDbSessions (flags n0)) with (SkipDbSessions (flags n1)). rewrite Hskip.
    rewrite (bind_eq _ _ _ n2 tt) by done. rewrite (bind_eq _ _ _ n2 b) by (apply pending_block_run; by exists p).
    unfold lift, NewTransactionContext, EosAssert. destruct (TransactionExtensions (sTransaction (tmTrx trx))) as [|x ext]; [done|].
    rewrite (proj2 (Z.eqb_neq _ _)); [done|]. unfold len. cbn [length]. lia. }
  assert (exists n2', (n2' = n2 \/ n2' = add_unapplied (ForkDatabase.Trxs b) n2) /\ AbortBlock n2 = Reset n2') as (n2' & Hn2 & Ha).
  { unfold AbortBlock. rewrite (bind_eq _ _ _ n2 n2) by done. assert (Pending n2 = Some p) as -> by done. rewrite Hb. destruct (bool_decide _).
    - eexists. split; [by right|]. done.
    - exists n2. split; [by left|]. done. }
  assert (DB n2' = opened_db (DB n1)) as Hdb by (by destruct Hn2 as [-> | ->]).
  destruct (DbSession.StartSession_exec (DB n1) l2 Hl2) as (d1 & E1 & Hc1 & Hdb1 & _). assert (opened_db (DB n1) = d1) as Hd1 by (unfold opened_db; by rewrite E1).
  destruct (DbSession.Undo_exec d1 l2 _ Hc1) as (x & E & Hx). exists (set_Pending None (set_DB (Database.Undo_ d1).1 n2')). split; [done|]. rewrite Ha. split; [|split; [done|]].
  - unfold Reset. assert (pending n2' = (n2', Ok p)) as Hpp by (unfold pending, mbind, M_bind, get, lift; destruct Hn2 as [-> | ->]; cbn; by rewrite Hp).
    rewrite (bind_eq _ _ _ _ _ Hpp), Hs.
    assert (close_session true Database.Undo_ n2' = (set_DB (Database.Undo_ d1).1 n2', Ok tt)) as Hcl by (unfold close_session, in_db; by rewrite Hdb, Hd1, E).
    by rewrite (bind_eq _ _ _ _ _ Hcl).
  - rewrite E. cbn. split; [by rewrite Hl2|]. intros k. unfold DbTable.view at 1. cbn. rewrite Hx, undo_at_new. unfold DbTable.view. by rewrite Hdb1.
Qed.

(** The pending state of a block without a session, as in a replay, cannot be ended: its
    session is a nil pointer. *)
Theorem commit_without_session_panics n p b : Pending n = Some p -> PendingBlock p = Some b -> psSession p = None ->
  (CommitBlock false n).2 = Throw NilDereference /\ (AbortBlock n).2 = Throw NilDereference.
Proof.
  intros Hp Hb Hs. split.
  - unfold CommitBlock, finally. set (n2 := if RePlaying n then n else record_reversible (ForkDatabase.bsNum b) (ForkDatabase.Block b) n).
    assert (Pending n2 = Some p) as Hp2 by (unfold n2, record_reversible; destruct (RePlaying n); [done|]; by destruct (ReversibleBlocks n !! _)).
    match goal with |- context [try_catch ?m ?h] => assert (try_catch m h n = (n2, Ok tt)) as Hm end.
    { rewrite try_catch_eq. rewrite (bind_eq _ _ _ n tt) by done. rewrite (bind_eq _ _ _ n n) by done. unfold n2, record_reversible.
      destruct (RePlaying n); [done|]. rewrite (bind_eq _ _ _ _ _ (pending_block_run n b (ex_intro _ p (conj Hp Hb)))). unfold modify. cbv zeta.
      by destruct (ReversibleBlocks n !! ForkDatabase.bsNum b). }
    rewrite (bind_eq _ _ _ _ _ Hm). assert (pending n2 = (n2, Ok p)) as Hpp by (unfold pending, mbind, M_bind, get, lift; by rewrite Hp2).
    rewrite (bind_eq _ _ _ _ _ Hpp). unfold on_pending, modify. rewrite Hp2. cbn [fmap option_fmap option_map]. by rewrite Hs.
  - unfold AbortBlock. rewrite (bind_eq _ _ _ n n) by done. rewrite Hp, Hb. destruct (bool_decide _);
      [rewrite (bind_eq _ _ _ (add_unapplied (ForkDatabase.Trxs b) n) tt) by done|rewrite (bind_eq _ _ _ n tt) by done];
      unfold Reset, pending, mbind, M_bind, get, lift; cbn; rewrite Hp; cbn; by rewrite Hs.
Qed.

(** What an observer sees stays. *)
Definition same_of {X} (f : Node -> X) (n n' : Node) : Prop := f n' = f n.
#[local] Instance same_of_preorder {X} (f : Node -> X) : PreOrder (same_of f).
Proof. split; [done|]. unfold same_of. intros a b c. congruence. Qed.

Definition seen_actions (n : Node) : option (list ActionReceipt) := psActions <$> Pending n.
Definition seen_block (n : Node) : option SignedBlock := p ← Pending n; ForkDatabase.Block <$> PendingBlock p.

Lemma same_in_header {A} (m : M BlockHeaderState A) : keeps (same_of seen_block) (in_header m).
Proof.
  unfold in_header, pending_block, pending. repeat (apply kept_bind; [apply _| |intros ?]); [framed..|]. destruct (m _) as [h r].
  apply kept_bind; [apply _| |intros ?; framed]. intros n. unfold same_of, seen_block. cbn. destruct (Pending n) as [p|]; [|done]. cbn.
  by destruct (PendingBlock p) as [b|] eqn:Hb; cbn; [|rewrite Hb].
Qed.

Lemma same_in_chain {A} (m : M Chain A) : keeps (same_of seen_block) (in_chain m).
Proof. intros n. unfold in_chain. by destruct (m (wChain (load (DB n)))). Qed.
Lemma same_in_trx {A} t (m : M Work A) : keeps (same_of seen_actions) (in_trx t m).
Proof. intros n. unfold in_trx. by destruct (m _). Qed.
Lemma same_in_db {A} (m : M (LDataBase D) A) : keeps (same_of seen_actions) (in_db m).
Proof. intros n. unfold in_db. by destruct (m _). Qed.
#[local] Hint Resolve @same_in_header @same_in_chain @same_in_trx @same_in_db : framed.

(** [FinalizeBlock] leaves the signed block alone: the roots and the id are in the header
    state only.  [SignBlock] copies the header, [applyBlock] does not, and so the block that
    it records as reversible has a header without them. *)
Theorem finalized_block_header_stale n : seen_block (FinalizeBlock n).1 = seen_block n.
Proof.
  assert (keeps (same_of seen_block) FinalizeBlock) as Hk; [|apply Hk]. unfold FinalizeBlock, setActionMerkle, setTrxMerkle, pending_block, pending.
  repeat first [solve [auto 2 with framed typeclass_instances]|apply kept_bind; [apply _| |intros ?]|by intros m].
Qed.

(** The error handler of a deferred transaction runs, and the receipts of its actions are
    dropped: the root over the actions of the block does not cover them. *)
Theorem onerror_actions_dropped gtrx packed deadline start billed explicit n : seen_actions (applyOnerror gtrx packed deadline start billed explicit n).1 = seen_actions n.
Proof.
  assert (keeps (same_of seen_actions) (applyOnerror gtrx packed deadline start billed explicit)) as Hk; [|apply Hk].
  unfold applyOnerror, or_undo, close_session, start_session, new_context, pushReceipt, pending_time, pending_block, pending, Now.
  repeat first [solve [auto 2 with framed typeclass_instances]|apply keeps_attempt|match goal with |- keeps _ (mbind _ _) => apply kept_bind; [apply _| |intros ?] end|apply keeps_if|by intros m|case_match];
    intros m; unfold same_of, seen_actions; cbn; destruct (Pending m) as [p|]; [|done]; cbn; by destruct (PendingBlock p).
Qed.

(** The unapplied transactions that the node hands out are one and the same. *)
Theorem unapplied_all_the_same order n l : ReadMode cfg = SPECULATIVE -> GetUnappliedTransactions order n = Ok l -> forall t t', t ∈ l -> t' ∈ l -> t = t'.
Proof.
  unfold GetUnappliedTransactions. intros Hm. rewrite bool_decide_eq_true_2 by done. intros [= <-] t t'. destruct (last _); [|by intros ?%not_elem_of_nil].
  intros [-> _]%elem_of_replicate [-> _]%elem_of_replicate. done.
Qed.
End Controller.

(** The block log takes no block after 2^29, whose place in the index does not fit the
    integer that is compared. *)
Theorem log_append_overflow (block : SignedBlock) l : len l = 2 ^ 29 -> BlockNumber (Embedded (ForkDatabase.sbHeader block)) = 2 ^ 29 + 1 ->
  log_Append block l = Throw BlockLogAppendFail.
Proof. intros Hl Hb. unfold log_Append. rewrite Hl, Hb. done. Qed.

(** ** Examples *)

Module Example.
(** A node that stores its data as it is, whose transactions do nothing, over a database in
    memory: it reads always the same world, and notes each write by an account. *)
#[local] Instance stored : Zlib := {| zlib_deflate b := b; zlib_inflate b := Ok b |}.
Definition key (c : Z) (content hash : bytes) : result PublicKey := Ok PublicKey_zero.
#[local] Instance toy_ripemd : Ripemd160 := fun b => replicate 20 (u8 (len b)).
Definition update (b : bytes) : UpdateAuth := mkUpdateAuth 0 0 0 (mkAuthority 0 [] [] []).
Definition delete_ (b : bytes) : DeleteAuth := mkDeleteAuth 0 0.
Definition link (b : bytes) : LinkAuth := mkLinkAuth 0 0 0 0.
Definition unlink (b : bytes) : UnLinkAuth := mkUnLinkAuth 0 0 0.
Definition cancel (b : bytes) : CancelDelay := mkCancelDelay (mkPermissionLevel 0 0) NewSha256Nil.
Definition levels (m : gmap PermissionLevel Z) : list (PermissionLevel * Z) := map_to_list m.
Definition digest (u : unit) : Sha256 := NewSha256Nil.
Definition clock (k : nat) : Z := Z.of_nat k.
Definition config (m : DBReadMode) : Config := mkConfig m false false FULL [] (mkLists [] [] [] [] []) [] NewSha256Nil 0.
Definition exec (t : Transaction) : M (@Work unit) (list unit) := mret [].
Definition dispatch (a : Action) (receiver : Z) : M (@Work unit) (list unit) := mret [].
Definition packed (w : World unit) (id : Z) : bytes := [].
Definition no_trx : Transaction := mkTransaction (mkTransactionHeader 0 0 0 0 0 0) [] [] [].
Definition decode (b : bytes) : SignedTransaction := mkSignedTransaction no_trx [] [].

Definition id (k : Z) : Sha256 := mkSha256 k 0 0 0.
(** A block of number [num] on top of another, with extensions or without. *)
Definition block (k previous num : Z) (extensions : list BlockHeader.Extension) : BlockState :=
  let h := mkSignedBlockHeader (mkBlockHeader num 5 0 (id previous) NewSha256Nil NewSha256Nil 0 None []) Signature_zero in
  ForkDatabase.mkBlockState
    (mkBlockHeaderState (id k) num h 0 0 0 0 NewSha256Nil ProducerScheduleType_zero example_schedule empty_tree ∅ ∅ PublicKey_zero [] [])
    (ForkDatabase.mkSignedBlock h [] extensions) true true [].

Definition world_0 (w : Z) : World unit := mkWorld (empty_chain (empty_perms w 0 0)) [] ∅ (mkProposal 0 0 []) DefaultConfig tt.
Definition fork (heap : list BlockState) (h : ptr) (index : list ptr) : ForkDb :=
  let at_ p := nth (Pos.to_nat p - 1) heap (block 0 0 0 []) in
  ForkDatabase.mkForkDatabase at_ (ForkDatabase.mkMultiIndex (list_to_map (map (fun p => (ForkDatabase.bsId (at_ p), p)) index)) index index index) (Some h) [].

Notation store := (gmap bytes bytes).
#[local] Instance state_store : StateStore store unit := {|
  load d := world_0 9; save w d := (Database.Insert (DbTable.ref (DbSession.account 0 7 1)) d).1 |}.
#[local] Instance state_store_laws : StateStoreLaws store unit.
Proof. intros w d. apply rtc_once, DbSession.write_insert. Qed.

(** A database with [k] open sessions. *)
Definition db_at (k : nat) : LDataBase store := Nat.iter k (fun d => (Database.StartSession d).1) DbSession.empty_db.
Lemma db_at_stack k : exists l, containers (db_at k) l.
Proof.
  induction k as [|k [l Hl]]; [by exists []|]. destruct (DbSession.StartSession_exec _ _ Hl) as (d & E & Hd & _). eexists.
  change (db_at (S k)) with (Database.StartSession (db_at k)).1. rewrite E. exact Hd.
Qed.

Definition node (f : ForkDb) (h : ptr) (k : nat) : Node store unit :=
  mkNode (db_at k) None h f ∅ [] ∅ false 0 false false ∅ 0%nat 10%positive.

Notation StartBlock_ m := (StartBlock (zlib := stored) (ripemd := toy_ripemd) (stateStore := state_store) key update delete_ link unlink cancel levels clock (config m) exec).
Notation maybeSwitchForks_ m := (maybeSwitchForks (zlib := stored) (ripemd := toy_ripemd) (stateStore := state_store) key update delete_ link unlink cancel levels digest clock (config m) exec dispatch packed decode).

Lemma plain : plain_deferred decode.
Proof. done. Qed.

(** A node at block 1 that starts block 2, into which nothing, or a transaction that is not
    there, is pushed. *)
Definition idle : Node store unit := node (fork [block 1 0 1 []] 1 [1%positive]) 1 1.
Definition pending_2 : Node store unit := (StartBlock_ HEADER 7 0 idle).1.

(** A node at block 1 whose fork database has a block 2 with an extension on top of it. *)
Definition extended : Node store unit := node (fork [block 1 0 1 []; block 2 1 2 [BlockHeader.mkExtension 1 []]] 2 [2%positive; 1%positive]) 1 1.

(** A node at block 2 of one branch, with a better block 2 of another. *)
Definition forked : Node store unit := node (fork [block 1 0 1 []; block 2 1 2 []; block 3 1 2 []] 3 [3%positive; 2%positive; 1%positive]) 2 2.
End Example.



